(** * CRM service layer: read convergence, joins, pagination and merges

    A shallow embedding of the service classes of the repository

      - services/contact-service.js          (ContactService, v7.1.0)
      - services/interaction-service.js      (InteractionService)
      - services/company-service.js          (CompanyService)
      - services/weekly-business-service.js  (WeeklyBusinessService)
      - services/opportunity-service.js      (OpportunityService)
      - data/weekly-business-sql-reader.js   (WeeklyBusinessSqlReader)

    JavaScript values are modelled as follows.  A field value is a [scalar];
    a row (plain object) is a finite map from property names to scalars; an
    array is a list.  Strings are sequences of bytes (UTF-8 for the Chinese
    literals of the source); letter case and white space are the ASCII ones.
    Numbers are integers.  The object of [getOpportunitiesByStage], whose
    property names are stage names taken from the data, is modelled with
    the properties that a plain object inherits.  The dot of a regular
    expression refuses the four line terminators, those of three bytes
    included.  An [async] method that may reject is a function
    into [outcome]; the collaborators of the services (readers, writers, the
    federated reader) live in an explicit [World] that is threaded through
    every call. *)

From Stdlib Require Import ZArith Ascii String List Bool Lia.
From stdpp Require Import base decidable option list gmap strings fin_maps.

Local Open Scope string_scope.
Local Open Scope list_scope.
Local Open Scope Z_scope.

(* ===================================================================== *)
(** ** Strings                                                            *)
(* ===================================================================== *)

Module Str.

(** [String.prototype.toLowerCase], on the ASCII letters. *)
Definition lowerChar (c : ascii) : ascii :=
  let n := nat_of_ascii c in
  if ((65 <=? n)%nat && (n <=? 90)%nat)%bool then ascii_of_nat (n + 32) else c.

Fixpoint toLowerCase (s : string) : string :=
  match s with
  | EmptyString => EmptyString
  | String c r => String (lowerChar c) (toLowerCase r)
  end.

(** White space removed by [String.prototype.trim]: TAB, LF, VT, FF, CR and
    the space. *)
Definition isSpace (c : ascii) : bool :=
  let n := nat_of_ascii c in
  (((9 <=? n)%nat && (n <=? 13)%nat) || (n =? 32)%nat)%bool.

Fixpoint trimStart (s : string) : string :=
  match s with
  | EmptyString => EmptyString
  | String c r => if isSpace c then trimStart r else s
  end.

(** [trimEnd] keeps a character when it is not a space or when something
    is left after it. *)
Fixpoint trimEnd (s : string) : string :=
  match s with
  | EmptyString => EmptyString
  | String c r =>
      match trimEnd r with
      | EmptyString => if isSpace c then EmptyString else String c EmptyString
      | r' => String c r'
      end
  end.

Definition trim (s : string) : string := trimEnd (trimStart s).

Fixpoint startsWith (p s : string) : bool :=
  match p, s with
  | EmptyString, _ => true
  | String a p', String b s' => if Ascii.eqb a b then startsWith p' s' else false
  | String _ _, EmptyString => false
  end.

(** [s.includes(sub)] *)
Fixpoint includes (s sub : string) : bool :=
  if startsWith sub s then true
  else match s with
       | EmptyString => false
       | String _ r => includes r sub
       end.

(** [a <= b] on strings: the order of the code units, a proper prefix first. *)
Fixpoint leb (a b : string) : bool :=
  match a, b with
  | EmptyString, _ => true
  | String _ _, EmptyString => false
  | String x a', String y b' =>
      if (nat_of_ascii x <? nat_of_ascii y)%nat then true
      else if (nat_of_ascii y <? nat_of_ascii x)%nat then false
      else leb a' b'
  end.

Fixpoint allb (p : ascii -> bool) (s : string) : bool :=
  match s with
  | EmptyString => true
  | String c r => p c && allb p r
  end.

Definition isDigit (c : ascii) : bool :=
  let n := nat_of_ascii c in ((48 <=? n)%nat && (n <=? 57)%nat)%bool.

(** Decimal rendering of an integer, as [String(n)] gives it. *)
Definition digitChar (d : nat) : ascii := ascii_of_nat (48 + d).

Fixpoint natDigits (fuel n : nat) (acc : string) : string :=
  match fuel with
  | O => acc
  | S f =>
      let acc' := String (digitChar (n mod 10)) acc in
      if (n / 10 =? 0)%nat then acc' else natDigits f (n / 10) acc'
  end.

Definition ofNat (n : nat) : string := natDigits (S n) n EmptyString.

Definition ofZ (z : Z) : string :=
  if (z <? 0)%Z then String "-" (ofNat (Z.to_nat (- z))) else ofNat (Z.to_nat z).

End Str.

(* ===================================================================== *)
(** ** Regular-expression replacements of the company-name normalizer     *)
(* ===================================================================== *)

Module Regex.

(** The alternatives of [/股份有限公司|有限公司|公司/g], in the order in which
    the regular expression tries them. *)
Definition suffixTokens : list string :=
  [ "股份有限公司"; "有限公司"; "公司" ].

Fixpoint firstMatch (toks : list string) (s : string) : option nat :=
  match toks with
  | [] => None
  | t :: ts => if Str.startsWith t s then Some (String.length t) else firstMatch ts s
  end.

(** [s.replace(/股份有限公司|有限公司|公司/g, '')]: a left-to-right scan; at
    each position the first alternative that matches is removed.  [skip]
    counts the characters of a match that are still to be dropped. *)
Fixpoint stripTokensFrom (skip : nat) (s : string) : string :=
  match s with
  | EmptyString => EmptyString
  | String c r =>
      match skip with
      | S k => stripTokensFrom k r
      | O =>
          match firstMatch suffixTokens s with
          | Some (S k) => stripTokensFrom k r
          | _ => String c (stripTokensFrom O r)
          end
      end
  end.

Definition stripTokens (s : string) : string := stripTokensFrom O s.

(** The line terminators of one byte: LF and CR. *)
Definition isLineBreak (c : ascii) : bool :=
  let n := nat_of_ascii c in ((n =? 10)%nat || (n =? 13)%nat)%bool.

(** A line terminator stands at the head of [s].  The dot of a regular
    expression matches no line terminator: LF, CR, U+2028 and U+2029; in the
    UTF-8 text of the model the last two are the bytes 226 128 168 and
    226 128 169. *)
Definition atLineBreak (s : string) : bool :=
  match s with
  | EmptyString => false
  | String c r =>
      isLineBreak c ||
      (Ascii.eqb c "226" &&
       match r with
       | String c1 (String c2 _) =>
           Ascii.eqb c1 "128" && (Ascii.eqb c2 "168" || Ascii.eqb c2 "169")
       | _ => false
       end)
  end.

(** Offset, in [s], just past the last [")"] that stands before the first
    line terminator of [s]; [None] when there is none.  [pos] is the offset
    of the head of [s]. *)
Fixpoint lastCloseFrom (pos : nat) (s : string) : option nat :=
  match s with
  | EmptyString => None
  | String c r =>
      if atLineBreak s then None
      else match lastCloseFrom (S pos) r with
           | Some j => Some j
           | None => if Ascii.eqb c ")" then Some (S pos) else None
           end
  end.

(** [s.replace(/\(.*\)/g, '')]: the greedy [.*] runs from an opening
    parenthesis to the last closing one of the same line. *)
Fixpoint stripParensFrom (skip : nat) (s : string) : string :=
  match s with
  | EmptyString => EmptyString
  | String c r =>
      match skip with
      | S k => stripParensFrom k r
      | O =>
          if Ascii.eqb c "(" then
            match lastCloseFrom O r with
            | Some j => stripParensFrom j r
            | None => String c (stripParensFrom O r)
            end
          else String c (stripParensFrom O r)
      end
  end.

Definition stripParens (s : string) : string := stripParensFrom O s.

End Regex.

(* ===================================================================== *)
(** ** JavaScript values                                                  *)
(* ===================================================================== *)

Inductive scalar :=
  | SUndef
  | SNull
  | SBool (b : bool)
  | SNum (n : Z)
  | SStr (s : string).

#[global] Instance scalar_eq_dec : EqDecision scalar.
Proof. solve_decision. Defined.

#[global] Instance scalar_countable : Countable scalar.
Proof.
  refine (inj_countable'
    (fun v => match v with
              | SUndef => inl (inl tt)
              | SNull => inl (inr tt)
              | SBool b => inr (inl b)
              | SNum n => inr (inr (inl n))
              | SStr s => inr (inr (inr s))
              end)
    (fun x => match x with
              | inl (inl _) => SUndef
              | inl (inr _) => SNull
              | inr (inl b) => SBool b
              | inr (inr (inl n)) => SNum n
              | inr (inr (inr s)) => SStr s
              end) _).
  intros []; reflexivity.
Defined.

(** A plain object: property name to value.  A property that the program
    wrote with the value [undefined] is present with [SUndef]. *)
Abbreviation record := (gmap string scalar).

(** An element of an array that came from outside: a row or a primitive. *)
Inductive item :=
  | IVal (v : scalar)
  | IRec (r : record).

(** What a federated reader resolves with: an array, or anything else. *)
Inductive payload (A : Type) :=
  | PValue (v : item)
  | PArray (rows : list A).
Arguments PValue {A} v.
Arguments PArray {A} rows.

(** The result of awaiting a promise. *)
Inductive outcome (A : Type) :=
  | Returned (a : A)
  | Thrown (e : string).
Arguments Returned {A} a.
Arguments Thrown {A} e.

(** The promise was fulfilled. *)
Definition returned {A} (o : outcome A) : bool :=
  match o with
  | Returned _ => true
  | Thrown _ => false
  end.

(** The value of a fulfilled promise, [d] otherwise. *)
Definition valueOr {A} (d : A) (o : outcome A) : A :=
  match o with
  | Returned a => a
  | Thrown _ => d
  end.

Module JS.

(** ToBoolean *)
Definition truthy (v : scalar) : bool :=
  match v with
  | SUndef | SNull => false
  | SBool b => b
  | SNum n => negb (n =? 0)%Z
  | SStr s => negb (String.eqb s EmptyString)
  end.

(** [a || b] *)
Definition or (a b : scalar) : scalar := if truthy a then a else b.

(** [a ?? b] *)
Definition nullish (a b : scalar) : scalar :=
  match a with
  | SUndef | SNull => b
  | _ => a
  end.

(** [String(v)], also the conversion of a template literal. *)
Definition toStr (v : scalar) : string :=
  match v with
  | SUndef => "undefined"
  | SNull => "null"
  | SBool true => "true"
  | SBool false => "false"
  | SNum n => Str.ofZ n
  | SStr s => s
  end.

(** [a === b] on primitives. *)
Definition strictEq (a b : scalar) : bool := bool_decide (a = b).

(** [obj.key]; a missing property reads as [undefined]. *)
Definition get (r : record) (k : string) : scalar := default SUndef (r !! k).

(** [{ ...a, ...b }] *)
Definition spread (a b : record) : record := b ∪ a.

(** [item.key] for an array element: [null] and [undefined] have no
    properties, the other primitives have none of the data properties. *)
Definition itemGet (i : item) (k : string) : scalar :=
  match i with
  | IRec r => get r k
  | IVal _ => SUndef
  end.

Definition itemTruthy (i : item) : bool :=
  match i with
  | IRec _ => true
  | IVal v => truthy v
  end.

(** [new Map(pairs)]: a later pair replaces an earlier one with the same key. *)
Definition newMap (pairs : list (scalar * scalar)) : gmap scalar scalar :=
  fold_left (fun m p => <[ p.1 := p.2 ]> m) pairs ∅.

Definition mapGet (m : gmap scalar scalar) (k : scalar) : scalar :=
  default SUndef (m !! k).

Definition mapHas (m : gmap scalar scalar) (k : scalar) : bool :=
  bool_decide (is_Some (m !! k)).

(** [arr.find(p)] with the position of the element found. *)
Fixpoint findIndexFrom {A} (p : A -> bool) (i : nat) (l : list A) : option (nat * A) :=
  match l with
  | [] => None
  | x :: r => if p x then Some (i, x) else findIndexFrom p (S i) r
  end.

Definition find {A} (p : A -> bool) (l : list A) : option A :=
  snd <$> findIndexFrom p O l.

(** [arr.filter(p)] when [p] may throw: the first exception aborts. *)
Fixpoint filterM {A} (p : A -> outcome bool) (l : list A) : outcome (list A) :=
  match l with
  | [] => Returned []
  | x :: r =>
      match p x with
      | Thrown e => Thrown e
      | Returned b =>
          match filterM p r with
          | Thrown e => Thrown e
          | Returned r' => Returned (if b then x :: r' else r')
          end
      end
  end.

(** [arr.forEach(x => ...)] when the body may throw, with the state [b]
    that the body updates: the first exception aborts. *)
Fixpoint forEachM {A B} (f : B -> A -> outcome B) (l : list A) (b : B) : outcome B :=
  match l with
  | [] => Returned b
  | x :: r =>
      match f b x with
      | Thrown e => Thrown e
      | Returned b' => forEachM f r b'
      end
  end.

(** [arr.find(p)] when [p] may throw. *)
Fixpoint findM {A} (p : A -> outcome bool) (l : list A) : outcome (option A) :=
  match l with
  | [] => Returned None
  | x :: r =>
      match p x with
      | Thrown e => Thrown e
      | Returned true => Returned (Some x)
      | Returned false => findM p r
      end
  end.

(** The relative index of [Array.prototype.slice]: a negative index counts
    from the end, and the result is clamped to the array. *)
Definition relIndex (len i : Z) : Z :=
  if (i <? 0)%Z then Z.max (len + i) 0 else Z.min i len.

(** [arr.slice(from, to)] *)
Definition slice {A} (l : list A) (from to : Z) : list A :=
  let len := Z.of_nat (length l) in
  let k := relIndex len from in
  let e := relIndex len to in
  firstn (Z.to_nat (e - k)) (skipn (Z.to_nat k) l).

(** [Math.ceil(n / p)] for integers; [None] stands for the results that are
    not finite (a division by zero). *)
Definition ceilDiv (n p : Z) : option Z :=
  if (p =? 0)%Z then None else Some (- ((- n) / p))%Z.

(** The value a comparator returns: a number, or [None] for NaN. *)
Definition sortCompare {A} (cmp : A -> A -> option Z) (x y : A) : Z :=
  match cmp x y with
  | Some v => v
  | None => 0%Z
  end.

(** [Array.prototype.sort(cmp)], as a stable insertion sort: an element is
    placed before the first element of the sorted tail that the comparator
    does not put in front of it.  A comparator result that is NaN counts
    as zero. *)
Fixpoint insertSorted {A} (cmp : A -> A -> option Z) (x : A) (l : list A) : list A :=
  match l with
  | [] => [x]
  | y :: r =>
      if (sortCompare cmp x y <=? 0)%Z then x :: y :: r
      else y :: insertSorted cmp x r
  end.

Fixpoint sort {A} (cmp : A -> A -> option Z) (l : list A) : list A :=
  match l with
  | [] => []
  | x :: r => insertSorted cmp x (sort cmp r)
  end.

(** [new Date(v).getTime()]; [None] is the invalid date.  [parse] is
    [Date.parse] on strings, which the engine provides. *)
Definition dateTime (parse : string -> option Z) (v : scalar) : option Z :=
  match v with
  | SUndef => None
  | SNull => Some 0%Z
  | SBool b => Some (if b then 1 else 0)%Z
  | SNum n => if (Z.abs n <=? 8640000000000000)%Z then Some n else None
  | SStr s => parse s
  end.

(** [dateB - dateA] *)
Definition dateDiff (b a : option Z) : option Z :=
  match b, a with
  | Some tb, Some ta => Some (tb - ta)%Z
  | _, _ => None
  end.

(** [parseInt(v)]: white space, a sign, then the digits of radix 10, or of
    radix 16 after [0x]; [None] is NaN. *)
Definition digitOf (radix : Z) (c : ascii) : option Z :=
  let n := Z.of_nat (nat_of_ascii c) in
  let d := if ((48 <=? n) && (n <=? 57))%bool then Some (n - 48)
           else if ((97 <=? n) && (n <=? 122))%bool then Some (n - 87)
           else if ((65 <=? n) && (n <=? 90))%bool then Some (n - 55)
           else None in
  match d with
  | Some k => if (k <? radix) then Some k else None
  | None => None
  end.

Fixpoint readDigits (radix : Z) (s : string) (acc : option Z) : option Z :=
  match s with
  | EmptyString => acc
  | String c r =>
      match digitOf radix c with
      | Some d => readDigits radix r (Some (default 0 acc * radix + d))
      | None => acc
      end
  end.

Definition parseIntStr (s : string) : option Z :=
  let s1 := Str.trimStart s in
  let '(sign, s2) :=
    match s1 with
    | String c r =>
        if Ascii.eqb c "-" then (-1, r)
        else if Ascii.eqb c "+" then (1, r)
        else (1, s1)
    | EmptyString => (1, s1)
    end in
  let '(radix, s3) :=
    match s2 with
    | String a (String b r) =>
        if (Ascii.eqb a "0" && (Ascii.eqb b "x" || Ascii.eqb b "X"))%bool
        then (16, r) else (10, s2)
    | _ => (10, s2)
    end in
  Z.mul sign <$> readDigits radix s3 None.

(** On a number the numeral of [String(n)] parses back to [n]; [true],
    [null] and [undefined] print as words. *)
Definition parseInt (v : scalar) : option Z :=
  match v with
  | SNum n => Some n
  | SStr s => parseIntStr s
  | _ => None
  end.

End JS.

(* ===================================================================== *)
(** ** The collaborators: readers, writers, federated readers             *)
(* ===================================================================== *)

(** A call that a service makes on a writer or on a reader's cache. *)
Inductive call :=
  | WUpdateRow (coll : string) (rowIndex : scalar) (data : record)
  | WDeleteRow (coll : string) (rowIndex : scalar)
  | WCreate (coll : string) (data : record)
  | RInvalidate (key : string).

#[global] Instance call_eq_dec : EqDecision call.
Proof. solve_decision. Defined.

(** Everything outside the service classes.

    - [sheet]: the authoritative store, one sequence of rows per collection;
      a collection that is absent cannot be read (its reader rejects);
    - [cache]: the rows that the readers keep in memory, per collection key;
      a row of the cache is one object, shared by every caller that read it;
    - [sqlContacts], [weeklyRepo]: what the federated readers resolve with;
      [weeklyRepo] is optional, as the constructor argument is;
    - [systemConfig]: what [SystemReader.getSystemConfig] resolves with
      ([None] for [null]); a configuration maps a category to its items;
    - [writerDown]: the writers reject;
    - [trace]: the writer and invalidation calls made so far, oldest first;
    - [localeDate]: [new Date().toLocaleDateString()];
    - [dateTable]: the strings that [Date.parse] accepts, each with its time
      value; a string that is not in the table is an invalid date. *)
Record World := mkWorld {
  sheet : gmap string (list record);
  cache : gmap string (list record);
  sqlContacts : outcome (payload record);
  weeklyRepo : option (outcome (payload item));
  systemConfig : outcome (option (gmap string (list record)));
  writerDown : bool;
  trace : list call;
  localeDate : string;
  dateTable : gmap string Z
}.

(** [Date.parse] *)
Definition dateParse (w : World) : string -> option Z := fun s => dateTable w !! s.

Definition setSheet (f : gmap string (list record) -> gmap string (list record)) (w : World) : World :=
  mkWorld (f (sheet w)) (cache w) (sqlContacts w) (weeklyRepo w) (systemConfig w)
          (writerDown w) (trace w) (localeDate w) (dateTable w).

Definition setCache (f : gmap string (list record) -> gmap string (list record)) (w : World) : World :=
  mkWorld (sheet w) (f (cache w)) (sqlContacts w) (weeklyRepo w) (systemConfig w)
          (writerDown w) (trace w) (localeDate w) (dateTable w).

Definition logCall (c : call) (w : World) : World :=
  mkWorld (sheet w) (cache w) (sqlContacts w) (weeklyRepo w) (systemConfig w)
          (writerDown w) (trace w ++ [c]) (localeDate w) (dateTable w).

(** An asynchronous computation: it ends with a value or an exception, and
    leaves the world as it was when it ended. *)
Definition M (A : Type) : Type := World -> outcome A * World.

Definition ret {A} (a : A) : M A := fun w => (Returned a, w).

Definition throw {A} (e : string) : M A := fun w => (Thrown e, w).

Definition bind {A B} (m : M A) (k : A -> M B) : M B :=
  fun w =>
    match m w with
    | (Returned a, w') => k a w'
    | (Thrown e, w') => (Thrown e, w')
    end.

(** [try { m } catch (e) { h e }] *)
Definition tryCatch {A} (m : M A) (h : string -> M A) : M A :=
  fun w =>
    match m w with
    | (Thrown e, w') => h e w'
    | r => r
    end.

(** A synchronous step that may throw. *)
Definition lift {A} (o : outcome A) : M A := fun w => (o, w).

(** [Promise.all([ma, mb])]: both calls are started, in this order; the
    result rejects with the first rejection. *)
Definition both {A B} (ma : M A) (mb : M B) : M (A * B) :=
  fun w =>
    let '(ra, w1) := ma w in
    let '(rb, w2) := mb w1 in
    match ra, rb with
    | Returned a, Returned b => (Returned (a, b), w2)
    | Thrown e, _ => (Thrown e, w2)
    | _, Thrown e => (Thrown e, w2)
    end.

Notation "'let*' x ':=' m 'in' k" := (bind m (fun x => k))
  (at level 10, x pattern, m at level 100, k at level 200).

Notation "m ';;' k" := (bind m (fun _ => k))
  (at level 100, k at level 200, right associativity).

Module Reader.

(** Modelled from the spec: the reader classes (data/*-reader.js) are not
    among the sources.  A reader serves a collection from its cache when the
    cache holds it, and otherwise reads the authoritative store and keeps the
    rows; [invalidateCache] makes the next read go to the store. *)
Definition getCollection (key : string) : M (list record) :=
  fun w =>
    match cache w !! key with
    | Some rows => (Returned rows, w)
    | None =>
        match sheet w !! key with
        | Some rows => (Returned rows, setCache (insert key rows) w)
        | None => (Thrown "reader unavailable", w)
        end
    end.

Definition invalidateCache (key : string) : M unit :=
  fun w => (Returned tt, logCall (RInvalidate key) (setCache (delete key) w)).

(** The collection key of each reader method.  The keys [contactList],
    [contacts], [companyList] and [interactions] are the ones the services
    invalidate. *)
Definition getContactList : M (list record) := getCollection "contactList".
Definition getContacts : M (list record) := getCollection "contacts".
Definition getCompanyList : M (list record) := getCollection "companyList".
Definition getInteractions : M (list record) := getCollection "interactions".
Definition getOpportunities : M (list record) := getCollection "opportunities".
Definition getEventLogs : M (list record) := getCollection "eventLogs".
Definition getAllOppContactLinks : M (list record) := getCollection "oppContactLinks".
Definition getAllEntries : M (list record) := getCollection "weeklyBusiness".

(** [SystemReader.getSystemConfig()] *)
Definition getSystemConfig : M (option (gmap string (list record))) :=
  fun w => (systemConfig w, w).

(** A field assignment on the object that is element [i] of the collection
    read under [key]: the object is the cached one, so the cache sees it. *)
Definition assignField (key : string) (i : nat) (field : string) (v : scalar) : M unit :=
  fun w => (Returned tt, setCache (alter (alter (insert field v) i) key) w).

End Reader.

Module SqlReader.

(** [ContactSqlReader.getContacts()] *)
Definition getContacts : M (payload record) := fun w => (sqlContacts w, w).

(** [weeklyBusinessRepo.findAll()] of a repository that was injected. *)
Definition findAll (repo : outcome (payload item)) : M (payload item) := fun w => (repo, w).

End SqlReader.

Module Writer.

(** The row that a handle addresses: handles are row numbers, which callers
    pass as numbers or as numerals. *)
Definition handleOf (rowIndex : scalar) (r : record) : bool :=
  match JS.parseInt rowIndex with
  | Some n => JS.strictEq (JS.get r "rowIndex") (SNum n)
  | None => false
  end.

(** Modelled from the spec: the writer classes (data/*-writer.js) are not
    among the sources.  [updateAt(rowHandle, data, author)] overwrites the
    fields given in [data] on the row of the authoritative store that has the
    handle; [create(data, author)] adds a row; [deleteAt(rowHandle)] removes
    the row.  Every call is recorded.  The spec has writes followed by an
    invalidation and does not say which component asks for it; the services
    of contacts, companies and interactions ask the reader themselves, and
    that call is modelled where the source has it.  Whether a writer asks
    for one as well is not in the sources: the writer of the model changes
    the rows of its collection and no cache entry, and the statements say
    of the cache after a write only what the service's own invalidation
    gives. *)
Definition updateAt (coll : string) (rowIndex : scalar) (data : record) : M record :=
  fun w =>
    if writerDown w then (Thrown "writer failure", w)
    else (Returned {[ "success" := SBool true ]},
          logCall (WUpdateRow coll rowIndex data)
            (setSheet (alter (map (fun r => if handleOf rowIndex r then JS.spread r data else r)) coll) w)).

Definition create (coll : string) (data : record) : M record :=
  fun w =>
    if writerDown w then (Thrown "writer failure", w)
    else (Returned (<[ "success" := SBool true ]> data),
          logCall (WCreate coll data)
            (setSheet (alter (fun rows => rows ++ [data]) coll) w)).

Definition deleteAt (coll : string) (rowIndex : scalar) : M record :=
  fun w =>
    if writerDown w then (Thrown "writer failure", w)
    else (Returned {[ "success" := SBool true ]},
          logCall (WDeleteRow coll rowIndex)
            (setSheet (alter (filter (fun r => handleOf rowIndex r = false)) coll) w)).

End Writer.

Module InteractionWriter.

(** Modelled from the spec, as the other writers are:
    [createInteraction(data)] adds a row to the interactions.  The services
    catch what this writer throws, so it can fail on its own: [down] says
    that it does. *)
Definition createInteraction (down : bool) (data : record) : M record :=
  fun w =>
    if down then (Thrown "interaction writer failure", w)
    else Writer.create "interactions" data w.

End InteractionWriter.


(* ===================================================================== *)
(** ** Shared shapes                                                      *)
(* ===================================================================== *)

(** [config.PAGINATION] *)
Record PaginationConfig := {
  CONTACTS_PER_PAGE : Z;
  INTERACTIONS_PER_PAGE : Z
}.

Record Config := {
  PAGINATION : option PaginationConfig
}.

(** The [pagination] object of a search result; [total] is [None] when
    [Math.ceil] did not give a finite number. *)
Record Pagination := {
  current : Z;
  total : option Z;
  totalItems : Z;
  hasNext : bool;
  hasPrev : bool
}.

(** [{ data, pagination }] *)
Record Page := {
  data : list record;
  pagination : Pagination
}.

(** [(v && v.toLowerCase().includes(term))] as a condition: a value that is
    truthy and not a string has no [toLowerCase]. *)
Definition fieldIncludes (v : scalar) (term : string) : outcome bool :=
  if JS.truthy v then
    match v with
    | SStr s => Returned (Str.includes (Str.toLowerCase s) term)
    | _ => Thrown "TypeError: toLowerCase is not a function"
    end
  else Returned false.

(** [c1 || c2 || ...] over such conditions, left to right. *)
Fixpoint anyField (vs : list scalar) (term : string) : outcome bool :=
  match vs with
  | [] => Returned false
  | v :: r =>
      match fieldIncludes v term with
      | Thrown e => Thrown e
      | Returned true => Returned true
      | Returned false => anyField r term
      end
  end.

(* ===================================================================== *)
(** ** services/contact-service.js                                        *)
(* ===================================================================== *)

Module ContactService.

(** The fields of an instance that the methods read. *)
Record t := { config : Config }.

(** [this.config = config || { PAGINATION: { CONTACTS_PER_PAGE: 20 } }] *)
Definition defaultConfig : Config :=
  {| PAGINATION := Some {| CONTACTS_PER_PAGE := 20; INTERACTIONS_PER_PAGE := 0 |} |}.

Definition constructor (config : option Config) : t :=
  {| config := default defaultConfig config |}.

(** The comparator of [getPotentialContacts]:
      if (isNaN(dateB.getTime())) return -1;
      if (isNaN(dateA.getTime())) return 1;
      return dateB - dateA; *)
Definition byCreatedTimeDesc (parse : string -> option Z) (a b : record) : option Z :=
  let dateA := JS.dateTime parse (JS.get a "createdTime") in
  let dateB := JS.dateTime parse (JS.get b "createdTime") in
  match dateB, dateA with
  | None, _ => Some (-1)
  | Some _, None => Some 1
  | Some tb, Some ta => Some (tb - ta)
  end.

(** [getPotentialContacts(limit = 2000)]; the [catch] block rethrows. *)
Definition getPotentialContacts (limit : Z) : M (list record) :=
  let* contacts := Reader.getContacts in
  fun w =>
    let contacts1 :=
      List.filter (fun c => JS.truthy (JS.or (JS.get c "name") (JS.get c "company"))) contacts in
    let contacts2 := JS.sort (byCreatedTimeDesc (dateParse w)) contacts1 in
    let contacts3 := if (limit >? 0) then JS.slice contacts2 0 limit else contacts2 in
    (Returned contacts3, w).

(** Lines 432-444 of [searchOfficialContacts]: the federated reader first,
    the sheet reader when it throws or does not give an array. *)
Definition fetchOfficialContacts : M (list record) :=
  tryCatch
    (let* allContacts := SqlReader.getContacts in
     match allContacts with
     | PArray rows => ret rows
     | PValue _ => throw "SQL returned invalid structure"
     end)
    (fun sqlError => Reader.getContactList).

(** [allContacts.map(contact => ({ ...contact, companyName: ... }))] *)
Definition joinCompanyName (companyNameMap : gmap scalar scalar) (contact : record) : record :=
  <[ "companyName" :=
       JS.or (JS.mapGet companyNameMap (JS.get contact "companyId")) (JS.get contact "companyId") ]>
    contact.

Definition pageSizeOf (this : t) : Z :=
  match PAGINATION (config this) with
  | Some p => CONTACTS_PER_PAGE p
  | None => 20
  end.

(** The envelope built at lines 465-479. *)
Definition paginate (pageSize page : Z) (contacts : list record) : Page :=
  let startIndex := (page - 1) * pageSize in
  let paginated := JS.slice contacts startIndex (startIndex + pageSize) in
  {| data := paginated;
     pagination :=
       {| current := page;
          total := JS.ceilDiv (Z.of_nat (length contacts)) pageSize;
          totalItems := Z.of_nat (length contacts);
          hasNext := (startIndex + pageSize <? Z.of_nat (length contacts));
          hasPrev := (page >? 1) |} |}.

(** The join and the filter of [searchOfficialContacts], given both
    collections. *)
Definition joinAndFilter (query : string) (allContacts allCompanies : list record)
  : outcome (list record) :=
  let companyNameMap :=
    JS.newMap (map (fun c => (JS.get c "companyId", JS.get c "companyName")) allCompanies) in
  let contacts := map (joinCompanyName companyNameMap) allContacts in
  if JS.truthy (SStr query) then
    let searchTerm := Str.toLowerCase query in
    JS.filterM (fun c => anyField [JS.get c "name"; JS.get c "companyName"] searchTerm) contacts
  else Returned contacts.

(** Lines 446-479 of [searchOfficialContacts]: what follows the fetch. *)
Definition searchOfficialContactsFrom (this : t) (query : string) (page : Z)
    (allContacts : list record) : M Page :=
  let* allCompanies := Reader.getCompanyList in
  let* contacts := lift (joinAndFilter query allContacts allCompanies) in
  ret (paginate (pageSizeOf this) page contacts).

(** [searchOfficialContacts(query, page = 1)]; the outer [catch] rethrows. *)
Definition searchOfficialContacts (this : t) (query : string) (page : Z) : M Page :=
  let* allContacts := fetchOfficialContacts in
  searchOfficialContactsFrom this query page allContacts.

(** [updateContact(contactId, updateData, user)] *)
Definition updateContact (contactId : scalar) (updateData : record) (user : scalar) : M record :=
  let* allContacts := Reader.getContactList in
  match JS.find (fun c => JS.strictEq (JS.get c "contactId") contactId) allContacts with
  | None => throw ("Contact ID not found: " ++ JS.toStr contactId)%string
  | Some target =>
      let rowIndex := JS.get target "rowIndex" in
      if negb (JS.truthy rowIndex)
      then throw ("System Error: Missing rowIndex for Contact " ++ JS.toStr contactId)%string
      else
        Writer.updateAt "contactList" rowIndex updateData ;;
        Reader.invalidateCache "contactList" ;;
        ret {[ "success" := SBool true ]}
  end.

(** The note entry of [updatePotentialContact]:
    [`[${modifier} ${new Date().toLocaleDateString()}] ${updateData.notes}`] *)
Definition newNoteEntry (modifier : scalar) (today : string) (notes : scalar) : string :=
  ("[" ++ JS.toStr modifier ++ " " ++ today ++ "] " ++ JS.toStr notes)%string.

(** Step 2 of [updatePotentialContact]: the merge and the appended note. *)
Definition mergePotentialContact (target updateData : record) (modifier : scalar) (today : string)
  : record :=
  let mergedData := JS.spread target updateData in
  if JS.truthy (JS.get updateData "notes") then
    let oldNotes := JS.or (JS.get target "notes") (SStr EmptyString) in
    let entry := newNoteEntry modifier today (JS.get updateData "notes") in
    <[ "notes" :=
         SStr (if JS.truthy oldNotes
               then (JS.toStr oldNotes ++ String "010"%char entry)%string
               else entry) ]> mergedData
  else mergedData.

(** [updatePotentialContact(rowIndex, updateData, modifier)] *)
Definition updatePotentialContact (rowIndex : scalar) (updateData : record) (modifier : scalar)
  : M record :=
  let* allContacts := Reader.getContacts in
  match JS.find (fun c =>
           match JS.parseInt rowIndex with
           | Some n => JS.strictEq (JS.get c "rowIndex") (SNum n)
           | None => false
           end) allContacts with
  | None => throw ("找不到潛在客戶 Row: " ++ JS.toStr rowIndex)%string
  | Some target =>
      fun w =>
        (let mergedData := mergePotentialContact target updateData modifier (localeDate w) in
         Writer.updateAt "contacts" rowIndex mergedData ;;
         Reader.invalidateCache "contacts" ;;
         ret {[ "success" := SBool true ]}) w
  end.

(** [_normalizeKey(str = '')]: [String(str).toLowerCase().trim()]; the
    default value stands for [undefined] only. *)
Definition _normalizeKey (str : scalar) : string :=
  let str := match str with SUndef => SStr EmptyString | v => v end in
  Str.trim (Str.toLowerCase (JS.toStr str)).

(** [{ total, pending, processed, dropped }] *)
Record DashboardStats := {
  total : Z;
  pending : Z;
  processed : Z;
  dropped : Z
}.

(** [contacts.filter(p).length] *)
Definition countWhere (p : record -> bool) (contacts : list record) : Z :=
  Z.of_nat (length (List.filter p contacts)).

(** [getDashboardStats()]: any exception gives the four zeros. *)
Definition getDashboardStats : M DashboardStats :=
  tryCatch
    (let* contacts := Reader.getContacts in
     ret {| total := Z.of_nat (length contacts);
            pending := countWhere (fun c => negb (JS.truthy (JS.get c "status"))
                                            || JS.strictEq (JS.get c "status") (SStr "Pending"))
                                  contacts;
            processed := countWhere (fun c => JS.strictEq (JS.get c "status") (SStr "Processed"))
                                    contacts;
            dropped := countWhere (fun c => JS.strictEq (JS.get c "status") (SStr "Dropped"))
                                  contacts |})
    (fun error => ret {| total := 0; pending := 0; processed := 0; dropped := 0 |}).

(** [getContactById(contactId)].  [sqlContact] is what
    [this.sqlReader.getContactById(contactId)] resolves with: a row, or
    [null].  The identifier is also the query of the fallback search, hence
    a string.  Any exception of the method gives [null]. *)
Definition getContactById (this : t) (sqlContact : outcome (option record)) (contactId : string)
  : M (option record) :=
  tryCatch
    (match sqlContact with
     | Returned (Some rawContact) =>
         let contact := JS.spread rawContact ∅ in
         tryCatch
           (let* companies := Reader.getCompanyList in
            let companyMap :=
              JS.newMap (map (fun c => (JS.get c "companyId", JS.get c "companyName")) companies) in
            ret (Some (if JS.truthy (JS.get contact "companyId")
                       then <[ "companyName" :=
                                 JS.or (JS.mapGet companyMap (JS.get contact "companyId"))
                                       (JS.get contact "companyId") ]> contact
                       else contact)))
           (fun joinError => ret (Some contact))
     | _ =>
         let* result := searchOfficialContacts this contactId 1 in
         ret (JS.find (fun c => JS.strictEq (JS.get c "contactId") (SStr contactId)) (data result))
     end)
    (fun error => ret None).

(** The [Set] of [getLinkedContacts]: the contact ids of the active links of
    the opportunity. *)
Definition linkedContactIds (opportunityId : scalar) (allLinks : list record) : list scalar :=
  map (fun link => JS.get link "contactId")
      (List.filter (fun link => (JS.strictEq (JS.get link "opportunityId") opportunityId
                                 && JS.strictEq (JS.get link "status") (SStr "active"))%bool)
                   allLinks).

(** [this._normalizeKey(name) + '|' + this._normalizeKey(company)] *)
Definition cardKey (name company : scalar) : string :=
  (_normalizeKey name ++ "|" ++ _normalizeKey company)%string.

(** The body of [allPotentialContacts.forEach(pc => ...)]: the first card of
    a key is kept. *)
Definition addCard (potentialCardMap : gmap string scalar) (pc : record) : gmap string scalar :=
  if (JS.truthy (JS.get pc "name") && JS.truthy (JS.get pc "company")
      && JS.truthy (JS.get pc "driveLink"))%bool then
    let key := cardKey (JS.get pc "name") (JS.get pc "company") in
    if bool_decide (is_Some (potentialCardMap !! key)) then potentialCardMap
    else <[ key := JS.get pc "driveLink" ]> potentialCardMap
  else potentialCardMap.

(** The object built for a linked contact. *)
Definition linkedContactOf (companyNameMap : gmap scalar scalar)
    (potentialCardMap : gmap string scalar) (contact : record) : record :=
  let companyName :=
    JS.or (JS.mapGet companyNameMap (JS.get contact "companyId")) (SStr EmptyString) in
  let driveLink :=
    if (JS.truthy (JS.get contact "name") && JS.truthy companyName)%bool then
      JS.or (default SUndef (potentialCardMap !! cardKey (JS.get contact "name") companyName))
            (SStr EmptyString)
    else SStr EmptyString in
  <[ "contactId" := JS.get contact "contactId" ]>
  (<[ "sourceId" := JS.get contact "sourceId" ]>
  (<[ "name" := JS.get contact "name" ]>
  (<[ "companyId" := JS.get contact "companyId" ]>
  (<[ "department" := JS.get contact "department" ]>
  (<[ "position" := JS.get contact "position" ]>
  (<[ "mobile" := JS.get contact "mobile" ]>
  (<[ "phone" := JS.get contact "phone" ]>
  (<[ "email" := JS.get contact "email" ]>
  (<[ "companyName" := companyName ]>
  (<[ "driveLink" := driveLink ]> ∅)))))))))).

(** [getLinkedContacts(opportunityId)]: any exception gives the empty
    list. *)
Definition getLinkedContacts (opportunityId : scalar) : M (list record) :=
  tryCatch
    (let* fetched :=
       both Reader.getAllOppContactLinks
         (both Reader.getContactList (both Reader.getCompanyList Reader.getContacts)) in
     let '(allLinks, (allContacts, (allCompanies, allPotentialContacts))) := fetched in
     let linkedContactIds := linkedContactIds opportunityId allLinks in
     match linkedContactIds with
     | [] => ret []
     | _ :: _ =>
         let companyNameMap :=
           JS.newMap (map (fun c => (JS.get c "companyId", JS.get c "companyName")) allCompanies) in
         let potentialCardMap := fold_left addCard allPotentialContacts ∅ in
         ret (map (linkedContactOf companyNameMap potentialCardMap)
                  (List.filter (fun contact =>
                                  bool_decide (JS.get contact "contactId" ∈ linkedContactIds))
                               allContacts))
     end)
    (fun error => ret []).

(** [{ data: contacts }] *)
Record Found := { data : list record }.

(** [searchContacts(query)]; the [catch] block rethrows. *)
Definition searchContacts (query : string) : M Found :=
  let* contacts := getPotentialContacts 9999 in
  if JS.truthy (SStr query) then
    let searchTerm := Str.toLowerCase query in
    let* contacts :=
      lift (JS.filterM (fun c => anyField [JS.get c "name"; JS.get c "company"] searchTerm)
                       contacts) in
    ret {| data := contacts |}
  else ret {| data := contacts |}.

End ContactService.

(* ===================================================================== *)
(** ** services/interaction-service.js                                    *)
(* ===================================================================== *)

Module InteractionService.

(** [this.interactionReader.config] *)
Record t := { readerConfig : option Config }.

(** The context name of step 3 ([未指定] not specified, [未知機會] unknown
    opportunity, [未知公司] unknown company). *)
Definition contextName (oppMap compMap : gmap scalar scalar) (newItem : record) : scalar :=
  let opportunityId := JS.get newItem "opportunityId" in
  let companyId := JS.get newItem "companyId" in
  if (JS.truthy opportunityId && JS.mapHas oppMap opportunityId)%bool then
    JS.mapGet oppMap opportunityId
  else if (JS.truthy companyId && JS.mapHas compMap companyId)%bool then
    JS.mapGet compMap companyId
  else if JS.truthy opportunityId then SStr "未知機會"
  else if JS.truthy companyId then SStr "未知公司"
  else SStr "未指定".

(** [const newItem = { ...item }; ...; newItem.opportunityName = contextName]:
    the field is set on the copy. *)
Definition joinContext (oppMap compMap : gmap scalar scalar) (item : record) : record :=
  let newItem := JS.spread item ∅ in
  <[ "opportunityName" := contextName oppMap compMap newItem ]> newItem.

(** The comparator of step 5:
      if (isNaN(dateB)) return -1;
      if (isNaN(dateA)) return 1;
      return dateB - dateA; *)
Definition byInteractionTimeDesc (parse : string -> option Z) (a b : record) : option Z :=
  let dateA := JS.dateTime parse (JS.get a "interactionTime") in
  let dateB := JS.dateTime parse (JS.get b "interactionTime") in
  match dateB, dateA with
  | None, _ => Some (-1)
  | Some _, None => Some 1
  | Some tb, Some ta => Some (tb - ta)
  end.

(** Steps 2 to 5: the maps, the join on copies, the filter and the sort. *)
Definition joinFilterSort (parse : string -> option Z) (query : string)
    (interactions opportunities companies : list record) : outcome (list record) :=
  let oppMap :=
    JS.newMap (map (fun o => (JS.get o "opportunityId", JS.get o "opportunityName")) opportunities) in
  let compMap :=
    JS.newMap (map (fun c => (JS.get c "companyId", JS.get c "companyName")) companies) in
  let results := map (joinContext oppMap compMap) interactions in
  let filtered :=
    if JS.truthy (SStr query) then
      let searchTerm := Str.toLowerCase query in
      JS.filterM (fun i => anyField [JS.get i "contentSummary"; JS.get i "eventTitle";
                                     JS.get i "opportunityName"; JS.get i "recorder"] searchTerm)
                 results
    else Returned results in
  match filtered with
  | Thrown e => Thrown e
  | Returned rs => Returned (JS.sort (byInteractionTimeDesc parse) rs)
  end.

(** Step 6: the page size, with its fallback. *)
Definition pageSizeOf (this : t) : Z :=
  match readerConfig this with
  | Some config =>
      match PAGINATION config with
      | Some p => if (INTERACTIONS_PER_PAGE p =? 0) then 20 else INTERACTIONS_PER_PAGE p
      | None => 20
      end
  | None => 20
  end.

Definition paginate (pageSize page : Z) (fetchAll : bool) (results : list record) : Page :=
  if fetchAll then
    {| data := results;
       pagination :=
         {| current := 1; total := Some 1; totalItems := Z.of_nat (length results);
            hasNext := false; hasPrev := false |} |}
  else
    let startIndex := (page - 1) * pageSize in
    let paginatedData := JS.slice results startIndex (startIndex + pageSize) in
    {| data := paginatedData;
       pagination :=
         {| current := page;
            total := JS.ceilDiv (Z.of_nat (length results)) pageSize;
            totalItems := Z.of_nat (length results);
            hasNext := (startIndex + pageSize <? Z.of_nat (length results));
            hasPrev := (page >? 1) |} |}.

(** [searchInteractions(query, page = 1, fetchAll = false)]; the [catch]
    block rethrows. *)
Definition searchInteractions (this : t) (query : string) (page : Z) (fetchAll : bool) : M Page :=
  let* fetched := both Reader.getInteractions (both Reader.getOpportunities Reader.getCompanyList) in
  let '(interactions, (opportunities, companies)) := fetched in
  fun w =>
    (let* results := lift (joinFilterSort (dateParse w) query interactions opportunities companies) in
     ret (paginate (pageSizeOf this) page fetchAll results)) w.

(** [getInteractionsByOpportunity(opportunityId)]: any exception gives the
    empty list. *)
Definition getInteractionsByOpportunity (this : t) (opportunityId : scalar) : M (list record) :=
  tryCatch
    (let* result := searchInteractions this EmptyString 1 true in
     ret (List.filter (fun log => JS.strictEq (JS.get log "opportunityId") opportunityId)
                      (data result)))
    (fun error => ret []).

(** [getInteractionsByCompany(companyId)]: any exception gives the empty
    list. *)
Definition getInteractionsByCompany (this : t) (companyId : scalar) : M (list record) :=
  tryCatch
    (let* result := searchInteractions this EmptyString 1 true in
     ret (List.filter (fun log => JS.strictEq (JS.get log "companyId") companyId) (data result)))
    (fun error => ret []).

End InteractionService.

(* ===================================================================== *)
(** ** services/company-service.js                                        *)
(* ===================================================================== *)

(** [_normalizeCompanyName] on a string: the body after the guard.  The
    methods of CompanyService and OpportunityService are the same text. *)
Definition normalizeCompanyText (name : string) : string :=
  Str.trim (Regex.stripParens (Regex.stripTokens (Str.trim (Str.toLowerCase name)))).

(** [_normalizeCompanyName(name)]: [if (!name) return ''], then the string
    methods, which a truthy value that is not a string does not have. *)
Definition normalizeCompanyValue (name : scalar) : outcome string :=
  if negb (JS.truthy name) then Returned EmptyString
  else match name with
       | SStr s => Returned (normalizeCompanyText s)
       | _ => Thrown "TypeError: name.toLowerCase is not a function"
       end.

(** The caller of a write: an object with [displayName] and [username], or
    a primitive. *)
Inductive user :=
  | UserObject (fields : record)
  | UserValue (v : scalar).

(** [user.displayName || user.username || 'System']: a property read on
    [null] or [undefined] throws, the other primitives have neither
    property. *)
Definition modifierName (u : user) : outcome scalar :=
  match u with
  | UserObject f =>
      Returned (JS.or (JS.or (JS.get f "displayName") (JS.get f "username")) (SStr "System"))
  | UserValue SUndef | UserValue SNull =>
      Thrown "TypeError: cannot read properties of null or undefined"
  | UserValue _ => Returned (SStr "System")
  end.

Module CompanyService.

Definition _normalizeCompanyName (name : scalar) : outcome string :=
  normalizeCompanyValue name.

(** [{ success, id, name, message, existed, data }] of an existing company,
    or what the writer returned. *)
Inductive createResult :=
  | Existing (success : bool) (id name : scalar) (message : string) (existed : bool) (data : record)
  | Written (result : record).

(** [user.displayName || user.username || user || 'System']: a property
    read on [null] or [undefined] throws. *)
Definition modifierOf (u : user) : outcome user :=
  match u with
  | UserObject f =>
      let n := JS.or (JS.get f "displayName") (JS.get f "username") in
      Returned (if JS.truthy n then UserValue n else u)
  | UserValue SUndef | UserValue SNull =>
      Thrown "TypeError: cannot read properties of null or undefined"
  | UserValue v => Returned (UserValue (JS.or v (SStr "System")))
  end.

(** [companies.find(c => this._normalizeCompanyName(c.companyName) === normalizedTarget)] *)
Definition findByNormalizedName (normalizedTarget : string) (companies : list record)
  : outcome (option record) :=
  JS.findM (fun c =>
      match _normalizeCompanyName (JS.get c "companyName") with
      | Thrown e => Thrown e
      | Returned n => Returned (String.eqb n normalizedTarget)
      end) companies.

(** [createCompany(companyName, companyData, user)]; the [catch] block
    rethrows. *)
Definition createCompany (companyName : scalar) (companyData : record) (u : user)
  : M createResult :=
  let* modifier := lift (modifierOf u) in
  let* companies := Reader.getCompanyList in
  let* normalizedTarget := lift (_normalizeCompanyName companyName) in
  let* existing := lift (findByNormalizedName normalizedTarget companies) in
  match existing with
  | Some existing =>
      ret (Existing true (JS.get existing "companyId") (JS.get existing "companyName")
                    "公司已存在" true existing)
  | None =>
      let dataToWrite := JS.spread {[ "companyName" := companyName ]} companyData in
      let* result := Writer.create "companyList" dataToWrite in
      Reader.invalidateCache "companyList" ;;
      ret (Written result)
  end.

(** [c.companyName === companyName ||
     this._normalizeCompanyName(c.companyName) === normalizedTarget] *)
Definition namedLike (companyName : scalar) (normalizedTarget : string) (c : record)
  : outcome bool :=
  if JS.strictEq (JS.get c "companyName") companyName then Returned true
  else match _normalizeCompanyName (JS.get c "companyName") with
       | Thrown e => Thrown e
       | Returned n => Returned (String.eqb n normalizedTarget)
       end.

(** [_findCompanyRowIndex(companyName)] *)
Definition _findCompanyRowIndex (companyName : scalar) : M scalar :=
  let* companies := Reader.getCompanyList in
  let* normalizedTarget := lift (_normalizeCompanyName companyName) in
  let* target := lift (JS.findM (namedLike companyName normalizedTarget) companies) in
  match target with
  | None => throw ("找不到公司: " ++ JS.toStr companyName)%string
  | Some target =>
      if negb (JS.truthy (JS.get target "rowIndex"))
      then throw "系統錯誤: 無法取得資料行號 (rowIndex missing)"
      else ret (JS.get target "rowIndex")
  end.

(** [this._normalizeCompanyName(field) === normalizedTarget] on a row. *)
Definition keyIs (field : string) (normalizedTarget : string) (r : record) : outcome bool :=
  match _normalizeCompanyName (JS.get r field) with
  | Thrown e => Thrown e
  | Returned n => Returned (String.eqb n normalizedTarget)
  end.

(** [new Date(b[field] || 0) - new Date(a[field] || 0)] *)
Definition byFieldOrZero (field : string) (parse : string -> option Z) (a b : record) : option Z :=
  JS.dateDiff (JS.dateTime parse (JS.or (JS.get b field) (SNum 0)))
              (JS.dateTime parse (JS.or (JS.get a field) (SNum 0))).

(** [r.companyId === companyId ||
     (r.opportunityId && relatedOppIds.has(r.opportunityId))] *)
Definition relatedRow (companyId : scalar) (relatedOppIds : list scalar) (r : record) : bool :=
  (JS.strictEq (JS.get r "companyId") companyId
   || (JS.truthy (JS.get r "opportunityId")
       && bool_decide (JS.get r "opportunityId" ∈ relatedOppIds)))%bool.

(** What [getCompanyDetails] returns; [companyInfo] is [null] when no
    company has the name. *)
Record CompanyDetails := {
  companyInfo : option record;
  contacts : list record;
  opportunities : list record;
  potentialContacts : list record;
  interactions : list record;
  eventLogs : list record
}.

(** [getCompanyDetails(companyName)]; the [catch] block rethrows. *)
Definition getCompanyDetails (companyName : scalar) : M CompanyDetails :=
  let* fetched :=
    both Reader.getCompanyList
      (both Reader.getContactList
        (both Reader.getOpportunities
          (both Reader.getInteractions
            (both Reader.getEventLogs Reader.getContacts)))) in
  let '(allCompanies, (allContacts, (allOpportunities, (allInteractions,
        (allEventLogs, allPotentialContacts))))) := fetched in
  let* normalizedTarget := lift (_normalizeCompanyName companyName) in
  let* companyInfo := lift (findByNormalizedName normalizedTarget allCompanies) in
  match companyInfo with
  | None =>
      ret {| companyInfo := None; contacts := []; opportunities := [];
             potentialContacts := []; interactions := []; eventLogs := [] |}
  | Some companyInfo =>
      let companyId := JS.get companyInfo "companyId" in
      let contacts :=
        List.filter (fun c => JS.strictEq (JS.get c "companyId") companyId) allContacts in
      let* opportunities :=
        lift (JS.filterM (keyIs "customerCompany" normalizedTarget) allOpportunities) in
      let relatedOppIds := map (fun o => JS.get o "opportunityId") opportunities in
      fun w =>
        (let interactions :=
           JS.sort (byFieldOrZero "interactionTime" (dateParse w))
                   (List.filter (relatedRow companyId relatedOppIds) allInteractions) in
         let eventLogs :=
           JS.sort (byFieldOrZero "createdTime" (dateParse w))
                   (List.filter (relatedRow companyId relatedOppIds) allEventLogs) in
         let* potentialContacts :=
           lift (JS.filterM (keyIs "company" normalizedTarget) allPotentialContacts) in
         ret {| companyInfo := Some companyInfo; contacts := contacts;
                opportunities := opportunities; potentialContacts := potentialContacts;
                interactions := interactions; eventLogs := eventLogs |}) w
  end.

(** [this._normalizeCompanyName(o.customerCompany) ===
     this._normalizeCompanyName(companyName)], the left side first. *)
Definition refersTo (companyName : scalar) (o : record) : outcome bool :=
  match _normalizeCompanyName (JS.get o "customerCompany") with
  | Thrown e => Thrown e
  | Returned a =>
      match _normalizeCompanyName companyName with
      | Thrown e => Thrown e
      | Returned b => Returned (String.eqb a b)
      end
  end.

(** [deleteCompany(companyName, user)]; the [catch] block rethrows. *)
Definition deleteCompany (companyName : scalar) (u : user) : M record :=
  let* opps := Reader.getOpportunities in
  let* relatedOpps := lift (JS.filterM (refersTo companyName) opps) in
  match relatedOpps with
  | first :: _ =>
      throw ("無法刪除：尚有 " ++ Str.ofZ (Z.of_nat (length relatedOpps))
             ++ " 個關聯機會案件 (例如: " ++ JS.toStr (JS.get first "opportunityName")
             ++ ")。請先移除關聯案件。")%string
  | [] =>
      let* rowIndex := _findCompanyRowIndex companyName in
      let* result := Writer.deleteAt "companyList" rowIndex in
      Reader.invalidateCache "companyList" ;;
      ret result
  end.

(** [(v || '').toLowerCase().includes(q)], and for the phone
    [(v || '').includes(q)]: a truthy value that is not a string has neither
    method. *)
Definition textHas (lower : bool) (v : scalar) (q : string) : outcome bool :=
  match JS.or v (SStr EmptyString) with
  | SStr s => Returned (Str.includes (if lower then Str.toLowerCase s else s) q)
  | _ => Thrown "TypeError: (intermediate value).includes is not a function"
  end.

(** [a || b] on conditions that may throw: [b] is evaluated when [a] is
    false. *)
Definition orElse (a b : outcome bool) : outcome bool :=
  match a with
  | Returned false => b
  | _ => a
  end.

(** The text search of [getCompanyListWithActivity] on one company. *)
Definition matchesQuery (q : string) (c : record) : outcome bool :=
  orElse (textHas true (JS.get c "companyName") q)
    (orElse (textHas false (JS.get c "phone") q)
      (orElse (textHas true (JS.get c "address") q)
        (orElse (textHas true (JS.get c "county") q)
                (textHas true (JS.get c "introduction") q)))).

(** [if (filters.q) { const q = filters.q.toLowerCase().trim(); ... }] *)
Definition searchByText (filters : record) (companies : list record)
  : outcome (list record) :=
  let fq := JS.get filters "q" in
  if JS.truthy fq then
    match fq with
    | SStr s => JS.filterM (matchesQuery (Str.trim (Str.toLowerCase s))) companies
    | _ => Thrown "TypeError: filters.q.toLowerCase is not a function"
    end
  else Returned companies.

(** [if (filters[key] && filters[key] !== 'all')
       companies = companies.filter(c => c[field] === filters[key])] *)
Definition selectBy (filters : record) (key field : string) (companies : list record)
  : list record :=
  let v := JS.get filters key in
  if (JS.truthy v && negb (JS.strictEq v (SStr "all")))%bool
  then List.filter (fun c => JS.strictEq (JS.get c field) v) companies
  else companies.

(** [updateActivity(companyId, dateStr)] on [lastActivityMap], a [Map] from
    company identifiers to time values. *)
Definition updateActivity (parse : string -> option Z) (lastActivityMap : gmap scalar Z)
    (companyId dateStr : scalar) : gmap scalar Z :=
  if (negb (JS.truthy companyId) || negb (JS.truthy dateStr))%bool then lastActivityMap
  else match JS.dateTime parse dateStr with
       | None => lastActivityMap
       | Some ts =>
           let current := default 0 (lastActivityMap !! companyId) in
           if (ts >? current) then <[ companyId := ts ]> lastActivityMap
           else lastActivityMap
       end.

(** The two [forEach] loops: the interactions, then the event logs. *)
Definition lastActivities (parse : string -> option Z) (interactions eventLogs : list record)
  : gmap scalar Z :=
  fold_left (fun m item => updateActivity parse m (JS.get item "companyId")
                             (JS.get item "createdTime"))
    eventLogs
    (fold_left (fun m item => updateActivity parse m (JS.get item "companyId")
                                (JS.or (JS.get item "interactionTime") (JS.get item "date")))
       interactions ∅).

(** A time value, or [undefined], as a condition. *)
Definition tsTruthy (ts : option Z) : bool :=
  match ts with
  | Some t => negb (t =? 0)
  | None => false
  end.

(** [{ ...comp, lastActivity: ..., _sortTs: lastTs || 0 }]; [toISOString]
    is [ts => new Date(ts).toISOString()]. *)
Definition withActivity (toISOString : Z -> string) (parse : string -> option Z)
    (lastActivityMap : gmap scalar Z) (comp : record) : record :=
  let lastTs := lastActivityMap !! JS.get comp "companyId" in
  let lastTs :=
    if (negb (tsTruthy lastTs) && JS.truthy (JS.get comp "createdTime"))%bool
    then match JS.dateTime parse (JS.get comp "createdTime") with
         | Some createdTs => Some createdTs
         | None => lastTs
         end
    else lastTs in
  <[ "_sortTs" := SNum (default 0 lastTs) ]>
    (<[ "lastActivity" := match lastTs with
                          | Some ts => if tsTruthy lastTs then SStr (toISOString ts) else SNull
                          | None => SNull
                          end ]> comp).

(** [(a, b) => b._sortTs - a._sortTs]; [_sortTs] is a number on every
    element of [result], and the difference of anything else counts as NaN. *)
Definition bySortTsDesc (a b : record) : option Z :=
  match JS.get b "_sortTs", JS.get a "_sortTs" with
  | SNum tb, SNum ta => Some (tb - ta)
  | _, _ => None
  end.

(** [getCompanyListWithActivity(filters = {})]: any exception gives the
    list of the reader. *)
Definition getCompanyListWithActivity (toISOString : Z -> string) (filters : record)
  : M (list record) :=
  tryCatch
    (let* companiesRaw := Reader.getCompanyList in
     let* companies := lift (searchByText filters companiesRaw) in
     let companies := selectBy filters "type" "companyType" companies in
     let companies := selectBy filters "stage" "customerStage" companies in
     let companies := selectBy filters "rating" "engagementRating" companies in
     let* fetched := both Reader.getInteractions Reader.getEventLogs in
     let '(interactions, eventLogs) := fetched in
     fun w =>
       (let lastActivityMap := lastActivities (dateParse w) interactions eventLogs in
        let result := map (withActivity toISOString (dateParse w) lastActivityMap) companies in
        ret (map (fun r => delete "_sortTs" r) (JS.sort bySortTsDesc result))) w)
    (fun error => Reader.getCompanyList).

(** The service: [interactionWriter] is optional; when it is there it can
    fail. *)
Record t := { interactionWriterDown : option bool }.

(** [_logCompanyInteraction(companyId, title, summary, modifier)]: what the
    writer throws is caught.  [now] is [new Date().toISOString()]. *)
Definition _logCompanyInteraction (this : t) (now : string) (companyId : scalar)
    (title summary : string) (modifier : scalar) : M unit :=
  tryCatch
    (match interactionWriterDown this with
     | Some down =>
         InteractionWriter.createInteraction down
           (<[ "companyId" := companyId ]>
           (<[ "eventType" := SStr "系統事件" ]>
           (<[ "eventTitle" := SStr title ]>
           (<[ "contentSummary" := SStr summary ]>
           (<[ "recorder" := modifier ]>
           (<[ "interactionTime" := SStr now ]> ∅)))))) ;;
         ret tt
     | None => ret tt
     end)
    (fun logError => ret tt).

(** [updateCompany(companyName, updateData, user)]; the [catch] block
    rethrows. *)
Definition updateCompany (this : t) (now : string) (companyName : scalar)
    (updateData : record) (u : user) : M record :=
  let* modifier := lift (modifierName u) in
  let* details := getCompanyDetails companyName in
  match companyInfo details with
  | None => throw ("找不到公司: " ++ JS.toStr companyName)%string
  | Some info =>
      let* rowIndex := _findCompanyRowIndex companyName in
      let* result := Writer.updateAt "companyList" rowIndex updateData in
      _logCompanyInteraction this now (JS.get info "companyId")
                             "資料更新" "公司資料已更新。" modifier ;;
      Reader.invalidateCache "companyList" ;;
      ret result
  end.

End CompanyService.

(* ===================================================================== *)
(** ** services/weekly-business-service.js                                *)
(* ===================================================================== *)

Module WeeklyBusinessService.

(** [dateHelpers.getWeekInfo(weekId)]: the dates of the days of the week,
    [None] when there is no such week.  The helper is a collaborator. *)
Record t := { getWeekInfo : string -> option (list string) }.

(** [_toServiceDTO(row)] *)
Definition _toServiceDTO (row : item) : item :=
  if negb (JS.itemTruthy row) then IVal SNull
  else
    let g := JS.itemGet row in
    IRec (<[ "recordId" := g "record_id" ]>
         (<[ "weekId" := g "week_id" ]>
         (<[ "日期" := g "entry_date" ]>
         (<[ "summaryContent" := g "summary_content" ]>
         (<[ "creator" := g "created_by" ]>
         (<[ "entryDate" := g "entry_date" ]>
         (<[ "category" := g "category" ]>
         (<[ "topic" := g "topic" ]>
         (<[ "participants" := g "participants" ]>
         (<[ "todoItems" := g "todo_items" ]>
         (<[ "createdTime" := g "created_time" ]>
         (<[ "updatedTime" := g "updated_time" ]>
         (<[ "分類" := g "category" ]>
         (<[ "項目" := g "topic" ]>
         (<[ "內容" := g "summary_content" ]>
         (<[ "參與人" := g "participants" ]>
         (<[ "追蹤事項" := g "todo_items" ]>
         (<[ "下週計畫" := JS.nullish (g "plan") (SStr EmptyString) ]>
         (<[ "部門" := JS.nullish (g "division") (SStr EmptyString) ]> ∅))))))))))))))))))).

(** The sheet path of [_fetchWeeklyEntries]: the rows of the reader. *)
Definition sheetEntries : M (list item) :=
  let* rows := Reader.getAllEntries in ret (map IRec rows).

(** [_fetchWeeklyEntries({ forceSheet })]: a [catch] that falls through to
    the sheet path is a handler that runs it. *)
Definition _fetchWeeklyEntries (forceSheet : bool) : M (list item) :=
  fun w =>
    match forceSheet, weeklyRepo w with
    | false, Some repo =>
        tryCatch
          (let* sqlEntries := SqlReader.findAll repo in
           match sqlEntries with
           | PArray rows => ret (map _toServiceDTO rows)
           | PValue _ => throw "TypeError: sqlEntries.map is not a function"
           end)
          (fun error => sheetEntries) w
    | _, _ => sheetEntries w
    end.

(** A property read on an entry; [null] and [undefined] have none. *)
Definition entryGet (entry : item) (k : string) : outcome scalar :=
  match entry with
  | IVal SUndef | IVal SNull => Thrown "TypeError: cannot read properties of null"
  | _ => Returned (JS.itemGet entry k)
  end.

(** The filter of step 3.  The dates of the week are date strings, so that
    a value that is not a string compares false with them. *)
Definition inWeek (weekStartStr weekEndStr : string) (entry : item) : outcome bool :=
  match entryGet entry "entryDate" with
  | Thrown e => Thrown e
  | Returned entryDate =>
      let dateVal := JS.or entryDate (JS.itemGet entry "日期") in
      if negb (JS.truthy dateVal) then Returned false
      else match dateVal with
           | SStr d => Returned (Str.leb weekStartStr d && Str.leb d weekEndStr)%bool
           | _ => Returned false
           end
  end.

(** The comparator of step 4: [new Date(b['日期']) - new Date(a['日期'])]. *)
Definition byDateDesc (parse : string -> option Z) (a b : item) : option Z :=
  JS.dateDiff (JS.dateTime parse (JS.itemGet b "日期"))
              (JS.dateTime parse (JS.itemGet a "日期")).

(** Days from 1970-01-01 to the first day of month [m] (0 to 11, after the
    carry into the year) of year [y], plus [d - 1]: MakeDay of ECMAScript. *)
Definition makeDay (year month day : Z) : Z :=
  let y0 := year + month / 12 in
  let m := month mod 12 + 1 in
  let y := if (m <=? 2) then y0 - 1 else y0 in
  let era := y / 400 in
  let yoe := y - era * 400 in
  let doy := (153 * (if (m >? 2) then m - 3 else m + 9) + 2) / 5 in
  let doe := yoe * 365 + yoe / 4 - yoe / 100 + doy in
  era * 146097 + doe - 719468 + (day - 1).

(** [new Date(Date.UTC(year, month, day)).getUTCDay()]; a year from 0 to 99
    counts from 1900. *)
Definition utcDay (year month day : Z) : Z :=
  let y := if ((0 <=? year) && (year <=? 99))%bool then 1900 + year else year in
  (makeDay y month day + 4) mod 7.

Definition digitsToZ (s : string) : Z := default 0 (JS.readDigits 10 s None).

(** [/^\d{4}-\d{2}-\d{2}$/.test(dateString)] and the three numbers. *)
Definition ymdOf (dateString : string) : option (Z * Z * Z) :=
  match dateString with
  | String y1 (String y2 (String y3 (String y4 (String h1 (String m1 (String m2
      (String h2 (String d1 (String d2 EmptyString))))))))) =>
      if (Str.allb Str.isDigit (String y1 (String y2 (String y3 (String y4
                   (String m1 (String m2 (String d1 (String d2 EmptyString))))))))
          && Ascii.eqb h1 "-" && Ascii.eqb h2 "-")%bool
      then Some (digitsToZ (String y1 (String y2 (String y3 (String y4 EmptyString)))),
                 digitsToZ (String m1 (String m2 EmptyString)),
                 digitsToZ (String d1 (String d2 EmptyString)))
      else None
  | _ => None
  end.

(** The [day] of step 5. *)
Definition dayValueOf (entry : item) : Z :=
  match ymdOf (JS.toStr (JS.itemGet entry "日期")) with
  | Some (year, month, day) => utcDay year (month - 1) day
  | None => -1
  end.

(** [{ ...entry, day: dayValue, _view: { day: dayValue } }] *)
Record WeekEntry := {
  fields : record;
  _view : record
}.

Definition withDay (entry : item) : WeekEntry :=
  let dayValue := dayValueOf entry in
  {| fields := <[ "day" := SNum dayValue ]> (match entry with IRec r => r | IVal _ => ∅ end);
     _view := {[ "day" := SNum dayValue ]} |}.

(** Steps 3 and 4 of [getEntriesForWeek]: the entries of the week, sorted. *)
Definition sortedEntriesOfWeek (parse : string -> option Z) (weekStartStr weekEndStr : string)
    (allEntries : list item) : outcome (list item) :=
  match JS.filterM (inWeek weekStartStr weekEndStr) allEntries with
  | Thrown e => Thrown e
  | Returned entries => Returned (JS.sort (byDateDesc parse) entries)
  end.

(** [getEntriesForWeek(weekId)]: any exception gives the empty list. *)
Definition getEntriesForWeek (this : t) (weekId : string) : M (list WeekEntry) :=
  tryCatch
    (let* allEntries := _fetchWeeklyEntries false in
     match getWeekInfo this weekId with
     | None | Some [] => ret []
     | Some (weekStartStr :: rest) =>
         let weekEndStr := List.last rest weekStartStr in
         fun w =>
           (let* entries := lift (sortedEntriesOfWeek (dateParse w) weekStartStr weekEndStr allEntries) in
            ret (map withDay entries)) w
     end)
    (fun error => ret []).

(** [updateWeeklyBusinessEntry(recordId, data)]; the [catch] block rethrows. *)
Definition updateWeeklyBusinessEntry (recordId : scalar) (data : record) : M record :=
  let* allEntries := _fetchWeeklyEntries true in
  let* target :=
    lift (JS.findM (fun e =>
            match entryGet e "recordId" with
            | Thrown err => Thrown err
            | Returned v => Returned (JS.strictEq v recordId)
            end) allEntries) in
  match target with
  | None => throw ("找不到紀錄 ID: " ++ JS.toStr recordId)%string
  | Some target =>
      Writer.updateAt "weeklyBusiness" (JS.itemGet target "rowIndex") data
  end.

(** [deleteWeeklyBusinessEntry(recordId)]; the [catch] block rethrows. *)
Definition deleteWeeklyBusinessEntry (recordId : scalar) : M record :=
  let* allEntries := _fetchWeeklyEntries true in
  let* target :=
    lift (JS.findM (fun e =>
            match entryGet e "recordId" with
            | Thrown err => Thrown err
            | Returned v => Returned (JS.strictEq v recordId)
            end) allEntries) in
  match target with
  | None => throw ("找不到紀錄 ID: " ++ JS.toStr recordId)%string
  | Some target => Writer.deleteAt "weeklyBusiness" (JS.itemGet target "rowIndex")
  end.

(** [/^\d{4}-W\d{2}$/.test(s)] on a string. *)
Definition isWeekId (s : string) : bool :=
  match s with
  | String a (String b (String c (String d (String e (String f (String g (String h
      EmptyString))))))) =>
      (Str.isDigit a && Str.isDigit b && Str.isDigit c && Str.isDigit d
       && Ascii.eqb e "-" && Ascii.eqb f "W" && Str.isDigit g && Str.isDigit h)%bool
  | _ => false
  end.

(** The date helpers, as [getWeeklyBusinessSummaryList] uses them:
    [weekInfoOf] is [getWeekInfo(weekId)] with the [title] and the
    [dateRange] of what it returns ([None]: it returns no object),
    [currentWeekId] is [getWeekId(new Date())], and [localeCompare] is the
    collation of the engine.  The helpers are collaborators. *)
Record Helpers := {
  weekInfoOf : string -> option (scalar * scalar);
  currentWeekId : string;
  localeCompare : string -> string -> Z
}.

(** [weekSummaryMap.get(weekId).summaryCount++] on the entries of the map,
    which are kept in the order of their insertion. *)
Fixpoint countUp (weekId : string) (m : list (string * Z)) : list (string * Z) :=
  match m with
  | [] => []
  | (k, n) :: r => if String.eqb k weekId then (k, n + 1) :: r else (k, n) :: countUp weekId r
  end.

(** The body of [rawData.forEach(item => ...)].  The pattern is tested on
    [String(weekId)], which has no [W] when [weekId] is a number or a
    boolean; a summary that is truthy and not a string has no [trim]. *)
Definition countSummary (weekSummaryMap : list (string * Z)) (item : item)
  : outcome (list (string * Z)) :=
  match entryGet item "weekId" with
  | Thrown e => Thrown e
  | Returned (SStr weekId) =>
      if (JS.truthy (SStr weekId) && isWeekId weekId)%bool then
        let m := if existsb (fun p => String.eqb p.1 weekId) weekSummaryMap
                 then weekSummaryMap
                 else weekSummaryMap ++ [(weekId, 0)] in
        let summaryContent := JS.itemGet item "summaryContent" in
        if JS.truthy summaryContent then
          match summaryContent with
          | SStr text =>
              Returned (if negb (String.eqb (Str.trim text) EmptyString)
                        then countUp weekId m else m)
          | _ => Thrown "TypeError: summaryContent.trim is not a function"
          end
        else Returned m
      else Returned weekSummaryMap
  | Returned _ => Returned weekSummaryMap
  end.

(** [rawData.forEach(...)]: the first exception ends the loop. *)
Fixpoint countSummaries (weekSummaryMap : list (string * Z)) (rawData : list item)
  : outcome (list (string * Z)) :=
  match rawData with
  | [] => Returned weekSummaryMap
  | item :: rest =>
      match countSummary weekSummaryMap item with
      | Thrown e => Thrown e
      | Returned m => countSummaries m rest
      end
  end.

(** An element of the list of weeks. *)
Record WeekSummary := {
  id : string;
  title : scalar;
  dateRange : scalar;
  summaryCount : Z
}.

(** [summaryData.map(item => ...)]: a week for which the helper returns no
    object has no [title] to read. *)
Fixpoint weeksOf (h : Helpers) (summaryData : list (string * Z)) : outcome (list WeekSummary) :=
  match summaryData with
  | [] => Returned []
  | (weekId, n) :: rest =>
      match weekInfoOf h weekId with
      | None => Thrown "TypeError: cannot read properties of undefined (reading 'title')"
      | Some (t, range) =>
          match weeksOf h rest with
          | Thrown e => Thrown e
          | Returned ws =>
              Returned ({| id := weekId; title := t; dateRange := range; summaryCount := n |}
                        :: ws)
          end
      end
  end.

(** [getWeeklyBusinessSummaryList()]; the [catch] block rethrows. *)
Definition getWeeklyBusinessSummaryList (h : Helpers) : M (list WeekSummary) :=
  let* rawData := _fetchWeeklyEntries false in
  let* summaryData := lift (countSummaries [] rawData) in
  let* weeksList := lift (weeksOf h summaryData) in
  match weekInfoOf h (currentWeekId h) with
  | None => throw "TypeError: cannot read properties of undefined (reading 'title')"
  | Some (currentTitle, currentRange) =>
      let hasCurrentWeek := existsb (fun w => JS.strictEq (title w) currentTitle) weeksList in
      let weeksList :=
        if hasCurrentWeek then weeksList
        else {| id := currentWeekId h; title := currentTitle; dateRange := currentRange;
                summaryCount := 0 |} :: weeksList in
      ret (JS.sort (fun a b => Some (localeCompare h (id b) (id a))) weeksList)
  end.

End WeeklyBusinessService.

(* ===================================================================== *)
(** ** services/opportunity-service.js                                    *)
(* ===================================================================== *)

Module OpportunityService.

Definition _normalizeCompanyName (name : scalar) : outcome string :=
  normalizeCompanyValue name.

(** [safeGet(obj, keys)]: the first property that is not [undefined],
    [null] or the empty string. *)
Fixpoint safeGet (obj : record) (keys : list string) : scalar :=
  match keys with
  | [] => SUndef
  | k :: r =>
      match JS.get obj k with
      | SUndef | SNull => safeGet obj r
      | SStr s => if String.eqb s EmptyString then safeGet obj r else SStr s
      | v => v
      end
  end.

(** [normalizeStr(v)] *)
Definition normalizeStr (v : scalar) : string :=
  match v with
  | SUndef | SNull => EmptyString
  | _ => Str.trim (JS.toStr v)
  end.

(** The filter over the links. *)
Definition isActiveLinkOf (opportunityId : scalar) (link : record) : bool :=
  let linkOppId := normalizeStr (safeGet link ["opportunityId"; "oppId"; "opportunity_id"]) in
  if String.eqb linkOppId EmptyString then false
  else
    let statusVal :=
      Str.toLowerCase (normalizeStr (safeGet link ["status"; "linkStatus"; "state"])) in
    let isActive := (String.eqb statusVal EmptyString || String.eqb statusVal "active")%bool in
    (String.eqb linkOppId (normalizeStr opportunityId) && isActive)%bool.

(** The map over the links: [{ ...contact, linkId }] or [null]. *)
Definition linkedContactOf (allOfficialContacts : list record) (link : record) : option record :=
  let linkContactId := normalizeStr (safeGet link ["contactId"; "id"; "contact_id"]) in
  if String.eqb linkContactId EmptyString then None
  else
    match JS.find (fun c => String.eqb (normalizeStr (JS.get c "contactId")) linkContactId)
                  allOfficialContacts with
    | None => None
    | Some contact =>
        Some (<[ "linkId" := safeGet link ["linkId"; "id"; "rowId"; "rowIndex"] ]> contact)
    end.

(** [new Date(b.interactionTime || b.createdTime) - new Date(a.interactionTime || a.createdTime)] *)
Definition byInteractionOrCreated (parse : string -> option Z) (a b : record) : option Z :=
  JS.dateDiff
    (JS.dateTime parse (JS.or (JS.get b "interactionTime") (JS.get b "createdTime")))
    (JS.dateTime parse (JS.or (JS.get a "interactionTime") (JS.get a "createdTime"))).

(** [new Date(b.createdTime || 0) - new Date(a.createdTime || 0)] *)
Definition byCreatedOrZero (parse : string -> option Z) (a b : record) : option Z :=
  JS.dateDiff
    (JS.dateTime parse (JS.or (JS.get b "createdTime") (SNum 0)))
    (JS.dateTime parse (JS.or (JS.get a "createdTime") (SNum 0))).

(** The potential contacts of the company of the opportunity. *)
Definition sameCompany (normalizedOppCompany : string) (pc : record) : outcome bool :=
  match _normalizeCompanyName (JS.get pc "company") with
  | Thrown e => Thrown e
  | Returned normalizedPcCompany =>
      Returned (negb (String.eqb normalizedPcCompany EmptyString)
                && negb (String.eqb normalizedOppCompany EmptyString)
                && String.eqb normalizedPcCompany normalizedOppCompany)%bool
  end.

(** [(opportunityInfo.mainContact || '').trim()] *)
Definition targetNameOf (opportunityInfo : record) : outcome string :=
  match JS.or (JS.get opportunityInfo "mainContact") (SStr EmptyString) with
  | SStr s => Returned (Str.trim s)
  | _ => Thrown "TypeError: trim is not a function"
  end.

(** [m && m.position]: the position of a match when it is truthy. *)
Definition positionOf (m : option record) : option scalar :=
  match m with
  | Some r => if JS.truthy (JS.get r "position") then Some (JS.get r "position") else None
  | None => None
  end.

(** The job title of the main contact (lines 611 to 636). *)
Definition resolveJobTitle (targetName normalizedOppCompany : string)
    (linkedContacts potentialContacts allPotentialContacts : list record) : outcome scalar :=
  if String.eqb targetName EmptyString then Returned (SStr EmptyString)
  else
    let named (c : record) := JS.strictEq (JS.get c "name") (SStr targetName) in
    match positionOf (JS.find named linkedContacts) with
    | Some p => Returned p
    | None =>
        match positionOf (JS.find named potentialContacts) with
        | Some p => Returned p
        | None =>
            match JS.findM (fun pc =>
                     if named pc then
                       match _normalizeCompanyName (JS.get pc "company") with
                       | Thrown e => Thrown e
                       | Returned n => Returned (String.eqb n normalizedOppCompany)
                       end
                     else Returned false) allPotentialContacts with
            | Thrown e => Thrown e
            | Returned fallbackMatch =>
                Returned (default (SStr EmptyString) (positionOf fallbackMatch))
            end
        end
    end.

(** What [getOpportunityDetails] returns. *)
Record Details := {
  opportunityInfo : record;
  interactions : list record;
  eventLogs : list record;
  linkedContacts : list record;
  potentialContacts : list record;
  parentOpportunity : option record;
  childOpportunities : list record
}.

(** [getOpportunityDetails(opportunityId)]; the [catch] block rethrows.
    [opportunityInfo] is the element of the array that the reader returned,
    and [opportunityInfo.mainContactJobTitle = ...] is an assignment on it. *)
Definition getOpportunityDetails (opportunityId : scalar) : M Details :=
  let* fetched :=
    both Reader.getOpportunities
      (both Reader.getInteractions
        (both Reader.getEventLogs
          (both Reader.getAllOppContactLinks
            (both Reader.getContactList Reader.getContacts)))) in
  let '(allOpportunities, (interactionsFromCache, (eventLogsFromCache,
        (allLinks, (allOfficialContacts, allPotentialContacts))))) := fetched in
  match JS.findIndexFrom (fun opp => JS.strictEq (JS.get opp "opportunityId") opportunityId)
                         O allOpportunities with
  | None => throw ("找不到機會ID為 " ++ JS.toStr opportunityId ++ " 的案件")%string
  | Some (index, opportunityInfo) =>
      fun w =>
        (let linkedContactsFromCache :=
           omap (linkedContactOf allOfficialContacts)
                (List.filter (isActiveLinkOf opportunityId) allLinks) in
         let interactions :=
           JS.sort (byInteractionOrCreated (dateParse w))
             (List.filter (fun i => JS.strictEq (JS.get i "opportunityId") opportunityId)
                          interactionsFromCache) in
         let eventLogs :=
           JS.sort (byCreatedOrZero (dateParse w))
             (List.filter (fun log => JS.strictEq (JS.get log "opportunityId") opportunityId)
                          eventLogsFromCache) in
         let* normalizedOppCompany :=
           lift (_normalizeCompanyName (JS.get opportunityInfo "customerCompany")) in
         let* potentialContacts :=
           lift (JS.filterM (sameCompany normalizedOppCompany) allPotentialContacts) in
         let* targetName := lift (targetNameOf opportunityInfo) in
         let* mainContactJobTitle :=
           lift (resolveJobTitle targetName normalizedOppCompany linkedContactsFromCache
                                 potentialContacts allPotentialContacts) in
         Reader.assignField "opportunities" index "mainContactJobTitle" mainContactJobTitle ;;
         let opportunityInfo' := <[ "mainContactJobTitle" := mainContactJobTitle ]> opportunityInfo in
         let allOpportunities' := alter (fun _ => opportunityInfo') index allOpportunities in
         let parentOpportunity :=
           if JS.truthy (JS.get opportunityInfo' "parentOpportunityId") then
             JS.find (fun opp => JS.strictEq (JS.get opp "opportunityId")
                                             (JS.get opportunityInfo' "parentOpportunityId"))
                     allOpportunities'
           else None in
         let childOpportunities :=
           List.filter (fun opp => JS.strictEq (JS.get opp "parentOpportunityId") opportunityId)
                       allOpportunities' in
         ret {| opportunityInfo := opportunityInfo';
                interactions := interactions;
                eventLogs := eventLogs;
                linkedContacts := linkedContactsFromCache;
                potentialContacts := potentialContacts;
                parentOpportunity := parentOpportunity;
                childOpportunities := childOpportunities |}) w
  end.

(** A group of [getOpportunitiesByStage]. *)
Record StageGroup := {
  name : scalar;
  opportunities : list record;
  count : Z
}.

(** The object [stageGroups].  [const stageGroups = {}] is a plain object:
    besides its own properties, which are the groups that the method emits,
    it has those that it inherits from its prototype.  [proto] is the group
    that an assignment to [__proto__] has made the prototype, if there was
    one; the prototype is [Object.prototype] otherwise. *)
Record StageGroups := {
  own : gmap string StageGroup;
  proto : option StageGroup
}.

(** [{}] *)
Definition emptyObject : StageGroups := {| own := ∅; proto := None |}.

(** The properties of [Object.prototype] other than the accessor
    [__proto__]: each of them is a function. *)
Definition objectPrototypeKeys : list string :=
  [ "constructor"; "hasOwnProperty"; "isPrototypeOf"; "propertyIsEnumerable";
    "toLocaleString"; "toString"; "valueOf";
    "__defineGetter__"; "__defineSetter__"; "__lookupGetter__"; "__lookupSetter__" ].

(** What [stageGroups[key]] evaluates to: a group of the object itself, the
    group that is its prototype, or a value that is no group, of which only
    the truthiness matters: a function, [Object.prototype], a field of the
    prototype group, or [undefined]. *)
Inductive property :=
  | OwnGroup (g : StageGroup)
  | ProtoGroup (g : StageGroup)
  | NoGroup (truthy : bool).

(** [stageGroups[key]]: an own property first, then the prototype chain. *)
Definition getProperty (stageGroups : StageGroups) (key : string) : property :=
  match own stageGroups !! key with
  | Some g => OwnGroup g
  | None =>
      if String.eqb key "__proto__" then
        match proto stageGroups with
        | Some g => ProtoGroup g
        | None => NoGroup true
        end
      else if existsb (String.eqb key) objectPrototypeKeys then NoGroup true
      else
        match proto stageGroups with
        | Some g =>
            if String.eqb key "name" then NoGroup (JS.truthy (name g))
            else if String.eqb key "opportunities" then NoGroup true
            else if String.eqb key "count" then NoGroup (negb (count g =? 0))
            else NoGroup false
        | None => NoGroup false
        end
  end.

(** [stages.forEach(stage => { stageGroups[stage.value] = {...} })]: the
    assignment makes an own property, except under the key [__proto__],
    where it sets the prototype. *)
Definition initStage (stageGroups : StageGroups) (stage : record) : StageGroups :=
  let key := JS.toStr (JS.get stage "value") in
  let group := {| name := JS.or (JS.get stage "note") (JS.get stage "value");
                  opportunities := [];
                  count := 0 |} in
  if String.eqb key "__proto__" then
    {| own := own stageGroups; proto := Some group |}
  else
    {| own := <[ key := group ]> (own stageGroups); proto := proto stageGroups |}.

(** [g.opportunities.push(opp); g.count++] *)
Definition pushOpportunity (g : StageGroup) (opp : record) : StageGroup :=
  {| name := name g;
     opportunities := opportunities g ++ [opp];
     count := count g + 1 |}.

(** The body of [safeOpportunities.forEach(opp => ...)].  On a truthy value
    that is no group, [.opportunities] is [undefined] and [.push] throws. *)
Definition classify (stageGroups : StageGroups) (opp : record) : outcome StageGroups :=
  if JS.strictEq (JS.get opp "currentStatus") (SStr "進行中") then
    let stageKey := JS.toStr (JS.get opp "currentStage") in
    match getProperty stageGroups stageKey with
    | OwnGroup g =>
        Returned {| own := <[ stageKey := pushOpportunity g opp ]> (own stageGroups);
                    proto := proto stageGroups |}
    | ProtoGroup g =>
        Returned {| own := own stageGroups; proto := Some (pushOpportunity g opp) |}
    | NoGroup true =>
        Thrown "TypeError: Cannot read properties of undefined (reading 'push')"
    | NoGroup false => Returned stageGroups
    end
  else Returned stageGroups.

(** [getOpportunitiesByStage()]: any exception gives the empty object. *)
Definition getOpportunitiesByStage : M StageGroups :=
  tryCatch
    (let* fetched := both Reader.getOpportunities Reader.getSystemConfig in
     let '(safeOpportunities, systemConfig) := fetched in
     match systemConfig with
     | None => throw "TypeError: cannot read properties of null"
     | Some systemConfig =>
         let stages := default [] (systemConfig !! "機會階段") in
         let stageGroups := fold_left initStage stages emptyObject in
         lift (JS.forEachM classify safeOpportunities stageGroups)
     end)
    (fun error => ret emptyObject).

(** The filter of [getOpportunitiesByDateRange]; [startDate] and [endDate]
    are the time values of the two [Date] objects, [None] for an invalid
    date. *)
Definition inDateRange (parse : string -> option Z) (startDate endDate : option Z)
    (dateField : string) (opp : record) : bool :=
  let dateVal := JS.get opp dateField in
  if negb (JS.truthy dateVal) then false
  else match JS.dateTime parse dateVal with
       | None => false
       | Some oppDate =>
           (match startDate with Some s => (s <=? oppDate) | None => false end
            && match endDate with Some e => (oppDate <=? e) | None => false end)%bool
       end.

(** [getOpportunitiesByDateRange(startDate, endDate, dateField = 'createdTime')]:
    any exception gives the empty list. *)
Definition getOpportunitiesByDateRange (startDate endDate : option Z) (dateField : string)
  : M (list record) :=
  tryCatch
    (let* allOpportunities := Reader.getOpportunities in
     fun w =>
       (Returned (List.filter (inDateRange (dateParse w) startDate endDate dateField)
                              allOpportunities), w))
    (fun error => ret []).

(** The service, as far as the writes below use it: the interaction writer
    can fail. *)
Record t := { interactionWriterDown : bool }.

(** [_logOpportunityInteraction(opportunityId, title, summary, modifier)]:
    what the writer throws is caught.  [now] is [new Date().toISOString()]. *)
Definition _logOpportunityInteraction (this : t) (now : string) (opportunityId : scalar)
    (title summary : string) (modifier : scalar) : M unit :=
  tryCatch
    (InteractionWriter.createInteraction (interactionWriterDown this)
       (<[ "opportunityId" := opportunityId ]>
       (<[ "eventType" := SStr "系統事件" ]>
       (<[ "eventTitle" := SStr title ]>
       (<[ "contentSummary" := SStr summary ]>
       (<[ "recorder" := modifier ]>
       (<[ "interactionTime" := SStr now ]> ∅)))))) ;;
     ret tt)
    (fun logError => ret tt).

(** [getNote(configKey, value)]:
    [(systemConfig[configKey] || []).find(i => i.value === value)?.note
     || value || 'N/A'] *)
Definition getNote (systemConfig : gmap string (list record)) (configKey : string)
    (value : scalar) : scalar :=
  let note :=
    match JS.find (fun i => JS.strictEq (JS.get i "value") value)
                  (default [] (systemConfig !! configKey)) with
    | Some i => JS.get i "note"
    | None => SUndef
    end in
  JS.or (JS.or note value) (SStr "N/A").

(** [`[${a || '未設定'}]`] *)
Definition orUnset (v : scalar) : string := JS.toStr (JS.or v (SStr "未設定")).

(** [updateData[field] !== undefined &&
     updateData[field] !== originalOpportunity[field]] *)
Definition changed (field : string) (originalOpportunity updateData : record) : bool :=
  (negb (JS.strictEq (JS.get updateData field) SUndef)
   && negb (JS.strictEq (JS.get updateData field) (JS.get originalOpportunity field)))%bool.

(** The array [logs] of [updateOpportunity], after its four checks. *)
Definition changeLogs (systemConfig : gmap string (list record))
    (originalOpportunity updateData : record) : list string :=
  let oldStage := JS.get originalOpportunity "currentStage" in
  let stageMapping :=
    JS.newMap (map (fun item => (JS.get item "value", JS.get item "note"))
                   (default [] (systemConfig !! "機會階段"))) in
  let newStage := JS.get updateData "currentStage" in
  (if (JS.truthy newStage && JS.truthy oldStage && negb (JS.strictEq newStage oldStage))%bool
   then ["階段從【" ++ JS.toStr (JS.or (JS.mapGet stageMapping oldStage) oldStage)
         ++ "】更新為【" ++ JS.toStr (JS.or (JS.mapGet stageMapping newStage) newStage)
         ++ "】"]%string
   else [])
  ++ (if changed "opportunityValue" originalOpportunity updateData
      then ["機會價值從 [" ++ orUnset (JS.get originalOpportunity "opportunityValue")
            ++ "] 更新為 [" ++ orUnset (JS.get updateData "opportunityValue") ++ "]"]%string
      else [])
  ++ (if changed "assignee" originalOpportunity updateData
      then ["負責業務從 ["
            ++ JS.toStr (getNote systemConfig "團隊成員" (JS.get originalOpportunity "assignee"))
            ++ "] 變更為 ["
            ++ JS.toStr (getNote systemConfig "團隊成員" (JS.get updateData "assignee"))
            ++ "]"]%string
      else [])
  ++ (if changed "expectedCloseDate" originalOpportunity updateData
      then ["預計結案日從 [" ++ orUnset (JS.get originalOpportunity "expectedCloseDate")
            ++ "] 更新為 [" ++ orUnset (JS.get updateData "expectedCloseDate") ++ "]"]%string
      else []).

(** [opportunities.find(o => o.rowIndex === parseInt(rowIndex))] *)
Definition findByRow (rowIndex : scalar) (opportunities : list record) : option record :=
  JS.find (fun o => match JS.parseInt rowIndex with
                    | Some n => JS.strictEq (JS.get o "rowIndex") (SNum n)
                    | None => false
                    end) opportunities.

(** [updateOpportunity(rowIndex, updateData, user)]; the [catch] block
    rethrows.  A configuration that is [null] has no properties to read. *)
Definition updateOpportunity (this : t) (now : string) (rowIndex : scalar)
    (updateData : record) (u : user) : M record :=
  let* modifier := lift (modifierName u) in
  let* opportunities := Reader.getOpportunities in
  match findByRow rowIndex opportunities with
  | None => throw ("找不到要更新的機會 (Row: " ++ JS.toStr rowIndex ++ ")")%string
  | Some originalOpportunity =>
      let opportunityId := JS.get originalOpportunity "opportunityId" in
      let* systemConfig := Reader.getSystemConfig in
      match systemConfig with
      | None => throw "TypeError: cannot read properties of null"
      | Some systemConfig =>
          let logs := changeLogs systemConfig originalOpportunity updateData in
          let* updateResult := Writer.updateAt "opportunities" rowIndex updateData in
          (match logs with
           | [] => ret tt
           | _ :: _ =>
               _logOpportunityInteraction this now opportunityId "機會資料更新"
                                          (String.concat "； " logs) modifier
           end) ;;
          ret updateResult
      end
  end.

(** [s.toLowerCase().trim()] on a field: [null] and [undefined] have no
    properties, the other values that are not strings have no such method. *)
Definition lowerTrim (v : scalar) : outcome string :=
  match v with
  | SStr s => Returned (Str.trim (Str.toLowerCase s))
  | _ => Thrown "TypeError: toLowerCase is not a function"
  end.

(** [c.companyName.toLowerCase().trim() ===
     opportunity.customerCompany.toLowerCase().trim()], the left side first. *)
Definition sameLowerName (opportunity c : record) : outcome bool :=
  match lowerTrim (JS.get c "companyName") with
  | Thrown e => Thrown e
  | Returned a =>
      match lowerTrim (JS.get opportunity "customerCompany") with
      | Thrown e => Thrown e
      | Returned b => Returned (String.eqb a b)
      end
  end.

(** The summary of the record that [deleteOpportunity] leaves with the
    company. *)
Definition deletedSummary (opportunity : record) (modifier : scalar) : string :=
  ("機會案件 " ++ String "034"%char (JS.toStr (JS.get opportunity "opportunityName"))
   ++ String "034"%char (" (ID: " ++ JS.toStr (JS.get opportunity "opportunityId")
   ++ ") 已被 " ++ JS.toStr modifier ++ " 刪除。"))%string.

(** The inner [try] block of [deleteOpportunity]: a record with the
    company of the opportunity; what it throws is caught. *)
Definition logDeletedOpportunity (this : t) (now : string) (opportunity : record)
    (modifier : scalar) : M unit :=
  tryCatch
    (let* allCompanies := Reader.getCompanyList in
     let* company := lift (JS.findM (sameLowerName opportunity) allCompanies) in
     match company with
     | Some company =>
         InteractionWriter.createInteraction (interactionWriterDown this)
           (<[ "companyId" := JS.get company "companyId" ]>
           (<[ "eventType" := SStr "系統事件" ]>
           (<[ "eventTitle" := SStr "刪除機會案件" ]>
           (<[ "contentSummary" := SStr (deletedSummary opportunity modifier) ]>
           (<[ "recorder" := modifier ]>
           (<[ "interactionTime" := SStr now ]> ∅)))))) ;;
         ret tt
     | None => ret tt
     end)
    (fun logError => ret tt).

(** [deleteOpportunity(rowIndex, user)]; the outer [catch] block rethrows. *)
Definition deleteOpportunity (this : t) (now : string) (rowIndex : scalar) (u : user)
  : M record :=
  let* modifier := lift (modifierName u) in
  let* opportunities := Reader.getOpportunities in
  match findByRow rowIndex opportunities with
  | None => throw ("找不到要刪除的機會 (Row: " ++ JS.toStr rowIndex ++ ")")%string
  | Some opportunity =>
      let* deleteResult := Writer.deleteAt "opportunities" rowIndex in
      (if (JS.truthy (JS.get deleteResult "success")
           && JS.truthy (JS.get opportunity "customerCompany"))%bool
       then logDeletedOpportunity this now opportunity modifier
       else ret tt) ;;
      ret deleteResult
  end.

End OpportunityService.

(* ===================================================================== *)
(** ** data/weekly-business-sql-reader.js                                 *)
(* ===================================================================== *)

Module WeeklyBusinessSqlReader.

(** [_mapRowToDto(row)] *)
Definition _mapRowToDto (row : item) : item :=
  if negb (JS.itemTruthy row) then IVal SNull
  else
    let g := JS.itemGet row in
    IRec (<[ "recordId" := g "record_id" ]>
         (<[ "weekId" := g "week_id" ]>
         (<[ "entryDate" := g "entry_date" ]>
         (<[ "category" := g "category" ]>
         (<[ "topic" := g "topic" ]>
         (<[ "participants" := g "participants" ]>
         (<[ "summaryContent" := g "summary_content" ]>
         (<[ "todoItems" := g "todo_items" ]>
         (<[ "createdTime" := g "created_time" ]>
         (<[ "updatedTime" := g "updated_time" ]>
         (<[ "creator" := g "created_by" ]>
         (<[ "日期" := g "entry_date" ]>
         (<[ "分類" := g "category" ]>
         (<[ "項目" := g "topic" ]>
         (<[ "內容" := g "summary_content" ]>
         (<[ "參與人" := g "participants" ]>
         (<[ "追蹤事項" := g "todo_items" ]> ∅))))))))))))))))).

(** The answer [{ data, error }] of the query; [error] is the message of
    the error object, when there is one. *)
Record Response := {
  data : option (list item);
  error : option string
}.

(** [findAll()], given what the query resolves with; the [catch] block
    rethrows. *)
Definition findAll (response : outcome Response) : outcome (list item) :=
  match response with
  | Thrown e => Thrown e
  | Returned r =>
      match error r with
      | Some message => Thrown ("WeeklyBusinessSqlReader DB Error: " ++ message)%string
      | None =>
          match data r with
          | Some rows => Returned (map _mapRowToDto rows)
          | None => Thrown "TypeError: cannot read properties of null (reading 'map')"
          end
      end
  end.

End WeeklyBusinessSqlReader.
(* ===================================================================== *)
(** * Notions used in the statements, and the worlds of the examples      *)
(* ===================================================================== *)

(** A federated answer that the convergence point cannot use: an exception,
    or a value that is not an array. *)
Definition unusable {A} (o : outcome (payload A)) : Prop :=
  match o with
  | Returned (PArray _) => False
  | _ => True
  end.


Module Fixture.

(** The dates of the examples, as [Date.parse] reads them. *)
Definition dates : gmap string Z :=
  list_to_map [("2026-01-01T00:00:00Z", 1767225600000); ("2026-01-20", 1768867200000);
               ("2026-01-21", 1768953600000)].

Definition row (fields : list (string * scalar)) : record := list_to_map fields.

Definition alice : record :=
  row [("contactId", SStr "C1"); ("name", SStr "Alice"); ("companyId", SStr "COM1");
       ("rowIndex", SNum 2)].

Definition acme : record :=
  row [("companyId", SStr "COM1"); ("companyName", SStr "Acme 股份有限公司"); ("rowIndex", SNum 2)].

Definition weeklyRow : record :=
  row [("recordId", SStr "W1"); ("entryDate", SStr "2026-01-20"); ("日期", SStr "2026-01-20");
       ("rowIndex", SNum 2)].

(** The federated readers are down: the contact reader throws, the weekly
    repository resolves with [null]. *)
Definition sqlDown : World :=
  mkWorld (list_to_map [("contactList", [alice]); ("companyList", [acme]);
                        ("weeklyBusiness", [weeklyRow])])
          ∅
          (Thrown "connect ECONNREFUSED")
          (Some (Returned (PValue (IVal SNull))))
          (Returned (Some ∅))
          false [] "2026/1/30" dates.

(** The federated contact reader answers, with the row it holds. *)
Definition aliceSql : record :=
  row [("contactId", SStr "C1"); ("name", SStr "Alice"); ("companyId", SStr "COM1")].

Definition sqlUp : World :=
  mkWorld (list_to_map [("contactList", [alice]); ("companyList", [acme])])
          ∅
          (Returned (PArray [aliceSql]))
          None
          (Returned (Some ∅))
          false [] "2026/1/30" dates.

(** A small CRM: one opportunity of Acme whose main contact, Alice, is
    linked to it and has a position. *)
Definition deal : record :=
  row [("opportunityId", SStr "O1"); ("opportunityName", SStr "Big deal");
       ("customerCompany", SStr "Acme"); ("mainContact", SStr "Alice");
       ("currentStatus", SStr "進行中"); ("currentStage", SStr "S1"); ("rowIndex", SNum 2)].

Definition aliceCto : record := <[ "position" := SStr "CTO" ]> alice.

Definition link : record :=
  row [("opportunityId", SStr "O1"); ("contactId", SStr "C1"); ("status", SStr "active")].

Definition visit : record :=
  row [("interactionId", SStr "I1"); ("opportunityId", SStr "O1");
       ("interactionTime", SStr "2026-01-01T00:00:00Z"); ("eventTitle", SStr "Visit")].

Definition stagesConfig : gmap string (list record) :=
  {[ "機會階段" := [ row [("value", SStr "S1"); ("note", SStr "Lead")];
                     row [("value", SStr "S2"); ("note", SStr "Proposal")];
                     row [("value", SStr "Closed")] ] ]}.

Definition crm : World :=
  mkWorld (list_to_map [("opportunities", [deal]); ("interactions", [visit]);
                        ("eventLogs", []); ("oppContactLinks", [link]);
                        ("contactList", [aliceCto]); ("contacts", []);
                        ("companyList", [acme])])
          ∅
          (Thrown "connect ECONNREFUSED")
          None
          (Returned (Some stagesConfig))
          false [] "2026/1/30" dates.

(** Two weekly entries of the week of 2026-01-19: the first has its date
    under [entryDate] only, so that its [日期] is [undefined]. *)
Definition entryWithoutDate : record :=
  row [("recordId", SStr "W1"); ("entryDate", SStr "2026-01-20"); ("rowIndex", SNum 2)].

Definition entryWithDate : record :=
  row [("recordId", SStr "W2"); ("entryDate", SStr "2026-01-21"); ("日期", SStr "2026-01-21");
       ("rowIndex", SNum 3)].

Definition weekly : World :=
  mkWorld (list_to_map [("weeklyBusiness", [entryWithoutDate; entryWithDate])])
          ∅
          (Thrown "connect ECONNREFUSED")
          None
          (Returned (Some ∅))
          false [] "2026/1/30" dates.

Definition weekHelpers : WeeklyBusinessService.t :=
  {| WeeklyBusinessService.getWeekInfo := fun weekId =>
       if String.eqb weekId "2026-W04"
       then Some ["2026-01-19"; "2026-01-20"; "2026-01-21"; "2026-01-22";
                  "2026-01-23"; "2026-01-24"; "2026-01-25"]
       else None |}.

(** The same two dates on two potential contacts. *)
Definition cardWithoutDate : record :=
  row [("name", SStr "Bob"); ("createdTime", SStr "not-a-date"); ("rowIndex", SNum 2)].

Definition cardWithDate : record :=
  row [("name", SStr "Carol"); ("createdTime", SStr "2026-01-01T00:00:00Z"); ("rowIndex", SNum 3)].

Definition cards : World :=
  mkWorld (list_to_map [("contacts", [cardWithoutDate; cardWithDate])])
          ∅
          (Thrown "connect ECONNREFUSED")
          None
          (Returned (Some ∅))
          false [] "2026/1/30" dates.

(** A potential contact that already has notes, and an update of it. *)
Definition cardWithNotes : record :=
  row [("name", SStr "Dan"); ("company", SStr "Acme"); ("notes", SStr "met at the fair");
       ("rowIndex", SNum 5)].

Definition noteUpdate : record :=
  row [("notes", SStr "asked for a quote"); ("company", SStr "Acme Ltd")].

Definition notebook : World :=
  mkWorld (list_to_map [("contacts", [cardWithNotes])])
          ∅
          (Thrown "connect ECONNREFUSED")
          None
          (Returned (Some ∅))
          false [] "2026/1/30" dates.

End Fixture.

(** The pagination law of an envelope [env] built for page [page] of
    [filtered] with page size [pageSize]: [total] is the ceiling of the
    quotient, written as the integer [t] with [(t-1) * P < N <= t * P]. *)
Definition pagination_law (pageSize page : Z) (filtered : list record) (env : Page) : Prop :=
  let N := Z.of_nat (length filtered) in
  current (pagination env) = page /\
  totalItems (pagination env) = N /\
  (exists t, total (pagination env) = Some t /\ (t - 1) * pageSize < N <= t * pageSize) /\
  (hasNext (pagination env) = true <-> page * pageSize < N) /\
  (hasPrev (pagination env) = true <-> 1 < page) /\
  data env = JS.slice filtered ((page - 1) * pageSize) ((page - 1) * pageSize + pageSize) /\
  Z.of_nat (length (data env)) <= pageSize /\
  (1 <= page ->
   data env = firstn (Z.to_nat pageSize) (skipn (Z.to_nat ((page - 1) * pageSize)) filtered)).

(** [id] resolves in [rows] to the name [n]: the last row whose [idField] is
    [id] has [n] as its [nameField] (a later row replaces an earlier one in
    the lookup map). *)
Definition resolvesIn (idField nameField : string) (rows : list record) (id n : scalar) : Prop :=
  exists before o after,
    rows = before ++ o :: after /\
    JS.get o idField = id /\ JS.get o nameField = n /\
    Forall (fun o' => JS.get o' idField <> id) after.

(** [id] is dangling in [rows]: no row has it. *)
Definition danglingIn (idField : string) (rows : list record) (id : scalar) : Prop :=
  Forall (fun o => JS.get o idField <> id) rows.



(** The notes that a potential contact already has, as text: a falsy value
    counts as no notes. *)
Definition existingNotes (target : record) : string :=
  if JS.truthy (JS.get target "notes") then JS.toStr (JS.get target "notes") else EmptyString.

(** The marker [[author date] ] that precedes an appended note. *)
Definition noteMarker (modifier : scalar) (today : string) : string :=
  ("[" ++ JS.toStr modifier ++ " " ++ today ++ "] ")%string.

(** The line feed between the old notes and the new entry. *)
Definition noteSeparator (existing : string) : string :=
  if String.eqb existing EmptyString then EmptyString else String "010"%char EmptyString.

(** The key under which a configured stage is grouped. *)
Definition stageKey (stage : record) : string := JS.toStr (JS.get stage "value").

(** An opportunity that is in progress and in the stage of key [k]. *)
Definition inStage (k : string) (opp : record) : bool :=
  (JS.strictEq (JS.get opp "currentStatus") (SStr "進行中")
   && String.eqb (JS.toStr (JS.get opp "currentStage")) k)%bool.

(** An opportunity that is in progress. *)
Definition inProgress (opp : record) : bool :=
  JS.strictEq (JS.get opp "currentStatus") (SStr "進行中").

(** The key under which an opportunity is looked up in the groups. *)
Definition stageKeyOf (opp : record) : string := JS.toStr (JS.get opp "currentStage").

(** [k] is the key of a configured stage. *)
Definition configuredKey (stages : list record) (k : string) : bool :=
  existsb (fun stage => String.eqb (stageKey stage) k) stages.

(** A key under which every plain object inherits a truthy value:
    [__proto__] and the names of the functions of [Object.prototype]. *)
Definition inheritedKey (k : string) : bool :=
  (String.eqb k "__proto__"
   || existsb (String.eqb k) OpportunityService.objectPrototypeKeys)%bool.

(** An opportunity in progress whose stage is no configured stage, but a
    key that the object of the groups inherits. *)
Definition strayStage (stages : list record) (opp : record) : bool :=
  (inProgress opp && negb (configuredKey stages (stageKeyOf opp))
   && inheritedKey (stageKeyOf opp))%bool.

(** The own groups of [G] stand under configured keys, and [G] has a
    prototype group only when [__proto__] is configured. *)
Definition withinStages (stages : list record) (G : OpportunityService.StageGroups) : Prop :=
  (forall k, is_Some (OpportunityService.own G !! k) -> configuredKey stages k = true) /\
  (is_Some (OpportunityService.proto G) -> configuredKey stages "__proto__" = true).

(** Read-after-write as the claim states it, for the official contacts:
    after a successful [updateContact] the next preferred fetch returns a
    row of that contact that carries every field of the update. *)
Definition read_after_write_as_stated : Prop :=
  forall contactId updateData user w res w',
    ContactService.updateContact contactId updateData user w = (Returned res, w') ->
    exists rows w'',
      ContactService.fetchOfficialContacts w' = (Returned rows, w'') /\
      exists r, r ∈ rows /\ JS.get r "contactId" = contactId /\
                forall k v, updateData !! k = Some v -> r !! k = Some v.

(** The cache of a collection, when it holds rows, holds those of the store. *)
Definition cacheCoherent (key : string) (w : World) : Prop :=
  forall rows, cache w !! key = Some rows -> sheet w !! key = Some rows.

(** Every row of the authoritative collection carries a row number. *)
Definition handlesAreNumbers (key : string) (w : World) : Prop :=
  forall rows, sheet w !! key = Some rows ->
    Forall (fun r => exists n, JS.get r "rowIndex" = SNum n) rows.

(** A comparator that guards both sides, as those of [getPotentialContacts]
    and [searchInteractions] do: an invalid right operand gives a negative
    number, and an invalid left operand against a valid right one a positive
    number. *)
Definition guardsInvalid {A} (valid : A -> bool) (cmp : A -> A -> option Z) : Prop :=
  (forall a b, valid b = false -> JS.sortCompare cmp a b <= 0) /\
  (forall a b, valid a = false -> valid b = true -> 0 < JS.sortCompare cmp a b).

(** The record has a date that parses under [field]. *)
Definition hasDate (parse : string -> option Z) (field : string) (r : record) : bool :=
  bool_decide (is_Some (JS.dateTime parse (JS.get r field))).

(** A list in which every record with a valid date comes before every
    record without one. *)
Definition invalidDatesLast (parse : string -> option Z) (field : string) (l : list record) : Prop :=
  exists good bad,
    l = good ++ bad /\
    Forall (fun r => hasDate parse field r = true) good /\
    Forall (fun r => hasDate parse field r = false) bad.

(** A byte with which one of the suffix tokens begins. *)
Definition tokenStart (c : ascii) : bool :=
  existsb (fun t => match t with
                    | String d _ => Ascii.eqb d c
                    | EmptyString => false
                    end) Regex.suffixTokens.

(** The first characters of the suffix tokens. *)
Definition tokenHeads : list string := ["股"; "有"; "公"].

(** None of the first characters of the suffix tokens occurs in [s]. *)
Definition noTokenHead (s : string) : bool :=
  forallb (fun h => negb (Str.includes s h)) tokenHeads.

(** [s] has no opening parenthesis. *)
Definition noOpenParen (s : string) : bool := Str.allb (fun c => negb (Ascii.eqb c "(")) s.

(** [s] has no line terminator: none of LF, CR, U+2028 and U+2029 stands at
    any of its positions. *)
Fixpoint oneLine (s : string) : bool :=
  match s with
  | EmptyString => true
  | String c r => negb (Regex.atLineBreak s) && oneLine r
  end.

(** The bytes that continue the line terminators of three bytes. *)
Definition continuesLineBreak (c : ascii) : bool :=
  (Ascii.eqb c "128" || Ascii.eqb c "168" || Ascii.eqb c "169")%bool.

(** The text [t] begins with no such byte. *)
Definition plainHead (t : string) : bool :=
  match t with
  | EmptyString => true
  | String d _ => negb (continuesLineBreak d)
  end.

(** The characters that occur in no token. *)
Definition separator (c : ascii) : bool :=
  forallb (fun t => Str.allb (fun d => negb (Ascii.eqb d c)) t) Regex.suffixTokens.

(** The rows that the reader of the collection [key] serves in [w]; no row
    when the reader fails. *)
Definition rowsOf (key : string) (w : World) : list record :=
  valueOr [] (fst (Reader.getCollection key w)).

(** The reader of the collection [key] answers in [w]. *)
Definition readable (key : string) (w : World) : bool :=
  returned (fst (Reader.getCollection key w)).

(** Between [w] and [w'] no writer was called and no cache invalidated, and
    the store is as it was. *)
Definition nothingWritten (w w' : World) : Prop :=
  sheet w' = sheet w /\ trace w' = trace w.

(** A status that one of the three counters of the dashboard counts. *)
Definition countedStatus (c : record) : bool :=
  (negb (JS.truthy (JS.get c "status"))
   || JS.strictEq (JS.get c "status") (SStr "Pending")
   || JS.strictEq (JS.get c "status") (SStr "Processed")
   || JS.strictEq (JS.get c "status") (SStr "Dropped"))%bool.

(** The value [v] is a text that contains [term], letter case apart. *)
Definition mentions (term : string) (v : scalar) : bool :=
  match v with
  | SStr s => Str.includes (Str.toLowerCase s) (Str.toLowerCase term)
  | _ => false
  end.

(** A card that has a name or a company. *)
Definition named (c : record) : bool :=
  JS.truthy (JS.or (JS.get c "name") (JS.get c "company")).

(** [w'] is [w] after some reads: the caches may have been filled, every
    reader serves what it served, and the rest of the world is as it was. *)
Definition afterReads (w w' : World) : Prop :=
  (forall key, fst (Reader.getCollection key w') = fst (Reader.getCollection key w)) /\
  sheet w' = sheet w /\ trace w' = trace w /\ writerDown w' = writerDown w /\
  sqlContacts w' = sqlContacts w /\ weeklyRepo w' = weeklyRepo w /\
  systemConfig w' = systemConfig w /\ localeDate w' = localeDate w /\
  dateTable w' = dateTable w.

(** A computation that only reads: it answers [val w] when [ok w] holds and
    rejects otherwise, and leaves the world as reads do. *)
Definition readsOnly {A} (m : M A) (ok : World -> bool) (val : World -> A) : Prop :=
  forall w, exists o w',
    m w = (o, w') /\ afterReads w w' /\
    if ok w then o = Returned (val w) else exists e, o = Thrown e.

(** A quantity that reads do not change. *)
Definition stableUnderReads {A} (f : World -> A) : Prop :=
  forall w w', afterReads w w' -> f w' = f w.

(** An active link of the opportunity to the contact [c]. *)
Definition linksTo (opportunityId : scalar) (c : record) (link : record) : bool :=
  (JS.strictEq (JS.get link "opportunityId") opportunityId
   && JS.strictEq (JS.get link "status") (SStr "active")
   && JS.strictEq (JS.get link "contactId") (JS.get c "contactId"))%bool.

(** A card with a picture whose key is that of the contact [name] of the
    company [companyName]. *)
Definition cardFor (name companyName : scalar) (pc : record) : bool :=
  (JS.truthy (JS.get pc "name") && JS.truthy (JS.get pc "company")
   && JS.truthy (JS.get pc "driveLink")
   && String.eqb (ContactService.cardKey (JS.get pc "name") (JS.get pc "company"))
                 (ContactService.cardKey name companyName))%bool.

(** [r] is the object that [getLinkedContacts] builds for the contact [c]:
    nine fields of [c], the name of its company, or the empty text when
    there is none, and the picture of the first card for the contact. *)
Definition linkedCard (companies potentials : list record) (c r : record) : Prop :=
  Forall (fun k => JS.get r k = JS.get c k)
         ["contactId"; "sourceId"; "name"; "companyId"; "department"; "position";
          "mobile"; "phone"; "email"] /\
  (forall n, resolvesIn "companyId" "companyName" companies (JS.get c "companyId") n ->
             JS.get r "companyName" = JS.or n (SStr EmptyString)) /\
  (danglingIn "companyId" companies (JS.get c "companyId") ->
   JS.get r "companyName" = SStr EmptyString) /\
  JS.get r "driveLink" =
    (if (JS.truthy (JS.get c "name") && JS.truthy (JS.get r "companyName"))%bool
     then match JS.find (cardFor (JS.get c "name") (JS.get r "companyName")) potentials with
          | Some pc => JS.get pc "driveLink"
          | None => SStr EmptyString
          end
     else SStr EmptyString).

(** The copy of an interaction that [searchInteractions] returns: the
    interaction with its context name under [opportunityName]. *)
Definition withContext (opportunities companies : list record) (item : record) : record :=
  <[ "opportunityName" :=
       InteractionService.contextName
         (JS.newMap (map (fun o => (JS.get o "opportunityId", JS.get o "opportunityName"))
                         opportunities))
         (JS.newMap (map (fun c => (JS.get c "companyId", JS.get c "companyName")) companies))
         item ]> item.

(** A name that the normalizer accepts: a text, or a falsy value. *)
Definition usableName (v : scalar) : bool :=
  match v with
  | SStr _ => true
  | _ => negb (JS.truthy v)
  end.

(** The two names have the same normalized key. *)
Definition sameKey (a b : scalar) : bool :=
  match normalizeCompanyValue a, normalizeCompanyValue b with
  | Returned x, Returned y => String.eqb x y
  | _, _ => false
  end.

(** The row [r] belongs to the company [companyId] or to one of the
    opportunities [opps]. *)
Definition ofCompany (companyId : scalar) (opps : list record) (r : record) : bool :=
  (JS.strictEq (JS.get r "companyId") companyId
   || (JS.truthy (JS.get r "opportunityId")
       && existsb (fun o => JS.strictEq (JS.get o "opportunityId") (JS.get r "opportunityId"))
                  opps))%bool.

(** The message with which [deleteCompany] refuses. *)
Definition stillReferred (related : list record) : string :=
  ("無法刪除：尚有 " ++ Str.ofZ (Z.of_nat (length related))
   ++ " 個關聯機會案件 (例如: "
   ++ JS.toStr (JS.get (List.hd ∅ related) "opportunityName")
   ++ ")。請先移除關聯案件。")%string.

(** The date under which [getEntriesForWeek] files an entry:
    [entry.entryDate || entry['日期']]. *)
Definition filedUnder (fields : record) : scalar :=
  JS.or (JS.get fields "entryDate") (JS.get fields "日期").

(** An entry of the week from [weekStart] to [weekEnd], with its day. *)
Definition weekEntryOk (weekStart weekEnd : string) (e : WeeklyBusinessService.WeekEntry) : Prop :=
  (exists d day,
     filedUnder (WeeklyBusinessService.fields e) = SStr d /\
     Str.leb weekStart d = true /\ Str.leb d weekEnd = true /\
     -1 <= day <= 6 /\
     JS.get (WeeklyBusinessService.fields e) "day" = SNum day /\
     WeeklyBusinessService._view e = {[ "day" := SNum day ]}).

(** The keys of a weekly entry that [_toServiceDTO] fills from a column
    whose name is not the name of the key. *)
Definition renamedKeys : list string :=
  ["recordId"; "weekId"; "entryDate"; "日期"; "summaryContent"; "內容"; "todoItems"; "追蹤事項";
   "createdTime"; "updatedTime"; "creator"].

(** The opportunity has, under [field], a date of time value [t]. *)
Definition datedAt (parse : string -> option Z) (field : string) (opp : record) (t : Z) : Prop :=
  JS.truthy (JS.get opp field) = true /\ JS.dateTime parse (JS.get opp field) = Some t.

(** The two names have the same normalized key, and it is not empty. *)
Definition sameNonEmptyKey (a b : scalar) : bool :=
  match normalizeCompanyValue a, normalizeCompanyValue b with
  | Returned x, Returned y =>
      (negb (String.eqb x EmptyString) && negb (String.eqb y EmptyString) && String.eqb x y)%bool
  | _, _ => false
  end.

(** Further worlds of the examples. *)
Module Scenario.

(** A row of the table [weekly_business_entries]. *)
Definition sqlRow : item :=
  IRec (Fixture.row [("record_id", SStr "W1"); ("week_id", SStr "2026-W04");
                     ("entry_date", SStr "2026-01-20"); ("category", SStr "visit");
                     ("topic", SStr "Acme"); ("summary_content", SStr "met Alice")]).

(** The repository resolves with rows that the reader of the table has
    mapped. *)
Definition mappedRepo : World :=
  mkWorld (list_to_map [("weeklyBusiness", [Fixture.weeklyRow])])
          ∅
          (Thrown "connect ECONNREFUSED")
          (Some (Returned (PArray (map WeeklyBusinessSqlReader._mapRowToDto [sqlRow]))))
          (Returned (Some ∅))
          false [] "2026/1/30" Fixture.dates.

(** The repository resolves with the rows of the table. *)
Definition rawRepo : World :=
  mkWorld (list_to_map [("weeklyBusiness", [Fixture.weeklyRow])])
          ∅
          (Thrown "connect ECONNREFUSED")
          (Some (Returned (PArray [sqlRow])))
          (Returned (Some ∅))
          false [] "2026/1/30" Fixture.dates.

(** An opportunity in progress whose stage was filled in with the text
    [constructor]. *)
Definition stray : record :=
  Fixture.row [("opportunityId", SStr "O2"); ("opportunityName", SStr "Imported");
               ("currentStatus", SStr "進行中"); ("currentStage", SStr "constructor");
               ("rowIndex", SNum 3)].

(** The CRM of the examples with that opportunity after the deal. *)
Definition strayCrm : World :=
  setSheet (insert "opportunities" [Fixture.deal; stray]) Fixture.crm.

(** The CRM of the examples after a first read of the opportunities. *)
Definition warmCrm : World := snd (Reader.getOpportunities Fixture.crm).

(** Two opportunities with the dates of their creation. *)
Definition early : record :=
  Fixture.row [("opportunityId", SStr "O2"); ("createdTime", SStr "2026-01-20")].

Definition late : record :=
  Fixture.row [("opportunityId", SStr "O3"); ("createdTime", SStr "2026-01-21")].

Definition undated : record :=
  Fixture.row [("opportunityId", SStr "O4"); ("createdTime", SStr "soon")].

Definition pipeline : World :=
  mkWorld (list_to_map [("opportunities", [early; undated; late])])
          ∅
          (Thrown "connect ECONNREFUSED")
          None
          (Returned (Some ∅))
          false [] "2026/1/30" Fixture.dates.

(** Three cards: one processed, one pending, one with a status of its own. *)
Definition desk : World :=
  mkWorld (list_to_map [("contacts",
             [ Fixture.row [("name", SStr "Bob"); ("status", SStr "Processed"); ("rowIndex", SNum 2)];
               Fixture.row [("name", SStr "Carol"); ("rowIndex", SNum 3)];
               Fixture.row [("company", SStr "Acme"); ("status", SStr "On hold");
                            ("rowIndex", SNum 4)] ])])
          ∅
          (Thrown "connect ECONNREFUSED")
          None
          (Returned (Some ∅))
          false [] "2026/1/30" Fixture.dates.

(** Two companies: Acme, met twice, and Beta, which has only the date of
    its creation. *)
Definition beta : record :=
  Fixture.row [("companyId", SStr "COM2"); ("companyName", SStr "Beta");
               ("createdTime", SStr "2026-01-20"); ("rowIndex", SNum 3)].

Definition call1 : record :=
  Fixture.row [("interactionId", SStr "I2"); ("companyId", SStr "COM1");
               ("interactionTime", SStr "2026-01-01T00:00:00Z")].

Definition call2 : record :=
  Fixture.row [("interactionId", SStr "I3"); ("companyId", SStr "COM1");
               ("date", SStr "2026-01-21")].

Definition office : World :=
  mkWorld (list_to_map [("companyList", [beta; Fixture.acme]);
                        ("interactions", [call1; call2]); ("eventLogs", [])])
          ∅
          (Thrown "connect ECONNREFUSED")
          None
          (Returned (Some ∅))
          false [] "2026/1/30" Fixture.dates.

(** [toISOString] on the dates of the examples. *)
Definition isoOf (ts : Z) : string :=
  if (ts =? 1768953600000) then "2026-01-21T00:00:00.000Z"
  else if (ts =? 1768867200000) then "2026-01-20T00:00:00.000Z"
  else "2026-01-01T00:00:00.000Z".

(** Three entries of two weeks; the summary of the second one is blank. *)
Definition metAlice : record :=
  Fixture.row [("recordId", SStr "W1"); ("weekId", SStr "2026-W04");
               ("summaryContent", SStr "met Alice"); ("rowIndex", SNum 2)].

Definition blank : record :=
  Fixture.row [("recordId", SStr "W2"); ("weekId", SStr "2026-W04");
               ("summaryContent", SStr "  "); ("rowIndex", SNum 3)].

Definition plan : record :=
  Fixture.row [("recordId", SStr "W3"); ("weekId", SStr "2026-W05");
               ("summaryContent", SStr "plan"); ("rowIndex", SNum 4)].

Definition journal : World :=
  mkWorld (list_to_map [("weeklyBusiness", [metAlice; blank; plan])])
          ∅
          (Thrown "connect ECONNREFUSED")
          None
          (Returned (Some ∅))
          false [] "2026/1/30" Fixture.dates.

(** Helpers that entitle a week by its identifier, in the sixth week of
    2026. *)
Definition helpers : WeeklyBusinessService.Helpers :=
  {| WeeklyBusinessService.weekInfoOf := fun k => Some (SStr k, SStr EmptyString);
     WeeklyBusinessService.currentWeekId := "2026-W06";
     WeeklyBusinessService.localeCompare :=
       fun a b => if Str.leb a b then (if Str.leb b a then 0 else -1) else 1 |}.

(** The callers of the examples. *)
Definition ann : user := UserObject {[ "displayName" := SStr "Ann" ]}.

End Scenario.


(** The text of a field that holds one; the empty text for the rest. *)
Definition textOf (v : scalar) : string :=
  match v with
  | SStr s => s
  | _ => EmptyString
  end.

(** The five fields that the company list searches are texts, or falsy. *)
Definition searchable (c : record) : bool :=
  forallb (fun k => usableName (JS.get c k))
          ["companyName"; "phone"; "address"; "county"; "introduction"].

(** The company has [q] in one of the five fields: in the phone as it
    is, in the others letter case apart. *)
Definition foundBy (q : string) (c : record) : bool :=
  (Str.includes (Str.toLowerCase (textOf (JS.get c "companyName"))) q
   || Str.includes (textOf (JS.get c "phone")) q
   || Str.includes (Str.toLowerCase (textOf (JS.get c "address"))) q
   || Str.includes (Str.toLowerCase (textOf (JS.get c "county"))) q
   || Str.includes (Str.toLowerCase (textOf (JS.get c "introduction"))) q)%bool.

(** The choice of a drop-down list: no choice, or [all], selects every
    company. *)
Definition chosenBy (filters : record) (key field : string) (c : record) : bool :=
  if (JS.truthy (JS.get filters key)
      && negb (JS.strictEq (JS.get filters key) (SStr "all")))%bool
  then JS.strictEq (JS.get c field) (JS.get filters key)
  else true.

(** The company passes the filters of the company list. *)
Definition passes (filters : record) (c : record) : bool :=
  (match JS.get filters "q" with
   | SStr (String _ _ as s) => foundBy (Str.trim (Str.toLowerCase s)) c
   | _ => true
   end
   && chosenBy filters "type" "companyType" c
   && chosenBy filters "stage" "customerStage" c
   && chosenBy filters "rating" "engagementRating" c)%bool.

(** The time of a row of activity of the company [companyId], when the row
    has a date that parses under [time]. *)
Definition stampOf (parse : string -> option Z) (companyId : scalar)
    (time : record -> scalar) (item : record) : option Z :=
  if (JS.strictEq (JS.get item "companyId") companyId && JS.truthy (time item))%bool
  then JS.dateTime parse (time item)
  else None.

(** The times of the interactions and of the event logs of a company. *)
Definition activityStamps (parse : string -> option Z) (companyId : scalar)
    (interactions eventLogs : list record) : list Z :=
  omap (stampOf parse companyId
          (fun i => JS.or (JS.get i "interactionTime") (JS.get i "date"))) interactions
  ++ omap (stampOf parse companyId (fun e => JS.get e "createdTime")) eventLogs.

(** The last activity of a company: the latest of the times of its
    activity rows when one of them is after the epoch, and otherwise the
    time of its creation; zero when there is none. *)
Definition lastActivityOf (parse : string -> option Z) (interactions eventLogs : list record)
    (c : record) : Z :=
  let latest :=
    if JS.truthy (JS.get c "companyId")
    then foldr Z.max 0 (activityStamps parse (JS.get c "companyId") interactions eventLogs)
    else 0 in
  if (0 <? latest) then latest
  else if JS.truthy (JS.get c "createdTime")
       then default 0 (JS.dateTime parse (JS.get c "createdTime"))
       else 0.

(** The row of the company list for the company [c]. *)
Definition listedWith (toISOString : Z -> string) (ts : Z) (c : record) : record :=
  delete "_sortTs"
    (<[ "lastActivity" := if (ts =? 0) then SNull else SStr (toISOString ts) ]> c).

(** The map of the last activities holds times after the epoch, under
    identifiers that are truthy. *)
Definition activityOk (m : gmap scalar Z) : Prop :=
  forall k v, m !! k = Some v -> 0 < v /\ JS.truthy k = true.

(** The list is in descending order of [key]: no element has a greater key
    than an element before it. *)
Fixpoint descending {A} (key : A -> Z) (l : list A) : Prop :=
  match l with
  | [] => True
  | x :: r => Forall (fun y => key y <= key x) r /\ descending key r
  end.

(** The caller is one whose name can be read: an object or a primitive
    other than [null] and [undefined]. *)
Definition knownUser (u : user) : bool := returned (modifierName u).

(** What [updateCompany] leaves in the interactions when its log is
    written: a record of the company, with the time of the call. *)
Definition companyLogOf (info : record) (now : string) (log : list call) : Prop :=
  exists r,
    log = [WCreate "interactions" r] /\
    JS.get r "companyId" = JS.get info "companyId" /\
    JS.get r "eventTitle" = SStr "資料更新" /\
    JS.get r "interactionTime" = SStr now.

(** The update moves the opportunity from one stage to another; an empty
    stage on either side is no move. *)
Definition movesStage (original updateData : record) : bool :=
  (JS.truthy (JS.get updateData "currentStage")
   && JS.truthy (JS.get original "currentStage")
   && negb (bool_decide (JS.get updateData "currentStage" = JS.get original "currentStage")))%bool.

(** The update gives [field] a value that the opportunity does not have. *)
Definition givesNew (field : string) (original updateData : record) : bool :=
  (negb (bool_decide (JS.get updateData field = SUndef))
   && negb (bool_decide (JS.get updateData field = JS.get original field)))%bool.

(** The update changes something that [updateOpportunity] keeps track of. *)
Definition tracked (original updateData : record) : bool :=
  (movesStage original updateData
   || givesNew "opportunityValue" original updateData
   || givesNew "assignee" original updateData
   || givesNew "expectedCloseDate" original updateData)%bool.

(** The name under which the change log shows the stage [s]: the note of
    the last configured stage of that value, and the value itself when no
    stage is configured for it or its note is empty. *)
Definition stageLabel (stages : list record) (s : scalar) (label : string) : Prop :=
  (exists n, resolvesIn "value" "note" stages s n /\ label = JS.toStr (JS.or n s)) \/
  (danglingIn "value" stages s /\ label = JS.toStr s).

(** The record that [updateOpportunity] leaves in the interactions. *)
Definition changeLogOf (original : record) (modifier : scalar) (now summary : string)
    (r : record) : Prop :=
  JS.get r "opportunityId" = JS.get original "opportunityId" /\
  JS.get r "eventType" = SStr "系統事件" /\
  JS.get r "eventTitle" = SStr "機會資料更新" /\
  JS.get r "recorder" = modifier /\
  JS.get r "interactionTime" = SStr now /\
  JS.get r "contentSummary" = SStr summary.

(** The first company whose name is that of the customer of the
    opportunity, letter case and outer white space apart. *)
Definition customerOf (opportunity company : record) : Prop :=
  exists a b,
    JS.get company "companyName" = SStr a /\ JS.get opportunity "customerCompany" = SStr b /\
    Str.trim (Str.toLowerCase a) = Str.trim (Str.toLowerCase b).

(** Every call of the list creates an interaction. *)
Definition onlyLogs (log : list call) : Prop :=
  Forall (fun c => exists r, c = WCreate "interactions" r) log.

(** What [deleteOpportunity] leaves in the interactions: nothing, or one
    record with a company of the reader whose name is that of the customer
    of the opportunity. *)
Definition deletionLogOf (opportunity : record) (companies : list record) (log : list call)
  : Prop :=
  log = [] \/
  exists company r,
    log = [WCreate "interactions" r] /\
    company ∈ companies /\ customerOf opportunity company /\
    JS.get r "companyId" = JS.get company "companyId" /\
    JS.get r "eventTitle" = SStr "刪除機會案件".

(** The week of an entry, when the entry has a week identifier of the form
    [YYYY-Www]. *)
Definition weekOf (e : item) : option string :=
  match JS.itemGet e "weekId" with
  | SStr s => if WeeklyBusinessService.isWeekId s then Some s else None
  | _ => None
  end.

(** The entry has a summary that is not blank. *)
Definition summarized (e : item) : bool :=
  match JS.itemGet e "summaryContent" with
  | SStr s => negb (String.eqb (Str.trim s) EmptyString)
  | _ => false
  end.

(** The number of the entries of the week [weekId] that have a summary. *)
Definition summariesOf (weekId : string) (entries : list item) : Z :=
  Z.of_nat (length (List.filter (fun e => (bool_decide (weekOf e = Some weekId)
                                           && summarized e)%bool) entries)).

(** The map of the summaries after the entries [entries]: one pair for
    each week of an entry, with the number of its summaries. *)
Definition summaryMapOf (entries : list item) (m : list (string * Z)) : Prop :=
  NoDup (map fst m) /\
  (forall k, k ∈ map fst m <-> exists e, e ∈ entries /\ weekOf e = Some k) /\
  Forall (fun p => p.2 = summariesOf p.1 entries) m.

(** A row of the list of weeks: it has the title and the range that the
    helper gives for its week and the number of the summaries of the week,
    and its week is that of an entry, or the current one. *)
Definition listedWeek (h : WeeklyBusinessService.Helpers) (entries : list item)
    (r : WeeklyBusinessService.WeekSummary) : Prop :=
  WeeklyBusinessService.weekInfoOf h (WeeklyBusinessService.id r)
    = Some (WeeklyBusinessService.title r, WeeklyBusinessService.dateRange r) /\
  WeeklyBusinessService.summaryCount r = summariesOf (WeeklyBusinessService.id r) entries /\
  ((exists e, e ∈ entries /\ weekOf e = Some (WeeklyBusinessService.id r)) \/
   WeeklyBusinessService.id r = WeeklyBusinessService.currentWeekId h).
(* ===================================================================== *)
(** * Properties                                                          *)
(* ===================================================================== *)

(** ** Reasoning about the monad and the readers *)

Ltac unfold_monad :=
  unfold bind, ret, throw, lift, tryCatch, both in *.

(** Closes an equation between closed terms by evaluating its left side. *)
Ltac by_computing :=
  lazymatch goal with
  | |- _ = ?r => vm_cast_no_check (eq_refl r)
  end.

Lemma getCollection_returned key w rows w' :
  Reader.getCollection key w = (Returned rows, w') ->
  (cache w !! key = Some rows /\ w' = w) \/
  (cache w !! key = None /\ sheet w !! key = Some rows /\ w' = setCache (insert key rows) w).
Proof.
  unfold Reader.getCollection.
  destruct (cache w !! key) as [c|] eqn:Hc.
  - intros [= <- <-]. left. split; reflexivity.
  - destruct (sheet w !! key) as [s|] eqn:Hs; intros [= <- <-].
    right. repeat split; reflexivity.
Qed.

Lemma getCollection_thrown key w e w' :
  Reader.getCollection key w = (Thrown e, w') ->
  cache w !! key = None /\ sheet w !! key = None /\ w' = w.
Proof.
  unfold Reader.getCollection.
  destruct (cache w !! key) as [c|] eqn:Hc; [discriminate|].
  destruct (sheet w !! key) as [s|] eqn:Hs; [discriminate|].
  intros [= <- <-]. repeat split; reflexivity.
Qed.

(** After a read that returned, the cache holds the rows that were returned. *)
Lemma getCollection_cached key w rows w' :
  Reader.getCollection key w = (Returned rows, w') ->
  cache w' !! key = Some rows /\ sheet w' = sheet w /\ trace w' = trace w.
Proof.
  intros H. apply getCollection_returned in H as [[Hc ->]|(Hc & Hs & ->)].
  - repeat split; assumption.
  - simpl. rewrite lookup_insert_eq. repeat split; reflexivity.
Qed.

(** ** C1: the preferred read falls back to the sheet reader *)

Lemma fetchOfficialContacts_cases w :
  ContactService.fetchOfficialContacts w =
    match sqlContacts w with
    | Returned (PArray rows) => (Returned rows, w)
    | _ => Reader.getContactList w
    end.
Proof.
  unfold ContactService.fetchOfficialContacts, SqlReader.getContacts.
  unfold_monad. destruct (sqlContacts w) as [[v|rows]|e]; reflexivity.
Qed.

Lemma fetchWeeklyEntries_cases w :
  WeeklyBusinessService._fetchWeeklyEntries false w =
    match weeklyRepo w with
    | Some (Returned (PArray rows)) =>
        (Returned (map WeeklyBusinessService._toServiceDTO rows), w)
    | _ => WeeklyBusinessService.sheetEntries w
    end.
Proof.
  unfold WeeklyBusinessService._fetchWeeklyEntries, SqlReader.findAll.
  destruct (weeklyRepo w) as [[[v|rows]|e]|]; unfold_monad; reflexivity.
Qed.

(** C1.  A READ_PREFERRED fetch whose federated reader throws, or resolves
    with something that is not an array, is the read of the sheet reader:
    same rows, same outcome, and the federated error is not in the result.
    This holds for the official contacts (the fetch of
    [searchOfficialContacts], and so the whole search) and for the weekly
    entries ([_fetchWeeklyEntries] with [forceSheet = false]).  The federated
    rows are returned exactly when the federated reader resolved with an
    array. *)
Theorem read_preferred_falls_back_to_sheet (w : World) :
  (unusable (sqlContacts w) ->
     ContactService.fetchOfficialContacts w = Reader.getContactList w /\
     forall this query page,
       ContactService.searchOfficialContacts this query page w =
       (let* allContacts := Reader.getContactList in
        ContactService.searchOfficialContactsFrom this query page allContacts) w) /\
  (forall rows, sqlContacts w = Returned (PArray rows) ->
     ContactService.fetchOfficialContacts w = (Returned rows, w)) /\
  (forall repo, weeklyRepo w = Some repo -> unusable repo ->
     WeeklyBusinessService._fetchWeeklyEntries false w =
     (let* rows := Reader.getAllEntries in ret (map IRec rows)) w) /\
  (forall rows, weeklyRepo w = Some (Returned (PArray rows)) ->
     WeeklyBusinessService._fetchWeeklyEntries false w =
     (Returned (map WeeklyBusinessService._toServiceDTO rows), w)).
Proof.
  repeat split.
  - rewrite fetchOfficialContacts_cases.
    destruct (sqlContacts w) as [[v|rows]|e]; simpl in *; [reflexivity|contradiction|reflexivity].
  - intros this query page. unfold ContactService.searchOfficialContacts.
    unfold bind at 1. rewrite fetchOfficialContacts_cases.
    destruct (sqlContacts w) as [[v|rows]|e]; simpl in *; [reflexivity|contradiction|reflexivity].
  - intros rows Hs. rewrite fetchOfficialContacts_cases, Hs. reflexivity.
  - intros repo Hr Hu. rewrite fetchWeeklyEntries_cases, Hr.
    destruct repo as [[v|rows]|e]; simpl in *; [reflexivity|contradiction|reflexivity].
  - intros rows Hr. rewrite fetchWeeklyEntries_cases, Hr. reflexivity.
Qed.

Lemma read_preferred_falls_back_witness :
  ContactService.fetchOfficialContacts Fixture.sqlDown = Reader.getContactList Fixture.sqlDown /\
  WeeklyBusinessService._fetchWeeklyEntries false Fixture.sqlDown =
    (let* rows := Reader.getAllEntries in ret (map IRec rows)) Fixture.sqlDown.
Proof.
  destruct (read_preferred_falls_back_to_sheet Fixture.sqlDown) as (H1 & _ & H3 & _).
  split.
  - apply H1. exact I.
  - apply (H3 _ eq_refl). exact I.
Defined.

Example sqlDown_serves_the_sheet :
  fst (ContactService.fetchOfficialContacts Fixture.sqlDown) = Returned [Fixture.alice].
Proof. by_computing. Qed.

(** ** C5: the pagination envelope *)

Lemma ceilDiv_is_ceiling n p :
  0 < p -> exists t, JS.ceilDiv n p = Some t /\ (t - 1) * p < n <= t * p.
Proof.
  intros Hp. unfold JS.ceilDiv.
  destruct (p =? 0) eqn:E; [apply Z.eqb_eq in E; lia|].
  eexists. split; [reflexivity|].
  pose proof (Z.div_mod (- n) p ltac:(lia)) as Hd.
  pose proof (Z.mod_pos_bound (- n) p Hp) as Hm.
  nia.
Qed.

Lemma slice_length_le {A} (l : list A) (from size : Z) :
  0 <= size -> Z.of_nat (length (JS.slice l from (from + size))) <= size.
Proof.
  intros Hs. unfold JS.slice, JS.relIndex.
  rewrite length_take.
  destruct (from <? 0) eqn:E1, (from + size <? 0) eqn:E2;
    try apply Z.ltb_lt in E1; try apply Z.ltb_ge in E1;
    try apply Z.ltb_lt in E2; try apply Z.ltb_ge in E2; lia.
Qed.

Lemma slice_take_drop {A} (l : list A) (from size : Z) :
  0 <= from -> 0 <= size ->
  JS.slice l from (from + size) = firstn (Z.to_nat size) (skipn (Z.to_nat from) l).
Proof.
  intros Hf Hs. unfold JS.slice, JS.relIndex.
  destruct (from <? 0) eqn:E1; [apply Z.ltb_lt in E1; lia|].
  destruct (from + size <? 0) eqn:E2; [apply Z.ltb_lt in E2; lia|].
  set (len := Z.of_nat (length l)).
  assert (Hlen : len = Z.of_nat (length l)) by reflexivity.
  destruct (Z_le_gt_dec len from) as [Hge|Hlt].
  - replace (Z.min from len) with len by lia.
    replace (Z.min (from + size) len) with len by lia.
    rewrite !drop_ge by lia. rewrite !take_nil. reflexivity.
  - replace (Z.min from len) with from by lia.
    destruct (Z_le_gt_dec (from + size) len) as [Hin|Hout].
    + replace (Z.min (from + size) len) with (from + size) by lia. f_equal. lia.
    + replace (Z.min (from + size) len) with len by lia.
      rewrite !take_ge; [reflexivity| |]; rewrite length_drop; lia.
Qed.

Lemma contact_paginate_law pageSize page filtered :
  0 < pageSize ->
  pagination_law pageSize page filtered (ContactService.paginate pageSize page filtered).
Proof.
  intros Hp. unfold pagination_law, ContactService.paginate. simpl.
  repeat split; try reflexivity.
  - apply ceilDiv_is_ceiling. assumption.
  - intros H. apply Z.ltb_lt in H. lia.
  - intros H. apply Z.ltb_lt. lia.
  - intros H. apply Z.gtb_lt in H. lia.
  - intros H. apply Z.gtb_lt. lia.
  - apply slice_length_le. lia.
  - intros H1. apply slice_take_drop; nia.
Qed.

Lemma interaction_paginate_law pageSize page filtered :
  0 < pageSize ->
  pagination_law pageSize page filtered
    (InteractionService.paginate pageSize page false filtered).
Proof.
  intros Hp. unfold pagination_law, InteractionService.paginate. simpl.
  repeat split; try reflexivity.
  - apply ceilDiv_is_ceiling. assumption.
  - intros H. apply Z.ltb_lt in H. lia.
  - intros H. apply Z.ltb_lt. lia.
  - intros H. apply Z.gtb_lt in H. lia.
  - intros H. apply Z.gtb_lt. lia.
  - apply slice_length_le. lia.
  - intros H1. apply slice_take_drop; nia.
Qed.

(** What [searchOfficialContacts] returns is the envelope of the list that
    its join and filter produced from the collections it fetched. *)
Lemma searchOfficialContacts_returned this query page w env w' :
  ContactService.searchOfficialContacts this query page w = (Returned env, w') ->
  exists allContacts w1 allCompanies filtered,
    ContactService.fetchOfficialContacts w = (Returned allContacts, w1) /\
    Reader.getCompanyList w1 = (Returned allCompanies, w') /\
    ContactService.joinAndFilter query allContacts allCompanies = Returned filtered /\
    env = ContactService.paginate (ContactService.pageSizeOf this) page filtered.
Proof.
  unfold ContactService.searchOfficialContacts, ContactService.searchOfficialContactsFrom.
  unfold_monad.
  destruct (ContactService.fetchOfficialContacts w) as [[allContacts|e] w1] eqn:Hf; [|discriminate].
  destruct (Reader.getCompanyList w1) as [[allCompanies|e] w2] eqn:Hc; [|discriminate].
  destruct (ContactService.joinAndFilter query allContacts allCompanies) as [filtered|e] eqn:Hj;
    [|discriminate].
  intros [= <- <-]. exists allContacts, w1, allCompanies, filtered. auto.
Qed.

Lemma setCache_dateParse f w : dateParse (setCache f w) = dateParse w.
Proof. reflexivity. Qed.

Lemma getCollection_dateParse key w o w' :
  Reader.getCollection key w = (o, w') -> dateParse w' = dateParse w.
Proof.
  unfold Reader.getCollection.
  destruct (cache w !! key); [intros [= <- <-]; reflexivity|].
  destruct (sheet w !! key); intros [= <- <-]; reflexivity.
Qed.

(** What [searchInteractions] returns, in the same way. *)
Lemma searchInteractions_returned this query page fetchAll w env w' :
  InteractionService.searchInteractions this query page fetchAll w = (Returned env, w') ->
  exists interactions w1 opportunities w2 companies filtered,
    Reader.getInteractions w = (Returned interactions, w1) /\
    Reader.getOpportunities w1 = (Returned opportunities, w2) /\
    Reader.getCompanyList w2 = (Returned companies, w') /\
    InteractionService.joinFilterSort (dateParse w) query interactions opportunities companies
      = Returned filtered /\
    env = InteractionService.paginate (InteractionService.pageSizeOf this) page fetchAll filtered.
Proof.
  unfold InteractionService.searchInteractions. unfold_monad.
  destruct (Reader.getInteractions w) as [ri w1] eqn:H1.
  destruct (Reader.getOpportunities w1) as [ro w2] eqn:H2.
  destruct (Reader.getCompanyList w2) as [rc w3] eqn:H3.
  pose proof (getCollection_dateParse _ _ _ _ H1) as D1.
  pose proof (getCollection_dateParse _ _ _ _ H2) as D2.
  pose proof (getCollection_dateParse _ _ _ _ H3) as D3.
  destruct ro as [opportunities|e], rc as [companies|e'], ri as [interactions|e''];
    try discriminate.
  destruct (InteractionService.joinFilterSort (dateParse w3) query interactions opportunities
              companies) as [filtered|e] eqn:Hj; [|discriminate].
  intros [= <- <-].
  exists interactions, w1, opportunities, w2, companies, filtered.
  rewrite <- D1, <- D2, <- D3. auto.
Qed.

(** C5.  A paginated search result obeys the pagination law with respect to
    the filtered list [filtered] that the search computed and the page size
    [P > 0] of its view: [totalItems] is the length [N] of [filtered],
    [total] is the ceiling of [N / P], [hasNext] holds exactly when
    [current * P < N], [hasPrev] exactly when [current > 1], and [data] is
    the slice of [filtered] from [(current - 1) * P], of at most [P]
    elements (for [current >= 1]: [P] elements taken after dropping
    [(current - 1) * P]).  This is [searchOfficialContacts], and
    [searchInteractions] in its paginated mode ([fetchAll = false]). *)
Theorem paginated_search_obeys_pagination_law :
  (forall this query page w env w',
     0 < ContactService.pageSizeOf this ->
     ContactService.searchOfficialContacts this query page w = (Returned env, w') ->
     exists allContacts w1 allCompanies filtered,
       ContactService.fetchOfficialContacts w = (Returned allContacts, w1) /\
       Reader.getCompanyList w1 = (Returned allCompanies, w') /\
       ContactService.joinAndFilter query allContacts allCompanies = Returned filtered /\
       pagination_law (ContactService.pageSizeOf this) page filtered env) /\
  (forall this query page w env w',
     0 < InteractionService.pageSizeOf this ->
     InteractionService.searchInteractions this query page false w = (Returned env, w') ->
     exists interactions w1 opportunities w2 companies filtered,
       Reader.getInteractions w = (Returned interactions, w1) /\
       Reader.getOpportunities w1 = (Returned opportunities, w2) /\
       Reader.getCompanyList w2 = (Returned companies, w') /\
       InteractionService.joinFilterSort (dateParse w) query interactions opportunities companies
         = Returned filtered /\
       pagination_law (InteractionService.pageSizeOf this) page filtered env).
Proof.
  split.
  - intros this query page w env w' Hp H.
    apply searchOfficialContacts_returned in H
      as (allContacts & w1 & allCompanies & filtered & Hf & Hc & Hj & ->).
    exists allContacts, w1, allCompanies, filtered.
    repeat split; try assumption; apply contact_paginate_law; assumption.
  - intros this query page w env w' Hp H.
    apply searchInteractions_returned in H
      as (interactions & w1 & opportunities & w2 & companies & filtered & H1 & H2 & H3 & Hj & ->).
    exists interactions, w1, opportunities, w2, companies, filtered.
    repeat split; try assumption; apply interaction_paginate_law; assumption.
Qed.

(** ** C8: the context name of an interaction *)

Lemma newMap_snoc pairs k v :
  JS.newMap (pairs ++ [(k, v)]) = <[ k := v ]> (JS.newMap pairs).
Proof. unfold JS.newMap. rewrite fold_left_app. reflexivity. Qed.

Lemma newMap_lookup_None pairs k :
  JS.newMap pairs !! k = None <-> Forall (fun p => p.1 <> k) pairs.
Proof.
  induction pairs as [|[k' v'] pairs IH] using rev_ind.
  - split; [constructor|]. intros _. apply lookup_empty.
  - rewrite newMap_snoc, Forall_app, Forall_singleton. simpl.
    destruct (decide (k' = k)) as [->|Hne].
    + rewrite lookup_insert_eq. split; [discriminate|]. intros [_ H]. contradiction.
    + rewrite lookup_insert_ne by assumption. rewrite IH. tauto.
Qed.

Lemma newMap_lookup_Some pairs k v :
  JS.newMap pairs !! k = Some v <->
  exists before after, pairs = before ++ (k, v) :: after /\ Forall (fun p => p.1 <> k) after.
Proof.
  induction pairs as [|[k' v'] pairs IH] using rev_ind.
  - split.
    + unfold JS.newMap. simpl. rewrite lookup_empty. discriminate.
    + intros (before & after & H & _). destruct before; discriminate.
  - rewrite newMap_snoc.
    destruct (decide (k' = k)) as [->|Hne].
    + rewrite lookup_insert_eq. split.
      * intros [= ->]. exists pairs, []. split; [reflexivity|constructor].
      * intros (before & after & H & Hafter).
        destruct after as [|p after _] using rev_ind.
        -- simpl in H. apply app_inj_tail in H as [_ H]. congruence.
        -- rewrite app_comm_cons, app_assoc in H. apply app_inj_tail in H as [_ H].
           apply Forall_app in Hafter as [_ Hp]. apply Forall_inv in Hp.
           subst p. simpl in Hp. congruence.
    + rewrite lookup_insert_ne by assumption. rewrite IH. split.
      * intros (before & after & -> & Hafter).
        exists before, (after ++ [(k', v')]). split.
        -- rewrite <- app_assoc. reflexivity.
        -- apply Forall_app. split; [assumption|]. apply Forall_singleton. assumption.
      * intros (before & after & H & Hafter).
        destruct after as [|p after _] using rev_ind.
        -- simpl in H. apply app_inj_tail in H as [_ H]. congruence.
        -- rewrite app_comm_cons, app_assoc in H. apply app_inj_tail in H as [H1 H2].
           subst pairs p. apply Forall_app in Hafter as [Hafter _].
           exists before, after. split; [reflexivity|assumption].
Qed.

(** The lookups of a map built from rows, in terms of the rows. *)
Lemma rowMap_dangling idField nameField rows id :
  JS.newMap (map (fun o => (JS.get o idField, JS.get o nameField)) rows) !! id = None <->
  danglingIn idField rows id.
Proof.
  rewrite newMap_lookup_None. unfold danglingIn. rewrite Forall_map. reflexivity.
Qed.

Lemma rowMap_resolves idField nameField rows id n :
  JS.newMap (map (fun o => (JS.get o idField, JS.get o nameField)) rows) !! id = Some n <->
  resolvesIn idField nameField rows id n.
Proof.
  rewrite newMap_lookup_Some. unfold resolvesIn. split.
  - intros (before & after & H & Hafter).
    apply map_eq_app in H as (before' & rest & -> & <- & H).
    apply map_eq_cons in H as (o & after' & -> & [= Hid Hn] & <-).
    exists before', o, after'. rewrite Forall_map in Hafter. auto.
  - intros (before & o & after & -> & Hid & Hn & Hafter).
    exists (map (fun o => (JS.get o idField, JS.get o nameField)) before),
           (map (fun o => (JS.get o idField, JS.get o nameField)) after).
    rewrite map_app. simpl. rewrite Hid, Hn, Forall_map. auto.
Qed.



(** The sort, the filter and the slice only rearrange or drop elements. *)
Lemma insertSorted_perm {A} (cmp : A -> A -> option Z) x l :
  JS.insertSorted cmp x l ≡ₚ x :: l.
Proof.
  induction l as [|y l IH]; simpl; [reflexivity|].
  destruct (JS.sortCompare cmp x y <=? 0); [reflexivity|].
  rewrite IH. apply Permutation_swap.
Qed.

Lemma sort_perm {A} (cmp : A -> A -> option Z) l : JS.sort cmp l ≡ₚ l.
Proof.
  induction l as [|x l IH]; simpl; [reflexivity|].
  rewrite insertSorted_perm, IH. reflexivity.
Qed.


Lemma slice_subseteq {A} (l : list A) from to x : x ∈ JS.slice l from to -> x ∈ l.
Proof.
  unfold JS.slice. intros H.
  apply subseteq_take in H. apply subseteq_drop in H. exact H.
Qed.

Lemma joinContext_copies oppMap compMap item :
  InteractionService.joinContext oppMap compMap item =
  <[ "opportunityName" := InteractionService.contextName oppMap compMap item ]> item.
Proof.
  unfold InteractionService.joinContext, JS.spread.
  rewrite (left_id_L ∅ (∪)). reflexivity.
Qed.








(** ** C9: the merge of [updatePotentialContact] *)

Lemma findIndexFrom_Some {A} (p : A -> bool) i l j x :
  JS.findIndexFrom p i l = Some (j, x) ->
  (i <= j)%nat /\ l !! (j - i)%nat = Some x /\ p x = true.
Proof.
  revert i. induction l as [|y l IH]; simpl; intros i; [discriminate|].
  destruct (p y) eqn:Hp.
  - intros [= <- <-]. rewrite Nat.sub_diag. auto.
  - intros H. apply IH in H as (Hle & Hl & Hx).
    split; [lia|]. split; [|assumption].
    replace (j - i)%nat with (S (j - S i)) by lia. exact Hl.
Qed.

Lemma find_Some {A} (p : A -> bool) l x :
  JS.find p l = Some x -> x ∈ l /\ p x = true.
Proof.
  unfold JS.find. destruct (JS.findIndexFrom p 0 l) as [[j y]|] eqn:H; [|discriminate].
  intros [= <-]. apply findIndexFrom_Some in H as (_ & Hl & Hp).
  split; [|assumption]. eapply list_elem_of_lookup_2. exact Hl.
Qed.

Lemma string_app_cons x (a b : string) : (String x a ++ b = String x (a ++ b))%string.
Proof. reflexivity. Qed.

Lemma string_app_assoc (a b c : string) : ((a ++ b) ++ c = a ++ (b ++ c))%string.
Proof.
  induction a as [|x a IH]; [reflexivity|].
  rewrite !string_app_cons, IH. reflexivity.
Qed.

Lemma natDigits_S fuel n acc :
  Str.natDigits (S fuel) n acc =
  if (n / 10 =? 0)%nat then String (Str.digitChar (n mod 10)) acc
  else Str.natDigits fuel (n / 10) (String (Str.digitChar (n mod 10)) acc).
Proof. reflexivity. Qed.

Lemma natDigits_nonempty fuel n c acc :
  exists c' r, Str.natDigits fuel n (String c acc) = String c' r.
Proof.
  revert n c acc. induction fuel as [|f IH]; intros n c acc; [simpl; eauto|].
  rewrite natDigits_S. destruct (_ =? _)%nat; [eauto|]. apply IH.
Qed.

Lemma ofNat_nonempty n : String.eqb (Str.ofNat n) EmptyString = false.
Proof.
  unfold Str.ofNat. rewrite natDigits_S. destruct (_ =? _)%nat; [reflexivity|].
  destruct (natDigits_nonempty n (n / 10) (Str.digitChar (n mod 10)) EmptyString)
    as (c' & r & ->).
  reflexivity.
Qed.

Lemma truthy_toStr_nonempty v : JS.truthy v = true -> String.eqb (JS.toStr v) EmptyString = false.
Proof.
  destruct v as [| |[]|n|s]; simpl; try discriminate; try reflexivity.
  - intros _. unfold Str.ofZ. destruct (n <? 0); [reflexivity|]. apply ofNat_nonempty.
  - destruct s; [discriminate|reflexivity].
Qed.

(** The merged row, field by field. *)
Lemma mergePotentialContact_fields target updateData modifier today :
  JS.truthy (JS.get updateData "notes") = true ->
  let stored := ContactService.mergePotentialContact target updateData modifier today in
  stored !! "notes" =
    Some (SStr (existingNotes target ++ noteSeparator (existingNotes target)
                ++ noteMarker modifier today ++ JS.toStr (JS.get updateData "notes"))%string) /\
  (forall k, k <> "notes" ->
     stored !! k = match updateData !! k with Some v => Some v | None => target !! k end).
Proof.
  intros Hn. unfold ContactService.mergePotentialContact. rewrite Hn. simpl. split.
  - rewrite lookup_insert_eq. do 2 f_equal.
    unfold existingNotes, noteSeparator, noteMarker, ContactService.newNoteEntry, JS.or.
    destruct (JS.truthy (JS.get target "notes")) eqn:Ht.
    + rewrite Ht. rewrite (truthy_toStr_nonempty _ Ht). simpl.
      rewrite !string_app_assoc. reflexivity.
    + simpl. rewrite !string_app_assoc. reflexivity.
  - intros k Hk. rewrite lookup_insert_ne by congruence.
    unfold JS.spread. rewrite lookup_union.
    destruct (updateData !! k), (target !! k); reflexivity.
Qed.

(** What a successful [updatePotentialContact] did. *)
Lemma updatePotentialContact_returned rowIndex updateData modifier w res w' :
  ContactService.updatePotentialContact rowIndex updateData modifier w = (Returned res, w') ->
  exists allContacts w1 target n,
    Reader.getContacts w = (Returned allContacts, w1) /\
    target ∈ allContacts /\
    JS.parseInt rowIndex = Some n /\ JS.get target "rowIndex" = SNum n /\
    writerDown w1 = false /\
    trace w' = trace w ++
      [WUpdateRow "contacts" rowIndex
         (ContactService.mergePotentialContact target updateData modifier (localeDate w));
       RInvalidate "contacts"].
Proof.
  unfold ContactService.updatePotentialContact. unfold bind at 1.
  destruct (Reader.getContacts w) as [[allContacts|e] w1] eqn:Hr; [|discriminate].
  destruct (JS.find _ allContacts) as [target|] eqn:Hf; [|discriminate].
  apply find_Some in Hf as [Hin Hp].
  destruct (JS.parseInt rowIndex) as [n|] eqn:Hn; [|discriminate].
  unfold JS.strictEq in Hp. apply bool_decide_eq_true in Hp.
  unfold_monad. unfold Writer.updateAt, Reader.invalidateCache.
  destruct (writerDown w1) eqn:Hd; [discriminate|].
  intros [= <- <-].
  exists allContacts, w1, target, n.
  apply getCollection_cached in Hr as Hc. destruct Hc as (_ & _ & Ht).
  assert (Hdate : localeDate w1 = localeDate w).
  { apply getCollection_returned in Hr as [[_ ->]|(_ & _ & ->)]; reflexivity. }
  repeat split; try assumption.
  simpl. rewrite Ht, Hdate, <- app_assoc. reflexivity.
Qed.

(** C9.  When [updatePotentialContact] succeeds with a truthy (non-empty)
    [notes] in the update, the row handed to the writer has as [notes] the
    existing notes, a line feed when there were any, the generated marker
    [[modifier date] ] and the new notes, in this order, so that the
    existing notes are kept; every other field of the update overwrites the
    field of the existing row, and the fields that the update does not give
    are those of the existing row. *)
Theorem potential_contact_notes_are_appended :
  forall rowIndex updateData modifier w res w',
    JS.truthy (JS.get updateData "notes") = true ->
    ContactService.updatePotentialContact rowIndex updateData modifier w = (Returned res, w') ->
    exists allContacts w1 target stored,
      Reader.getContacts w = (Returned allContacts, w1) /\
      target ∈ allContacts /\
      JS.parseInt (JS.get target "rowIndex") = JS.parseInt rowIndex /\
      trace w' = trace w ++ [WUpdateRow "contacts" rowIndex stored; RInvalidate "contacts"] /\
      stored !! "notes" =
        Some (SStr (existingNotes target ++ noteSeparator (existingNotes target)
                    ++ noteMarker modifier (localeDate w)
                    ++ JS.toStr (JS.get updateData "notes"))%string) /\
      (forall k v, k <> "notes" -> updateData !! k = Some v -> stored !! k = Some v) /\
      (forall k, k <> "notes" -> updateData !! k = None -> stored !! k = target !! k).
Proof.
  intros rowIndex updateData modifier w res w' Hn H.
  apply updatePotentialContact_returned in H
    as (allContacts & w1 & target & n & Hr & Hin & Hp & Hrow & _ & Ht).
  destruct (mergePotentialContact_fields target updateData modifier (localeDate w) Hn)
    as [Hnotes Hother].
  exists allContacts, w1, target,
    (ContactService.mergePotentialContact target updateData modifier (localeDate w)).
  repeat split; try eassumption.
  - rewrite Hrow, Hp. reflexivity.
  - intros k v Hk Hu. rewrite (Hother k Hk), Hu. reflexivity.
  - intros k Hk Hu. rewrite (Hother k Hk), Hu. reflexivity.
Qed.

(** ** C10: [createCompany] on a name that is already there *)

Lemma findM_Some {A} (p : A -> outcome bool) l x :
  JS.findM p l = Returned (Some x) -> x ∈ l /\ p x = Returned true.
Proof.
  induction l as [|y l IH]; simpl; [discriminate|].
  destruct (p y) as [[]|e] eqn:Hp; [| |discriminate].
  - intros [= <-]. split; [left|assumption].
  - intros H. apply IH in H as [Hin Hx]. split; [right; assumption|assumption].
Qed.

Lemma findM_None {A} (p : A -> outcome bool) l :
  JS.findM p l = Returned None -> Forall (fun x => p x = Returned false) l.
Proof.
  induction l as [|y l IH]; simpl; [constructor|].
  destruct (p y) as [[]|e] eqn:Hp; [discriminate| |discriminate].
  intros H. constructor; [assumption|apply IH; assumption].
Qed.

Lemma findM_finds {A} (p : A -> outcome bool) l :
  Forall (fun x => exists b, p x = Returned b) l ->
  (exists x, x ∈ l /\ p x = Returned true) ->
  exists y, JS.findM p l = Returned (Some y).
Proof.
  induction l as [|y l IH]; intros Hall (x & Hin & Hx).
  - apply elem_of_nil in Hin. contradiction.
  - apply Forall_cons in Hall as [[b Hy] Hall]. simpl. rewrite Hy.
    destruct b; [eauto|].
    apply IH; [assumption|]. exists x. split; [|assumption].
    apply elem_of_cons in Hin as [->|Hin]; [congruence|assumption].
Qed.

(** The test of the duplicate scan, in terms of normalized names. *)
Lemma sameNormalizedName_true key c :
  (match CompanyService._normalizeCompanyName (JS.get c "companyName") with
   | Thrown e => Thrown e
   | Returned n => Returned (String.eqb n key)
   end) = Returned true <->
  CompanyService._normalizeCompanyName (JS.get c "companyName") = Returned key.
Proof.
  destruct (CompanyService._normalizeCompanyName (JS.get c "companyName")) as [n|e].
  - split.
    + intros [= H]. apply String.eqb_eq in H. congruence.
    + intros [= ->]. rewrite String.eqb_refl. reflexivity.
  - split; discriminate.
Qed.

Lemma getCollection_same_store key w o w' :
  Reader.getCollection key w = (o, w') ->
  sheet w' = sheet w /\ trace w' = trace w /\ writerDown w' = writerDown w.
Proof.
  unfold Reader.getCollection.
  destruct (cache w !! key); [intros [= <- <-]; auto|].
  destruct (sheet w !! key); intros [= <- <-]; auto.
Qed.

(** C10.  When the normalized name of the company to create is the
    normalized name of a company that the reader returned, [createCompany]
    returns [success: true] and [existed: true] with the first such company
    as [data] (its id and name beside it); the authoritative store and the
    trace of writer and invalidation calls are what they were, and the cache
    still holds the collection.  Conversely a call that wrote or invalidated
    anything found no company with that normalized name. *)
Theorem create_company_returns_existing_match :
  forall companyName companyData u w,
    (forall modifier companies w1 key,
       CompanyService.modifierOf u = Returned modifier ->
       Reader.getCompanyList w = (Returned companies, w1) ->
       CompanyService._normalizeCompanyName companyName = Returned key ->
       Forall (fun c => exists n,
                 CompanyService._normalizeCompanyName (JS.get c "companyName") = Returned n)
              companies ->
       (exists c, c ∈ companies /\
          CompanyService._normalizeCompanyName (JS.get c "companyName") = Returned key) ->
       exists existing,
         CompanyService.createCompany companyName companyData u w =
           (Returned (CompanyService.Existing true (JS.get existing "companyId")
                        (JS.get existing "companyName") "公司已存在" true existing), w1) /\
         existing ∈ companies /\
         CompanyService._normalizeCompanyName (JS.get existing "companyName") = Returned key /\
         sheet w1 = sheet w /\ trace w1 = trace w /\
         cache w1 !! "companyList" = Some companies) /\
    (forall r w',
       CompanyService.createCompany companyName companyData u w = (r, w') ->
       trace w' <> trace w \/ sheet w' <> sheet w ->
       exists companies w1 key,
         Reader.getCompanyList w = (Returned companies, w1) /\
         CompanyService._normalizeCompanyName companyName = Returned key /\
         Forall (fun c => CompanyService._normalizeCompanyName (JS.get c "companyName")
                          <> Returned key) companies).
Proof.
  intros companyName companyData u w. split.
  - intros modifier companies w1 key Hm Hr Hk Hall Hex.
    destruct (findM_finds
                (fun c => match CompanyService._normalizeCompanyName (JS.get c "companyName") with
                          | Thrown e => Thrown e
                          | Returned n => Returned (String.eqb n key)
                          end) companies) as [existing Hf].
    + eapply Forall_impl; [exact Hall|]. intros c [n Hn]. simpl. rewrite Hn. eauto.
    + destruct Hex as (c & Hin & Hc). exists c. split; [assumption|].
      apply sameNormalizedName_true. assumption.
    + exists existing.
      pose proof (findM_Some _ _ _ Hf) as [Hin Htrue].
      apply sameNormalizedName_true in Htrue.
      apply getCollection_cached in Hr as Hc. destruct Hc as (Hcache & Hsheet & Htrace).
      repeat split; try assumption.
      unfold CompanyService.createCompany. unfold_monad.
      rewrite Hm, Hr, Hk.
      unfold CompanyService.findByNormalizedName. rewrite Hf. reflexivity.
  - intros r w' H Hchanged.
    unfold CompanyService.createCompany in H. unfold_monad.
    destruct (CompanyService.modifierOf u) as [modifier|e].
    2:{ injection H as <- <-. exfalso. destruct Hchanged as [Hc|Hc]; apply Hc; reflexivity. }
    destruct (Reader.getCompanyList w) as [[companies|e] w1] eqn:Hr.
    2:{ injection H as <- <-. apply getCollection_same_store in Hr as (Hs & Ht & _).
        exfalso. destruct Hchanged as [Hc|Hc]; apply Hc; assumption. }
    pose proof (getCollection_same_store _ _ _ _ Hr) as (Hs & Ht & _).
    destruct (CompanyService._normalizeCompanyName companyName) as [key|e] eqn:Hk.
    2:{ injection H as <- <-. exfalso. destruct Hchanged as [Hc|Hc]; apply Hc; assumption. }
    destruct (CompanyService.findByNormalizedName key companies) as [[existing|]|e] eqn:Hf.
    + injection H as <- <-. exfalso. destruct Hchanged as [Hc|Hc]; apply Hc; assumption.
    + exists companies, w1, key. repeat split.
      apply findM_None in Hf. eapply Forall_impl; [exact Hf|].
      intros c Hc Heq. simpl in Hc. rewrite Heq, String.eqb_refl in Hc. discriminate.
    + injection H as <- <-. exfalso. destruct Hchanged as [Hc|Hc]; apply Hc; assumption.
Qed.

(** ** C7: the groups of [getOpportunitiesByStage] *)

Lemma forEachM_app {A B} (f : B -> A -> outcome B) l1 l2 b :
  JS.forEachM f (l1 ++ l2) b =
  match JS.forEachM f l1 b with
  | Thrown e => Thrown e
  | Returned b' => JS.forEachM f l2 b'
  end.
Proof.
  revert b. induction l1 as [|x l1 IH]; intros b; simpl; [reflexivity|].
  destruct (f b x); [apply IH|reflexivity].
Qed.

Lemma configuredKey_spec stages k :
  configuredKey stages k = true <-> exists stage, stage ∈ stages /\ stageKey stage = k.
Proof.
  unfold configuredKey. rewrite existsb_exists. split.
  - intros (stage & Hin & Hk). apply String.eqb_eq in Hk.
    exists stage. split; [apply list_elem_of_In; exact Hin|exact Hk].
  - intros (stage & Hin & Hk). exists stage.
    split; [apply list_elem_of_In; exact Hin|apply String.eqb_eq; exact Hk].
Qed.

Lemma configuredKey_app stages stage k :
  configuredKey (stages ++ [stage]) k
  = (configuredKey stages k || String.eqb (stageKey stage) k)%bool.
Proof. unfold configuredKey. rewrite existsb_app. simpl. rewrite orb_false_r. reflexivity. Qed.

(** The groups after the initialization: one own group, without members,
    for each configured key other than [__proto__], and a prototype group
    exactly when [__proto__] is configured. *)
Lemma initStages_lookup stages k :
  let G := fold_left OpportunityService.initStage stages OpportunityService.emptyObject in
  (is_Some (OpportunityService.proto G) <-> configuredKey stages "__proto__" = true) /\
  match OpportunityService.own G !! k with
  | None => k = "__proto__" \/ configuredKey stages k = false
  | Some g =>
      k <> "__proto__" /\
      OpportunityService.opportunities g = [] /\ OpportunityService.count g = 0 /\
      exists stage, stage ∈ stages /\ stageKey stage = k /\
        OpportunityService.name g = JS.or (JS.get stage "note") (JS.get stage "value")
  end.
Proof.
  induction stages as [|s stages IH] using rev_ind.
  - simpl. split.
    + split; [intros [g Hg]; discriminate Hg|discriminate].
    + rewrite lookup_empty. right. reflexivity.
  - cbv zeta in *. rewrite fold_left_app. simpl.
    set (G := fold_left OpportunityService.initStage stages OpportunityService.emptyObject) in *.
    destruct IH as [IHp IHo].
    unfold OpportunityService.initStage at 1 2. fold (stageKey s).
    rewrite !configuredKey_app.
    destruct (String.eqb (stageKey s) "__proto__") eqn:Ep; cbn [OpportunityService.own
      OpportunityService.proto].
    + apply String.eqb_eq in Ep. split.
      * rewrite orb_true_r. split; [reflexivity|]. intros _. eexists. reflexivity.
      * destruct (OpportunityService.own G !! k) as [g|].
        -- destruct IHo as (Hk & Ho & Hc & stage & Hin & Hs & Hn).
           repeat split; try assumption.
           exists stage. split; [apply elem_of_app; left; exact Hin|]. auto.
        -- destruct IHo as [->|Hk]; [left; reflexivity|].
           destruct (String.eqb (stageKey s) k) eqn:Ek.
           ++ apply String.eqb_eq in Ek. left. congruence.
           ++ right. rewrite Hk. reflexivity.
    + apply String.eqb_neq in Ep. split.
      * rewrite orb_false_r. exact IHp.
      * destruct (decide (stageKey s = k)) as [<-|Hne].
        -- rewrite lookup_insert_eq. split; [exact Ep|]. cbn. split; [reflexivity|].
           split; [reflexivity|].
           exists s. split; [apply elem_of_app; right; left|]. auto.
        -- rewrite lookup_insert_ne by assumption.
           apply String.eqb_neq in Hne. rewrite Hne, orb_false_r.
           destruct (OpportunityService.own G !! k) as [g|].
           ++ destruct IHo as (Hk & Ho & Hc & stage & Hin & Hs & Hn).
              repeat split; try assumption.
              exists stage. split; [apply elem_of_app; left; exact Hin|]. auto.
           ++ exact IHo.
Qed.

Lemma initStages_withinStages stages :
  withinStages stages
    (fold_left OpportunityService.initStage stages OpportunityService.emptyObject).
Proof.
  split.
  - intros k [g Hg]. pose proof (initStages_lookup stages k) as [_ H]. cbv zeta in H.
    rewrite Hg in H. destruct H as (_ & _ & _ & stage & Hin & Hk & _).
    apply configuredKey_spec. eauto.
  - intros H. apply (initStages_lookup stages "__proto__"). exact H.
Qed.

Lemma classify_withinStages stages G opp G' :
  withinStages stages G -> OpportunityService.classify G opp = Returned G' ->
  withinStages stages G'.
Proof.
  intros [Ho Hp]. unfold OpportunityService.classify.
  destruct (JS.strictEq _ _); [|intros [= <-]; split; assumption].
  set (key := JS.toStr (JS.get opp "currentStage")).
  destruct (OpportunityService.getProperty G key) as [g|g|[]] eqn:E; intros [= <-];
    try (split; assumption).
  - split; [|exact Hp]. cbn. intros k Hk.
    destruct (decide (key = k)) as [<-|Hne].
    + apply Ho. unfold OpportunityService.getProperty in E.
      destruct (OpportunityService.own G !! key) as [g0|]; [eexists; reflexivity|].
      repeat match type of E with
             | (if ?c then _ else _) = _ => destruct c
             | match ?c with _ => _ end = _ => destruct c
             end; discriminate E.
    + rewrite lookup_insert_ne in Hk by assumption. apply Ho. exact Hk.
  - split; [exact Ho|]. cbn. intros _. apply Hp.
    unfold OpportunityService.getProperty in E.
    destruct (OpportunityService.own G !! key); [discriminate E|].
    destruct (OpportunityService.proto G) as [g0|]; [eexists; reflexivity|].
    repeat match type of E with
           | (if ?c then _ else _) = _ => destruct c
           end; discriminate E.
Qed.

(** On a stray opportunity the body of the loop throws. *)
Lemma classify_stray stages G opp :
  withinStages stages G -> strayStage stages opp = true ->
  exists e, OpportunityService.classify G opp = Thrown e.
Proof.
  intros [Ho Hp]. unfold strayStage, inProgress, stageKeyOf, inheritedKey.
  intros H. apply andb_true_iff in H as [H Hinh]. apply andb_true_iff in H as [Hprog Hnot].
  apply negb_true_iff in Hnot.
  unfold OpportunityService.classify. rewrite Hprog.
  set (key := JS.toStr (JS.get opp "currentStage")) in *.
  unfold OpportunityService.getProperty.
  destruct (OpportunityService.own G !! key) as [g|] eqn:E.
  { rewrite Ho in Hnot by (eexists; exact E). discriminate Hnot. }
  destruct (String.eqb key "__proto__") eqn:Ep.
  - apply String.eqb_eq in Ep. rewrite Ep in Hnot.
    destruct (OpportunityService.proto G) as [g|] eqn:Eg.
    + rewrite Hp in Hnot by (eexists; reflexivity). discriminate Hnot.
    + eexists. reflexivity.
  - cbn [orb] in Hinh. rewrite Hinh. eexists. reflexivity.
Qed.

Lemma forEach_stray stages opps G :
  withinStages stages G ->
  (exists opp, opp ∈ opps /\ strayStage stages opp = true) ->
  exists e, JS.forEachM OpportunityService.classify opps G = Thrown e.
Proof.
  revert G. induction opps as [|x opps IH]; intros G HG (opp & Hin & Hs).
  - inversion Hin.
  - simpl. destruct (OpportunityService.classify G x) as [G'|e] eqn:E; [|eauto].
    apply IH; [exact (classify_withinStages _ _ _ _ HG E)|].
    apply elem_of_cons in Hin as [->|Hin]; [|eauto].
    destruct (classify_stray stages G x HG Hs) as [e He]. congruence.
Qed.

(** The loop, when no opportunity is stray and [__proto__] is no configured
    key: each own group receives, in their order, the opportunities in
    progress of its key. *)
Lemma classify_lookup stages opps G :
  OpportunityService.proto G = None ->
  (forall k, is_Some (OpportunityService.own G !! k) <-> configuredKey stages k = true) ->
  Forall (fun opp => strayStage stages opp = false) opps ->
  exists G',
    JS.forEachM OpportunityService.classify opps G = Returned G' /\
    OpportunityService.proto G' = None /\
    forall k,
      OpportunityService.own G' !! k =
      match OpportunityService.own G !! k with
      | None => None
      | Some g =>
          Some {| OpportunityService.name := OpportunityService.name g;
                  OpportunityService.opportunities :=
                    OpportunityService.opportunities g ++ List.filter (inStage k) opps;
                  OpportunityService.count :=
                    OpportunityService.count g
                    + Z.of_nat (length (List.filter (inStage k) opps)) |}
      end.
Proof.
  intros Hp Hdom Hall. revert G Hp Hdom.
  induction Hall as [|opp opps Hopp _ IH]; intros G Hp Hdom.
  - exists G. split; [reflexivity|]. split; [exact Hp|]. intros k. simpl.
    destruct (OpportunityService.own G !! k) as [[n o c]|]; [|reflexivity]. simpl.
    rewrite app_nil_r, Z.add_0_r. reflexivity.
  - assert (Hf : forall k, List.filter (inStage k) (opp :: opps)
                 = if inStage k opp then opp :: List.filter (inStage k) opps
                   else List.filter (inStage k) opps) by reflexivity.
    assert (Hin : forall k, inStage k opp
                  = (inProgress opp && String.eqb (stageKeyOf opp) k)%bool) by reflexivity.
    cbn [JS.forEachM]. unfold OpportunityService.classify at 1.
    fold (inProgress opp). fold (stageKeyOf opp).
    unfold strayStage, inheritedKey in Hopp.
    destruct (inProgress opp); cbn [andb] in *.
    2:{ destruct (IH G Hp Hdom) as (G' & Hrun & Hp' & Hk). exists G'.
        split; [exact Hrun|]. split; [exact Hp'|]. intros k. rewrite Hk, Hf, Hin.
        reflexivity. }
    set (key := stageKeyOf opp) in *.
    unfold OpportunityService.getProperty.
    destruct (OpportunityService.own G !! key) as [g|] eqn:E.
    + set (G1 := {| OpportunityService.own := _ |}).
      destruct (IH G1) as (G' & Hrun & Hp' & Hk).
      * exact Hp.
      * intros k. rewrite <- Hdom. unfold G1. cbn.
        destruct (decide (key = k)) as [<-|Hne].
        -- rewrite lookup_insert_eq, E. split; intros _; eexists; reflexivity.
        -- rewrite lookup_insert_ne by assumption. reflexivity.
      * exists G'. split; [exact Hrun|]. split; [exact Hp'|]. intros k.
        rewrite Hk, Hf, Hin. unfold G1. cbn.
        destruct (String.eqb key k) eqn:Ek.
        -- apply String.eqb_eq in Ek. subst k. rewrite lookup_insert_eq, E. cbn.
           rewrite <- app_assoc. cbn. do 2 f_equal. lia.
        -- apply String.eqb_neq in Ek. rewrite lookup_insert_ne by assumption. reflexivity.
    + assert (configuredKey stages key = false) as Hnot.
      { destruct (configuredKey stages key) eqn:Ec; [|reflexivity].
        apply Hdom in Ec as [g Hg]. congruence. }
      rewrite Hnot in Hopp. cbn [negb andb] in Hopp.
      apply orb_false_iff in Hopp as [H1 H2]. rewrite H1, H2, Hp.
      destruct (IH G Hp Hdom) as (G' & Hrun & Hp' & Hk).
      exists G'. split; [exact Hrun|]. split; [exact Hp'|]. intros k. rewrite Hk, Hf, Hin.
      destruct (String.eqb key k) eqn:Ek; [|reflexivity].
      apply String.eqb_eq in Ek. subst k. rewrite E. reflexivity.
Qed.

(** C7.  [getOpportunitiesByStage] does not always emit a group for each
    configured stage.  When its two reads return and the stage of some
    opportunity in progress is no configured stage but a key that a plain
    object inherits ([constructor], [toString], [__proto__], ...), the value
    found under that key is no group, [.opportunities.push] throws, and the
    [catch] returns the empty object: no configured stage has a group in
    the result, whatever the stages and the other opportunities are. *)
Theorem stage_groups_are_lost_on_an_inherited_key :
  forall w opps w1 cfg opp,
    Reader.getOpportunities w = (Returned opps, w1) ->
    systemConfig w = Returned (Some cfg) ->
    opp ∈ opps ->
    strayStage (default [] (cfg !! "機會階段")) opp = true ->
    OpportunityService.getOpportunitiesByStage w
      = (Returned OpportunityService.emptyObject, w1).
Proof.
  intros w opps w1 cfg opp Hr Hcfg Hin Hstray.
  set (stages := default [] (cfg !! "機會階段")) in *.
  assert (Hsys : systemConfig w1 = Returned (Some cfg)).
  { apply getCollection_returned in Hr as [[_ ->]|(_ & _ & ->)]; assumption. }
  destruct (forEach_stray stages opps _ (initStages_withinStages stages)) as [e He];
    [eauto|].
  unfold OpportunityService.getOpportunitiesByStage, Reader.getSystemConfig.
  unfold_monad. rewrite Hr, Hsys. fold stages. rewrite He. reflexivity.
Qed.

(** ** C2: read after write *)

(** The preferred read of the contacts asks the federated reader first, and
    no write reaches it: after [updateContact] changed the name of contact
    C1, the fetch still returns the federated row with the old name. *)
Lemma preferred_read_misses_the_write : ~ read_after_write_as_stated.
Proof.
  intros H.
  assert (Hret : returned (fst (ContactService.updateContact (SStr "C1")
                   {[ "name" := SStr "Alicia" ]} SNull Fixture.sqlUp)) = true)
    by by_computing.
  assert (Hfetch : fst (ContactService.fetchOfficialContacts
                     (snd (ContactService.updateContact (SStr "C1")
                             {[ "name" := SStr "Alicia" ]} SNull Fixture.sqlUp)))
                   = Returned [Fixture.aliceSql])
    by by_computing.
  assert (Hname : Fixture.aliceSql !! "name" = Some (SStr "Alice")) by by_computing.
  destruct (ContactService.updateContact (SStr "C1") {[ "name" := SStr "Alicia" ]} SNull
              Fixture.sqlUp) as [[res|e] w'] eqn:Hu; [|discriminate Hret].
  destruct (H _ _ _ _ _ _ Hu) as (rows & w'' & Hf & r & Hin & _ & Hv).
  cbn [fst snd] in Hfetch. rewrite Hf in Hfetch. cbn [fst] in Hfetch.
  injection Hfetch as ->.
  apply list_elem_of_singleton in Hin. subst r.
  specialize (Hv "name" (SStr "Alicia") (lookup_singleton_eq _ _)).
  rewrite Hname in Hv. discriminate Hv.
Qed.

Lemma handleOf_number n r : JS.get r "rowIndex" = SNum n -> Writer.handleOf (SNum n) r = true.
Proof.
  intros H. unfold Writer.handleOf. simpl. rewrite H.
  unfold JS.strictEq. apply bool_decide_eq_true. reflexivity.
Qed.

(** What a successful [updateContact] did. *)
Lemma updateContact_returned contactId updateData user w res w' :
  ContactService.updateContact contactId updateData user w = (Returned res, w') ->
  exists allContacts w1 target,
    Reader.getContactList w = (Returned allContacts, w1) /\
    target ∈ allContacts /\ JS.get target "contactId" = contactId /\
    JS.truthy (JS.get target "rowIndex") = true /\
    w' = logCall (RInvalidate "contactList")
           (setCache (delete "contactList")
              (logCall (WUpdateRow "contactList" (JS.get target "rowIndex") updateData)
                 (setSheet (alter (map (fun r => if Writer.handleOf (JS.get target "rowIndex") r
                                                 then JS.spread r updateData else r))
                                  "contactList") w1))).
Proof.
  unfold ContactService.updateContact. unfold bind at 1.
  destruct (Reader.getContactList w) as [[allContacts|e] w1] eqn:Hr; [|discriminate].
  destruct (JS.find _ allContacts) as [target|] eqn:Hf; [|discriminate].
  apply find_Some in Hf as [Hin Hp].
  unfold JS.strictEq in Hp. apply bool_decide_eq_true in Hp.
  destruct (JS.truthy (JS.get target "rowIndex")) eqn:Ht; simpl; [|discriminate].
  unfold_monad. unfold Writer.updateAt, Reader.invalidateCache.
  destruct (writerDown w1) eqn:Hd; [discriminate|].
  intros [= <- <-]. exists allContacts, w1, target. auto.
Qed.

(** C2, amended.  A successful [updateContact] has invalidated the cache of
    the contact list before it returns (the writer call and then the
    invalidation are the two calls it made).  When the federated reader
    cannot be used, the next preferred fetch reads the authoritative store
    and returns the row of the contact with the fields of the update written
    over it; when the federated reader answers with an array, the fetch
    returns that array, which the update did not touch.  The cache is
    assumed to agree with the store before the update, and the rows of the
    store to carry their row numbers. *)
Theorem update_contact_is_read_back_from_the_sheet :
  forall contactId updateData user w res w',
    cacheCoherent "contactList" w ->
    handlesAreNumbers "contactList" w ->
    ContactService.updateContact contactId updateData user w = (Returned res, w') ->
    exists allContacts w1 target,
      Reader.getContactList w = (Returned allContacts, w1) /\
      target ∈ allContacts /\ JS.get target "contactId" = contactId /\
      cache w' !! "contactList" = None /\
      trace w' = trace w ++ [WUpdateRow "contactList" (JS.get target "rowIndex") updateData;
                             RInvalidate "contactList"] /\
      sqlContacts w' = sqlContacts w /\
      (unusable (sqlContacts w) ->
         exists rows w'',
           ContactService.fetchOfficialContacts w' = (Returned rows, w'') /\
           sheet w' !! "contactList" = Some rows /\
           JS.spread target updateData ∈ rows) /\
      (forall rows, sqlContacts w = Returned (PArray rows) ->
         ContactService.fetchOfficialContacts w' = (Returned rows, w')).
Proof.
  intros contactId updateData user w res w' Hcoh Hnum H.
  apply updateContact_returned in H as (allContacts & w1 & target & Hr & Hin & Hid & Ht & ->).
  exists allContacts, w1, target.
  assert (Hsheet : sheet w !! "contactList" = Some allContacts).
  { apply getCollection_returned in Hr as [[Hc _]|(_ & Hs & _)]; [apply Hcoh|]; assumption. }
  assert (Hsql : sqlContacts w1 = sqlContacts w).
  { apply getCollection_returned in Hr as [[_ ->]|(_ & _ & ->)]; reflexivity. }
  pose proof (getCollection_same_store _ _ _ _ Hr) as (Hs1 & Ht1 & _).
  destruct (proj1 (Forall_forall _ _) (Hnum _ Hsheet) target Hin) as [n Hn].
  repeat split; try assumption.
  - simpl. apply lookup_delete_eq.
  - simpl. rewrite Ht1, <- app_assoc. reflexivity.
  - intros Hun.
    exists (map (fun r => if Writer.handleOf (JS.get target "rowIndex") r
                          then JS.spread r updateData else r) allContacts).
    eexists. split; [|split].
    + rewrite fetchOfficialContacts_cases. simpl. rewrite Hsql.
      destruct (sqlContacts w) as [[v|rows]|e]; simpl in Hun; try contradiction;
        unfold Reader.getContactList, Reader.getCollection; simpl;
        rewrite lookup_delete_eq, lookup_alter_eq, Hs1, Hsheet; reflexivity.
    + simpl. rewrite lookup_alter_eq, Hs1, Hsheet. reflexivity.
    + apply list_elem_of_fmap. exists target. split; [|assumption].
      rewrite Hn, (handleOf_number n target Hn). reflexivity.
  - intros rows Hrows. rewrite fetchOfficialContacts_cases. simpl.
    rewrite Hsql, Hrows. reflexivity.
Qed.

(** ** C4: reads and the cached records *)

(** C4, at a failing input.  [getOpportunityDetails] assigns
    [mainContactJobTitle] on the opportunity object that the reader
    returned: the call returns, and after it the cached row has the field,
    the store has not, and the next read returns the changed row, where a
    read before the call returned the row of the store. *)
Lemma opportunity_details_writes_into_the_cache :
  returned (fst (OpportunityService.getOpportunityDetails (SStr "O1") Fixture.crm)) = true /\
  sheet (snd (OpportunityService.getOpportunityDetails (SStr "O1") Fixture.crm))
    !! "opportunities" = Some [Fixture.deal] /\
  cache (snd (OpportunityService.getOpportunityDetails (SStr "O1") Fixture.crm))
    !! "opportunities" = Some [<[ "mainContactJobTitle" := SStr "CTO" ]> Fixture.deal] /\
  fst (Reader.getOpportunities
         (snd (OpportunityService.getOpportunityDetails (SStr "O1") Fixture.crm)))
    = Returned [<[ "mainContactJobTitle" := SStr "CTO" ]> Fixture.deal] /\
  fst (Reader.getOpportunities Fixture.crm) = Returned [Fixture.deal].
Proof. repeat split; by_computing. Qed.

Lemma getCollection_keeps_cache key w o w' k rows :
  Reader.getCollection key w = (o, w') ->
  cache w !! k = Some rows -> cache w' !! k = Some rows.
Proof.
  unfold Reader.getCollection.
  destruct (cache w !! key) eqn:Hc; [intros [= <- <-]; auto|].
  destruct (sheet w !! key); intros [= <- <-]; [|auto].
  intros Hk. simpl. rewrite lookup_insert_ne; [assumption|]. congruence.
Qed.

(** X21. [searchInteractions] works on copies: whatever it returns, every
    collection that was cached is cached unchanged, and the store and the
    trace are what they were. *)
Lemma searchInteractions_keeps_cache this query page fetchAll w o w' :
  InteractionService.searchInteractions this query page fetchAll w = (o, w') ->
  (forall k rows, cache w !! k = Some rows -> cache w' !! k = Some rows) /\
  sheet w' = sheet w /\ trace w' = trace w.
Proof.
  unfold InteractionService.searchInteractions. unfold_monad.
  destruct (Reader.getInteractions w) as [ri w1] eqn:H1.
  destruct (Reader.getOpportunities w1) as [ro w2] eqn:H2.
  destruct (Reader.getCompanyList w2) as [rc w3] eqn:H3.
  pose proof (getCollection_same_store _ _ _ _ H1) as (S1 & T1 & _).
  pose proof (getCollection_same_store _ _ _ _ H2) as (S2 & T2 & _).
  pose proof (getCollection_same_store _ _ _ _ H3) as (S3 & T3 & _).
  assert (Hkeep : forall k rows, cache w !! k = Some rows -> cache w3 !! k = Some rows).
  { intros k rows Hk.
    eapply getCollection_keeps_cache; [exact H3|].
    eapply getCollection_keeps_cache; [exact H2|].
    eapply getCollection_keeps_cache; [exact H1|]. exact Hk. }
  assert (Hst : sheet w3 = sheet w /\ trace w3 = trace w) by (split; congruence).
  destruct ri as [interactions|e1], ro as [opportunities|e2], rc as [companies|e3];
    try (intros [= <- <-]; split; [exact Hkeep|exact Hst]).
  destruct (InteractionService.joinFilterSort _ _ _ _ _) as [filtered|e];
    intros [= <- <-]; (split; [exact Hkeep|exact Hst]).
Qed.

(** ** C6: descending date sorts and invalid dates *)

Lemma insert_keeps_invalid_last {A} (valid : A -> bool) cmp x (good bad : list A) :
  guardsInvalid valid cmp ->
  Forall (fun r => valid r = true) good -> Forall (fun r => valid r = false) bad ->
  exists good' bad',
    JS.insertSorted cmp x (good ++ bad) = good' ++ bad' /\
    Forall (fun r => valid r = true) good' /\ Forall (fun r => valid r = false) bad'.
Proof.
  intros [Hright Hleft] Hgood Hbad.
  induction Hgood as [|y good Hy Hgood IH]; simpl.
  - destruct (valid x) eqn:Hx.
    + exists [x], bad. repeat split; [|repeat constructor; assumption|assumption].
      destruct bad as [|b bad]; [reflexivity|]. simpl.
      apply Forall_cons in Hbad as [Hb _].
      destruct (JS.sortCompare cmp x b <=? 0) eqn:E; [reflexivity|].
      apply Z.leb_gt in E. specialize (Hright x b Hb). lia.
    + exists [], (JS.insertSorted cmp x bad). repeat split; [constructor|].
      rewrite insertSorted_perm. constructor; assumption.
  - destruct (JS.sortCompare cmp x y <=? 0) eqn:E.
    + destruct (valid x) eqn:Hx.
      * exists (x :: y :: good), bad. repeat split; [|assumption].
        repeat constructor; assumption.
      * apply Z.leb_le in E. specialize (Hleft x y Hx Hy). lia.
    + destruct IH as (good' & bad' & Heq & Hg & Hb).
      exists (y :: good'), bad'. rewrite Heq. repeat split; [|assumption].
      constructor; assumption.
Qed.

Lemma guarded_sort_puts_invalid_last {A} (valid : A -> bool) cmp (l : list A) :
  guardsInvalid valid cmp ->
  exists good bad,
    JS.sort cmp l = good ++ bad /\
    Forall (fun r => valid r = true) good /\ Forall (fun r => valid r = false) bad.
Proof.
  intros Hg. induction l as [|x l IH]; simpl.
  - exists [], []. repeat split; constructor.
  - destruct IH as (good & bad & -> & Hgood & Hbad).
    apply insert_keeps_invalid_last; assumption.
Qed.

Lemma byCreatedTimeDesc_guards parse :
  guardsInvalid (hasDate parse "createdTime") (ContactService.byCreatedTimeDesc parse).
Proof.
  unfold guardsInvalid, hasDate, JS.sortCompare, ContactService.byCreatedTimeDesc.
  split; intros a b.
  - intros Hb. apply bool_decide_eq_false in Hb.
    destruct (JS.dateTime parse (JS.get b "createdTime")); [exfalso; eauto|]. lia.
  - intros Ha Hb. apply bool_decide_eq_false in Ha. apply bool_decide_eq_true in Hb.
    destruct Hb as [tb ->].
    destruct (JS.dateTime parse (JS.get a "createdTime")); [exfalso; eauto|]. lia.
Qed.

Lemma byInteractionTimeDesc_guards parse :
  guardsInvalid (hasDate parse "interactionTime") (InteractionService.byInteractionTimeDesc parse).
Proof.
  unfold guardsInvalid, hasDate, JS.sortCompare, InteractionService.byInteractionTimeDesc.
  split; intros a b.
  - intros Hb. apply bool_decide_eq_false in Hb.
    destruct (JS.dateTime parse (JS.get b "interactionTime")); [exfalso; eauto|]. lia.
  - intros Ha Hb. apply bool_decide_eq_false in Ha. apply bool_decide_eq_true in Hb.
    destruct Hb as [tb ->].
    destruct (JS.dateTime parse (JS.get a "interactionTime")); [exfalso; eauto|]. lia.
Qed.

Lemma take_drop_keeps_invalid_last parse field (l : list record) n m :
  invalidDatesLast parse field l -> invalidDatesLast parse field (take n (drop m l)).
Proof.
  intros (good & bad & -> & Hg & Hb).
  exists (take n (drop m good)), (take (n - length (drop m good)) (drop (m - length good) bad)).
  rewrite drop_app, take_app. repeat split.
  - apply Forall_take, Forall_drop. assumption.
  - apply Forall_take, Forall_drop. assumption.
Qed.

Lemma filter_keeps_invalid_last parse field (p : record -> bool) (l : list record) :
  invalidDatesLast parse field l -> invalidDatesLast parse field (List.filter p l).
Proof.
  intros (good & bad & -> & Hg & Hb).
  exists (List.filter p good), (List.filter p bad). rewrite List.filter_app.
  repeat split; eapply Forall_forall; intros r Hr;
    apply list_elem_of_In, List.filter_In in Hr as [Hr _]; apply list_elem_of_In in Hr.
  - eapply Forall_forall in Hg; eassumption.
  - eapply Forall_forall in Hb; eassumption.
Qed.

(** X20. The two sorts with guards.  What [getPotentialContacts] returns, and
    the [data] of what [searchInteractions] returns, have every record with
    a valid date before every record whose date does not parse. *)
Theorem guarded_sorts_order_invalid_dates_last :
  (forall limit w rows w',
     ContactService.getPotentialContacts limit w = (Returned rows, w') ->
     invalidDatesLast (dateParse w) "createdTime" rows) /\
  (forall this query page fetchAll w env w',
     InteractionService.searchInteractions this query page fetchAll w = (Returned env, w') ->
     invalidDatesLast (dateParse w) "interactionTime" (data env)).
Proof.
  split.
  - intros limit w rows w'. unfold ContactService.getPotentialContacts. unfold_monad.
    destruct (Reader.getContacts w) as [[contacts|e] w1] eqn:Hr; [|discriminate].
    apply getCollection_dateParse in Hr as Hd. rewrite Hd.
    intros [= <- <-].
    pose proof (guarded_sort_puts_invalid_last _ _
                  (List.filter (fun c => JS.truthy (JS.or (JS.get c "name") (JS.get c "company")))
                               contacts)
                  (byCreatedTimeDesc_guards (dateParse w))) as Hs.
    destruct (limit >? 0); [|exact Hs].
    unfold JS.slice. apply take_drop_keeps_invalid_last. exact Hs.
  - intros this query page fetchAll w env w' H.
    apply searchInteractions_returned in H
      as (interactions & w1 & opportunities & w2 & companies & filtered & _ & _ & _ & Hj & ->).
    assert (Hs : invalidDatesLast (dateParse w) "interactionTime" filtered).
    { unfold InteractionService.joinFilterSort in Hj.
      destruct (if JS.truthy (SStr query) then _ else _) as [rs|e]; [|discriminate].
      injection Hj as <-.
      apply guarded_sort_puts_invalid_last, byInteractionTimeDesc_guards. }
    unfold InteractionService.paginate. destruct fetchAll; simpl; [exact Hs|].
    unfold JS.slice. apply take_drop_keeps_invalid_last. exact Hs.
Qed.

(** C6, at a failing input.  The sort of the weekly entries has no guard.
    For the week of 2026-01-19 and two entries of that week, the first of
    which has no [日期] (an invalid date) and the second a valid one, the
    comparator gives NaN, the sort leaves the order as it is, and
    [getEntriesForWeek] returns the entry with the invalid date first.  On
    the same kind of input the guarded sort of [getPotentialContacts] puts
    the record with the valid date first. *)
Lemma weekly_sort_leaves_invalid_date_first :
  JS.dateTime (dateParse Fixture.weekly) (JS.get Fixture.entryWithoutDate "日期") = None /\
  JS.dateTime (dateParse Fixture.weekly) (JS.get Fixture.entryWithDate "日期")
    = Some 1768953600000 /\
  WeeklyBusinessService.byDateDesc (dateParse Fixture.weekly)
    (IRec Fixture.entryWithoutDate) (IRec Fixture.entryWithDate) = None /\
  map (fun e => JS.get (WeeklyBusinessService.fields e) "recordId")
      (valueOr [] (fst (WeeklyBusinessService.getEntriesForWeek Fixture.weekHelpers "2026-W04"
                          Fixture.weekly)))
    = [SStr "W1"; SStr "W2"] /\
  map (fun c => JS.get c "name")
      (valueOr [] (fst (ContactService.getPotentialContacts 2000 Fixture.cards)))
    = [SStr "Carol"; SStr "Bob"].
Proof. repeat split; by_computing. Qed.

(** ** C3: the company-name normalizer *)

(** The names of the claim get different keys: the tokens that the
    normalizer removes are the three Chinese ones, so that [Co., Ltd.]
    stays in the first key, which is not the second. *)
Lemma english_suffix_tokens_are_kept :
  CompanyService._normalizeCompanyName (SStr "ABC Co., Ltd. (Taiwan)") <>
  CompanyService._normalizeCompanyName (SStr "abc co. (taiwan)").
Proof.
  assert (H1 : CompanyService._normalizeCompanyName (SStr "ABC Co., Ltd. (Taiwan)")
               = Returned "abc co., ltd.") by by_computing.
  assert (H2 : CompanyService._normalizeCompanyName (SStr "abc co. (taiwan)")
               = Returned "abc co.") by by_computing.
  rewrite H1, H2. discriminate.
Qed.

Lemma toLowerCase_app a b :
  Str.toLowerCase (a ++ b) = (Str.toLowerCase a ++ Str.toLowerCase b)%string.
Proof.
  induction a as [|c a IH]; [reflexivity|].
  rewrite string_app_cons. simpl. rewrite IH. reflexivity.
Qed.

Lemma lowerChar_space c : Str.isSpace c = true -> Str.lowerChar c = c.
Proof.
  unfold Str.isSpace, Str.lowerChar. intros H.
  destruct ((65 <=? nat_of_ascii c)%nat && (nat_of_ascii c <=? 90)%nat) eqn:E; [|reflexivity].
  apply andb_true_iff in E as [E1 E2].
  apply Nat.leb_le in E1. apply Nat.leb_le in E2.
  apply orb_true_iff in H as [H|H].
  - apply andb_true_iff in H as [_ H]. apply Nat.leb_le in H. lia.
  - apply Nat.eqb_eq in H. lia.
Qed.

Lemma toLowerCase_spaces s : Str.allb Str.isSpace s = true -> Str.toLowerCase s = s.
Proof.
  induction s as [|c s IH]; simpl; [reflexivity|].
  intros H. apply andb_true_iff in H as [Hc Hs].
  rewrite (lowerChar_space c Hc), (IH Hs). reflexivity.
Qed.

Lemma trimStart_spaces_app l x :
  Str.allb Str.isSpace l = true -> Str.trimStart (l ++ x) = Str.trimStart x.
Proof.
  induction l as [|c l IH]; [reflexivity|].
  intros H. simpl in H. apply andb_true_iff in H as [Hc Hl].
  rewrite string_app_cons. simpl. rewrite Hc. apply IH. assumption.
Qed.

Lemma trimEnd_spaces r : Str.allb Str.isSpace r = true -> Str.trimEnd r = EmptyString.
Proof.
  induction r as [|c r IH]; simpl; [reflexivity|].
  intros H. apply andb_true_iff in H as [Hc Hr].
  rewrite (IH Hr), Hc. reflexivity.
Qed.

Lemma trimEnd_app_spaces x r :
  Str.allb Str.isSpace r = true -> Str.trimEnd (x ++ r) = Str.trimEnd x.
Proof.
  intros Hr. induction x as [|c x IH].
  - change (EmptyString ++ r)%string with r. rewrite (trimEnd_spaces r Hr). reflexivity.
  - rewrite string_app_cons. simpl. rewrite IH. reflexivity.
Qed.

Lemma trimStart_spaces r : Str.allb Str.isSpace r = true -> Str.trimStart r = EmptyString.
Proof.
  induction r as [|c r IH]; simpl; [reflexivity|].
  intros H. apply andb_true_iff in H as [Hc Hr]. rewrite Hc. apply IH. assumption.
Qed.

Lemma trim_app_spaces x r :
  Str.allb Str.isSpace r = true -> Str.trim (x ++ r) = Str.trim x.
Proof.
  intros Hr. unfold Str.trim. induction x as [|c x IH].
  - change (EmptyString ++ r)%string with r. rewrite (trimStart_spaces r Hr). reflexivity.
  - rewrite string_app_cons. simpl. destruct (Str.isSpace c); [exact IH|].
    rewrite <- string_app_cons. apply trimEnd_app_spaces. assumption.
Qed.

Lemma trim_surrounding_spaces l x r :
  Str.allb Str.isSpace l = true -> Str.allb Str.isSpace r = true ->
  Str.trim (l ++ x ++ r) = Str.trim x.
Proof.
  intros Hl Hr. unfold Str.trim. rewrite (trimStart_spaces_app l _ Hl).
  apply (trim_app_spaces x r Hr).
Qed.

(** C3, amended.  [_normalizeCompanyName] gives the same key to two names
    that differ only by the case of ASCII letters or by white space around
    them.  The tokens it removes are [股份有限公司], [有限公司] and [公司], and
    it removes a parenthesised part, so that for instance
    [台積電股份有限公司] and [台積電], or [ABC公司 (Taiwan)] and [abc], get the
    same key.  It removes no English suffix token: the key of
    [ABC Co., Ltd. (Taiwan)] is [abc co., ltd.] and that of
    [abc co. (taiwan)] is [abc co.]. *)
Theorem company_name_key_ignores_case_and_outer_space :
  (forall a b, Str.toLowerCase a = Str.toLowerCase b ->
     normalizeCompanyText a = normalizeCompanyText b) /\
  (forall l s r, Str.allb Str.isSpace l = true -> Str.allb Str.isSpace r = true ->
     normalizeCompanyText (l ++ s ++ r) = normalizeCompanyText s) /\
  (forall s, CompanyService._normalizeCompanyName (SStr s) = Returned (normalizeCompanyText s) /\
             OpportunityService._normalizeCompanyName (SStr s) = Returned (normalizeCompanyText s)) /\
  normalizeCompanyText "台積電股份有限公司" = normalizeCompanyText "台積電" /\
  normalizeCompanyText "ABC公司 (Taiwan)" = normalizeCompanyText "abc" /\
  normalizeCompanyText "ABC Co., Ltd. (Taiwan)" = "abc co., ltd." /\
  normalizeCompanyText "abc co. (taiwan)" = "abc co.".
Proof.
  split; [|split; [|split; [|repeat split; by_computing]]].
  - intros a b H. unfold normalizeCompanyText. rewrite H. reflexivity.
  - intros l s r Hl Hr. unfold normalizeCompanyText.
    rewrite !toLowerCase_app, (toLowerCase_spaces l Hl), (toLowerCase_spaces r Hr).
    rewrite (trim_surrounding_spaces l _ r Hl Hr). reflexivity.
  - intros s. unfold CompanyService._normalizeCompanyName,
      OpportunityService._normalizeCompanyName, normalizeCompanyValue.
    destruct s as [|c s]; [split; reflexivity|]. split; reflexivity.
Qed.


(** ** The theorems at concrete inputs *)

(** C2: the update of Alice's name is read back from the sheet when the
    federated reader is down. *)
Lemma update_contact_read_back_witness :
  exists rows w'',
    ContactService.fetchOfficialContacts
      (snd (ContactService.updateContact (SStr "C1") {[ "name" := SStr "Alicia" ]} SNull
              Fixture.sqlDown)) = (Returned rows, w'') /\
    JS.spread Fixture.alice {[ "name" := SStr "Alicia" ]} ∈ rows.
Proof.
  assert (Hret : returned (fst (ContactService.updateContact (SStr "C1")
                   {[ "name" := SStr "Alicia" ]} SNull Fixture.sqlDown)) = true)
    by by_computing.
  assert (Hread : fst (Reader.getContactList Fixture.sqlDown) = Returned [Fixture.alice])
    by by_computing.
  assert (Hcache : cache Fixture.sqlDown !! "contactList" = None) by by_computing.
  assert (Hsheet : sheet Fixture.sqlDown !! "contactList" = Some [Fixture.alice])
    by by_computing.
  assert (Hrow : JS.get Fixture.alice "rowIndex" = SNum 2) by by_computing.
  assert (Hcoh : cacheCoherent "contactList" Fixture.sqlDown).
  { intros rows Hc. rewrite Hcache in Hc. discriminate Hc. }
  assert (Hnum : handlesAreNumbers "contactList" Fixture.sqlDown).
  { intros rows Hs. rewrite Hsheet in Hs. injection Hs as <-.
    constructor; [|constructor]. exists 2. exact Hrow. }
  destruct (ContactService.updateContact (SStr "C1") {[ "name" := SStr "Alicia" ]} SNull
              Fixture.sqlDown) as [[res|e] w'] eqn:H; [|discriminate Hret].
  destruct (update_contact_is_read_back_from_the_sheet _ _ _ _ _ _ Hcoh Hnum H)
    as (allContacts & w1 & target & Hr & Hin & _ & _ & _ & _ & Hback & _).
  destruct (Hback I) as (rows & w'' & Hf & _ & Hin').
  rewrite Hr in Hread. cbn [fst] in Hread. injection Hread as ->.
  apply list_elem_of_singleton in Hin. subst target.
  exists rows, w''. cbn [snd]. split; assumption.
Defined.

(** C3: a name in capitals with leading spaces and the same name in small
    letters with trailing spaces. *)
Lemma company_name_key_witness :
  normalizeCompanyText "  ACME Corp" = normalizeCompanyText "acme corp  ".
Proof.
  destruct company_name_key_ignores_case_and_outer_space as (Hcase & Hspace & _).
  transitivity (normalizeCompanyText "ACME Corp").
  - exact (Hspace "  " "ACME Corp" EmptyString eq_refl eq_refl).
  - transitivity (normalizeCompanyText "acme corp").
    + apply Hcase. reflexivity.
    + symmetry. exact (Hspace EmptyString "acme corp" "  " eq_refl eq_refl).
Defined.

(** C5: the first page of a search for [ali], with the default page size. *)
Lemma paginated_search_witness :
  match fst (ContactService.searchOfficialContacts (ContactService.constructor None)
               "ali" 1 Fixture.sqlDown) with
  | Returned env => exists filtered, pagination_law 20 1 filtered env
  | Thrown _ => False
  end.
Proof.
  assert (Hret : returned (fst (ContactService.searchOfficialContacts
                   (ContactService.constructor None) "ali" 1 Fixture.sqlDown)) = true)
    by by_computing.
  destruct (ContactService.searchOfficialContacts (ContactService.constructor None)
              "ali" 1 Fixture.sqlDown) as [[env|e] w'] eqn:H; [|discriminate Hret].
  destruct paginated_search_obeys_pagination_law as [Hlaw _].
  assert (Hsize : 0 < ContactService.pageSizeOf (ContactService.constructor None))
    by reflexivity.
  destruct (Hlaw _ _ _ _ _ _ Hsize H) as (_ & _ & _ & filtered & _ & _ & _ & Hf).
  cbn [fst]. exists filtered. exact Hf.
Defined.

(** C7: with three configured stages, the deal in the first of them and an
    opportunity in progress whose stage reads [constructor], the method
    returns the empty object: not one of the three groups is there. *)
Lemma stage_groups_lost_witness :
  length (default [] (Fixture.stagesConfig !! "機會階段")) = 3%nat /\
  fst (OpportunityService.getOpportunitiesByStage Scenario.strayCrm)
    = Returned OpportunityService.emptyObject /\
  OpportunityService.own OpportunityService.emptyObject !! "Closed" = None.
Proof.
  assert (Hread : fst (Reader.getOpportunities Scenario.strayCrm)
                  = Returned [Fixture.deal; Scenario.stray]) by by_computing.
  assert (Hstray : strayStage (default [] (Fixture.stagesConfig !! "機會階段")) Scenario.stray
                   = true) by by_computing.
  destruct (Reader.getOpportunities Scenario.strayCrm) as [[opps|e] w1] eqn:H;
    [|discriminate Hread].
  cbn [fst] in Hread. injection Hread as ->.
  split; [reflexivity|]. split; [|reflexivity].
  rewrite (stage_groups_are_lost_on_an_inherited_key Scenario.strayCrm _ w1
             Fixture.stagesConfig Scenario.stray H eq_refl
             (list_elem_of_further _ _ _ (list_elem_of_here _ _)) Hstray).
  reflexivity.
Defined.


(** C9: a note is appended to the card of Dan, and his company is changed. *)
Lemma potential_contact_notes_witness :
  exists stored,
    trace (snd (ContactService.updatePotentialContact (SStr "5") Fixture.noteUpdate (SStr "Amy")
                  Fixture.notebook))
      = [WUpdateRow "contacts" (SStr "5") stored; RInvalidate "contacts"] /\
    stored !! "notes" =
      Some (SStr ("met at the fair" ++ String "010"%char "[Amy 2026/1/30] asked for a quote")) /\
    stored !! "company" = Some (SStr "Acme Ltd") /\
    stored !! "name" = Some (SStr "Dan").
Proof.
  assert (Hret : returned (fst (ContactService.updatePotentialContact (SStr "5")
                   Fixture.noteUpdate (SStr "Amy") Fixture.notebook)) = true) by by_computing.
  assert (Hread : fst (Reader.getContacts Fixture.notebook) = Returned [Fixture.cardWithNotes])
    by by_computing.
  assert (Hnew : JS.truthy (JS.get Fixture.noteUpdate "notes") = true) by by_computing.
  assert (Htext :
    (existingNotes Fixture.cardWithNotes ++ noteSeparator (existingNotes Fixture.cardWithNotes)
     ++ noteMarker (SStr "Amy") (localeDate Fixture.notebook)
     ++ JS.toStr (JS.get Fixture.noteUpdate "notes"))%string
    = ("met at the fair" ++ String "010"%char "[Amy 2026/1/30] asked for a quote")%string)
    by by_computing.
  assert (Hcompany : Fixture.noteUpdate !! "company" = Some (SStr "Acme Ltd")) by by_computing.
  assert (Hname : Fixture.noteUpdate !! "name" = None) by by_computing.
  assert (Hdan : Fixture.cardWithNotes !! "name" = Some (SStr "Dan")) by by_computing.
  destruct (ContactService.updatePotentialContact (SStr "5") Fixture.noteUpdate (SStr "Amy")
              Fixture.notebook) as [[res|e] w'] eqn:H; [|discriminate Hret].
  destruct (potential_contact_notes_are_appended _ _ _ _ _ _ Hnew H)
    as (allContacts & w1 & target & stored & Hr & Hin & _ & Ht & Hnotes & Hover & Hkeep).
  rewrite Hr in Hread. cbn [fst] in Hread. injection Hread as ->.
  apply list_elem_of_singleton in Hin. subst target.
  exists stored. cbn [snd]. split; [exact Ht|]. split; [|split].
  - rewrite Hnotes, Htext. reflexivity.
  - apply Hover; [discriminate|exact Hcompany].
  - rewrite Hkeep; [exact Hdan|discriminate|exact Hname].
Defined.

(** C10: Acme is there; creating it under another spelling returns it. *)
Lemma create_company_witness :
  exists existing w1,
    CompanyService.createCompany (SStr "ACME公司 (TW)") ∅ (UserValue (SStr "amy")) Fixture.crm =
      (Returned (CompanyService.Existing true (JS.get existing "companyId")
                   (JS.get existing "companyName") "公司已存在" true existing), w1) /\
    sheet w1 = sheet Fixture.crm /\ trace w1 = trace Fixture.crm.
Proof.
  assert (Hread : fst (Reader.getCompanyList Fixture.crm) = Returned [Fixture.acme])
    by by_computing.
  assert (Hmod : CompanyService.modifierOf (UserValue (SStr "amy"))
                 = Returned (UserValue (SStr "amy"))) by by_computing.
  assert (Hkey : CompanyService._normalizeCompanyName (SStr "ACME公司 (TW)") = Returned "acme")
    by by_computing.
  assert (Hacme : CompanyService._normalizeCompanyName (JS.get Fixture.acme "companyName")
                  = Returned "acme") by by_computing.
  destruct (Reader.getCompanyList Fixture.crm) as [[companies|e] w1] eqn:H;
    [|discriminate Hread].
  cbn [fst] in Hread. injection Hread as ->.
  destruct (create_company_returns_existing_match (SStr "ACME公司 (TW)") ∅
              (UserValue (SStr "amy")) Fixture.crm) as [Hexisting _].
  destruct (Hexisting (UserValue (SStr "amy")) [Fixture.acme] w1 "acme" Hmod H Hkey)
    as (existing & Hc & _ & _ & Hs & Ht & _).
  - constructor; [|constructor]. exists "acme". exact Hacme.
  - exists Fixture.acme. split; [apply list_elem_of_here|exact Hacme].
  - exists existing, w1. auto.
Defined.

(** *** Strings built by appending *)

Lemma string_app_nil_r (a : string) : (a ++ EmptyString)%string = a.
Proof.
  induction a as [|c a IH]; [reflexivity|]. rewrite string_app_cons, IH. reflexivity.
Qed.

Lemma allb_app p a b : Str.allb p (a ++ b) = (Str.allb p a && Str.allb p b)%bool.
Proof.
  induction a as [|c a IH]; [reflexivity|].
  rewrite string_app_cons. simpl. rewrite IH, andb_assoc. reflexivity.
Qed.

Lemma allb_toLowerCase p s :
  (forall c, p (Str.lowerChar c) = p c) -> Str.allb p (Str.toLowerCase s) = Str.allb p s.
Proof.
  intros Hp. induction s as [|c s IH]; simpl; [reflexivity|]. rewrite Hp, IH. reflexivity.
Qed.

Lemma allb_trimStart p s : Str.allb p s = true -> Str.allb p (Str.trimStart s) = true.
Proof.
  induction s as [|c s IH]; simpl; [reflexivity|].
  intros H. destruct (Str.isSpace c); [|exact H].
  apply andb_true_iff in H as [_ H]. apply IH. exact H.
Qed.

(** A string is what [trimEnd] leaves of it, followed by white space. *)
Lemma trimEnd_decompose s :
  exists sp, Str.allb Str.isSpace sp = true /\ s = (Str.trimEnd s ++ sp)%string.
Proof.
  induction s as [|c s (sp & Hsp & IH)].
  - exists EmptyString. split; reflexivity.
  - simpl. destruct (Str.trimEnd s) as [|d r] eqn:E.
    + destruct (Str.isSpace c) eqn:Ec.
      * exists (String c sp). split; [simpl; rewrite Ec, Hsp; reflexivity|].
        rewrite IH at 1. reflexivity.
      * exists sp. split; [assumption|]. rewrite IH at 1. reflexivity.
    + exists sp. split; [assumption|]. rewrite IH at 1. reflexivity.
Qed.

Lemma allb_trimEnd p s : Str.allb p s = true -> Str.allb p (Str.trimEnd s) = true.
Proof.
  intros H. destruct (trimEnd_decompose s) as (sp & _ & E).
  rewrite E, allb_app in H. apply andb_true_iff in H as [H _]. exact H.
Qed.

(** A trailing part that begins and ends with something else than white
    space stays where it is when the string is trimmed. *)
Lemma trimEnd_keeps_tail x c t :
  Str.trimEnd (String c t) = String c t ->
  Str.trimEnd (x ++ String c t) = (x ++ String c t)%string.
Proof.
  intros H. induction x as [|d x IH]; [exact H|].
  rewrite string_app_cons. simpl. rewrite IH.
  destruct x; reflexivity.
Qed.

Lemma trimStart_keeps_tail x c t :
  Str.isSpace c = false ->
  Str.trimStart (x ++ String c t) = (Str.trimStart x ++ String c t)%string.
Proof.
  intros Hc. induction x as [|d x IH].
  - simpl. change (EmptyString ++ String c t)%string with (String c t). simpl.
    rewrite Hc. reflexivity.
  - rewrite string_app_cons. simpl. destruct (Str.isSpace d); [exact IH|reflexivity].
Qed.

Lemma trim_keeps_tail x c t :
  Str.isSpace c = false -> Str.trimEnd (String c t) = String c t ->
  Str.trim (x ++ String c t) = (Str.trimStart x ++ String c t)%string.
Proof.
  intros Hc Ht. unfold Str.trim. rewrite (trimStart_keeps_tail x c t Hc).
  apply trimEnd_keeps_tail. exact Ht.
Qed.

(** *** The removal of the suffix tokens *)

Lemma firstMatch_no_start c r : tokenStart c = false -> Regex.firstMatch Regex.suffixTokens (String c r) = None.
Proof.
  unfold tokenStart, Regex.suffixTokens. simpl. intros H.
  apply orb_false_iff in H as [H1 H]. apply orb_false_iff in H as [H2 H].
  apply orb_false_iff in H as [H3 _].
  rewrite H1, H2, H3. reflexivity.
Qed.

Lemma stripTokensFrom_cons k c r :
  Regex.stripTokensFrom k (String c r) =
  match k with
  | S k' => Regex.stripTokensFrom k' r
  | O =>
      match Regex.firstMatch Regex.suffixTokens (String c r) with
      | Some (S k') => Regex.stripTokensFrom k' r
      | _ => String c (Regex.stripTokensFrom O r)
      end
  end.
Proof. reflexivity. Qed.

Lemma stripTokens_token t : t ∈ Regex.suffixTokens -> Regex.stripTokens t = EmptyString.
Proof.
  unfold Regex.suffixTokens. intros H.
  repeat (apply elem_of_cons in H as [->|H]; [by_computing|]).
  apply elem_of_nil in H. contradiction.
Qed.

Lemma startsWith_length t a : Str.startsWith t a = true -> (String.length t <= String.length a)%nat.
Proof.
  revert a. induction t as [|d t IH]; intros a; simpl; [lia|].
  destruct a as [|e a]; [discriminate|].
  destruct (Ascii.eqb d e); [|discriminate]. intros H. apply IH in H. simpl. lia.
Qed.

Lemma firstMatch_length toks a n :
  Regex.firstMatch toks a = Some n -> (n <= String.length a)%nat.
Proof.
  induction toks as [|t toks IH]; simpl; [discriminate|].
  destruct (Str.startsWith t a) eqn:E; [|exact IH].
  intros [= <-]. apply startsWith_length. exact E.
Qed.

(** A character that is in no token ends every attempt to match one. *)
Lemma startsWith_separator c t a b :
  Str.allb (fun d => negb (Ascii.eqb d c)) t = true ->
  Str.startsWith t (a ++ String c b) = Str.startsWith t a \/ t = EmptyString.
Proof.
  revert a. induction t as [|d t IH]; intros a Ht; [right; reflexivity|left].
  simpl in Ht. apply andb_true_iff in Ht as [Hd Ht]. apply negb_true_iff in Hd.
  destruct a as [|e a].
  - change (EmptyString ++ String c b)%string with (String c b). simpl. rewrite Hd. reflexivity.
  - rewrite string_app_cons. simpl. destruct (Ascii.eqb d e); [|reflexivity].
    destruct (IH a Ht) as [H| ->]; [exact H|]. reflexivity.
Qed.

Lemma firstMatch_separator_in toks c a b :
  (forall t, In t toks -> Str.allb (fun d => negb (Ascii.eqb d c)) t = true /\ t <> EmptyString) ->
  Regex.firstMatch toks (a ++ String c b) = Regex.firstMatch toks a.
Proof.
  induction toks as [|t toks IH]; intros H; [reflexivity|].
  simpl. destruct (H t (or_introl eq_refl)) as [Ht Hne].
  destruct (startsWith_separator c t a b Ht) as [-> |E]; [|contradiction].
  rewrite IH; [reflexivity|]. intros t' Hin. apply H. right. exact Hin.
Qed.

Lemma suffixTokens_nonempty t : In t Regex.suffixTokens -> t <> EmptyString.
Proof.
  unfold Regex.suffixTokens. simpl. intros [<-|[<-|[<-|[]]]]; discriminate.
Qed.

Lemma firstMatch_separator c a b :
  separator c = true ->
  Regex.firstMatch Regex.suffixTokens (a ++ String c b) = Regex.firstMatch Regex.suffixTokens a.
Proof.
  intros H. apply firstMatch_separator_in. intros t Hin. split.
  - unfold separator in H. rewrite forallb_forall in H. apply H. exact Hin.
  - apply suffixTokens_nonempty. exact Hin.
Qed.

Lemma separator_no_start c : separator c = true -> tokenStart c = false.
Proof.
  intros H. unfold separator in H. rewrite forallb_forall in H.
  unfold tokenStart. destruct (existsb _ Regex.suffixTokens) eqn:E; [|reflexivity].
  apply existsb_exists in E as (t & Hin & Ht). specialize (H t Hin).
  destruct t as [|d t]; [discriminate Ht|].
  simpl in H. rewrite Ht in H. discriminate H.
Qed.

(** The scan goes past a separator as if the string ended there. *)
Lemma stripTokens_separator c a b k :
  separator c = true -> (k <= String.length a)%nat ->
  Regex.stripTokensFrom k (a ++ String c b) =
  (Regex.stripTokensFrom k a ++ String c (Regex.stripTokensFrom 0 b))%string.
Proof.
  intros Hc. revert k. induction a as [|d a IH]; intros k Hk.
  - simpl in Hk. replace k with 0%nat by lia.
    change (EmptyString ++ String c b)%string with (String c b).
    rewrite stripTokensFrom_cons.
    rewrite (firstMatch_no_start c b (separator_no_start c Hc)). reflexivity.
  - rewrite string_app_cons, !stripTokensFrom_cons. destruct k as [|k].
    + rewrite <- string_app_cons, (firstMatch_separator c (String d a) b Hc).
      destruct (Regex.firstMatch Regex.suffixTokens (String d a)) as [[|n]|] eqn:E.
      * rewrite string_app_cons, (IH 0%nat) by lia. reflexivity.
      * apply firstMatch_length in E. simpl in E. apply IH. lia.
      * rewrite string_app_cons, (IH 0%nat) by lia. reflexivity.
    + simpl in Hk. apply IH. lia.
Qed.

Lemma space_is_separator c : Str.isSpace c = true -> separator c = true.
Proof.
  intros H. destruct c as [[] [] [] [] [] [] [] []]; try discriminate H; reflexivity.
Qed.

Lemma stripTokens_app_spaces a sp k :
  Str.allb Str.isSpace sp = true -> (k <= String.length a)%nat ->
  Regex.stripTokensFrom k (a ++ sp) = (Regex.stripTokensFrom k a ++ sp)%string.
Proof.
  intros Hsp Hk. destruct sp as [|c sp]; [rewrite !string_app_nil_r; reflexivity|].
  simpl in Hsp. apply andb_true_iff in Hsp as [Hc Hsp].
  rewrite (stripTokens_separator c a sp k (space_is_separator c Hc) Hk). do 2 f_equal.
  clear -Hsp. induction sp as [|d sp IH]; [reflexivity|].
  simpl in Hsp. apply andb_true_iff in Hsp as [Hd Hsp].
  rewrite stripTokensFrom_cons.
  rewrite (firstMatch_no_start d sp (separator_no_start d (space_is_separator d Hd))).
  rewrite (IH Hsp). reflexivity.
Qed.

(** The scan only removes characters. *)
Lemma allb_stripTokens p s k :
  Str.allb p s = true -> Str.allb p (Regex.stripTokensFrom k s) = true.
Proof.
  revert k. induction s as [|c s IH]; intros k H; [reflexivity|].
  simpl in H. apply andb_true_iff in H as [Hc Hs].
  rewrite stripTokensFrom_cons. destruct k as [|k]; [|apply IH; exact Hs].
  destruct (Regex.firstMatch Regex.suffixTokens (String c s)) as [[|n]|].
  - simpl. rewrite Hc. apply IH. exact Hs.
  - apply IH. exact Hs.
  - simpl. rewrite Hc. apply IH. exact Hs.
Qed.

(** *** The removal of the parentheses *)

Lemma stripParensFrom_cons k c r :
  Regex.stripParensFrom k (String c r) =
  match k with
  | S k' => Regex.stripParensFrom k' r
  | O =>
      if Ascii.eqb c "(" then
        match Regex.lastCloseFrom O r with
        | Some j => Regex.stripParensFrom j r
        | None => String c (Regex.stripParensFrom O r)
        end
      else String c (Regex.stripParensFrom O r)
  end.
Proof. reflexivity. Qed.

Lemma lastCloseFrom_cons pos c r :
  Regex.lastCloseFrom pos (String c r) =
  if Regex.atLineBreak (String c r) then None
  else match Regex.lastCloseFrom (S pos) r with
       | Some j => Some j
       | None => if Ascii.eqb c ")" then Some (S pos) else None
       end.
Proof. reflexivity. Qed.

Lemma space_is_no_paren c :
  Str.isSpace c = true -> Ascii.eqb c "(" = false /\ Ascii.eqb c ")" = false.
Proof.
  intros H. destruct c as [[] [] [] [] [] [] [] []]; try discriminate H; split; reflexivity.
Qed.

Lemma space_continues_no_lineBreak c :
  Str.isSpace c = true -> continuesLineBreak c = false.
Proof.
  intros H. destruct c as [[] [] [] [] [] [] [] []]; try discriminate H; reflexivity.
Qed.

Lemma spaces_plainHead sp : Str.allb Str.isSpace sp = true -> plainHead sp = true.
Proof.
  destruct sp as [|c sp]; [reflexivity|]. simpl. intros H.
  apply andb_true_iff in H as [Hc _]. rewrite (space_continues_no_lineBreak c Hc). reflexivity.
Qed.

(** Whether a line terminator stands at the head of a text does not depend
    on what follows the text, when that begins with no continuation byte. *)
Lemma atLineBreak_app c r t :
  plainHead t = true ->
  Regex.atLineBreak (String c (r ++ t)) = Regex.atLineBreak (String c r).
Proof.
  intros Ht. destruct t as [|d t]; [rewrite string_app_nil_r; reflexivity|].
  simpl in Ht. apply negb_true_iff in Ht. unfold continuesLineBreak in Ht.
  apply orb_false_iff in Ht as [Ht H169]. apply orb_false_iff in Ht as [H128 H168].
  destruct r as [|c1 [|c2 r]]; rewrite ?string_app_cons;
    change (EmptyString ++ String d t)%string with (String d t); unfold Regex.atLineBreak.
  - destruct t; rewrite ?H128; reflexivity.
  - rewrite H168, H169. cbn [orb]. rewrite andb_false_r. reflexivity.
  - reflexivity.
Qed.

Lemma lastCloseFrom_spaces pos sp :
  Str.allb Str.isSpace sp = true -> Regex.lastCloseFrom pos sp = None.
Proof.
  revert pos. induction sp as [|c sp IH]; intros pos H; [reflexivity|].
  simpl in H. apply andb_true_iff in H as [Hc Hsp].
  rewrite lastCloseFrom_cons, (IH (S pos) Hsp).
  destruct (space_is_no_paren c Hc) as [_ ->].
  destruct (Regex.atLineBreak (String c sp)); reflexivity.
Qed.

Lemma lastCloseFrom_app_spaces pos r sp :
  Str.allb Str.isSpace sp = true ->
  Regex.lastCloseFrom pos (r ++ sp) = Regex.lastCloseFrom pos r.
Proof.
  intros Hsp. revert pos. induction r as [|c r IH]; intros pos.
  - change (EmptyString ++ sp)%string with sp. apply lastCloseFrom_spaces. exact Hsp.
  - rewrite string_app_cons, !lastCloseFrom_cons, IH.
    rewrite (atLineBreak_app c r sp (spaces_plainHead sp Hsp)). reflexivity.
Qed.

Lemma lastCloseFrom_bounds pos r j :
  Regex.lastCloseFrom pos r = Some j -> (pos < j <= pos + String.length r)%nat.
Proof.
  revert pos. induction r as [|c r IH]; intros pos; [discriminate|].
  rewrite lastCloseFrom_cons. destruct (Regex.atLineBreak (String c r)); [discriminate|].
  destruct (Regex.lastCloseFrom (S pos) r) as [j'|] eqn:E.
  - intros [= <-]. apply IH in E. simpl. lia.
  - destruct (Ascii.eqb c ")"); [|discriminate]. intros [= <-]. simpl. lia.
Qed.

Lemma stripParens_spaces sp :
  Str.allb Str.isSpace sp = true -> Regex.stripParensFrom 0 sp = sp.
Proof.
  induction sp as [|c sp IH]; intros H; [reflexivity|].
  simpl in H. apply andb_true_iff in H as [Hc Hsp].
  rewrite stripParensFrom_cons. destruct (space_is_no_paren c Hc) as [-> _].
  rewrite (IH Hsp). reflexivity.
Qed.

(** White space after a string does not change what is removed in it. *)
Lemma stripParens_app_spaces y sp k :
  Str.allb Str.isSpace sp = true -> (k <= String.length y)%nat ->
  Regex.stripParensFrom k (y ++ sp) = (Regex.stripParensFrom k y ++ sp)%string.
Proof.
  intros Hsp. revert k. induction y as [|c y IH]; intros k Hk.
  - simpl in Hk. replace k with 0%nat by lia.
    change (EmptyString ++ sp)%string with sp. apply stripParens_spaces. exact Hsp.
  - rewrite string_app_cons, !stripParensFrom_cons. destruct k as [|k].
    + rewrite (lastCloseFrom_app_spaces 0 y sp Hsp).
      destruct (Ascii.eqb c "(").
      * destruct (Regex.lastCloseFrom 0 y) as [j|] eqn:E.
        -- apply lastCloseFrom_bounds in E. apply IH. lia.
        -- rewrite string_app_cons, (IH 0%nat) by lia. reflexivity.
      * rewrite string_app_cons, (IH 0%nat) by lia. reflexivity.
    + simpl in Hk. apply IH. lia.
Qed.

(** Before the first opening parenthesis nothing is removed. *)
Lemma stripParens_no_open x y :
  noOpenParen x = true ->
  Regex.stripParensFrom 0 (x ++ y) = (x ++ Regex.stripParensFrom 0 y)%string.
Proof.
  unfold noOpenParen. induction x as [|c x IH]; intros H; [reflexivity|].
  simpl in H. apply andb_true_iff in H as [Hc Hx]. apply negb_true_iff in Hc.
  rewrite !string_app_cons, stripParensFrom_cons, Hc, (IH Hx). reflexivity.
Qed.

Lemma lastCloseFrom_closing pos q :
  oneLine q = true ->
  Regex.lastCloseFrom pos (q ++ ")") = Some (pos + String.length q + 1)%nat.
Proof.
  revert pos. induction q as [|c q IH]; intros pos H.
  - simpl. f_equal. lia.
  - cbn [oneLine] in H. apply andb_true_iff in H as [Hc Hq]. apply negb_true_iff in Hc.
    rewrite string_app_cons, lastCloseFrom_cons.
    rewrite (atLineBreak_app c q ")" eq_refl), Hc, (IH (S pos) Hq).
    simpl. f_equal. lia.
Qed.

Lemma stripParens_skip_all r : Regex.stripParensFrom (String.length r) r = EmptyString.
Proof. induction r as [|c r IH]; [reflexivity|]. simpl. exact IH. Qed.

Lemma string_length_app (a b : string) :
  String.length (a ++ b) = (String.length a + String.length b)%nat.
Proof.
  induction a as [|c a IH]; [reflexivity|]. rewrite string_app_cons. simpl. rewrite IH.
  reflexivity.
Qed.

(** A parenthesised part at the end of a string without an opening
    parenthesis is removed, and nothing else. *)
Lemma stripParens_trailing x q :
  noOpenParen x = true -> oneLine q = true ->
  Regex.stripParens (x ++ String "(" (q ++ ")")) = x.
Proof.
  intros Hx Hq. unfold Regex.stripParens.
  rewrite (stripParens_no_open x _ Hx), stripParensFrom_cons. simpl Ascii.eqb.
  rewrite (lastCloseFrom_closing 0 q Hq).
  replace (0 + String.length q + 1)%nat with (String.length (q ++ ")")).
  - rewrite stripParens_skip_all. apply string_app_nil_r.
  - rewrite string_length_app. simpl. lia.
Qed.

Lemma stripParens_no_open_id x : noOpenParen x = true -> Regex.stripParens x = x.
Proof.
  intros Hx. unfold Regex.stripParens.
  rewrite <- (string_app_nil_r x) at 1. rewrite (stripParens_no_open x _ Hx).
  apply string_app_nil_r.
Qed.

(** *** The normalizer on a name with a trailing token or parenthesis *)

Lemma lowerChar_keeps_class c :
  tokenStart (Str.lowerChar c) = tokenStart c /\
  Ascii.eqb (Str.lowerChar c) "(" = Ascii.eqb c "(".
Proof. destruct c as [[] [] [] [] [] [] [] []]; repeat split; reflexivity. Qed.

Lemma noOpenParen_lower s : noOpenParen (Str.toLowerCase s) = noOpenParen s.
Proof.
  apply allb_toLowerCase. intros c.
  destruct (lowerChar_keeps_class c) as (_ & ->). reflexivity.
Qed.

(** What the tokens are made of: no letter to lower, no white space at
    either end. *)
Lemma suffixToken_shape t :
  t ∈ Regex.suffixTokens ->
  Str.toLowerCase t = t /\
  exists c r, t = String c r /\ Str.isSpace c = false /\ Str.trimEnd t = t.
Proof.
  unfold Regex.suffixTokens. intros H.
  repeat (apply elem_of_cons in H as [->|H];
          [split; [by_computing|]; eexists _, _; split; [reflexivity|split; by_computing]|]).
  apply elem_of_nil in H. contradiction.
Qed.

(** *** Names in which no token can begin *)

Lemma startsWith_app_l h r x :
  Str.startsWith (h ++ r) x = true -> Str.startsWith h x = true.
Proof.
  revert x. induction h as [|c h IH]; intros x; [reflexivity|].
  rewrite string_app_cons. simpl. destruct x as [|d x]; [discriminate|].
  destruct (Ascii.eqb c d); [apply IH|discriminate].
Qed.

Lemma startsWith_app_r h a b :
  Str.startsWith h a = true -> Str.startsWith h (a ++ b) = true.
Proof.
  revert a. induction h as [|c h IH]; intros a; [reflexivity|].
  destruct a as [|d a]; [discriminate|]. rewrite string_app_cons. simpl.
  destruct (Ascii.eqb c d); [apply IH|discriminate].
Qed.

Lemma suffixToken_head t :
  t ∈ Regex.suffixTokens -> exists h r, h ∈ tokenHeads /\ t = (h ++ r)%string.
Proof.
  unfold Regex.suffixTokens, tokenHeads. intros H.
  apply elem_of_cons in H as [->|H].
  { exists "股", "份有限公司". split; [apply list_elem_of_here|reflexivity]. }
  apply elem_of_cons in H as [->|H].
  { exists "有", "限公司". split; [apply list_elem_of_further, list_elem_of_here|reflexivity]. }
  apply elem_of_cons in H as [->|H].
  { exists "公", "司". split; [do 2 apply list_elem_of_further; apply list_elem_of_here|reflexivity]. }
  apply elem_of_nil in H. contradiction.
Qed.

Lemma tokenHeads_cases h : h ∈ tokenHeads -> h = "股" \/ h = "有" \/ h = "公".
Proof.
  unfold tokenHeads. intros Hh.
  repeat (apply elem_of_cons in Hh as [->|Hh]; [auto|]). apply elem_of_nil in Hh. contradiction.
Qed.

Lemma startsWith_cons x h c s :
  Str.startsWith (String x h) (String c s) = if Ascii.eqb x c then Str.startsWith h s else false.
Proof. reflexivity. Qed.

(** A first character of a token cannot begin in a name and end in the
    token that follows the name: the tokens begin with a lead byte. *)
Lemma startsWith_head_straddle h a b :
  h ∈ tokenHeads -> b = EmptyString \/ b ∈ Regex.suffixTokens ->
  a <> EmptyString ->
  Str.startsWith h (a ++ b) = true -> Str.startsWith h a = true.
Proof.
  intros Hh Hb Ha.
  assert (Hcases : b = EmptyString \/ b = "股份有限公司" \/ b = "有限公司" \/ b = "公司").
  { destruct Hb as [->|Hb]; [left; reflexivity|right].
    unfold Regex.suffixTokens in Hb.
    repeat (apply elem_of_cons in Hb as [->|Hb]; [auto|]). apply elem_of_nil in Hb. contradiction. }
  clear Hb. assert (Hh' := tokenHeads_cases h Hh).
  clear Hh. destruct a as [|c [|d [|e a]]]; [congruence| | |].
  - change (String c EmptyString ++ b)%string with (String c b).
    destruct Hh' as [-> | [-> | ->]]; destruct Hcases as [-> | [-> | [-> | ->]]];
      rewrite startsWith_cons; destruct (Ascii.eqb _ c); try discriminate;
      intros H; vm_compute in H; discriminate H.
  - change (String c (String d EmptyString) ++ b)%string with (String c (String d b)).
    destruct Hh' as [-> | [-> | ->]]; destruct Hcases as [-> | [-> | [-> | ->]]];
      rewrite !startsWith_cons; destruct (Ascii.eqb _ c); try discriminate;
      destruct (Ascii.eqb _ d); try discriminate;
      intros H; vm_compute in H; discriminate H.
  - rewrite !string_app_cons.
    destruct Hh' as [-> | [-> | ->]]; rewrite !startsWith_cons; cbn [Str.startsWith]; exact id.
Qed.

Lemma includes_cons c s sub :
  Str.includes (String c s) sub
  = if Str.startsWith sub (String c s) then true else Str.includes s sub.
Proof. reflexivity. Qed.

Lemma noTokenHead_cons c s :
  noTokenHead (String c s) = true ->
  noTokenHead s = true /\
  forall h, h ∈ tokenHeads -> Str.startsWith h (String c s) = false.
Proof.
  unfold noTokenHead. rewrite !forallb_forall. intros H. split.
  - intros h Hh. specialize (H h Hh). rewrite includes_cons in H.
    destruct (Str.startsWith h (String c s)); [discriminate H|exact H].
  - intros h Hh. apply list_elem_of_In in Hh. specialize (H h Hh).
    rewrite includes_cons in H. destruct (Str.startsWith h (String c s)); [discriminate H|reflexivity].
Qed.

Lemma firstMatch_no_head c s b :
  noTokenHead (String c s) = true -> b = EmptyString \/ b ∈ Regex.suffixTokens ->
  Regex.firstMatch Regex.suffixTokens (String c s ++ b) = None.
Proof.
  intros Hs Hb. apply noTokenHead_cons in Hs as [_ Hs].
  assert (Hno : forall t, t ∈ Regex.suffixTokens -> Str.startsWith t (String c s ++ b) = false).
  { intros t Ht. destruct (Str.startsWith t (String c s ++ b)) eqn:E; [|reflexivity].
    destruct (suffixToken_head t Ht) as (h & r & Hh & ->).
    apply startsWith_app_l in E.
    apply (startsWith_head_straddle h (String c s) b Hh Hb) in E; [|discriminate].
    rewrite (Hs h Hh) in E. discriminate E. }
  unfold Regex.suffixTokens in *. cbn [Regex.firstMatch].
  rewrite (Hno "股份有限公司") by apply list_elem_of_here.
  rewrite (Hno "有限公司") by apply list_elem_of_further, list_elem_of_here.
  rewrite (Hno "公司") by (do 2 apply list_elem_of_further; apply list_elem_of_here).
  reflexivity.
Qed.

(** Where no token can begin, nothing is removed. *)
Lemma stripTokens_no_head a b :
  noTokenHead a = true -> b = EmptyString \/ b ∈ Regex.suffixTokens ->
  Regex.stripTokensFrom 0 (a ++ b) = (a ++ Regex.stripTokensFrom 0 b)%string.
Proof.
  intros Ha Hb. induction a as [|c a IH]; [reflexivity|].
  pose proof (firstMatch_no_head c a b Ha Hb) as Hm.
  apply noTokenHead_cons in Ha as [Ha _].
  rewrite string_app_cons in *. rewrite stripTokensFrom_cons, Hm, (IH Ha). reflexivity.
Qed.

Lemma lowerChar_keeps_head_bytes c x :
  x ∈ ["232"; "130"; "161"; "230"; "156"; "137"; "229"; "133"; "172"]%char ->
  Ascii.eqb x (Str.lowerChar c) = Ascii.eqb x c.
Proof.
  intros Hx.
  repeat (apply elem_of_cons in Hx as [->|Hx];
          [destruct c as [[] [] [] [] [] [] [] []]; reflexivity|]).
  apply elem_of_nil in Hx. contradiction.
Qed.

Lemma startsWith_head_lower h s :
  h ∈ tokenHeads -> Str.startsWith h (Str.toLowerCase s) = Str.startsWith h s.
Proof.
  intros Hh. apply tokenHeads_cases in Hh.
  assert (Hbyte : forall x, x ∈ ["232"; "130"; "161"; "230"; "156"; "137"; "229"; "133"; "172"]%char ->
                  forall c, Ascii.eqb x (Str.lowerChar c) = Ascii.eqb x c)
    by (intros x Hx c; apply lowerChar_keeps_head_bytes; exact Hx).
  destruct Hh as [-> | [-> | ->]]; destruct s as [|c [|d [|e s]]];
    cbn [Str.toLowerCase]; rewrite ?startsWith_cons;
    rewrite ?Hbyte by (repeat first [apply list_elem_of_here | apply list_elem_of_further]);
    reflexivity.
Qed.

Lemma includes_head_lower h s :
  h ∈ tokenHeads -> Str.includes (Str.toLowerCase s) h = Str.includes s h.
Proof.
  intros Hh. induction s as [|c s IH].
  - reflexivity.
  - change (Str.toLowerCase (String c s)) with (String (Str.lowerChar c) (Str.toLowerCase s)).
    rewrite !includes_cons, IH.
    change (String (Str.lowerChar c) (Str.toLowerCase s)) with (Str.toLowerCase (String c s)).
    rewrite (startsWith_head_lower h _ Hh). reflexivity.
Qed.

Lemma noTokenHead_lower s : noTokenHead (Str.toLowerCase s) = noTokenHead s.
Proof.
  unfold noTokenHead, tokenHeads. cbn [forallb].
  rewrite !includes_head_lower; [reflexivity| | |];
    unfold tokenHeads; repeat first [apply list_elem_of_here | apply list_elem_of_further].
Qed.

Lemma includes_app_l a b sub :
  Str.includes (a ++ b) sub = false -> Str.includes a sub = false.
Proof.
  induction a as [|c a IH].
  - destruct sub; [|reflexivity]. destruct b; discriminate.
  - rewrite string_app_cons, !includes_cons.
    destruct (Str.startsWith sub (String c a)) eqn:E.
    + rewrite <- string_app_cons, (startsWith_app_r _ _ b E). discriminate.
    + destruct (Str.startsWith sub (String c (a ++ b))); [discriminate|exact IH].
Qed.

Lemma noTokenHead_trimStart s : noTokenHead s = true -> noTokenHead (Str.trimStart s) = true.
Proof.
  induction s as [|c s IH]; [reflexivity|]. simpl Str.trimStart.
  destruct (Str.isSpace c); [|exact id].
  intros H. apply IH. apply (noTokenHead_cons c s H).
Qed.

Lemma noTokenHead_trimEnd s : noTokenHead s = true -> noTokenHead (Str.trimEnd s) = true.
Proof.
  destruct (trimEnd_decompose s) as (sp & _ & E). unfold noTokenHead.
  rewrite !forallb_forall. intros H h Hh. specialize (H h Hh).
  apply negb_true_iff in H. apply negb_true_iff.
  rewrite E in H. apply includes_app_l in H. exact H.
Qed.

Lemma normalizeCompanyText_trailing_token s t :
  t ∈ Regex.suffixTokens -> noTokenHead s = true ->
  normalizeCompanyText (s ++ t) = normalizeCompanyText s.
Proof.
  intros Ht Hs. unfold normalizeCompanyText.
  destruct (suffixToken_shape t Ht) as (Hlow & c & r & Heq & Hc & Hend).
  rewrite toLowerCase_app, Hlow.
  rewrite <- noTokenHead_lower in Hs. set (x := Str.toLowerCase s) in *.
  rewrite Heq, (trim_keeps_tail x c r Hc) by (rewrite <- Heq; exact Hend).
  rewrite <- Heq.
  assert (Hx1 : noTokenHead (Str.trimStart x) = true) by (apply noTokenHead_trimStart; exact Hs).
  unfold Regex.stripTokens at 1.
  rewrite (stripTokens_no_head _ t Hx1) by (right; exact Ht).
  fold (Regex.stripTokens t). rewrite (stripTokens_token t Ht), string_app_nil_r.
  unfold Str.trim at 3.
  destruct (trimEnd_decompose (Str.trimStart x)) as (sp & Hsp & Hdec).
  set (y := Str.trimEnd (Str.trimStart x)) in *.
  assert (Hy : noTokenHead y = true) by (apply noTokenHead_trimEnd; exact Hx1).
  assert (Hstrip : Regex.stripTokens y = y).
  { unfold Regex.stripTokens. rewrite <- (string_app_nil_r y) at 1.
    rewrite (stripTokens_no_head y _ Hy) by (left; reflexivity). apply string_app_nil_r. }
  rewrite Hstrip, Hdec. unfold Regex.stripParens.
  rewrite (stripParens_app_spaces y sp 0 Hsp) by lia.
  apply trim_app_spaces. exact Hsp.
Qed.

Lemma normalizeCompanyText_trailing_parenthesis s p :
  noOpenParen s = true -> oneLine (Regex.stripTokens (Str.toLowerCase p)) = true ->
  normalizeCompanyText (s ++ String "(" (p ++ ")")) = normalizeCompanyText s.
Proof.
  intros Hs Hp. unfold normalizeCompanyText.
  rewrite toLowerCase_app. simpl Str.toLowerCase at 2. rewrite toLowerCase_app.
  change (Str.lowerChar "(") with "("%char.
  change (Str.toLowerCase ")") with ")".
  rewrite <- noOpenParen_lower in Hs. unfold Regex.stripTokens in Hp.
  set (x := Str.toLowerCase s) in *. set (q := Str.toLowerCase p) in *.
  assert (Hend : Str.trimEnd (String "(" (q ++ ")")) = String "(" (q ++ ")")).
  { rewrite <- string_app_cons. apply trimEnd_keeps_tail. reflexivity. }
  rewrite (trim_keeps_tail x "(" (q ++ ")") eq_refl Hend).
  assert (Hx1 : noOpenParen (Str.trimStart x) = true) by (apply allb_trimStart; exact Hs).
  unfold Regex.stripTokens at 1.
  rewrite (stripTokens_separator "(" _ _ 0 eq_refl) by lia.
  rewrite (stripTokens_separator ")" q EmptyString 0 eq_refl) by lia.
  change (Regex.stripTokensFrom 0 EmptyString) with EmptyString.
  rewrite (stripParens_trailing (Regex.stripTokensFrom 0 (Str.trimStart x))
             (Regex.stripTokensFrom 0 q))
    by first [exact Hp | apply allb_stripTokens; exact Hx1].
  unfold Str.trim at 3.
  destruct (trimEnd_decompose (Str.trimStart x)) as (sp & Hsp & Hdec).
  set (y := Str.trimEnd (Str.trimStart x)) in *.
  assert (Hy : noOpenParen y = true) by (apply allb_trimEnd; exact Hx1).
  rewrite (stripParens_no_open_id (Regex.stripTokens y))
    by (apply allb_stripTokens; exact Hy).
  rewrite Hdec. rewrite (stripTokens_app_spaces y sp 0 Hsp) by lia.
  apply trim_app_spaces. exact Hsp.
Qed.

Lemma normalizeCompanyValue_text s :
  normalizeCompanyValue (SStr s) = Returned (normalizeCompanyText s).
Proof. destruct s; reflexivity. Qed.

(** X18. [_normalizeCompanyName] drops a suffix token at the end of a name: a
    name in which none of the characters 股, 有 and 公 occurs has the same
    key with and without one of 股份有限公司, 有限公司 and 公司 after it. *)
Theorem company_name_key_drops_a_trailing_token :
  forall s t,
    t ∈ Regex.suffixTokens -> noTokenHead s = true ->
    CompanyService._normalizeCompanyName (SStr (s ++ t))
      = CompanyService._normalizeCompanyName (SStr s) /\
    OpportunityService._normalizeCompanyName (SStr (s ++ t))
      = OpportunityService._normalizeCompanyName (SStr s).
Proof.
  intros s t Ht Hs.
  unfold CompanyService._normalizeCompanyName, OpportunityService._normalizeCompanyName.
  rewrite !normalizeCompanyValue_text, (normalizeCompanyText_trailing_token s t Ht Hs).
  split; reflexivity.
Qed.

(** X19. [_normalizeCompanyName] drops a parenthesised part at the end of a
    name: a name without an opening parenthesis has the same key with and
    without [(p)] after it, for every [p] that is of one line when the
    parentheses are looked for, that is, lower-cased and without the suffix
    tokens: it has none of the line terminators LF, CR, U+2028 and U+2029,
    which the dot of the regular expression does not match. *)
Theorem company_name_key_drops_a_trailing_parenthesis :
  forall s p,
    noOpenParen s = true -> oneLine (Regex.stripTokens (Str.toLowerCase p)) = true ->
    CompanyService._normalizeCompanyName (SStr (s ++ String "(" (p ++ ")")))
      = CompanyService._normalizeCompanyName (SStr s) /\
    OpportunityService._normalizeCompanyName (SStr (s ++ String "(" (p ++ ")")))
      = OpportunityService._normalizeCompanyName (SStr s).
Proof.
  intros s p Hs Hp.
  unfold CompanyService._normalizeCompanyName, OpportunityService._normalizeCompanyName.
  rewrite !normalizeCompanyValue_text, (normalizeCompanyText_trailing_parenthesis s p Hs Hp).
  split; reflexivity.
Qed.
(* ===================================================================== *)
(** * Further properties of the services                                  *)
(* ===================================================================== *)

(** ** Reads, and what they leave behind *)


Lemma getCollection_fst_stable key key' w o w' :
  Reader.getCollection key' w = (o, w') ->
  fst (Reader.getCollection key w') = fst (Reader.getCollection key w).
Proof.
  intros H. destruct o as [rows|e].
  - apply getCollection_returned in H as [[Hc ->]|(Hc & Hs & ->)]; [reflexivity|].
    unfold Reader.getCollection. simpl.
    destruct (decide (key = key')) as [->|Hne].
    + rewrite lookup_insert_eq, Hc, Hs. reflexivity.
    + rewrite lookup_insert_ne by congruence.
      destruct (cache w !! key); [reflexivity|]. destruct (sheet w !! key); reflexivity.
  - apply getCollection_thrown in H as (_ & _ & ->). reflexivity.
Qed.

Lemma getCollection_nothingWritten key w o w' :
  Reader.getCollection key w = (o, w') -> nothingWritten w w'.
Proof.
  intros H. destruct (getCollection_same_store _ _ _ _ H) as (Hs & Ht & _).
  split; assumption.
Qed.

Lemma nothingWritten_refl w : nothingWritten w w.
Proof. split; reflexivity. Qed.

Lemma nothingWritten_trans w1 w2 w3 :
  nothingWritten w1 w2 -> nothingWritten w2 w3 -> nothingWritten w1 w3.
Proof. intros [H1 H2] [H3 H4]. split; congruence. Qed.

Lemma rowsOf_returned key w rows w' :
  Reader.getCollection key w = (Returned rows, w') -> rowsOf key w = rows /\ readable key w = true.
Proof. intros H. unfold rowsOf, readable. rewrite H. split; reflexivity. Qed.

Lemma rowsOf_thrown key w e w' :
  Reader.getCollection key w = (Thrown e, w') -> rowsOf key w = [].
Proof. intros H. unfold rowsOf. rewrite H. reflexivity. Qed.

Lemma readable_thrown key w e w' :
  Reader.getCollection key w = (Thrown e, w') -> readable key w = false.
Proof. intros H. unfold readable. rewrite H. reflexivity. Qed.

Lemma rowsOf_stable key key' w o w' :
  Reader.getCollection key' w = (o, w') ->
  rowsOf key w' = rowsOf key w /\ readable key w' = readable key w.
Proof.
  intros H. unfold rowsOf, readable. rewrite (getCollection_fst_stable key key' w o w' H).
  split; reflexivity.
Qed.

(** ** [ContactService._normalizeKey] *)

Lemma lowerChar_classes c :
  Str.lowerChar (Str.lowerChar c) = Str.lowerChar c /\
  Str.isSpace (Str.lowerChar c) = Str.isSpace c.
Proof. destruct c as [[] [] [] [] [] [] [] []]; split; reflexivity. Qed.

Lemma toLowerCase_idem s : Str.toLowerCase (Str.toLowerCase s) = Str.toLowerCase s.
Proof.
  induction s as [|c s IH]; simpl; [reflexivity|].
  destruct (lowerChar_classes c) as [-> _]. rewrite IH. reflexivity.
Qed.

Lemma toLowerCase_trimStart s :
  Str.toLowerCase (Str.trimStart s) = Str.trimStart (Str.toLowerCase s).
Proof.
  induction s as [|c s IH]; simpl; [reflexivity|].
  destruct (lowerChar_classes c) as [_ ->].
  destruct (Str.isSpace c); [exact IH|reflexivity].
Qed.

Lemma toLowerCase_trimEnd s :
  Str.toLowerCase (Str.trimEnd s) = Str.trimEnd (Str.toLowerCase s).
Proof.
  induction s as [|c s IH]; simpl; [reflexivity|].
  destruct (lowerChar_classes c) as [_ ->]. rewrite <- IH.
  destruct (Str.trimEnd s) as [|d r]; simpl; [|reflexivity].
  destruct (Str.isSpace c); reflexivity.
Qed.

Lemma toLowerCase_trim s : Str.toLowerCase (Str.trim s) = Str.trim (Str.toLowerCase s).
Proof. unfold Str.trim. rewrite toLowerCase_trimEnd, toLowerCase_trimStart. reflexivity. Qed.

Lemma trimEnd_idem s : Str.trimEnd (Str.trimEnd s) = Str.trimEnd s.
Proof.
  destruct (trimEnd_decompose s) as (sp & Hsp & E).
  rewrite E at 2. rewrite (trimEnd_app_spaces _ sp Hsp). reflexivity.
Qed.

(** What [trimStart] returns does not begin with white space. *)
Lemma trimStart_head s :
  Str.trimStart s = EmptyString \/
  exists c r, Str.trimStart s = String c r /\ Str.isSpace c = false.
Proof.
  induction s as [|c s IH]; simpl; [left; reflexivity|].
  destruct (Str.isSpace c) eqn:E; [exact IH|]. right. exists c, s. split; [reflexivity|exact E].
Qed.

Lemma trimEnd_head c r :
  Str.isSpace c = false -> exists r', Str.trimEnd (String c r) = String c r'.
Proof.
  intros Hc. simpl. destruct (Str.trimEnd r) as [|d r'].
  - rewrite Hc. eexists. reflexivity.
  - eexists. reflexivity.
Qed.

Lemma trim_idem s : Str.trim (Str.trim s) = Str.trim s.
Proof.
  unfold Str.trim.
  destruct (trimStart_head s) as [E|(c & r & E & Hc)]; rewrite E; [reflexivity|].
  destruct (trimEnd_head c r Hc) as (r' & E'). rewrite E'. simpl Str.trimStart.
  rewrite Hc, <- E'. apply trimEnd_idem.
Qed.

Lemma normalizeKey_text s :
  ContactService._normalizeKey (SStr s) = Str.trim (Str.toLowerCase s).
Proof. reflexivity. Qed.

(** X7. [_normalizeKey] gives canonical keys: a key is its own key, and two
    texts that differ by the case of their letters or by the white space
    around them have the same key.  The default argument makes the key of
    [undefined] empty; the key of [null] is the word. *)
Theorem normalizeKey_is_canonical :
  (forall v, ContactService._normalizeKey (SStr (ContactService._normalizeKey v))
             = ContactService._normalizeKey v) /\
  (forall a b, Str.toLowerCase a = Str.toLowerCase b ->
     ContactService._normalizeKey (SStr a) = ContactService._normalizeKey (SStr b)) /\
  (forall l s r, Str.allb Str.isSpace l = true -> Str.allb Str.isSpace r = true ->
     ContactService._normalizeKey (SStr (l ++ s ++ r)) = ContactService._normalizeKey (SStr s)) /\
  ContactService._normalizeKey SUndef = EmptyString /\
  ContactService._normalizeKey SNull = "null".
Proof.
  split; [|split; [|split; [|split; reflexivity]]].
  - intros v. rewrite normalizeKey_text. unfold ContactService._normalizeKey.
    rewrite toLowerCase_trim, toLowerCase_idem. apply trim_idem.
  - intros a b H. rewrite !normalizeKey_text, H. reflexivity.
  - intros l s r Hl Hr. rewrite !normalizeKey_text.
    rewrite !toLowerCase_app, (toLowerCase_spaces l Hl), (toLowerCase_spaces r Hr).
    apply trim_surrounding_spaces; assumption.
Qed.

(** ** [ContactService.getDashboardStats] *)

Lemma countWhere_bounds p l :
  0 <= ContactService.countWhere p l <= Z.of_nat (length l).
Proof.
  unfold ContactService.countWhere. split; [lia|].
  apply inj_le. induction l as [|x l IH]; simpl; [lia|].
  destruct (p x); simpl; lia.
Qed.

(** The three counters count disjoint classes of cards. *)
Lemma status_classes_exclusive c :
  let st := JS.get c "status" in
  let p1 := (negb (JS.truthy st) || JS.strictEq st (SStr "Pending"))%bool in
  let p2 := JS.strictEq st (SStr "Processed") in
  let p3 := JS.strictEq st (SStr "Dropped") in
  (p1 && p2 = false)%bool /\ (p1 && p3 = false)%bool /\ (p2 && p3 = false)%bool.
Proof.
  cbv zeta. unfold JS.strictEq. destruct (JS.get c "status") as [| |b|n|s].
  1-4: repeat split; repeat case_bool_decide; try discriminate;
       rewrite ?andb_false_r; reflexivity.
  repeat case_bool_decide; simplify_eq; repeat split; rewrite ?andb_false_r; reflexivity.
Qed.

Lemma status_counters_partition l :
  let pending := ContactService.countWhere
                   (fun c => negb (JS.truthy (JS.get c "status"))
                             || JS.strictEq (JS.get c "status") (SStr "Pending")) l in
  let processed := ContactService.countWhere
                     (fun c => JS.strictEq (JS.get c "status") (SStr "Processed")) l in
  let dropped := ContactService.countWhere
                   (fun c => JS.strictEq (JS.get c "status") (SStr "Dropped")) l in
  pending + processed + dropped = ContactService.countWhere countedStatus l.
Proof.
  unfold ContactService.countWhere. induction l as [|c l IH]; simpl; [reflexivity|].
  simpl in IH. unfold countedStatus at 1.
  destruct (status_classes_exclusive c) as (H12 & H13 & H23). cbv zeta in H12, H13, H23.
  destruct (negb (JS.truthy (JS.get c "status"))
            || JS.strictEq (JS.get c "status") (SStr "Pending"))%bool;
    destruct (JS.strictEq (JS.get c "status") (SStr "Processed"));
    destruct (JS.strictEq (JS.get c "status") (SStr "Dropped"));
    try discriminate; simpl; rewrite ?Nat2Z.inj_succ; lia.
Qed.

Lemma countWhere_all p l :
  ContactService.countWhere p l = Z.of_nat (length l) <-> Forall (fun c => p c = true) l.
Proof.
  unfold ContactService.countWhere. induction l as [|c l IH]; simpl.
  - split; [constructor|reflexivity].
  - pose proof (countWhere_bounds p l) as Hb. unfold ContactService.countWhere in Hb.
    destruct (p c) eqn:E; simpl.
    + rewrite !Nat2Z.inj_succ. split.
      * intros H. constructor; [exact E|]. apply IH. lia.
      * intros H. apply Forall_cons in H as [_ H]. apply IH in H. lia.
    + split; [lia|]. intros H. apply Forall_cons in H as [H _]. congruence.
Qed.

(** X6. [getDashboardStats] never rejects and writes nothing.  When the reader
    fails the four numbers are zero.  Otherwise [total] is the number of
    cards, the three counters count disjoint cards, so that their sum is at
    most [total], and it is [total] exactly when every card has no status or
    one of the three statuses. *)
Theorem dashboard_counters_partition_the_cards :
  forall w, exists s w',
    ContactService.getDashboardStats w = (Returned s, w') /\
    nothingWritten w w' /\
    0 <= ContactService.pending s /\ 0 <= ContactService.processed s /\
    0 <= ContactService.dropped s /\
    ContactService.pending s + ContactService.processed s + ContactService.dropped s
      <= ContactService.total s /\
    match fst (Reader.getContacts w) with
    | Thrown _ =>
        s = {| ContactService.total := 0; ContactService.pending := 0;
               ContactService.processed := 0; ContactService.dropped := 0 |}
    | Returned contacts =>
        ContactService.total s = Z.of_nat (length contacts) /\
        (ContactService.pending s + ContactService.processed s + ContactService.dropped s
           = ContactService.total s <-> Forall (fun c => countedStatus c = true) contacts)
    end.
Proof.
  intros w. unfold ContactService.getDashboardStats. unfold_monad.
  destruct (Reader.getContacts w) as [[contacts|e] w1] eqn:H.
  - eexists _, w1. split; [reflexivity|]. cbn [fst].
    split; [exact (getCollection_nothingWritten _ _ _ _ H)|].
    cbn [ContactService.total ContactService.pending ContactService.processed
         ContactService.dropped].
    pose proof (status_counters_partition contacts) as Hp. cbv zeta in Hp.
    pose proof (countWhere_bounds countedStatus contacts) as Hb.
    repeat split; try apply countWhere_bounds.
    + rewrite Hp. lia.
    + intros Hs. apply countWhere_all. rewrite <- Hp. exact Hs.
    + intros Hs. rewrite Hp. apply countWhere_all. exact Hs.
  - eexists _, w1. split; [reflexivity|]. cbn [fst].
    split; [exact (getCollection_nothingWritten _ _ _ _ H)|].
    cbn. repeat split; lia.
Qed.

(** ** [ContactService.getPotentialContacts] and [searchContacts] *)

Lemma getPotentialContacts_cases limit w :
  ContactService.getPotentialContacts limit w =
    match Reader.getContacts w with
    | (Returned contacts, w1) =>
        let sorted := JS.sort (ContactService.byCreatedTimeDesc (dateParse w1))
                              (List.filter named contacts) in
        (Returned (if limit >? 0 then JS.slice sorted 0 limit else sorted), w1)
    | (Thrown e, w1) => (Thrown e, w1)
    end.
Proof.
  unfold ContactService.getPotentialContacts. unfold_monad.
  destruct (Reader.getContacts w) as [[contacts|e] w1]; reflexivity.
Qed.

Lemma slice_from_zero {A} (l : list A) n :
  0 < n -> JS.slice l 0 n = firstn (Z.to_nat n) l.
Proof.
  intros Hn. replace n with (0 + n) at 1 by lia.
  rewrite slice_take_drop by lia. reflexivity.
Qed.

(** X5. [getPotentialContacts] rejects only when the reader does.  It returns
    cards of the reader that have a name or a company; at most [limit] of
    them when [limit] is positive, and all of them when [limit] is zero or
    negative, or when there are no more than [limit]. *)
Theorem potential_contacts_are_named_and_limited :
  forall limit w,
    match Reader.getContacts w with
    | (Thrown e, w1) => ContactService.getPotentialContacts limit w = (Thrown e, w1)
    | (Returned all, w1) =>
        exists rows,
          ContactService.getPotentialContacts limit w = (Returned rows, w1) /\
          Forall (fun c => named c = true) rows /\
          (forall c, c ∈ rows -> c ∈ all) /\
          (0 < limit -> Z.of_nat (length rows) <= limit) /\
          (limit <= 0 \/ Z.of_nat (length (List.filter named all)) <= limit ->
           rows ≡ₚ List.filter named all)
    end.
Proof.
  intros limit w. rewrite getPotentialContacts_cases.
  destruct (Reader.getContacts w) as [[all|e] w1]; [|reflexivity].
  cbv zeta. eexists. split; [reflexivity|].
  set (sorted := JS.sort (ContactService.byCreatedTimeDesc (dateParse w1))
                         (List.filter named all)).
  assert (Hperm : sorted ≡ₚ List.filter named all) by apply sort_perm.
  assert (Hsub : forall c, c ∈ (if limit >? 0 then JS.slice sorted 0 limit else sorted) ->
                           c ∈ sorted).
  { intros c. destruct (limit >? 0); [apply slice_subseteq|exact id]. }
  split; [|split; [|split]].
  - apply Forall_forall. intros c Hc. apply Hsub in Hc. rewrite Hperm in Hc.
    apply list_elem_of_In, filter_In in Hc as [_ Hc]. exact Hc.
  - intros c Hc. apply Hsub in Hc. rewrite Hperm in Hc.
    apply list_elem_of_In, filter_In in Hc as [Hc _]. apply list_elem_of_In. exact Hc.
  - intros Hl. destruct (limit >? 0) eqn:E; [|lia].
    replace limit with (0 + limit) at 1 by lia. apply slice_length_le. lia.
  - intros Hl. destruct (limit >? 0) eqn:E; [|exact Hperm].
    destruct Hl as [Hl|Hl]; [lia|].
    rewrite slice_from_zero by lia. rewrite firstn_all2; [exact Hperm|].
    rewrite Hperm. lia.
Qed.

Lemma filterM_spec {A} (p : A -> outcome bool) l l' :
  JS.filterM p l = Returned l' ->
  Forall (fun x => exists b, p x = Returned b) l /\
  l' = List.filter (fun x => valueOr false (p x)) l.
Proof.
  revert l'. induction l as [|x l IH]; simpl; intros l'.
  - intros [= <-]. split; [constructor|reflexivity].
  - destruct (p x) as [b|e] eqn:Hp; [|discriminate].
    destruct (JS.filterM p l) as [r|e]; [|discriminate].
    intros [= <-]. destruct (IH r eq_refl) as [Hall ->]. split.
    + constructor; [exists b; exact Hp|exact Hall].
    + simpl. destruct b; reflexivity.
Qed.

Lemma includes_empty_text sub :
  sub <> EmptyString -> Str.includes EmptyString sub = false.
Proof. destruct sub; [congruence|reflexivity]. Qed.

Lemma toLowerCase_nonempty s : s <> EmptyString -> Str.toLowerCase s <> EmptyString.
Proof. destruct s; [congruence|discriminate]. Qed.

(** The condition [(v && v.toLowerCase().includes(term))] when it does not
    throw. *)
Lemma fieldIncludes_mentions query v b :
  query <> EmptyString ->
  fieldIncludes v (Str.toLowerCase query) = Returned b -> b = mentions query v.
Proof.
  intros Hq. unfold fieldIncludes, mentions.
  destruct v as [| |[]|n|s]; simpl; try congruence.
  - destruct (n =? 0); simpl; congruence.
  - destruct (String.eqb s EmptyString) eqn:E; simpl; [|congruence].
    apply String.eqb_eq in E. subst s. simpl Str.toLowerCase.
    rewrite includes_empty_text by (apply toLowerCase_nonempty; exact Hq). congruence.
Qed.

Lemma anyField_mentions query vs b :
  query <> EmptyString ->
  anyField vs (Str.toLowerCase query) = Returned b ->
  b = existsb (mentions query) vs.
Proof.
  intros Hq. revert b. induction vs as [|v vs IH]; simpl; intros b.
  - congruence.
  - destruct (fieldIncludes v (Str.toLowerCase query)) as [c|e] eqn:E; [|discriminate].
    apply (fieldIncludes_mentions query v c Hq) in E. subst c.
    destruct (mentions query v); simpl; [congruence|]. apply IH.
Qed.

Lemma truthy_text_nonempty s : JS.truthy (SStr s) = false <-> s = EmptyString.
Proof.
  simpl. destruct (String.eqb s EmptyString) eqn:E; simpl.
  - apply String.eqb_eq in E. split; [intros _; exact E|reflexivity].
  - apply String.eqb_neq in E. split; [discriminate|contradiction].
Qed.

(** X4. [searchContacts] rejects when [getPotentialContacts(9999)] does.  With
    an empty query it returns what that call returns.  With another query,
    when it returns, its [data] are the cards of that call whose name or
    company is a text that contains the query, letter case apart, in the
    same order. *)
Theorem search_contacts_selects_the_matching_cards :
  forall query w,
    match ContactService.getPotentialContacts 9999 w with
    | (Thrown e, w1) => ContactService.searchContacts query w = (Thrown e, w1)
    | (Returned contacts, w1) =>
        (query = EmptyString ->
         ContactService.searchContacts query w
           = (Returned {| ContactService.data := contacts |}, w1)) /\
        (forall found w',
           query <> EmptyString ->
           ContactService.searchContacts query w = (Returned found, w') ->
           w' = w1 /\
           ContactService.data found =
             List.filter (fun c => mentions query (JS.get c "name")
                                   || mentions query (JS.get c "company")) contacts)
    end.
Proof.
  intros query w. unfold ContactService.searchContacts. unfold_monad.
  destruct (ContactService.getPotentialContacts 9999 w) as [[contacts|e] w1];
    [|reflexivity].
  split.
  - intros ->. reflexivity.
  - intros found w' Hq. destruct (JS.truthy (SStr query)) eqn:Ht.
    + destruct (JS.filterM _ contacts) as [l|e] eqn:Hf; [|discriminate].
      intros [= <- <-]. split; [reflexivity|]. cbn [ContactService.data].
      apply filterM_spec in Hf as [Hall ->].
      apply filter_ext_in. intros c Hc.
      rewrite Forall_forall in Hall. destruct (Hall c) as [b Hb].
      { apply list_elem_of_In. exact Hc. }
      rewrite Hb. cbn [valueOr].
      rewrite (anyField_mentions query _ b Hq Hb). simpl. rewrite orb_false_r. reflexivity.
    + apply truthy_text_nonempty in Ht. contradiction.
Qed.

(** ** [ContactService.getContactById] *)

Lemma fetchOfficialContacts_nothingWritten w o w' :
  ContactService.fetchOfficialContacts w = (o, w') -> nothingWritten w w'.
Proof.
  rewrite fetchOfficialContacts_cases.
  destruct (sqlContacts w) as [[v|rows]|e];
    try (intros [= <- <-]; apply nothingWritten_refl);
    apply getCollection_nothingWritten.
Qed.

Lemma searchOfficialContacts_nothingWritten this query page w o w' :
  ContactService.searchOfficialContacts this query page w = (o, w') -> nothingWritten w w'.
Proof.
  unfold ContactService.searchOfficialContacts, ContactService.searchOfficialContactsFrom.
  unfold_monad.
  destruct (ContactService.fetchOfficialContacts w) as [[allContacts|e] w1] eqn:H1.
  - pose proof (fetchOfficialContacts_nothingWritten _ _ _ H1) as N1.
    destruct (Reader.getCompanyList w1) as [[allCompanies|e] w2] eqn:H2.
    + pose proof (getCollection_nothingWritten _ _ _ _ H2) as N2.
      destruct (ContactService.joinAndFilter query allContacts allCompanies);
        intros [= <- <-]; exact (nothingWritten_trans _ _ _ N1 N2).
    + pose proof (getCollection_nothingWritten _ _ _ _ H2) as N2.
      intros [= <- <-]. exact (nothingWritten_trans _ _ _ N1 N2).
  - intros [= <- <-]. exact (fetchOfficialContacts_nothingWritten _ _ _ H1).
Qed.

(** What passes the filter of [searchOfficialContacts]. *)
Lemma joinAndFilter_mentions query allContacts allCompanies filtered c :
  query <> EmptyString ->
  ContactService.joinAndFilter query allContacts allCompanies = Returned filtered ->
  c ∈ filtered ->
  (mentions query (JS.get c "name") || mentions query (JS.get c "companyName"))%bool = true.
Proof.
  intros Hq. unfold ContactService.joinAndFilter.
  destruct (JS.truthy (SStr query)) eqn:Ht.
  - intros Hf Hc. apply filterM_spec in Hf as [Hall ->].
    apply list_elem_of_In, filter_In in Hc as [Hin Hp].
    rewrite Forall_forall in Hall. destruct (Hall c) as [b Hb].
    { apply list_elem_of_In. exact Hin. }
    rewrite Hb in Hp. cbn [valueOr] in Hp. subst b.
    apply (anyField_mentions query _ true Hq) in Hb. simpl in Hb.
    rewrite orb_false_r in Hb. symmetry. exact Hb.
  - apply truthy_text_nonempty in Ht. contradiction.
Qed.

Lemma spread_empty (r : record) : JS.spread r ∅ = r.
Proof. unfold JS.spread. apply (left_id_L ∅ (∪)). Qed.

(** X1. [getContactById] never rejects and writes nothing.  A row of the
    federated reader is returned as a copy, with the name of its company
    under [companyName] when the row has a company and the company reader
    answers, and unchanged otherwise.  Without such a row the contact is
    looked for on the first page of [searchOfficialContacts(contactId)]: what
    is found has the identifier, and, the search being one by name, its
    name or the name of its company contains the identifier. *)
Theorem contact_by_id_never_rejects :
  forall this sqlContact contactId w,
    exists r w',
      ContactService.getContactById this sqlContact contactId w = (Returned r, w') /\
      nothingWritten w w' /\
      match sqlContact with
      | Returned (Some rawContact) =>
          exists c, r = Some c /\
            (forall k, k <> "companyName" -> c !! k = rawContact !! k) /\
            (JS.truthy (JS.get rawContact "companyId") = false \/
             readable "companyList" w = false -> c = rawContact) /\
            (JS.truthy (JS.get rawContact "companyId") = true ->
             readable "companyList" w = true ->
             (forall n, resolvesIn "companyId" "companyName" (rowsOf "companyList" w)
                                   (JS.get rawContact "companyId") n ->
                        JS.get c "companyName" = JS.or n (JS.get rawContact "companyId")) /\
             (danglingIn "companyId" (rowsOf "companyList" w) (JS.get rawContact "companyId") ->
              JS.get c "companyName" = JS.get rawContact "companyId"))
      | _ =>
          forall c, r = Some c ->
            JS.get c "contactId" = SStr contactId /\
            (contactId <> EmptyString ->
             (mentions contactId (JS.get c "name")
              || mentions contactId (JS.get c "companyName"))%bool = true)
      end.
Proof.
  intros this sqlContact contactId w.
  assert (Hfallback :
    exists r w',
      tryCatch
        (let* result := ContactService.searchOfficialContacts this contactId 1 in
         ret (JS.find (fun c => JS.strictEq (JS.get c "contactId") (SStr contactId))
                      (data result)))
        (fun error => ret None) w = (Returned r, w') /\
      nothingWritten w w' /\
      forall c, r = Some c ->
        JS.get c "contactId" = SStr contactId /\
        (contactId <> EmptyString ->
         (mentions contactId (JS.get c "name")
          || mentions contactId (JS.get c "companyName"))%bool = true)).
  { unfold_monad.
    destruct (ContactService.searchOfficialContacts this contactId 1 w) as [[env|e] w1] eqn:H.
    - pose proof (searchOfficialContacts_nothingWritten _ _ _ _ _ _ H) as N.
      eexists _, w1. split; [reflexivity|]. split; [exact N|].
      intros c Hc. apply find_Some in Hc as [Hin Hid].
      unfold JS.strictEq in Hid. apply bool_decide_eq_true in Hid. split; [exact Hid|].
      intros Hq.
      apply searchOfficialContacts_returned in H
        as (allContacts & w0 & allCompanies & filtered & _ & _ & Hf & ->).
      cbn [data ContactService.paginate] in Hin. apply slice_subseteq in Hin.
      exact (joinAndFilter_mentions _ _ _ _ _ Hq Hf Hin).
    - pose proof (searchOfficialContacts_nothingWritten _ _ _ _ _ _ H) as N.
      eexists _, w1. split; [reflexivity|]. split; [exact N|]. discriminate. }
  unfold ContactService.getContactById.
  destruct sqlContact as [[rawContact|]|e]; [|exact Hfallback|exact Hfallback].
  clear Hfallback. rewrite spread_empty. unfold_monad.
  destruct (Reader.getCompanyList w) as [[companies|e] w1] eqn:H.
  - pose proof (getCollection_nothingWritten _ _ _ _ H) as N.
    apply rowsOf_returned in H as [Hrows Hread]. rewrite Hrows, Hread.
    eexists _, w1. split; [reflexivity|]. split; [exact N|].
    eexists. split; [reflexivity|].
    destruct (JS.truthy (JS.get rawContact "companyId")) eqn:Ht.
    + split; [|split].
      * intros k Hk. rewrite lookup_insert_ne by congruence. reflexivity.
      * intros [Hf|Hf]; discriminate Hf.
      * intros _ _.
        assert (Hget : forall v (r : record), JS.get (<[ "companyName" := v ]> r) "companyName" = v)
          by (intros v r; unfold JS.get; rewrite lookup_insert_eq; reflexivity).
        rewrite Hget. unfold JS.mapGet. split.
        -- intros n Hn. apply (rowMap_resolves "companyId" "companyName") in Hn.
           rewrite Hn. reflexivity.
        -- intros Hd. apply (rowMap_dangling "companyId" "companyName") in Hd.
           rewrite Hd. reflexivity.
    + split; [|split].
      * intros k _. reflexivity.
      * intros _. reflexivity.
      * intros Hf. discriminate Hf.
  - pose proof (getCollection_nothingWritten _ _ _ _ H) as N.
    apply readable_thrown in H. rewrite H.
    eexists _, w1. split; [reflexivity|]. split; [exact N|].
    eexists. split; [reflexivity|]. split; [|split].
    + intros k _. reflexivity.
    + intros _. reflexivity.
    + intros _ Hf. discriminate Hf.
Qed.

(** ** Computations that only read *)

Lemma afterReads_refl w : afterReads w w.
Proof. repeat split; reflexivity. Qed.

Lemma afterReads_trans w1 w2 w3 : afterReads w1 w2 -> afterReads w2 w3 -> afterReads w1 w3.
Proof.
  intros (H & A1 & A2 & A3 & A4 & A5 & A6 & A7 & A8) (H' & B1 & B2 & B3 & B4 & B5 & B6 & B7 & B8).
  split; [intros key; rewrite H', H; reflexivity|].
  repeat split; congruence.
Qed.

Lemma afterReads_nothingWritten w w' : afterReads w w' -> nothingWritten w w'.
Proof. intros (_ & Hs & Ht & _). split; assumption. Qed.

Lemma afterReads_dateParse w w' : afterReads w w' -> dateParse w' = dateParse w.
Proof. intros (_ & _ & _ & _ & _ & _ & _ & _ & Hd). unfold dateParse. rewrite Hd. reflexivity. Qed.

Lemma getCollection_afterReads key w o w' :
  Reader.getCollection key w = (o, w') -> afterReads w w'.
Proof.
  intros H. split; [intros k; exact (getCollection_fst_stable k key w o w' H)|].
  destruct o as [rows|e].
  - apply getCollection_returned in H as [[_ ->]|(_ & _ & ->)]; repeat split; reflexivity.
  - apply getCollection_thrown in H as (_ & _ & ->). repeat split; reflexivity.
Qed.

Lemma rowsOf_stableUnderReads key : stableUnderReads (rowsOf key).
Proof. intros w w' (H & _). unfold rowsOf. rewrite H. reflexivity. Qed.

Lemma readable_stableUnderReads key : stableUnderReads (readable key).
Proof. intros w w' (H & _). unfold readable. rewrite H. reflexivity. Qed.

Lemma readsOnly_getCollection key :
  readsOnly (Reader.getCollection key) (readable key) (rowsOf key).
Proof.
  intros w. destruct (Reader.getCollection key w) as [o w'] eqn:H.
  exists o, w'. split; [reflexivity|]. split; [exact (getCollection_afterReads _ _ _ _ H)|].
  unfold readable, rowsOf. rewrite H. destruct o as [rows|e]; cbn; [reflexivity|].
  exists e. reflexivity.
Qed.

Lemma readsOnly_both {A B} (ma : M A) (mb : M B) oka va okb vb :
  readsOnly ma oka va -> readsOnly mb okb vb ->
  stableUnderReads okb -> stableUnderReads vb ->
  readsOnly (both ma mb) (fun w => oka w && okb w)%bool (fun w => (va w, vb w)).
Proof.
  intros Ha Hb Sok Sv w. unfold both.
  destruct (Ha w) as (oa & w1 & Ea & Ra & Pa). rewrite Ea.
  destruct (Hb w1) as (ob & w2 & Eb & Rb & Pb). rewrite Eb.
  rewrite (Sok _ _ Ra), (Sv _ _ Ra) in Pb.
  pose proof (afterReads_trans _ _ _ Ra Rb) as R.
  destruct (oka w).
  - subst oa. destruct (okb w); simpl.
    + subst ob. eexists _, w2. split; [reflexivity|]. split; [exact R|reflexivity].
    + destruct Pb as [e ->]. eexists _, w2. split; [reflexivity|]. split; [exact R|].
      exists e. reflexivity.
  - destruct Pa as [e ->]. simpl. destruct ob; eexists _, w2;
      (split; [reflexivity|]); (split; [exact R|]); exists e; reflexivity.
Qed.

Lemma stableUnderReads_pair {A B} (f : World -> A) (g : World -> B) :
  stableUnderReads f -> stableUnderReads g -> stableUnderReads (fun w => (f w, g w)).
Proof. intros Hf Hg w w' R. rewrite (Hf _ _ R), (Hg _ _ R). reflexivity. Qed.

Lemma stableUnderReads_andb (f g : World -> bool) :
  stableUnderReads f -> stableUnderReads g -> stableUnderReads (fun w => f w && g w)%bool.
Proof. intros Hf Hg w w' R. rewrite (Hf _ _ R), (Hg _ _ R). reflexivity. Qed.

(** ** [ContactService.getLinkedContacts] *)

Lemma find_cons {A} (p : A -> bool) x l :
  JS.find p (x :: l) = if p x then Some x else JS.find p l.
Proof.
  unfold JS.find. simpl. destruct (p x); [reflexivity|].
  generalize 0%nat at 2. generalize 1%nat.
  induction l as [|y l IH]; intros i j; simpl; [reflexivity|].
  destruct (p y); [reflexivity|]. apply IH.
Qed.

Lemma find_None {A} (p : A -> bool) l :
  JS.find p l = None <-> Forall (fun x => p x = false) l.
Proof.
  induction l as [|x l IH].
  - split; [constructor|reflexivity].
  - rewrite find_cons. destruct (p x) eqn:E.
    + split; [discriminate|]. intros H. apply Forall_cons in H as [H _]. congruence.
    + rewrite IH. split.
      * intros H. constructor; assumption.
      * intros H. apply Forall_cons in H as [_ H]. exact H.
Qed.

(** The first card of a key is the one that the map keeps. *)
Lemma cards_lookup l m name company :
  fold_left ContactService.addCard l m !! ContactService.cardKey name company =
  match m !! ContactService.cardKey name company with
  | Some v => Some v
  | None => (fun pc => JS.get pc "driveLink") <$> JS.find (cardFor name company) l
  end.
Proof.
  revert m. induction l as [|pc l IH]; intros m; simpl.
  - destruct (m !! _); reflexivity.
  - rewrite IH, find_cons. unfold ContactService.addCard, cardFor.
    destruct (JS.truthy (JS.get pc "name") && JS.truthy (JS.get pc "company")
              && JS.truthy (JS.get pc "driveLink"))%bool; simpl.
    + case_bool_decide as Hin.
      * destruct (m !! ContactService.cardKey name company) as [v|] eqn:Hm; [reflexivity|].
        destruct (String.eqb_spec (ContactService.cardKey (JS.get pc "name") (JS.get pc "company"))
                                  (ContactService.cardKey name company)) as [E|E];
          [|reflexivity].
        rewrite E, Hm in Hin. destruct Hin as [? Hin]. discriminate Hin.
      * destruct (String.eqb_spec (ContactService.cardKey (JS.get pc "name") (JS.get pc "company"))
                                  (ContactService.cardKey name company)) as [E|E].
        -- rewrite E. rewrite lookup_insert_eq.
           rewrite E in Hin. destruct (m !! ContactService.cardKey name company) eqn:Hm;
             [exfalso; apply Hin; eexists; reflexivity|reflexivity].
        -- rewrite lookup_insert_ne by exact E. reflexivity.
    + reflexivity.
Qed.

Lemma linkedContactIds_elem opportunityId links c :
  bool_decide (JS.get c "contactId" ∈ ContactService.linkedContactIds opportunityId links)
  = existsb (linksTo opportunityId c) links.
Proof.
  unfold ContactService.linkedContactIds.
  induction links as [|link links IH]; simpl.
  - first [reflexivity | apply bool_decide_eq_false_2, not_elem_of_nil].
  - unfold linksTo at 1.
    destruct (JS.strictEq (JS.get link "opportunityId") opportunityId
              && JS.strictEq (JS.get link "status") (SStr "active"))%bool; simpl.
    + rewrite <- IH. unfold JS.strictEq.
      destruct (decide (JS.get link "contactId" = JS.get c "contactId")) as [E|E].
      * rewrite (bool_decide_eq_true_2 _ E). simpl.
        apply bool_decide_eq_true. rewrite E. apply list_elem_of_here.
      * rewrite (bool_decide_eq_false_2 _ E). simpl.
        apply bool_decide_ext. rewrite elem_of_cons. split; [|auto].
        intros [H|H]; [congruence|exact H].
    + exact IH.
Qed.

Lemma linkedContactOf_card companies potentials c :
  linkedCard companies potentials c
    (ContactService.linkedContactOf
       (JS.newMap (map (fun o => (JS.get o "companyId", JS.get o "companyName")) companies))
       (fold_left ContactService.addCard potentials ∅) c).
Proof.
  set (m := JS.newMap _).
  assert (Hname : JS.get (ContactService.linkedContactOf m
                    (fold_left ContactService.addCard potentials ∅) c) "companyName"
                  = JS.or (JS.mapGet m (JS.get c "companyId")) (SStr EmptyString))
    by reflexivity.
  split; [|split; [|split]].
  - repeat constructor.
  - intros n Hn. rewrite Hname. unfold JS.mapGet, m.
    apply (rowMap_resolves "companyId" "companyName") in Hn. rewrite Hn. reflexivity.
  - intros Hd. rewrite Hname. unfold JS.mapGet, m.
    apply (rowMap_dangling "companyId" "companyName") in Hd. rewrite Hd. reflexivity.
  - rewrite Hname. set (companyName := JS.or _ _).
    transitivity
      (if (JS.truthy (JS.get c "name") && JS.truthy companyName)%bool
       then JS.or (default SUndef (fold_left ContactService.addCard potentials ∅
                                     !! ContactService.cardKey (JS.get c "name") companyName))
                  (SStr EmptyString)
       else SStr EmptyString); [reflexivity|].
    destruct (JS.truthy (JS.get c "name") && JS.truthy companyName)%bool; [|reflexivity].
    rewrite cards_lookup, lookup_empty.
    destruct (JS.find (cardFor (JS.get c "name") companyName) potentials) as [pc|] eqn:Hf;
      [|reflexivity].
    cbn [fmap option_fmap option_map default]. apply find_Some in Hf as [_ Hp].
    unfold cardFor in Hp. apply andb_true_iff in Hp as [Hp _].
    apply andb_true_iff in Hp as [_ Hp]. unfold JS.or, id. rewrite Hp. reflexivity.
Qed.

Lemma readsOnly_linkedContacts :
  readsOnly
    (both Reader.getAllOppContactLinks
       (both Reader.getContactList (both Reader.getCompanyList Reader.getContacts)))
    (fun w => readable "oppContactLinks" w
              && (readable "contactList" w && (readable "companyList" w && readable "contacts" w)))%bool
    (fun w => (rowsOf "oppContactLinks" w,
               (rowsOf "contactList" w, (rowsOf "companyList" w, rowsOf "contacts" w)))).
Proof.
  repeat first
    [ apply readsOnly_both | apply readsOnly_getCollection
    | apply stableUnderReads_andb | apply stableUnderReads_pair
    | apply rowsOf_stableUnderReads | apply readable_stableUnderReads ].
Qed.

(** X2. [getLinkedContacts] never rejects and writes nothing.  When the four
    readers answer, it returns one object for each official contact to which
    an active link of the opportunity points, in the order of the contacts;
    when one of them fails, it returns no object. *)
Theorem linked_contacts_follow_the_active_links :
  forall opportunityId w,
    exists rows w',
      ContactService.getLinkedContacts opportunityId w = (Returned rows, w') /\
      nothingWritten w w' /\
      if (readable "oppContactLinks" w
          && (readable "contactList" w && (readable "companyList" w && readable "contacts" w)))%bool
      then Forall2 (linkedCard (rowsOf "companyList" w) (rowsOf "contacts" w))
             (List.filter (fun c => existsb (linksTo opportunityId c) (rowsOf "oppContactLinks" w))
                          (rowsOf "contactList" w))
             rows
      else rows = [].
Proof.
  intros opportunityId w. unfold ContactService.getLinkedContacts. unfold tryCatch, bind.
  destruct (readsOnly_linkedContacts w) as (o & w1 & E & R & P). rewrite E.
  apply afterReads_nothingWritten in R.
  destruct (readable "oppContactLinks" w
            && (readable "contactList" w && (readable "companyList" w && readable "contacts" w)))%bool.
  - subst o.
    set (links := rowsOf "oppContactLinks" w). set (contacts := rowsOf "contactList" w).
    assert (Hfilter :
      List.filter (fun contact => bool_decide (JS.get contact "contactId"
                     ∈ ContactService.linkedContactIds opportunityId links)) contacts
      = List.filter (fun c => existsb (linksTo opportunityId c) links) contacts).
    { apply filter_ext. intros c. apply linkedContactIds_elem. }
    destruct (ContactService.linkedContactIds opportunityId links) as [|i ids] eqn:Hids.
    + eexists _, w1. split; [reflexivity|]. split; [exact R|].
      rewrite <- Hfilter. clear. induction contacts as [|c l IH]; simpl; [constructor|].
      exact IH.
    + eexists _, w1. split; [reflexivity|]. split; [exact R|].
      rewrite Hfilter. clear.
      induction (List.filter _ contacts) as [|c l IH]; simpl; constructor; [|exact IH].
      apply linkedContactOf_card.
  - destruct P as [e ->]. eexists _, w1. split; [reflexivity|]. split; [exact R|reflexivity].
Qed.

(** ** [ContactService.updateContact] and [updatePotentialContact]: the
       failures *)

Lemma updateAt_cases coll rowIndex data w :
  Writer.updateAt coll rowIndex data w =
    if writerDown w then (Thrown "writer failure", w)
    else (Returned {[ "success" := SBool true ]},
          logCall (WUpdateRow coll rowIndex data)
            (setSheet (alter (map (fun r => if Writer.handleOf rowIndex r
                                            then JS.spread r data else r)) coll) w)).
Proof. reflexivity. Qed.

(** X3. [updateContact] and [updatePotentialContact] write all or nothing.  A
    call that returns has made one writer call, on the row handle of the
    first contact with the identifier (for a card: with the row number that
    [parseInt] reads), and has then invalidated the collection.  A call that
    rejects has written nothing and invalidated nothing; when the reader
    answers, it rejects because no contact matches, because the match has no
    row handle, or because the writer fails. *)
Theorem contact_updates_are_all_or_nothing :
  (forall contactId updateData user w,
     let found := JS.find (fun c => JS.strictEq (JS.get c "contactId") contactId)
                          (rowsOf "contactList" w) in
     match ContactService.updateContact contactId updateData user w with
     | (Returned res, w') =>
         res = {[ "success" := SBool true ]} /\ writerDown w = false /\
         exists target,
           found = Some target /\ JS.truthy (JS.get target "rowIndex") = true /\
           trace w' = trace w ++ [WUpdateRow "contactList" (JS.get target "rowIndex") updateData;
                                  RInvalidate "contactList"] /\
           cache w' !! "contactList" = None
     | (Thrown e, w') =>
         nothingWritten w w' /\
         (readable "contactList" w = true ->
          match found with
          | None => e = ("Contact ID not found: " ++ JS.toStr contactId)%string
          | Some target =>
              if JS.truthy (JS.get target "rowIndex") then writerDown w = true
              else e = ("System Error: Missing rowIndex for Contact "
                        ++ JS.toStr contactId)%string
          end)
     end) /\
  (forall rowIndex updateData modifier w,
     let found := JS.find (fun c => match JS.parseInt rowIndex with
                                    | Some n => JS.strictEq (JS.get c "rowIndex") (SNum n)
                                    | None => false
                                    end) (rowsOf "contacts" w) in
     match ContactService.updatePotentialContact rowIndex updateData modifier w with
     | (Returned res, w') =>
         res = {[ "success" := SBool true ]} /\ writerDown w = false /\
         exists target,
           found = Some target /\
           trace w' = trace w ++
             [WUpdateRow "contacts" rowIndex
                (ContactService.mergePotentialContact target updateData modifier (localeDate w));
              RInvalidate "contacts"] /\
           cache w' !! "contacts" = None
     | (Thrown e, w') =>
         nothingWritten w w' /\
         (readable "contacts" w = true ->
          match found with
          | None => e = ("找不到潛在客戶 Row: " ++ JS.toStr rowIndex)%string
          | Some _ => writerDown w = true
          end) /\
         (readable "contacts" w = true -> JS.parseInt rowIndex = None ->
          e = ("找不到潛在客戶 Row: " ++ JS.toStr rowIndex)%string)
     end).
Proof.
  split.
  - intros contactId updateData user w. cbv zeta.
    unfold ContactService.updateContact. unfold bind at 1.
    destruct (Reader.getContactList w) as [[allContacts|e] w1] eqn:H.
    + pose proof (getCollection_afterReads _ _ _ _ H) as R.
      destruct (rowsOf_returned _ _ _ _ H) as [-> ->].
      destruct (JS.find _ allContacts) as [target|] eqn:Hf.
      * destruct (JS.truthy (JS.get target "rowIndex")) eqn:Ht; cbn [negb].
        -- unfold bind, ret, Reader.invalidateCache. rewrite updateAt_cases.
           destruct R as (_ & Rs & Rt & Rd & _). rewrite Rd.
           destruct (writerDown w) eqn:Hd.
           ++ split; [split; assumption|]. intros _. reflexivity.
           ++ split; [reflexivity|]. split; [reflexivity|].
              exists target. split; [reflexivity|]. split; [exact Ht|].
              cbn. rewrite Rt, lookup_delete_eq, <- app_assoc. split; reflexivity.
        -- unfold throw. split; [exact (afterReads_nothingWritten _ _ R)|].
           intros _. reflexivity.
      * unfold throw. split; [exact (afterReads_nothingWritten _ _ R)|].
        intros _. reflexivity.
    + split; [exact (getCollection_nothingWritten _ _ _ _ H)|].
      apply readable_thrown in H. rewrite H. discriminate.
  - intros rowIndex updateData modifier w. cbv zeta.
    unfold ContactService.updatePotentialContact. unfold bind at 1.
    destruct (Reader.getContacts w) as [[allContacts|e] w1] eqn:H.
    + pose proof (getCollection_afterReads _ _ _ _ H) as R.
      destruct (rowsOf_returned _ _ _ _ H) as [-> ->].
      destruct (JS.find _ allContacts) as [target|] eqn:Hf.
      * unfold bind, ret, Reader.invalidateCache. rewrite updateAt_cases.
        destruct R as (_ & Rs & Rt & Rd & _ & _ & _ & Rl & _). rewrite Rd.
        destruct (writerDown w) eqn:Hd.
        -- split; [split; assumption|]. split; [intros _; reflexivity|].
           intros _ Hp. rewrite Hp in Hf. clear -Hf. exfalso.
           apply find_Some in Hf as [_ Hf]. discriminate Hf.
        -- split; [reflexivity|]. split; [reflexivity|].
           exists target. split; [reflexivity|].
           cbn. rewrite Rt, Rl, lookup_delete_eq, <- app_assoc. split; reflexivity.
      * unfold throw. split; [exact (afterReads_nothingWritten _ _ R)|].
        split; intros; reflexivity.
    + split; [exact (getCollection_nothingWritten _ _ _ _ H)|].
      apply readable_thrown in H. rewrite H. split; discriminate.
Qed.

(** ** [InteractionService.getInteractionsByOpportunity] and
       [getInteractionsByCompany] *)

Lemma filter_perm {A} (p : A -> bool) (l l' : list A) :
  l ≡ₚ l' -> List.filter p l ≡ₚ List.filter p l'.
Proof.
  induction 1 as [|x l l' _ IH|x y l|l1 l2 l3 _ IH1 _ IH2]; simpl.
  - reflexivity.
  - destruct (p x); [constructor|]; exact IH.
  - destruct (p x), (p y); try reflexivity. apply perm_swap.
  - etransitivity; eassumption.
Qed.

Lemma readsOnly_interactions :
  readsOnly (both Reader.getInteractions (both Reader.getOpportunities Reader.getCompanyList))
    (fun w => readable "interactions" w
              && (readable "opportunities" w && readable "companyList" w))%bool
    (fun w => (rowsOf "interactions" w, (rowsOf "opportunities" w, rowsOf "companyList" w))).
Proof.
  repeat first
    [ apply readsOnly_both | apply readsOnly_getCollection
    | apply stableUnderReads_andb | apply stableUnderReads_pair
    | apply rowsOf_stableUnderReads | apply readable_stableUnderReads ].
Qed.

(** The search with no query and [fetchAll]: every interaction, joined and
    sorted. *)
Lemma searchInteractions_all this page w :
  exists o w',
    InteractionService.searchInteractions this EmptyString page true w = (o, w') /\
    afterReads w w' /\
    if (readable "interactions" w && (readable "opportunities" w && readable "companyList" w))%bool
    then exists env,
           o = Returned env /\
           data env = JS.sort (InteractionService.byInteractionTimeDesc (dateParse w))
                        (map (withContext (rowsOf "opportunities" w) (rowsOf "companyList" w))
                             (rowsOf "interactions" w))
    else exists e, o = Thrown e.
Proof.
  unfold InteractionService.searchInteractions. unfold bind at 1.
  destruct (readsOnly_interactions w) as (o & w1 & E & R & P). rewrite E.
  destruct (readable "interactions" w
            && (readable "opportunities" w && readable "companyList" w))%bool.
  - subst o. unfold_monad. cbn. eexists _, w1. split; [reflexivity|]. split; [exact R|].
    eexists. split; [reflexivity|]. cbn [data].
    rewrite (afterReads_dateParse _ _ R). f_equal. apply map_ext. intros item.
    apply joinContext_copies.
  - destruct P as [e ->]. eexists _, w1. split; [reflexivity|]. split; [exact R|].
    exists e. reflexivity.
Qed.

Lemma withContext_field opportunities companies item k :
  k <> "opportunityName" ->
  JS.get (withContext opportunities companies item) k = JS.get item k.
Proof.
  intros Hk. unfold withContext, JS.get. rewrite lookup_insert_ne by congruence. reflexivity.
Qed.

Lemma interactions_by_field this field id w :
  field <> "opportunityName" ->
  exists rows w',
    tryCatch
      (let* result := InteractionService.searchInteractions this EmptyString 1 true in
       ret (List.filter (fun log => JS.strictEq (JS.get log field) id) (data result)))
      (fun error => ret []) w = (Returned rows, w') /\
    nothingWritten w w' /\
    if (readable "interactions" w && (readable "opportunities" w && readable "companyList" w))%bool
    then rows ≡ₚ map (withContext (rowsOf "opportunities" w) (rowsOf "companyList" w))
                     (List.filter (fun i => JS.strictEq (JS.get i field) id)
                                  (rowsOf "interactions" w)) /\
         invalidDatesLast (dateParse w) "interactionTime" rows
    else rows = [].
Proof.
  intros Hk. unfold tryCatch, bind, ret.
  destruct (searchInteractions_all this 1 w) as (o & w1 & E & R & P). rewrite E.
  apply afterReads_nothingWritten in R.
  destruct (readable "interactions" w
            && (readable "opportunities" w && readable "companyList" w))%bool.
  - destruct P as (env & -> & Hd). eexists _, w1. split; [reflexivity|]. split; [exact R|].
    rewrite Hd. split.
    + rewrite (filter_perm _ _ _ (sort_perm _ _)). rewrite filter_map_swap.
      erewrite filter_ext; [reflexivity|].
      intros i. cbn beta. rewrite withContext_field by exact Hk. reflexivity.
    + apply filter_keeps_invalid_last.
      destruct (guarded_sort_puts_invalid_last _ _
                  (map (withContext (rowsOf "opportunities" w) (rowsOf "companyList" w))
                       (rowsOf "interactions" w))
                  (byInteractionTimeDesc_guards (dateParse w))) as (good & bad & H1 & H2 & H3).
      exists good, bad. split; [exact H1|]. split; assumption.
  - destruct P as [e ->]. eexists _, w1. split; [reflexivity|]. split; [exact R|reflexivity].
Qed.

(** X8. [getInteractionsByOpportunity] and [getInteractionsByCompany] never
    reject and write nothing.  When the three readers answer, the result
    holds a copy, with its context name, of each interaction of the reader
    that has the identifier, and of no other; those whose time does not
    parse come last.  When a reader fails the result is empty. *)
Theorem interactions_by_owner_are_complete :
  forall this id w,
    (exists rows w',
       InteractionService.getInteractionsByOpportunity this id w = (Returned rows, w') /\
       nothingWritten w w' /\
       if (readable "interactions" w
           && (readable "opportunities" w && readable "companyList" w))%bool
       then rows ≡ₚ map (withContext (rowsOf "opportunities" w) (rowsOf "companyList" w))
                        (List.filter (fun i => JS.strictEq (JS.get i "opportunityId") id)
                                     (rowsOf "interactions" w)) /\
            invalidDatesLast (dateParse w) "interactionTime" rows
       else rows = []) /\
    (exists rows w',
       InteractionService.getInteractionsByCompany this id w = (Returned rows, w') /\
       nothingWritten w w' /\
       if (readable "interactions" w
           && (readable "opportunities" w && readable "companyList" w))%bool
       then rows ≡ₚ map (withContext (rowsOf "opportunities" w) (rowsOf "companyList" w))
                        (List.filter (fun i => JS.strictEq (JS.get i "companyId") id)
                                     (rowsOf "interactions" w)) /\
            invalidDatesLast (dateParse w) "interactionTime" rows
       else rows = []).
Proof.
  intros this id w. split.
  - apply (interactions_by_field this "opportunityId" id w). discriminate.
  - apply (interactions_by_field this "companyId" id w). discriminate.
Qed.

(** ** [CompanyService.deleteCompany] and [_findCompanyRowIndex] *)

Lemma normalizeCompanyValue_usable v :
  usableName v = true <-> exists k, normalizeCompanyValue v = Returned k.
Proof.
  unfold usableName, normalizeCompanyValue.
  destruct v as [| |[]|n|s]; simpl; try (split; [eexists; reflexivity|reflexivity]).
  - split; [discriminate|]. intros [k H]. discriminate H.
  - destruct (n =? 0); simpl; split; try (eexists; reflexivity); try reflexivity;
      try discriminate. intros [k H]. discriminate H.
  - destruct (negb (String.eqb s EmptyString)); simpl; split; try reflexivity;
      intros _; eexists; reflexivity.
Qed.

Lemma refersTo_sameKey companyName o :
  valueOr false (CompanyService.refersTo companyName o)
  = sameKey (JS.get o "customerCompany") companyName.
Proof.
  unfold CompanyService.refersTo, sameKey, CompanyService._normalizeCompanyName.
  destruct (normalizeCompanyValue (JS.get o "customerCompany")); [|reflexivity].
  destruct (normalizeCompanyValue companyName); reflexivity.
Qed.

Lemma keyIs_sameKey field companyName target r :
  normalizeCompanyValue companyName = Returned target ->
  valueOr false (CompanyService.keyIs field target r) = sameKey (JS.get r field) companyName.
Proof.
  intros H. unfold CompanyService.keyIs, sameKey, CompanyService._normalizeCompanyName.
  rewrite H. destruct (normalizeCompanyValue (JS.get r field)); reflexivity.
Qed.

Lemma filterM_returns {A} (p : A -> outcome bool) l :
  Forall (fun x => exists b, p x = Returned b) l ->
  JS.filterM p l = Returned (List.filter (fun x => valueOr false (p x)) l).
Proof.
  induction 1 as [|x l [b Hb] _ IH]; simpl; [reflexivity|].
  rewrite Hb, IH. cbn [valueOr]. destruct b; reflexivity.
Qed.

Lemma deleteAt_cases coll rowIndex w :
  Writer.deleteAt coll rowIndex w =
    if writerDown w then (Thrown "writer failure", w)
    else (Returned {[ "success" := SBool true ]},
          logCall (WDeleteRow coll rowIndex)
            (setSheet (alter (filter (fun r => Writer.handleOf rowIndex r = false)) coll) w)).
Proof. reflexivity. Qed.

(** What [_findCompanyRowIndex] answers: the row handle of a company of
    the reader that has the name, or its key. *)
Lemma findCompanyRowIndex_cases companyName w :
  match CompanyService._findCompanyRowIndex companyName w with
  | (Returned rowIndex, w') =>
      afterReads w w' /\
      exists target,
        target ∈ rowsOf "companyList" w /\
        (JS.get target "companyName" = companyName \/
         sameKey (JS.get target "companyName") companyName = true) /\
        JS.truthy (JS.get target "rowIndex") = true /\ rowIndex = JS.get target "rowIndex"
  | (Thrown e, w') => afterReads w w'
  end.
Proof.
  unfold CompanyService._findCompanyRowIndex. unfold_monad.
  destruct (Reader.getCompanyList w) as [[companies|e] w1] eqn:H;
    pose proof (getCollection_afterReads _ _ _ _ H) as R; [|exact R].
  destruct (rowsOf_returned _ _ _ _ H) as [-> _].
  destruct (CompanyService._normalizeCompanyName companyName) as [target|e] eqn:Hn; [|exact R].
  destruct (JS.findM _ companies) as [[c|]|e] eqn:Hf; [|exact R|exact R].
  destruct (JS.truthy (JS.get c "rowIndex")) eqn:Ht; cbn [negb]; [|exact R].
  split; [exact R|]. exists c. apply findM_Some in Hf as [Hin Hp].
  split; [exact Hin|]. split; [|split; [exact Ht|reflexivity]].
  unfold CompanyService.namedLike in Hp. unfold JS.strictEq in Hp.
  case_bool_decide as Heq; [left; exact Heq|right].
  unfold sameKey. unfold CompanyService._normalizeCompanyName in *. rewrite Hn.
  destruct (normalizeCompanyValue (JS.get c "companyName")); [|discriminate].
  injection Hp as ->. reflexivity.
Qed.

(** X9. [deleteCompany] refuses to delete a company to which an opportunity
    still refers: when the names are texts and the key of the customer of an
    opportunity is that of the name, the call rejects with the message that
    counts them, and nothing is written.  A call that returns has found no
    such opportunity, and has made one writer call, on the row handle of a
    company that has the name or its key, before invalidating the list.
    Every call that rejects has written nothing. *)
Theorem delete_company_is_refused_while_referred :
  forall companyName u w,
    let related := List.filter (fun o => sameKey (JS.get o "customerCompany") companyName)
                               (rowsOf "opportunities" w) in
    match CompanyService.deleteCompany companyName u w with
    | (Returned res, w') =>
        related = [] /\ writerDown w = false /\
        exists target,
          target ∈ rowsOf "companyList" w /\
          (JS.get target "companyName" = companyName \/
           sameKey (JS.get target "companyName") companyName = true) /\
          JS.truthy (JS.get target "rowIndex") = true /\
          trace w' = trace w ++ [WDeleteRow "companyList" (JS.get target "rowIndex");
                                 RInvalidate "companyList"] /\
          cache w' !! "companyList" = None
    | (Thrown e, w') =>
        nothingWritten w w' /\
        (readable "opportunities" w = true -> usableName companyName = true ->
         Forall (fun o => usableName (JS.get o "customerCompany") = true)
                (rowsOf "opportunities" w) ->
         related <> [] -> e = stillReferred related)
    end.
Proof.
  intros companyName u w. cbv zeta. unfold CompanyService.deleteCompany. unfold bind at 1.
  destruct (Reader.getOpportunities w) as [[opps|e] w1] eqn:H;
    pose proof (getCollection_afterReads _ _ _ _ H) as R.
  2:{ split; [exact (afterReads_nothingWritten _ _ R)|].
      apply readable_thrown in H. rewrite H. discriminate. }
  destruct (rowsOf_returned _ _ _ _ H) as [-> ->].
  unfold bind at 1. unfold lift.
  destruct (JS.filterM (CompanyService.refersTo companyName) opps) as [relatedOpps|e] eqn:Hf.
  - apply filterM_spec in Hf as [_ Hf].
    assert (Hrel : relatedOpps
                   = List.filter (fun o => sameKey (JS.get o "customerCompany") companyName) opps).
    { rewrite Hf. apply filter_ext. intros o. apply refersTo_sameKey. }
    rewrite <- Hrel. clear Hf Hrel.
    destruct relatedOpps as [|first rest].
    + unfold bind at 1.
      pose proof (findCompanyRowIndex_cases companyName w1) as Hrow.
      destruct (CompanyService._findCompanyRowIndex companyName w1) as [[rowIndex|e] w2].
      * destruct Hrow as (R2 & target & Hin & Hname & Ht & ->).
        rewrite (rowsOf_stableUnderReads "companyList" _ _ R) in Hin.
        pose proof (afterReads_trans _ _ _ R R2) as R'.
        unfold bind, ret, Reader.invalidateCache. rewrite deleteAt_cases.
        destruct R' as (_ & Rs & Rt & Rd & _). rewrite Rd.
        destruct (writerDown w) eqn:Hd.
        -- split; [split; assumption|]. intros _ _ _ Hne. contradiction.
        -- split; [reflexivity|]. split; [reflexivity|]. exists target.
           split; [exact Hin|]. split; [exact Hname|]. split; [exact Ht|].
           cbn. rewrite Rt, lookup_delete_eq, <- app_assoc. split; reflexivity.
      * split; [exact (afterReads_nothingWritten _ _ (afterReads_trans _ _ _ R Hrow))|].
        intros _ _ _ Hne. contradiction.
    + unfold throw. split; [exact (afterReads_nothingWritten _ _ R)|].
      intros _ _ _ _. reflexivity.
  - split; [exact (afterReads_nothingWritten _ _ R)|].
    intros _ Hu Hall _. exfalso.
    rewrite filterM_returns in Hf; [discriminate Hf|].
    eapply Forall_impl; [exact Hall|]. intros o Ho. cbn beta in Ho.
    apply normalizeCompanyValue_usable in Ho as [a Ha].
    apply normalizeCompanyValue_usable in Hu as [b Hb].
    unfold CompanyService.refersTo, CompanyService._normalizeCompanyName.
    rewrite Ha, Hb. eexists. reflexivity.
Qed.

(** ** [CompanyService.getCompanyDetails] *)

Lemma findM_spec {A} (p : A -> outcome bool) l r :
  JS.findM p l = Returned r -> r = JS.find (fun x => valueOr false (p x)) l.
Proof.
  induction l as [|x l IH]; simpl.
  - intros [= <-]. reflexivity.
  - rewrite find_cons. destruct (p x) as [[]|e]; cbn [valueOr].
    + intros [= <-]. reflexivity.
    + exact IH.
    + discriminate.
Qed.

Lemma findByNormalizedName_spec companyName target companies r :
  normalizeCompanyValue companyName = Returned target ->
  CompanyService.findByNormalizedName target companies = Returned r ->
  r = JS.find (fun c => sameKey (JS.get c "companyName") companyName) companies.
Proof.
  intros Hn Hf. unfold CompanyService.findByNormalizedName in Hf.
  apply findM_spec in Hf. rewrite Hf. clear Hf.
  induction companies as [|c l IH]; [reflexivity|].
  rewrite !find_cons, IH.
  replace (valueOr false _) with (sameKey (JS.get c "companyName") companyName); [reflexivity|].
  unfold sameKey, CompanyService._normalizeCompanyName. rewrite Hn.
  destruct (normalizeCompanyValue (JS.get c "companyName")); reflexivity.
Qed.

Lemma relatedRow_ofCompany companyId opps r :
  CompanyService.relatedRow companyId (map (fun o => JS.get o "opportunityId") opps) r
  = ofCompany companyId opps r.
Proof.
  unfold CompanyService.relatedRow, ofCompany. do 2 f_equal.
  induction opps as [|o opps IH]; simpl.
  - first [reflexivity | apply bool_decide_eq_false_2, not_elem_of_nil].
  - rewrite <- IH. unfold JS.strictEq.
    destruct (decide (JS.get o "opportunityId" = JS.get r "opportunityId")) as [E|E].
    + rewrite (bool_decide_eq_true_2 _ E). simpl.
      apply bool_decide_eq_true. rewrite E. apply list_elem_of_here.
    + rewrite (bool_decide_eq_false_2 _ E). simpl.
      apply bool_decide_ext. rewrite elem_of_cons. split; [|auto].
      intros [H|H]; [congruence|exact H].
Qed.

Lemma readsOnly_companyDetails :
  readsOnly
    (both Reader.getCompanyList
      (both Reader.getContactList
        (both Reader.getOpportunities
          (both Reader.getInteractions
            (both Reader.getEventLogs Reader.getContacts)))))
    (fun w => readable "companyList" w
              && (readable "contactList" w
                  && (readable "opportunities" w
                      && (readable "interactions" w
                          && (readable "eventLogs" w && readable "contacts" w)))))%bool
    (fun w => (rowsOf "companyList" w,
               (rowsOf "contactList" w,
                (rowsOf "opportunities" w,
                 (rowsOf "interactions" w, (rowsOf "eventLogs" w, rowsOf "contacts" w)))))).
Proof.
  repeat first
    [ apply readsOnly_both | apply readsOnly_getCollection
    | apply stableUnderReads_andb | apply stableUnderReads_pair
    | apply rowsOf_stableUnderReads | apply readable_stableUnderReads ].
Qed.

(** X10. [getCompanyDetails] writes nothing.  When it returns, [companyInfo] is
    the first company of the reader whose name has the key of the given
    name, and [null] when there is none, in which case the five lists are
    empty.  Otherwise the contacts are those of the company's identifier,
    the opportunities and the potential contacts those whose company has
    the key, in the order of the readers, and the interactions and the event
    logs those of the company or of one of these opportunities. *)
Theorem company_details_collect_the_rows_of_the_company :
  forall companyName w,
    match CompanyService.getCompanyDetails companyName w with
    | (Thrown e, w') => nothingWritten w w'
    | (Returned d, w') =>
        nothingWritten w w' /\
        CompanyService.companyInfo d
          = JS.find (fun c => sameKey (JS.get c "companyName") companyName)
                    (rowsOf "companyList" w) /\
        match CompanyService.companyInfo d with
        | None =>
            CompanyService.contacts d = [] /\ CompanyService.opportunities d = [] /\
            CompanyService.potentialContacts d = [] /\
            CompanyService.interactions d = [] /\ CompanyService.eventLogs d = []
        | Some info =>
            CompanyService.contacts d
              = List.filter (fun c => JS.strictEq (JS.get c "companyId") (JS.get info "companyId"))
                            (rowsOf "contactList" w) /\
            CompanyService.opportunities d
              = List.filter (fun o => sameKey (JS.get o "customerCompany") companyName)
                            (rowsOf "opportunities" w) /\
            CompanyService.potentialContacts d
              = List.filter (fun pc => sameKey (JS.get pc "company") companyName)
                            (rowsOf "contacts" w) /\
            CompanyService.interactions d
              ≡ₚ List.filter (ofCompany (JS.get info "companyId") (CompanyService.opportunities d))
                             (rowsOf "interactions" w) /\
            CompanyService.eventLogs d
              ≡ₚ List.filter (ofCompany (JS.get info "companyId") (CompanyService.opportunities d))
                             (rowsOf "eventLogs" w)
        end
    end.
Proof.
  intros companyName w. unfold CompanyService.getCompanyDetails. unfold bind at 1.
  destruct (readsOnly_companyDetails w) as (o & w1 & E & R & P). rewrite E.
  apply afterReads_nothingWritten in R.
  destruct (readable "companyList" w && _)%bool.
  2:{ destruct P as [e ->]. exact R. }
  subst o. unfold bind at 1. unfold lift at 1.
  destruct (CompanyService._normalizeCompanyName companyName) as [target|e] eqn:Hn; [|exact R].
  unfold bind at 1. unfold lift at 1.
  destruct (CompanyService.findByNormalizedName target (rowsOf "companyList" w))
    as [companyInfo|e] eqn:Hf; [|exact R].
  apply (findByNormalizedName_spec companyName) in Hf; [|exact Hn].
  destruct companyInfo as [info|].
  - unfold bind at 1. unfold lift at 1.
    destruct (JS.filterM (CompanyService.keyIs "customerCompany" target)
                         (rowsOf "opportunities" w)) as [opps|e] eqn:Ho; [|exact R].
    unfold bind at 1. unfold lift at 1.
    destruct (JS.filterM (CompanyService.keyIs "company" target) (rowsOf "contacts" w))
      as [pcs|e] eqn:Hp; [|exact R].
    unfold ret. split; [exact R|]. split; [exact Hf|].
    cbn [CompanyService.companyInfo CompanyService.contacts CompanyService.opportunities
         CompanyService.potentialContacts CompanyService.interactions
         CompanyService.eventLogs].
    apply filterM_spec in Ho as [_ Ho]. apply filterM_spec in Hp as [_ Hp].
    split; [reflexivity|]. split; [|split; [|split]].
    + rewrite Ho. apply filter_ext. intros o.
      apply (keyIs_sameKey "customerCompany" companyName target o Hn).
    + rewrite Hp. apply filter_ext. intros pc.
      apply (keyIs_sameKey "company" companyName target pc Hn).
    + rewrite sort_perm. erewrite filter_ext; [reflexivity|].
      intros r. apply relatedRow_ofCompany.
    + rewrite sort_perm. erewrite filter_ext; [reflexivity|].
      intros r. apply relatedRow_ofCompany.
  - unfold ret. split; [exact R|]. split; [exact Hf|]. cbn. repeat split; reflexivity.
Qed.

(** ** [CompanyService.createCompany]: what is written *)

(** X11. A call of [createCompany] that returns what the writer returned has
    made one writer call and has then invalidated the list.  The data written
    are [companyData] with the name under [companyName], unless
    [companyData] has a [companyName] of its own, which is then the one
    written.  A call that finds the company, or that rejects, writes
    nothing. *)
Theorem create_company_writes_the_data_over_the_name :
  forall companyName companyData u w,
    match CompanyService.createCompany companyName companyData u w with
    | (Returned (CompanyService.Written res), w') =>
        exists dataToWrite,
          trace w' = trace w ++ [WCreate "companyList" dataToWrite; RInvalidate "companyList"] /\
          cache w' !! "companyList" = None /\
          (forall k v, companyData !! k = Some v -> dataToWrite !! k = Some v) /\
          (forall k, companyData !! k = None ->
             dataToWrite !! k = if String.eqb k "companyName" then Some companyName else None)
    | (_, w') => nothingWritten w w'
    end.
Proof.
  intros companyName companyData u w. unfold CompanyService.createCompany.
  unfold bind at 1. unfold lift at 1.
  destruct (CompanyService.modifierOf u) as [modifier|e]; [|apply nothingWritten_refl].
  unfold bind at 1.
  destruct (Reader.getCompanyList w) as [[companies|e] w1] eqn:H;
    pose proof (getCollection_afterReads _ _ _ _ H) as R;
    [|exact (afterReads_nothingWritten _ _ R)].
  unfold bind at 1. unfold lift at 1.
  destruct (CompanyService._normalizeCompanyName companyName) as [target|e];
    [|exact (afterReads_nothingWritten _ _ R)].
  unfold bind at 1. unfold lift at 1.
  destruct (CompanyService.findByNormalizedName target companies) as [[existing|]|e];
    [exact (afterReads_nothingWritten _ _ R)| |exact (afterReads_nothingWritten _ _ R)].
  unfold bind, ret, Reader.invalidateCache, Writer.create.
  destruct R as (_ & Rs & Rt & Rd & _).
  destruct (writerDown w1) eqn:Hd; [split; assumption|].
  eexists. cbn. rewrite Rt, lookup_delete_eq, <- app_assoc.
  split; [reflexivity|]. split; [reflexivity|]. split.
  - intros k v Hk. unfold JS.spread. apply lookup_union_Some_l. exact Hk.
  - intros k Hk. unfold JS.spread. rewrite lookup_union_r by exact Hk.
    destruct (String.eqb_spec k "companyName") as [->|Hne].
    + apply lookup_singleton_eq.
    + apply lookup_singleton_ne. congruence.
Qed.

(** ** [WeeklyBusinessService]: the writes *)

Lemma sheetEntries_cases w :
  WeeklyBusinessService.sheetEntries w =
    match Reader.getAllEntries w with
    | (Returned rows, w1) => (Returned (map IRec rows), w1)
    | (Thrown e, w1) => (Thrown e, w1)
    end.
Proof.
  unfold WeeklyBusinessService.sheetEntries. unfold_monad.
  destruct (Reader.getAllEntries w) as [[rows|e] w1]; reflexivity.
Qed.

(** With [forceSheet] the repository is not asked. *)
Lemma fetchWeeklyEntries_forced w :
  WeeklyBusinessService._fetchWeeklyEntries true w = WeeklyBusinessService.sheetEntries w.
Proof. unfold WeeklyBusinessService._fetchWeeklyEntries. destruct (weeklyRepo w); reflexivity. Qed.

Lemma find_entry_by_recordId recordId rows :
  JS.findM (fun e => match WeeklyBusinessService.entryGet e "recordId" with
                     | Thrown err => Thrown err
                     | Returned v => Returned (JS.strictEq v recordId)
                     end) (map IRec rows)
  = Returned (IRec <$> JS.find (fun r => JS.strictEq (JS.get r "recordId") recordId) rows).
Proof.
  induction rows as [|r rows IH]; [reflexivity|].
  rewrite find_cons. simpl. destruct (JS.strictEq (JS.get r "recordId") recordId);
    [reflexivity|exact IH].
Qed.

(** X12. [updateWeeklyBusinessEntry] and [deleteWeeklyBusinessEntry] look the
    record up in the rows of the sheet reader, whether a repository is
    injected or not.  A call that returns has made one writer call, on the
    row handle of the first entry with the identifier, and no other call:
    the service itself asks for no invalidation.  A call that rejects has
    written nothing; when the reader answers, it rejects because no entry
    has the identifier or because the writer fails. *)
Theorem weekly_writes_address_the_row_of_the_sheet :
  (forall recordId data w,
     let found := JS.find (fun r => JS.strictEq (JS.get r "recordId") recordId)
                          (rowsOf "weeklyBusiness" w) in
     match WeeklyBusinessService.updateWeeklyBusinessEntry recordId data w with
     | (Returned res, w') =>
         writerDown w = false /\
         exists target,
           found = Some target /\
           trace w' = trace w ++ [WUpdateRow "weeklyBusiness" (JS.get target "rowIndex") data]
     | (Thrown e, w') =>
         nothingWritten w w' /\
         (readable "weeklyBusiness" w = true ->
          match found with
          | None => e = ("找不到紀錄 ID: " ++ JS.toStr recordId)%string
          | Some _ => writerDown w = true
          end)
     end) /\
  (forall recordId w,
     let found := JS.find (fun r => JS.strictEq (JS.get r "recordId") recordId)
                          (rowsOf "weeklyBusiness" w) in
     match WeeklyBusinessService.deleteWeeklyBusinessEntry recordId w with
     | (Returned res, w') =>
         writerDown w = false /\
         exists target,
           found = Some target /\
           trace w' = trace w ++ [WDeleteRow "weeklyBusiness" (JS.get target "rowIndex")]
     | (Thrown e, w') =>
         nothingWritten w w' /\
         (readable "weeklyBusiness" w = true ->
          match found with
          | None => e = ("找不到紀錄 ID: " ++ JS.toStr recordId)%string
          | Some _ => writerDown w = true
          end)
     end).
Proof.
  split.
  - intros recordId data w. cbv zeta.
    unfold WeeklyBusinessService.updateWeeklyBusinessEntry. unfold bind at 1.
    rewrite fetchWeeklyEntries_forced, sheetEntries_cases.
    destruct (Reader.getAllEntries w) as [[rows|e] w1] eqn:H;
      pose proof (getCollection_afterReads _ _ _ _ H) as R.
    2:{ split; [exact (afterReads_nothingWritten _ _ R)|].
        apply readable_thrown in H. rewrite H. discriminate. }
    destruct (rowsOf_returned _ _ _ _ H) as [-> ->].
    unfold bind, lift. rewrite find_entry_by_recordId.
    destruct (JS.find _ rows) as [target|]; cbn [fmap option_fmap option_map].
    + rewrite updateAt_cases. destruct R as (_ & Rs & Rt & Rd & _). rewrite Rd.
      destruct (writerDown w).
      * split; [split; assumption|]. intros _. reflexivity.
      * split; [reflexivity|]. exists target. split; [reflexivity|].
        cbn. rewrite Rt. reflexivity.
    + unfold throw. split; [exact (afterReads_nothingWritten _ _ R)|]. intros _. reflexivity.
  - intros recordId w. cbv zeta.
    unfold WeeklyBusinessService.deleteWeeklyBusinessEntry. unfold bind at 1.
    rewrite fetchWeeklyEntries_forced, sheetEntries_cases.
    destruct (Reader.getAllEntries w) as [[rows|e] w1] eqn:H;
      pose proof (getCollection_afterReads _ _ _ _ H) as R.
    2:{ split; [exact (afterReads_nothingWritten _ _ R)|].
        apply readable_thrown in H. rewrite H. discriminate. }
    destruct (rowsOf_returned _ _ _ _ H) as [-> ->].
    unfold bind, lift. rewrite find_entry_by_recordId.
    destruct (JS.find _ rows) as [target|]; cbn [fmap option_fmap option_map].
    + rewrite deleteAt_cases. destruct R as (_ & Rs & Rt & Rd & _). rewrite Rd.
      destruct (writerDown w).
      * split; [split; assumption|]. intros _. reflexivity.
      * split; [reflexivity|]. exists target. split; [reflexivity|].
        cbn. rewrite Rt. reflexivity.
    + unfold throw. split; [exact (afterReads_nothingWritten _ _ R)|]. intros _. reflexivity.
Qed.

(** ** [WeeklyBusinessService.getEntriesForWeek] *)

Lemma fetchWeeklyEntries_afterReads forceSheet w o w' :
  WeeklyBusinessService._fetchWeeklyEntries forceSheet w = (o, w') -> afterReads w w'.
Proof.
  assert (Hsheet : forall o w', WeeklyBusinessService.sheetEntries w = (o, w') -> afterReads w w').
  { intros o1 w1. rewrite sheetEntries_cases.
    destruct (Reader.getAllEntries w) as [[rows|e] w2] eqn:H; intros [= <- <-];
      exact (getCollection_afterReads _ _ _ _ H). }
  destruct forceSheet; [rewrite fetchWeeklyEntries_forced; apply Hsheet|].
  rewrite fetchWeeklyEntries_cases.
  destruct (weeklyRepo w) as [[[v|rows]|e]|]; try apply Hsheet.
  intros [= <- <-]. apply afterReads_refl.
Qed.

Lemma utcDay_range year month day : 0 <= WeeklyBusinessService.utcDay year month day <= 6.
Proof.
  unfold WeeklyBusinessService.utcDay.
  match goal with |- 0 <= ?x mod 7 <= 6 => pose proof (Z.mod_pos_bound x 7) end. lia.
Qed.

Lemma dayValueOf_range entry : -1 <= WeeklyBusinessService.dayValueOf entry <= 6.
Proof.
  unfold WeeklyBusinessService.dayValueOf.
  destruct (WeeklyBusinessService.ymdOf _) as [[[year month] day]|]; [|lia].
  pose proof (utcDay_range year (month - 1) day). lia.
Qed.

Lemma inWeek_true weekStart weekEnd entry :
  WeeklyBusinessService.inWeek weekStart weekEnd entry = Returned true ->
  exists d,
    JS.or (JS.itemGet entry "entryDate") (JS.itemGet entry "日期") = SStr d /\
    Str.leb weekStart d = true /\ Str.leb d weekEnd = true.
Proof.
  unfold WeeklyBusinessService.inWeek, WeeklyBusinessService.entryGet.
  destruct entry as [v|r].
  - destruct v; try discriminate; cbn; discriminate.
  - cbn [JS.itemGet].
    destruct (JS.truthy (JS.or (JS.get r "entryDate") (JS.get r "日期"))); cbn [negb];
      [|discriminate].
    destruct (JS.or (JS.get r "entryDate") (JS.get r "日期")) as [| |b|n|d]; try discriminate.
    intros [= H]. apply andb_true_iff in H as [H1 H2]. exists d. auto.
Qed.

Lemma withDay_ok weekStart weekEnd entry :
  WeeklyBusinessService.inWeek weekStart weekEnd entry = Returned true ->
  weekEntryOk weekStart weekEnd (WeeklyBusinessService.withDay entry).
Proof.
  intros H. apply inWeek_true in H as (d & Hd & H1 & H2).
  exists d, (WeeklyBusinessService.dayValueOf entry).
  unfold WeeklyBusinessService.withDay.
  cbn [WeeklyBusinessService.fields WeeklyBusinessService._view].
  split; [|split; [exact H1|split; [exact H2|split; [apply dayValueOf_range|split]]]].
  - unfold filedUnder, JS.get. rewrite !lookup_insert_ne by discriminate.
    rewrite <- Hd. destruct entry as [v|r]; reflexivity.
  - unfold JS.get. rewrite lookup_insert_eq. reflexivity.
  - reflexivity.
Qed.

(** X13. [getEntriesForWeek] never rejects and writes nothing.  It returns no
    entry when the week is unknown or has no days.  Every entry that it
    returns is filed, under [entryDate] or else under [日期], at a date text
    that lies between the first and the last day of the week in the order of
    texts; its [day] is a number from -1 to 6 and [_view] holds the same
    number. *)
Theorem week_entries_are_dated_within_the_week :
  forall this weekId w,
    exists entries w',
      WeeklyBusinessService.getEntriesForWeek this weekId w = (Returned entries, w') /\
      nothingWritten w w' /\
      match WeeklyBusinessService.getWeekInfo this weekId with
      | None | Some [] => entries = []
      | Some (weekStart :: rest) =>
          Forall (weekEntryOk weekStart (List.last rest weekStart)) entries
      end.
Proof.
  intros this weekId w. unfold WeeklyBusinessService.getEntriesForWeek.
  unfold tryCatch, bind at 1.
  destruct (WeeklyBusinessService._fetchWeeklyEntries false w) as [[allEntries|e] w1] eqn:H;
    pose proof (afterReads_nothingWritten _ _ (fetchWeeklyEntries_afterReads _ _ _ _ H)) as R.
  2:{ eexists _, w1. split; [reflexivity|]. split; [exact R|].
      destruct (WeeklyBusinessService.getWeekInfo this weekId) as [[|? ?]|];
        first [reflexivity | constructor]. }
  destruct (WeeklyBusinessService.getWeekInfo this weekId) as [[|weekStart rest]|].
  1,3: eexists _, w1; split; [reflexivity|]; split; [exact R|reflexivity].
  unfold bind, lift, ret, WeeklyBusinessService.sortedEntriesOfWeek.
  destruct (JS.filterM _ allEntries) as [entries|e] eqn:Hf.
  - eexists _, w1. split; [reflexivity|]. split; [exact R|].
    apply Forall_forall. intros e He. apply list_elem_of_fmap in He as (entry & -> & He).
    apply withDay_ok. rewrite sort_perm in He.
    apply filterM_spec in Hf as [Hall ->].
    apply list_elem_of_In, filter_In in He as [Hin Hp].
    rewrite Forall_forall in Hall. destruct (Hall entry) as [b Hb].
    { apply list_elem_of_In. exact Hin. }
    rewrite Hb in Hp. cbn in Hp. subst b. exact Hb.
  - eexists _, w1. split; [reflexivity|]. split; [exact R|]. constructor.
Qed.

(** ** The two mappers of the weekly rows *)

Lemma toServiceDTO_extends_mapRowToDto row :
  JS.itemTruthy row = true ->
  exists a b,
    WeeklyBusinessService._toServiceDTO row = IRec a /\
    WeeklyBusinessSqlReader._mapRowToDto row = IRec b /\
    delete "下週計畫" (delete "部門" a) = b.
Proof.
  intros Ht. unfold WeeklyBusinessService._toServiceDTO, WeeklyBusinessSqlReader._mapRowToDto.
  rewrite Ht. cbn [negb]. eexists _, _. split; [reflexivity|]. split; [reflexivity|].
  generalize (JS.itemGet row). intros g. by_computing.
Qed.

(** X14. [WeeklyBusinessService._toServiceDTO] and
    [WeeklyBusinessSqlReader._mapRowToDto] build the same object from a
    row, but for the two keys [下週計畫] and [部門] that only the first one
    sets; both give [null] for a row that is falsy. *)
Theorem weekly_mappers_agree :
  forall row,
    JS.itemTruthy (WeeklyBusinessService._toServiceDTO row) = JS.itemTruthy row /\
    JS.itemTruthy (WeeklyBusinessSqlReader._mapRowToDto row) = JS.itemTruthy row /\
    forall k, k <> "下週計畫" -> k <> "部門" ->
      JS.itemGet (WeeklyBusinessService._toServiceDTO row) k
      = JS.itemGet (WeeklyBusinessSqlReader._mapRowToDto row) k.
Proof.
  intros row. destruct (JS.itemTruthy row) eqn:Ht.
  - destruct (toServiceDTO_extends_mapRowToDto row Ht) as (a & b & -> & -> & <-).
    split; [reflexivity|]. split; [reflexivity|]. intros k Hk1 Hk2.
    cbn [JS.itemGet]. unfold JS.get. rewrite !lookup_delete_ne by congruence. reflexivity.
  - unfold WeeklyBusinessService._toServiceDTO, WeeklyBusinessSqlReader._mapRowToDto.
    rewrite Ht. cbn [negb]. split; [reflexivity|]. split; [reflexivity|]. reflexivity.
Qed.

Lemma toServiceDTO_of_mapped row :
  let twice := WeeklyBusinessService._toServiceDTO (WeeklyBusinessSqlReader._mapRowToDto row) in
  (twice = IVal SNull \/
   WeeklyBusinessService.inWeek EmptyString EmptyString twice = Returned false) /\
  Forall (fun k => JS.itemGet twice k = SUndef) renamedKeys.
Proof.
  cbv zeta. unfold WeeklyBusinessSqlReader._mapRowToDto.
  destruct (JS.itemTruthy row); cbn [negb].
  - generalize (JS.itemGet row). intros g. split; [right; by_computing|].
    repeat (constructor; [by_computing|]). constructor.
  - split; [left; reflexivity|]. repeat constructor.
Qed.

(** An entry without a date is in no week. *)
Lemma inWeek_undated weekStart weekEnd entry :
  WeeklyBusinessService.inWeek EmptyString EmptyString entry = Returned false ->
  JS.itemGet entry "entryDate" = SUndef -> JS.itemGet entry "日期" = SUndef ->
  WeeklyBusinessService.inWeek weekStart weekEnd entry = Returned false.
Proof.
  unfold WeeklyBusinessService.inWeek, WeeklyBusinessService.entryGet.
  destruct entry as [[]|r]; try discriminate; cbn [JS.itemGet]; try reflexivity.
  intros _ -> ->. reflexivity.
Qed.

Lemma filterM_mapped_twice weekStart weekEnd rows :
  match JS.filterM (WeeklyBusinessService.inWeek weekStart weekEnd)
          (map WeeklyBusinessService._toServiceDTO
               (map WeeklyBusinessSqlReader._mapRowToDto rows)) with
  | Returned entries => entries = []
  | Thrown _ => True
  end.
Proof.
  induction rows as [|row rows IH]; [reflexivity|].
  cbn [map JS.filterM].
  destruct (toServiceDTO_of_mapped row) as [[Hnull|Hout] Hlost]; cbv zeta in *.
  - rewrite Hnull. exact I.
  - rewrite (inWeek_undated weekStart weekEnd _ Hout).
    + destruct (JS.filterM _ _) as [entries|e]; [exact IH|exact I].
    + apply Forall_cons in Hlost as [_ Hlost]. apply Forall_cons in Hlost as [_ Hlost].
      apply Forall_cons in Hlost as [H _]. exact H.
    + do 3 apply Forall_cons in Hlost as [_ Hlost].
      apply Forall_cons in Hlost as [H _]. exact H.
Qed.

Lemma findAll_returned response mapped :
  WeeklyBusinessSqlReader.findAll response = Returned mapped ->
  exists rows,
    response = Returned {| WeeklyBusinessSqlReader.data := Some rows;
                           WeeklyBusinessSqlReader.error := None |} /\
    mapped = map WeeklyBusinessSqlReader._mapRowToDto rows.
Proof.
  unfold WeeklyBusinessSqlReader.findAll.
  destruct response as [[[rows|] [message|]]|e]; cbn; try discriminate.
  intros [= <-]. exists rows. split; reflexivity.
Qed.

(** X15. The rows that [WeeklyBusinessSqlReader.findAll] returns are mapped by
    [_mapRowToDto]; they are not rows for
    [WeeklyBusinessService._toServiceDTO], which reads the columns of the
    table.  With that reader as the repository, an entry keeps what
    [category], [topic] and [participants] give and loses every key that is
    filled from a column of another name, its identifier and its dates among
    them, and [getEntriesForWeek] returns no entry for any week. *)
Theorem mapping_twice_loses_the_entries :
  forall this weekId w response mapped,
    WeeklyBusinessSqlReader.findAll response = Returned mapped ->
    weeklyRepo w = Some (Returned (PArray mapped)) ->
    (exists entries,
       WeeklyBusinessService._fetchWeeklyEntries false w = (Returned entries, w) /\
       length entries = length mapped /\
       Forall (fun e => Forall (fun k => JS.itemGet e k = SUndef) renamedKeys) entries) /\
    WeeklyBusinessService.getEntriesForWeek this weekId w = (Returned [], w).
Proof.
  intros this weekId w response mapped Hfind Hrepo.
  apply findAll_returned in Hfind as (rows & _ & ->).
  assert (Hfetch : WeeklyBusinessService._fetchWeeklyEntries false w
                   = (Returned (map WeeklyBusinessService._toServiceDTO
                                    (map WeeklyBusinessSqlReader._mapRowToDto rows)), w)).
  { rewrite fetchWeeklyEntries_cases, Hrepo. reflexivity. }
  split.
  - eexists. split; [exact Hfetch|]. split; [rewrite !length_map; reflexivity|].
    rewrite map_map. apply Forall_forall.
    intros e He. apply list_elem_of_fmap in He as (row & -> & _).
    apply (toServiceDTO_of_mapped row).
  - unfold WeeklyBusinessService.getEntriesForWeek. unfold tryCatch, bind at 1.
    rewrite Hfetch.
    destruct (WeeklyBusinessService.getWeekInfo this weekId) as [[|weekStart rest]|];
      try reflexivity.
    unfold bind, lift, ret, WeeklyBusinessService.sortedEntriesOfWeek.
    pose proof (filterM_mapped_twice weekStart (List.last rest weekStart) rows) as Hf.
    destruct (JS.filterM _ _) as [entries|e]; [subst entries|]; reflexivity.
Qed.

(** ** [WeeklyBusinessService.getWeeklyBusinessSummaryList] *)

(** The pattern of the week identifiers is tested on [String(weekId)]: only
    a text can pass. *)

Lemma digitChar_isDigit d : (d < 10)%nat -> Str.isDigit (Str.digitChar d) = true.
Proof.
  intros H. do 10 (destruct d as [|d]; [reflexivity|]). lia.
Qed.

Lemma natDigits_digits fuel : forall n acc,
  Str.allb Str.isDigit acc = true -> Str.allb Str.isDigit (Str.natDigits fuel n acc) = true.
Proof.
  induction fuel as [|f IH]; intros n acc Hacc; [exact Hacc|].
  rewrite natDigits_S.
  assert (Str.allb Str.isDigit (String (Str.digitChar (n mod 10)) acc) = true) as H.
  { cbn [Str.allb]. rewrite digitChar_isDigit, Hacc; [reflexivity|].
    apply Nat.mod_upper_bound. discriminate. }
  destruct (n / 10 =? 0)%nat; [exact H|]. apply IH, H.
Qed.

Lemma isWeekId_not_digits s :
  WeeklyBusinessService.isWeekId s = true -> Str.allb Str.isDigit s = false.
Proof.
  unfold WeeklyBusinessService.isWeekId.
  destruct s as [|a [|b [|c [|d [|e [|f [|g [|h [|]]]]]]]]]; try discriminate.
  rewrite !andb_true_iff. intros (((((((_ & _) & _) & _) & He) & _) & _) & _).
  apply Ascii.eqb_eq in He. subst e. cbn [Str.allb].
  destruct (Str.isDigit a), (Str.isDigit b), (Str.isDigit c), (Str.isDigit d); reflexivity.
Qed.

Lemma only_texts_are_week_ids v :
  WeeklyBusinessService.isWeekId (JS.toStr v) = true -> exists s, v = SStr s.
Proof.
  destruct v as [| |[]|n|s]; cbn [JS.toStr]; try discriminate; [|eauto].
  intros H. exfalso. unfold Str.ofZ in H. destruct (n <? 0).
  - unfold WeeklyBusinessService.isWeekId in H.
    destruct (Str.ofNat (Z.to_nat (- n))) as [|b [|c [|d [|e [|f [|g [|h [|]]]]]]]];
      discriminate H.
  - apply isWeekId_not_digits in H. unfold Str.ofNat in H.
    rewrite natDigits_digits in H; [discriminate H|reflexivity].
Qed.

(** The map of the summaries *)

Lemma summariesOf_snoc k entries e :
  summariesOf k (entries ++ [e])
  = summariesOf k entries
    + (if (bool_decide (weekOf e = Some k) && summarized e)%bool then 1 else 0).
Proof.
  unfold summariesOf. rewrite List.filter_app, length_app. cbn [List.filter].
  destruct (bool_decide (weekOf e = Some k) && summarized e)%bool; cbn [length]; lia.
Qed.

Lemma filter_none {A} (p : A -> bool) l :
  (forall x, x ∈ l -> p x = false) -> List.filter p l = [].
Proof.
  induction l as [|x l IH]; intros H; [reflexivity|].
  cbn [List.filter]. rewrite (H x) by apply list_elem_of_here.
  apply IH. intros y Hy. apply H. apply list_elem_of_further. exact Hy.
Qed.

Lemma countUp_keys k m : map fst (WeeklyBusinessService.countUp k m) = map fst m.
Proof.
  induction m as [|[k' n] m IH]; [reflexivity|].
  cbn [WeeklyBusinessService.countUp]. destruct (String.eqb k' k); cbn [map fst]; [reflexivity|].
  rewrite IH. reflexivity.
Qed.

Lemma countUp_values k m (f f' : string -> Z) :
  NoDup (map fst m) ->
  (forall k', k' <> k -> f' k' = f k') -> f' k = f k + 1 ->
  Forall (fun p => p.2 = f p.1) m ->
  Forall (fun p => p.2 = f' p.1) (WeeklyBusinessService.countUp k m).
Proof.
  intros Hnd Hother Hk. induction m as [|[k' n] m IH]; intros Hall; [constructor|].
  cbn [WeeklyBusinessService.countUp]. cbn [map fst] in Hnd.
  apply NoDup_cons in Hnd as [Hnotin Hnd]. apply Forall_cons in Hall as [Hhead Hall].
  cbn [fst snd] in Hhead.
  destruct (String.eqb k' k) eqn:E.
  - apply String.eqb_eq in E. subst k'. constructor; [cbn [fst snd]; lia|].
    rewrite Forall_forall in Hall |- *. intros [k2 n2] Hin. cbn [fst snd].
    rewrite Hother; [exact (Hall _ Hin)|].
    intros ->. apply Hnotin. apply list_elem_of_fmap. exists (k, n2).
    split; [reflexivity|exact Hin].
  - apply String.eqb_neq in E. constructor; [cbn [fst snd]; rewrite Hother; assumption|].
    apply IH; assumption.
Qed.

Lemma existsb_key k (m : list (string * Z)) :
  existsb (fun p => String.eqb p.1 k) m = bool_decide (k ∈ map fst m).
Proof.
  induction m as [|[k' n] m IH]; cbn [existsb map fst].
  - symmetry. apply bool_decide_eq_false_2, not_elem_of_nil.
  - rewrite IH. destruct (String.eqb k' k) eqn:E.
    + apply String.eqb_eq in E. subst k'. symmetry.
      apply bool_decide_eq_true_2, list_elem_of_here.
    + apply String.eqb_neq in E. cbn. apply bool_decide_ext. rewrite elem_of_cons.
      split; [auto|]. intros [->|H]; [contradiction|exact H].
Qed.

Lemma summaryMapOf_skip entries m e :
  weekOf e = None -> summaryMapOf entries m -> summaryMapOf (entries ++ [e]) m.
Proof.
  intros He (Hnd & Hkeys & Hvals). split; [exact Hnd|]. split.
  - intros k. rewrite Hkeys. split.
    + intros (x & Hin & Hx). exists x. split; [|exact Hx].
      apply elem_of_app. left. exact Hin.
    + intros (x & Hin & Hx). apply elem_of_app in Hin as [Hin|Hin]; [eauto|].
      apply list_elem_of_singleton in Hin. subst x. congruence.
  - eapply Forall_impl; [exact Hvals|]. intros [k n] H. cbn [fst snd] in *.
    rewrite summariesOf_snoc, He. rewrite bool_decide_eq_false_2 by discriminate.
    cbn. lia.
Qed.

(** The week [k] of the entry [e] is in the map after the entry. *)
Lemma summaryMapOf_enter entries m e k :
  weekOf e = Some k -> summaryMapOf entries m ->
  let m1 := if existsb (fun p => String.eqb p.1 k) m then m else m ++ [(k, 0)] in
  NoDup (map fst m1) /\
  (forall k', k' ∈ map fst m1 <-> exists x, x ∈ entries ++ [e] /\ weekOf x = Some k') /\
  Forall (fun p => p.2 = summariesOf p.1 entries) m1.
Proof.
  intros He (Hnd & Hkeys & Hvals). cbn zeta. rewrite existsb_key. case_bool_decide as Hin.
  - split; [exact Hnd|]. split; [|exact Hvals].
    intros k'. rewrite Hkeys. split.
    + intros (x & Hx & Hw). exists x. split; [|exact Hw]. apply elem_of_app. left. exact Hx.
    + intros (x & Hx & Hw). apply elem_of_app in Hx as [Hx|Hx]; [eauto|].
      apply list_elem_of_singleton in Hx. subst x.
      assert (k' = k) as -> by congruence. apply Hkeys. exact Hin.
  - split; [|split].
    + rewrite map_app. cbn [map fst]. apply NoDup_app. split; [exact Hnd|].
      split; [|apply NoDup_singleton].
      intros x Hx Hx'. apply list_elem_of_singleton in Hx'. subst x. contradiction.
    + intros k'. rewrite map_app. cbn [map fst]. rewrite elem_of_app, Hkeys. split.
      * intros [(x & Hx & Hw)|Hk].
        -- exists x. split; [|exact Hw]. apply elem_of_app. left. exact Hx.
        -- apply list_elem_of_singleton in Hk. subst k'. exists e.
           split; [|exact He]. apply elem_of_app. right.
           apply list_elem_of_singleton. reflexivity.
      * intros (x & Hx & Hw). apply elem_of_app in Hx as [Hx|Hx]; [left; eauto|].
        apply list_elem_of_singleton in Hx. subst x. right.
        assert (k' = k) as -> by congruence. apply list_elem_of_singleton. reflexivity.
    + apply Forall_app. split; [exact Hvals|]. constructor; [|constructor]. cbn [fst snd].
      unfold summariesOf.
      assert (List.filter (fun x => (bool_decide (weekOf x = Some k) && summarized x)%bool)
                          entries = []) as ->; [|reflexivity].
      apply filter_none. intros x Hx.
      apply andb_false_intro1. apply bool_decide_eq_false_2. intros Hw.
      apply Hin, Hkeys. exists x. split; [exact Hx|exact Hw].
Qed.

Lemma countSummary_step entries m e m' :
  summaryMapOf entries m ->
  WeeklyBusinessService.countSummary m e = Returned m' ->
  summaryMapOf (entries ++ [e]) m'.
Proof.
  intros Hm. unfold WeeklyBusinessService.countSummary, WeeklyBusinessService.entryGet.
  assert (forall v, JS.itemGet e "weekId" = v -> (forall s, v <> SStr s) -> weekOf e = None)
    as Hnone.
  { intros v Hv Hs. unfold weekOf. rewrite Hv. destruct v; try reflexivity.
    exfalso. exact (Hs _ eq_refl). }
  destruct e as [v|r].
  - assert (weekOf (IVal v) = None) as Hw by reflexivity.
    destruct v as [| |b|n|s]; try discriminate; cbn [JS.itemGet];
      intros [= <-]; apply summaryMapOf_skip; assumption.
  - cbn [JS.itemGet].
    destruct (JS.get r "weekId") as [| |b|n|weekId] eqn:Hid;
      try (intros [= <-]; apply summaryMapOf_skip; [|exact Hm];
           apply (Hnone _ Hid); intros s; discriminate).
    destruct (WeeklyBusinessService.isWeekId weekId) eqn:Hweek.
    2:{ rewrite andb_false_r. intros [= <-]. apply summaryMapOf_skip; [|exact Hm].
        unfold weekOf. cbn [JS.itemGet]. rewrite Hid, Hweek. reflexivity. }
    assert (JS.truthy (SStr weekId) = true) as ->.
    { destruct weekId; [discriminate Hweek|reflexivity]. }
    cbn [andb].
    assert (weekOf (IRec r) = Some weekId) as Hw.
    { unfold weekOf. cbn [JS.itemGet]. rewrite Hid, Hweek. reflexivity. }
    destruct (summaryMapOf_enter entries m (IRec r) weekId Hw Hm) as (Hnd & Hkeys & Hvals).
    cbn zeta in Hnd, Hkeys, Hvals.
    set (m1 := if existsb _ m then m else m ++ [(weekId, 0)]) in *.
    assert (summarized (IRec r) = false -> summaryMapOf (entries ++ [IRec r]) m1) as Hkeep.
    { intros Hs. split; [exact Hnd|]. split; [exact Hkeys|].
      eapply Forall_impl; [exact Hvals|]. intros [k n] H. cbn [fst snd] in *.
      rewrite summariesOf_snoc, Hs, andb_false_r. lia. }
    assert (summarized (IRec r) = true ->
            summaryMapOf (entries ++ [IRec r]) (WeeklyBusinessService.countUp weekId m1))
      as Hcount.
    { intros Hs. split; [rewrite countUp_keys; exact Hnd|].
      split; [intros k; rewrite countUp_keys; apply Hkeys|].
      apply (countUp_values weekId m1 (fun k => summariesOf k entries)
               (fun k => summariesOf k (entries ++ [IRec r])));
        [exact Hnd| | |exact Hvals].
      - intros k' Hne. rewrite summariesOf_snoc, Hw.
        rewrite bool_decide_eq_false_2 by congruence. cbn. lia.
      - rewrite summariesOf_snoc, Hw, Hs.
        rewrite bool_decide_eq_true_2 by reflexivity. reflexivity. }
    unfold summarized in Hkeep, Hcount. cbn [JS.itemGet] in Hkeep, Hcount.
    destruct (JS.get r "summaryContent") as [| |[]|n|text]; cbn [JS.truthy];
      try discriminate; try (intros [= <-]; apply Hkeep; reflexivity).
    + destruct (negb (n =? 0)); [discriminate|]. intros [= <-]. apply Hkeep. reflexivity.
    + destruct (negb (String.eqb text EmptyString)) eqn:Ht.
      * intros [= <-].
        destruct (negb (String.eqb (Str.trim text) EmptyString)) eqn:Hb;
          [apply Hcount|apply Hkeep]; reflexivity.
      * intros [= <-]. apply Hkeep.
        apply negb_false_iff, String.eqb_eq in Ht. subst text. reflexivity.
Qed.

Lemma countSummaries_spec rest : forall entries m m',
  summaryMapOf entries m ->
  WeeklyBusinessService.countSummaries m rest = Returned m' ->
  summaryMapOf (entries ++ rest) m'.
Proof.
  induction rest as [|e rest IH]; intros entries m m' Hm.
  - cbn. intros [= <-]. rewrite app_nil_r. exact Hm.
  - cbn [WeeklyBusinessService.countSummaries].
    destruct (WeeklyBusinessService.countSummary m e) as [m1|err] eqn:H1; [|discriminate].
    intros H. replace (entries ++ e :: rest) with ((entries ++ [e]) ++ rest)
      by (rewrite <- app_assoc; reflexivity).
    eapply IH; [|exact H]. eapply countSummary_step; eassumption.
Qed.

Lemma summaryMapOf_nil : summaryMapOf [] [].
Proof.
  split; [constructor|]. split; [|constructor].
  intros k. split.
  - intros H. apply elem_of_nil in H. contradiction.
  - intros (e & H & _). apply elem_of_nil in H. contradiction.
Qed.

Lemma weeksOf_spec h m ws :
  WeeklyBusinessService.weeksOf h m = Returned ws ->
  map (fun r => (WeeklyBusinessService.id r, WeeklyBusinessService.summaryCount r)) ws = m /\
  Forall (fun r => WeeklyBusinessService.weekInfoOf h (WeeklyBusinessService.id r)
                   = Some (WeeklyBusinessService.title r, WeeklyBusinessService.dateRange r)) ws.
Proof.
  revert ws. induction m as [|[k n] m IH]; intros ws; cbn [WeeklyBusinessService.weeksOf].
  - intros [= <-]. split; [reflexivity|constructor].
  - destruct (WeeklyBusinessService.weekInfoOf h k) as [[t range]|] eqn:Hk; [|discriminate].
    destruct (WeeklyBusinessService.weeksOf h m) as [ws'|e]; [|discriminate].
    intros [= <-]. destruct (IH ws' eq_refl) as [Hm Hall].
    split; [cbn; rewrite Hm; reflexivity|]. constructor; [exact Hk|exact Hall].
Qed.

Lemma summariesOf_none k entries :
  (forall e, e ∈ entries -> weekOf e <> Some k) -> summariesOf k entries = 0.
Proof.
  intros H. unfold summariesOf. rewrite filter_none; [reflexivity|].
  intros e He. apply andb_false_intro1, bool_decide_eq_false_2, H, He.
Qed.

(** X26. [getWeeklyBusinessSummaryList] writes nothing.  When it returns, the
    list has one row for each week of an entry that has a week identifier
    of the form [YYYY-Www], with the title and the range of dates that the
    helper gives and the number of the entries of the week whose summary is
    not blank; no week is listed twice; and a row with the title of the
    current week is always there, with the current week and no summaries
    when no week of an entry has the title. *)
Theorem weekly_summary_list_counts_the_summaries :
  forall h w,
    match WeeklyBusinessService.getWeeklyBusinessSummaryList h w with
    | (Thrown e, w') => nothingWritten w w'
    | (Returned weeks, w') =>
        nothingWritten w w' /\
        exists entries currentTitle currentRange,
          fst (WeeklyBusinessService._fetchWeeklyEntries false w) = Returned entries /\
          WeeklyBusinessService.weekInfoOf h (WeeklyBusinessService.currentWeekId h)
            = Some (currentTitle, currentRange) /\
          NoDup (map WeeklyBusinessService.id weeks) /\
          (forall e k, e ∈ entries -> weekOf e = Some k ->
                       k ∈ map WeeklyBusinessService.id weeks) /\
          Forall (listedWeek h entries) weeks /\
          Exists (fun r => WeeklyBusinessService.title r = currentTitle) weeks
    end.
Proof.
  intros h w. unfold WeeklyBusinessService.getWeeklyBusinessSummaryList. unfold bind at 1.
  destruct (WeeklyBusinessService._fetchWeeklyEntries false w) as [[entries|e] w1] eqn:Hfetch;
    pose proof (afterReads_nothingWritten _ _ (fetchWeeklyEntries_afterReads _ _ _ _ Hfetch))
      as Hn; [|exact Hn].
  unfold bind at 1. unfold lift at 1.
  destruct (WeeklyBusinessService.countSummaries [] entries) as [m|e] eqn:Hcount; [|exact Hn].
  apply (countSummaries_spec entries [] [] m summaryMapOf_nil) in Hcount.
  cbn [app] in Hcount. destruct Hcount as (Hnd & Hkeys & Hvals).
  unfold bind at 1. unfold lift at 1.
  destruct (WeeklyBusinessService.weeksOf h m) as [ws|e] eqn:Hweeks; [|exact Hn].
  apply weeksOf_spec in Hweeks as [Hm Hinfo].
  assert (map WeeklyBusinessService.id ws = map fst m) as Hids.
  { rewrite <- Hm, map_map. reflexivity. }
  assert (Forall (listedWeek h entries) ws) as Hlisted.
  { rewrite Forall_forall in Hinfo |- *. intros r Hr. split; [exact (Hinfo r Hr)|].
    assert ((WeeklyBusinessService.id r, WeeklyBusinessService.summaryCount r) ∈ m) as Hp.
    { rewrite <- Hm. apply list_elem_of_fmap. exists r. split; [reflexivity|exact Hr]. }
    split.
    - rewrite Forall_forall in Hvals. exact (Hvals _ Hp).
    - left. apply Hkeys. apply list_elem_of_fmap. eexists. split; [|exact Hp]. reflexivity. }
  destruct (WeeklyBusinessService.weekInfoOf h (WeeklyBusinessService.currentWeekId h))
    as [[currentTitle currentRange]|] eqn:Hcurrent; [|exact Hn].
  unfold ret. split; [exact Hn|].
  exists entries, currentTitle, currentRange. split; [reflexivity|]. split; [reflexivity|].
  set (sorted := JS.sort _ _).
  assert (sorted ≡ₚ if existsb (fun w0 => JS.strictEq (WeeklyBusinessService.title w0)
                                                      currentTitle) ws
                    then ws
                    else {| WeeklyBusinessService.id := WeeklyBusinessService.currentWeekId h;
                            WeeklyBusinessService.title := currentTitle;
                            WeeklyBusinessService.dateRange := currentRange;
                            WeeklyBusinessService.summaryCount := 0 |} :: ws) as Hperm
    by apply sort_perm.
  clearbody sorted.
  match type of Hperm with _ ≡ₚ ?l => set (weeksList := l) in * end.
  enough (NoDup (map WeeklyBusinessService.id weeksList) /\
          (forall e k, e ∈ entries -> weekOf e = Some k ->
                       k ∈ map WeeklyBusinessService.id weeksList) /\
          Forall (listedWeek h entries) weeksList /\
          Exists (fun r => WeeklyBusinessService.title r = currentTitle) weeksList)
    as (H1 & H2 & H3 & H4).
  { split; [rewrite Hperm; exact H1|]. split; [|split].
    - intros e k He Hk. rewrite Hperm. exact (H2 e k He Hk).
    - rewrite Hperm. exact H3.
    - rewrite Hperm. exact H4. }
  subst weeksList. clear Hperm sorted.
  destruct (existsb _ ws) eqn:Hhas.
  - split; [rewrite Hids; exact Hnd|].
    split; [intros e k He Hk; rewrite Hids; apply Hkeys; eauto|].
    split; [exact Hlisted|].
    apply existsb_exists in Hhas as (r & Hr & Ht). apply Exists_exists.
    exists r. split; [apply list_elem_of_In; exact Hr|].
    unfold JS.strictEq in Ht. apply bool_decide_eq_true in Ht. exact Ht.
  - assert (WeeklyBusinessService.currentWeekId h ∉ map WeeklyBusinessService.id ws) as Hnew.
    { intros Hin. apply list_elem_of_fmap in Hin as (r & Hid & Hr).
      rewrite Forall_forall in Hinfo. pose proof (Hinfo r Hr) as Hi.
      rewrite <- Hid, Hcurrent in Hi. injection Hi as Ht _.
      assert (existsb (fun w0 => JS.strictEq (WeeklyBusinessService.title w0) currentTitle) ws
              = true) as Hex; [|congruence].
      apply existsb_exists. exists r. split; [apply list_elem_of_In; exact Hr|].
      unfold JS.strictEq. apply bool_decide_eq_true. symmetry. exact Ht. }
    cbn [map WeeklyBusinessService.id].
    split; [apply NoDup_cons; split; [exact Hnew|rewrite Hids; exact Hnd]|].
    split.
    { intros e k He Hk. apply list_elem_of_further. rewrite Hids. apply Hkeys. eauto. }
    split; [|apply Exists_cons_hd; reflexivity].
    constructor; [|exact Hlisted].
    split; [exact Hcurrent|]. cbn [WeeklyBusinessService.summaryCount WeeklyBusinessService.id].
    split; [|right; reflexivity].
    symmetry. apply summariesOf_none. intros e He Hk. apply Hnew.
    rewrite Hids. apply Hkeys. eauto.
Qed.

(** ** [OpportunityService.getOpportunitiesByDateRange] *)

Lemma inDateRange_true parse startDate endDate dateField opp :
  OpportunityService.inDateRange parse startDate endDate dateField opp = true <->
  exists s e t, startDate = Some s /\ endDate = Some e /\
                datedAt parse dateField opp t /\ s <= t <= e.
Proof.
  unfold OpportunityService.inDateRange, datedAt.
  destruct (JS.truthy (JS.get opp dateField)); cbn [negb].
  2:{ split; [discriminate|]. intros (s & e & t & _ & _ & [H _] & _). discriminate H. }
  destruct (JS.dateTime parse (JS.get opp dateField)) as [t|].
  2:{ split; [discriminate|]. intros (s & e & t & _ & _ & [_ H] & _). discriminate H. }
  destruct startDate as [s|], endDate as [e|].
  - rewrite andb_true_iff, !Z.leb_le. split.
    + intros [H1 H2]. exists s, e, t. repeat split; assumption.
    + intros (s' & e' & t' & [= <-] & [= <-] & [_ [= <-]] & Hb). exact Hb.
  - rewrite andb_false_r. split; [discriminate|]. intros (s' & e' & t' & _ & H & _).
    discriminate H.
  - split; [discriminate|]. intros (s' & e' & t' & H & _). discriminate H.
  - split; [discriminate|]. intros (s' & e' & t' & H & _). discriminate H.
Qed.

Lemma filter_sublist {A} (p : A -> bool) (l : list A) : sublist (List.filter p l) l.
Proof.
  induction l as [|x l IH]; simpl; [constructor|].
  destruct (p x); [apply sublist_skip|apply sublist_cons]; exact IH.
Qed.

(** X16. [getOpportunitiesByDateRange] never rejects and writes nothing.  It
    returns, in the order of the reader, the opportunities that have under
    [dateField] a date that parses, with its time between those of the two
    bounds, both included; none when a bound is an invalid date or when the
    reader fails. *)
Theorem opportunities_by_date_range_are_within_the_bounds :
  forall startDate endDate dateField w,
    exists rows w',
      OpportunityService.getOpportunitiesByDateRange startDate endDate dateField w
        = (Returned rows, w') /\
      nothingWritten w w' /\
      sublist rows (rowsOf "opportunities" w) /\
      forall opp,
        opp ∈ rows <->
        opp ∈ rowsOf "opportunities" w /\
        exists s e t, startDate = Some s /\ endDate = Some e /\
                      datedAt (dateParse w) dateField opp t /\ s <= t <= e.
Proof.
  intros startDate endDate dateField w.
  unfold OpportunityService.getOpportunitiesByDateRange. unfold tryCatch, bind, ret.
  destruct (Reader.getOpportunities w) as [[opps|e] w1] eqn:H;
    pose proof (getCollection_afterReads _ _ _ _ H) as R.
  - destruct (rowsOf_returned _ _ _ _ H) as [-> _].
    eexists _, w1. split; [reflexivity|].
    split; [exact (afterReads_nothingWritten _ _ R)|].
    rewrite (afterReads_dateParse _ _ R). split; [apply filter_sublist|].
    intros opp. rewrite list_elem_of_In, filter_In, <- list_elem_of_In, inDateRange_true.
    reflexivity.
  - eexists _, w1. split; [reflexivity|].
    split; [exact (afterReads_nothingWritten _ _ R)|].
    rewrite (rowsOf_thrown _ _ _ _ H). split; [constructor|].
    intros opp. split; [intros Hin|intros [Hin _]]; apply elem_of_nil in Hin; contradiction.
Qed.

(** ** [OpportunityService.getOpportunityDetails] *)

Lemma readsOnly_opportunityDetails :
  readsOnly
    (both Reader.getOpportunities
      (both Reader.getInteractions
        (both Reader.getEventLogs
          (both Reader.getAllOppContactLinks
            (both Reader.getContactList Reader.getContacts)))))
    (fun w => readable "opportunities" w
              && (readable "interactions" w
                  && (readable "eventLogs" w
                      && (readable "oppContactLinks" w
                          && (readable "contactList" w && readable "contacts" w)))))%bool
    (fun w => (rowsOf "opportunities" w,
               (rowsOf "interactions" w,
                (rowsOf "eventLogs" w,
                 (rowsOf "oppContactLinks" w, (rowsOf "contactList" w, rowsOf "contacts" w)))))).
Proof.
  repeat first
    [ apply readsOnly_both | apply readsOnly_getCollection
    | apply stableUnderReads_andb | apply stableUnderReads_pair
    | apply rowsOf_stableUnderReads | apply readable_stableUnderReads ].
Qed.

Lemma find_findIndexFrom {A} (p : A -> bool) l :
  JS.find p l = snd <$> JS.findIndexFrom p O l.
Proof. reflexivity. Qed.

Lemma sameCompany_sameNonEmptyKey customer key pc :
  normalizeCompanyValue customer = Returned key ->
  valueOr false (OpportunityService.sameCompany key pc)
  = sameNonEmptyKey (JS.get pc "company") customer.
Proof.
  intros H. unfold OpportunityService.sameCompany, sameNonEmptyKey,
    OpportunityService._normalizeCompanyName.
  rewrite H. destruct (normalizeCompanyValue (JS.get pc "company")); reflexivity.
Qed.

(** X17. [getOpportunityDetails] calls no writer and leaves the store as it is.
    When the six readers answer and no opportunity has the identifier, it
    rejects with the message that names the identifier.  When it returns,
    [opportunityInfo] is the first opportunity with the identifier, with
    [mainContactJobTitle] set; the interactions and the event logs are those
    of the readers that have the identifier; the potential contacts are the
    cards whose company has the key of the customer of the opportunity, when
    this key is not empty, in the order of the reader. *)
Theorem opportunity_details_collect_the_rows_of_the_opportunity :
  forall opportunityId w,
    let found := JS.find (fun opp => JS.strictEq (JS.get opp "opportunityId") opportunityId)
                         (rowsOf "opportunities" w) in
    match OpportunityService.getOpportunityDetails opportunityId w with
    | (Thrown e, w') =>
        nothingWritten w w' /\
        ((readable "opportunities" w
          && (readable "interactions" w
              && (readable "eventLogs" w
                  && (readable "oppContactLinks" w
                      && (readable "contactList" w && readable "contacts" w)))))%bool = true ->
         found = None ->
         e = ("找不到機會ID為 " ++ JS.toStr opportunityId ++ " 的案件")%string)
    | (Returned d, w') =>
        nothingWritten w w' /\
        exists info title,
          found = Some info /\
          OpportunityService.opportunityInfo d = <[ "mainContactJobTitle" := title ]> info /\
          OpportunityService.interactions d
            ≡ₚ List.filter (fun i => JS.strictEq (JS.get i "opportunityId") opportunityId)
                           (rowsOf "interactions" w) /\
          OpportunityService.eventLogs d
            ≡ₚ List.filter (fun log => JS.strictEq (JS.get log "opportunityId") opportunityId)
                           (rowsOf "eventLogs" w) /\
          OpportunityService.potentialContacts d
            = List.filter (fun pc => sameNonEmptyKey (JS.get pc "company")
                                                     (JS.get info "customerCompany"))
                          (rowsOf "contacts" w) /\
          Forall (fun child => JS.get child "parentOpportunityId" = opportunityId)
                 (OpportunityService.childOpportunities d)
    end.
Proof.
  intros opportunityId w. cbv zeta.
  unfold OpportunityService.getOpportunityDetails. unfold bind at 1.
  destruct (readsOnly_opportunityDetails w) as (o & w1 & E & R & P). rewrite E.
  apply afterReads_nothingWritten in R.
  destruct (readable "opportunities" w && _)%bool.
  2:{ destruct P as [e ->]. split; [exact R|]. discriminate. }
  subst o. rewrite find_findIndexFrom.
  destruct (JS.findIndexFrom _ O (rowsOf "opportunities" w)) as [[index info]|] eqn:Hf;
    cbn [fmap option_fmap option_map snd].
  2:{ unfold throw. split; [exact R|]. intros _ _. reflexivity. }
  unfold bind at 1. unfold lift at 1.
  destruct (OpportunityService._normalizeCompanyName (JS.get info "customerCompany"))
    as [key|e] eqn:Hk.
  2:{ split; [exact R|]. intros _ Hn. discriminate Hn. }
  unfold bind at 1. unfold lift at 1.
  destruct (JS.filterM (OpportunityService.sameCompany key) (rowsOf "contacts" w))
    as [pcs|e] eqn:Hp.
  2:{ split; [exact R|]. intros _ Hn. discriminate Hn. }
  unfold bind at 1. unfold lift at 1.
  destruct (OpportunityService.targetNameOf info) as [targetName|e].
  2:{ split; [exact R|]. intros _ Hn. discriminate Hn. }
  unfold bind at 1. unfold lift at 1.
  destruct (OpportunityService.resolveJobTitle _ _ _ _ _) as [title|e].
  2:{ split; [exact R|]. intros _ Hn. discriminate Hn. }
  unfold bind, ret, Reader.assignField.
  split; [destruct R as [Rs Rt]; split; [exact Rs|exact Rt]|].
  exists info, title. split; [reflexivity|].
  cbn [OpportunityService.opportunityInfo OpportunityService.interactions
       OpportunityService.eventLogs OpportunityService.potentialContacts
       OpportunityService.childOpportunities].
  split; [reflexivity|]. split; [apply sort_perm|]. split; [apply sort_perm|]. split.
  - apply filterM_spec in Hp as [_ ->]. apply filter_ext. intros pc.
    apply sameCompany_sameNonEmptyKey. exact Hk.
  - apply Forall_forall. intros child Hc.
    apply list_elem_of_In, filter_In in Hc as [_ Hc].
    unfold JS.strictEq in Hc. apply bool_decide_eq_true in Hc. exact Hc.
Qed.
(** ** [OpportunityService.getOpportunitiesByStage] on plain keys *)

Lemma filter_inStage_none k opps :
  Forall (fun opp => inStage k opp = false) opps -> List.filter (inStage k) opps = [].
Proof.
  induction 1 as [|o l Ho _ IH]; simpl; [reflexivity|]. rewrite Ho. exact IH.
Qed.

(** The own groups of the result, when [__proto__] is no configured stage
    and no opportunity is stray. *)
Lemma stageGroups_lookup stages opps :
  configuredKey stages "__proto__" = false ->
  Forall (fun opp => strayStage stages opp = false) opps ->
  exists result,
    JS.forEachM OpportunityService.classify opps
      (fold_left OpportunityService.initStage stages OpportunityService.emptyObject)
    = Returned result /\
    OpportunityService.proto result = None /\
    forall k,
      match OpportunityService.own result !! k with
      | None => configuredKey stages k = false
      | Some g =>
          OpportunityService.opportunities g = List.filter (inStage k) opps /\
          OpportunityService.count g = Z.of_nat (length (OpportunityService.opportunities g)) /\
          exists stage, stage ∈ stages /\ stageKey stage = k /\
            OpportunityService.name g = JS.or (JS.get stage "note") (JS.get stage "value")
      end.
Proof.
  intros Hproto Hall.
  set (G := fold_left OpportunityService.initStage stages OpportunityService.emptyObject).
  assert (Hp : OpportunityService.proto G = None).
  { destruct (OpportunityService.proto G) as [g|] eqn:E; [|reflexivity].
    pose proof (initStages_lookup stages "__proto__") as [H _]. cbv zeta in H. fold G in H.
    rewrite E in H. rewrite (proj1 H) in Hproto by (eexists; reflexivity).
    discriminate Hproto. }
  assert (Hdom : forall k, is_Some (OpportunityService.own G !! k)
                           <-> configuredKey stages k = true).
  { intros k. pose proof (initStages_lookup stages k) as [_ H]. cbv zeta in H. fold G in H.
    destruct (OpportunityService.own G !! k) as [g|].
    - destruct H as (_ & _ & _ & stage & Hin & Hk & _). split; [|eauto].
      intros _. apply configuredKey_spec. eauto.
    - split; [intros [g Hg]; discriminate Hg|].
      destruct H as [->|H]; congruence. }
  destruct (classify_lookup stages opps G Hp Hdom Hall) as (result & Hrun & Hp' & Hk).
  exists result. split; [exact Hrun|]. split; [exact Hp'|]. intros k. rewrite Hk.
  pose proof (initStages_lookup stages k) as [_ H]. cbv zeta in H. fold G in H.
  destruct (OpportunityService.own G !! k) as [g|].
  - destruct H as (_ & Ho & Hc & Hs). cbn. rewrite Ho, Hc. cbn. auto.
  - destruct H as [->|H]; assumption.
Qed.

(** X27. [getOpportunitiesByStage] on plain keys.  When its two reads return,
    [__proto__] is no configured stage and no opportunity in progress has
    for its stage an inherited key that is not configured, the method
    returns an object with exactly one group for each stage key of the
    configured stage list and no other; the members of the group of key [k]
    are the opportunities in progress whose stage is [k], in the order of
    the collection, its [count] is their number, and its [name] is the note
    (or else the value) of a configured stage of that key.  A configured
    stage that no opportunity in progress has is present with no member and
    [count] 0. *)
Theorem stage_groups_cover_the_stages_of_plain_keys :
  forall w opps w1 cfg,
    Reader.getOpportunities w = (Returned opps, w1) ->
    systemConfig w = Returned (Some cfg) ->
    configuredKey (default [] (cfg !! "機會階段")) "__proto__" = false ->
    Forall (fun opp => strayStage (default [] (cfg !! "機會階段")) opp = false) opps ->
    exists result,
      OpportunityService.getOpportunitiesByStage w = (Returned result, w1) /\
      OpportunityService.proto result = None /\
      (forall k, is_Some (OpportunityService.own result !! k) <->
                 exists stage, stage ∈ default [] (cfg !! "機會階段") /\ stageKey stage = k) /\
      (forall k g, OpportunityService.own result !! k = Some g ->
         OpportunityService.opportunities g = List.filter (inStage k) opps /\
         OpportunityService.count g = Z.of_nat (length (OpportunityService.opportunities g)) /\
         exists stage, stage ∈ default [] (cfg !! "機會階段") /\ stageKey stage = k /\
           OpportunityService.name g = JS.or (JS.get stage "note") (JS.get stage "value")) /\
      (forall stage, stage ∈ default [] (cfg !! "機會階段") ->
         Forall (fun opp => inStage (stageKey stage) opp = false) opps ->
         exists g, OpportunityService.own result !! stageKey stage = Some g /\
           OpportunityService.opportunities g = [] /\ OpportunityService.count g = 0).
Proof.
  intros w opps w1 cfg Hr Hcfg Hproto Hall.
  set (stages := default [] (cfg !! "機會階段")) in *.
  destruct (stageGroups_lookup stages opps Hproto Hall) as (result & Hrun & Hp & Hlook).
  exists result.
  assert (Hsys : systemConfig w1 = Returned (Some cfg)).
  { apply getCollection_returned in Hr as [[_ ->]|(_ & _ & ->)]; assumption. }
  split; [|split; [exact Hp|split; [|split]]].
  - unfold OpportunityService.getOpportunitiesByStage, Reader.getSystemConfig.
    unfold_monad. rewrite Hr, Hsys. fold stages. rewrite Hrun. reflexivity.
  - intros k. specialize (Hlook k). rewrite <- configuredKey_spec.
    destruct (OpportunityService.own result !! k) as [g|].
    + destruct Hlook as (_ & _ & stage & Hin & Hk & _). split; [|eauto].
      intros _. apply configuredKey_spec. eauto.
    + rewrite Hlook. split; [intros [g Hg]; discriminate Hg|discriminate].
  - intros k g Hg. specialize (Hlook k). rewrite Hg in Hlook. exact Hlook.
  - intros stage Hin Hnone. specialize (Hlook (stageKey stage)).
    destruct (OpportunityService.own result !! stageKey stage) as [g|].
    + exists g. destruct Hlook as (Ho & Hc & _). split; [reflexivity|].
      rewrite Hc, Ho, (filter_inStage_none _ _ Hnone). auto.
    + exfalso. assert (configuredKey stages (stageKey stage) = true) as Ht
        by (apply configuredKey_spec; eauto).
      congruence.
Qed.

(** ** [CompanyService.getCompanyListWithActivity] *)

Lemma textHas_usable lower v q :
  usableName v = true ->
  CompanyService.textHas lower v q
  = Returned (Str.includes (if lower then Str.toLowerCase (textOf v) else textOf v) q).
Proof.
  unfold CompanyService.textHas, JS.or.
  destruct v as [| |[]|n|s]; cbn; try discriminate; try (destruct lower; reflexivity).
  - destruct (n =? 0) eqn:E; cbn; [|discriminate]. destruct lower; reflexivity.
  - destruct s; cbn; destruct lower; reflexivity.
Qed.

Lemma matchesQuery_foundBy q c :
  searchable c = true -> CompanyService.matchesQuery q c = Returned (foundBy q c).
Proof.
  unfold searchable. cbn [forallb]. rewrite !andb_true_iff.
  intros (H1 & H2 & H3 & H4 & H5 & _).
  unfold CompanyService.matchesQuery, foundBy.
  rewrite (textHas_usable true _ q H1), (textHas_usable false _ q H2),
          (textHas_usable true _ q H3), (textHas_usable true _ q H4),
          (textHas_usable true _ q H5).
  unfold CompanyService.orElse.
  repeat match goal with |- context [Str.includes ?a ?b] => destruct (Str.includes a b) end;
    reflexivity.
Qed.

Lemma filterM_pure {A} (p : A -> outcome bool) (f : A -> bool) l :
  Forall (fun x => p x = Returned (f x)) l -> JS.filterM p l = Returned (List.filter f l).
Proof.
  induction 1 as [|x l Hx _ IH]; [reflexivity|].
  simpl. rewrite Hx, IH. reflexivity.
Qed.

Lemma filter_true {A} (l : list A) : List.filter (fun _ => true) l = l.
Proof. induction l as [|x l IH]; simpl; [|rewrite IH]; reflexivity. Qed.

Lemma filter_filter_andb {A} (p q : A -> bool) l :
  List.filter q (List.filter p l) = List.filter (fun x => p x && q x)%bool l.
Proof.
  induction l as [|x l IH]; [reflexivity|].
  simpl. destruct (p x); simpl; [destruct (q x)|]; rewrite IH; reflexivity.
Qed.

Lemma selectBy_chosenBy filters key field l :
  CompanyService.selectBy filters key field l = List.filter (chosenBy filters key field) l.
Proof.
  unfold CompanyService.selectBy, chosenBy.
  destruct (JS.truthy (JS.get filters key) && _)%bool; [reflexivity|].
  symmetry. apply filter_true.
Qed.

Lemma searchByText_passes filters companies :
  usableName (JS.get filters "q") = true ->
  Forall (fun c => searchable c = true) companies ->
  CompanyService.searchByText filters companies
  = Returned (List.filter (fun c => match JS.get filters "q" with
                                    | SStr (String _ _ as s) =>
                                        foundBy (Str.trim (Str.toLowerCase s)) c
                                    | _ => true
                                    end) companies).
Proof.
  intros Hq Hs. unfold CompanyService.searchByText.
  destruct (JS.get filters "q") as [| |[]|n|s]; cbn in *; try discriminate;
    try (rewrite filter_true; reflexivity).
  - destruct (n =? 0); cbn in *; [|discriminate]. rewrite filter_true. reflexivity.
  - destruct s as [|a s]; cbn; [rewrite filter_true; reflexivity|].
    apply filterM_pure. eapply Forall_impl; [exact Hs|].
    intros c Hc. apply matchesQuery_foundBy, Hc.
Qed.

(** The map of the last activities *)

Lemma foldr_max_nonneg l : 0 <= foldr Z.max 0 l.
Proof. induction l as [|x l IH]; simpl; lia. Qed.

Lemma foldr_max_app a b :
  foldr Z.max 0 (a ++ b) = Z.max (foldr Z.max 0 a) (foldr Z.max 0 b).
Proof.
  induction a as [|x a IH]; simpl.
  - pose proof (foldr_max_nonneg b). lia.
  - rewrite IH. lia.
Qed.

Lemma updateActivity_ok parse m companyId dateStr :
  activityOk m -> activityOk (CompanyService.updateActivity parse m companyId dateStr).
Proof.
  intros Hm. unfold CompanyService.updateActivity.
  destruct (JS.truthy companyId) eqn:Hc; cbn; [|exact Hm].
  destruct (JS.truthy dateStr); cbn; [|exact Hm].
  destruct (JS.dateTime parse dateStr) as [ts|]; [|exact Hm].
  destruct (ts >? default 0 (m !! companyId)) eqn:Hgt; [|exact Hm].
  intros k v. destruct (decide (k = companyId)) as [->|Hne].
  - rewrite lookup_insert_eq. intros [= <-]. split; [|exact Hc].
    assert (0 <= default 0 (m !! companyId)).
    { destruct (m !! companyId) as [v|] eqn:E; cbn; [|lia]. apply Hm in E. lia. }
    lia.
  - rewrite lookup_insert_ne by congruence. apply Hm.
Qed.

Lemma updateActivity_value parse m time item k :
  activityOk m -> JS.truthy k = true ->
  default 0 (CompanyService.updateActivity parse m (JS.get item "companyId") (time item) !! k)
  = Z.max (default 0 (m !! k)) (default 0 (stampOf parse k time item)).
Proof.
  intros Hm Hk.
  assert (0 <= default 0 (m !! k)) as Hnn.
  { destruct (m !! k) as [v|] eqn:E; cbn; [|lia]. apply Hm in E. lia. }
  unfold CompanyService.updateActivity, stampOf, JS.strictEq.
  destruct (decide (JS.get item "companyId" = k)) as [->|Hne].
  - rewrite Hk, (bool_decide_eq_true_2 _ eq_refl). cbn.
    destruct (JS.truthy (time item)); cbn; [|lia].
    destruct (JS.dateTime parse (time item)) as [ts|]; cbn; [|lia].
    destruct (ts >? default 0 (m !! k)) eqn:Hgt.
    + rewrite lookup_insert_eq. cbn. lia.
    + lia.
  - rewrite (bool_decide_eq_false_2 _ Hne). cbn.
    replace (Z.max (default 0 (m !! k)) 0) with (default 0 (m !! k)) by lia.
    destruct (negb (JS.truthy (JS.get item "companyId")) || negb (JS.truthy (time item)))%bool;
      [reflexivity|].
    destruct (JS.dateTime parse (time item)) as [ts|]; [|reflexivity].
    destruct (ts >? default 0 (m !! JS.get item "companyId")); [|reflexivity].
    rewrite lookup_insert_ne by congruence. reflexivity.
Qed.

Lemma fold_updateActivity parse time items : forall m k,
  activityOk m -> JS.truthy k = true ->
  let m' := fold_left (fun m item => CompanyService.updateActivity parse m
                                        (JS.get item "companyId") (time item)) items m in
  activityOk m' /\
  default 0 (m' !! k)
  = Z.max (default 0 (m !! k)) (foldr Z.max 0 (omap (stampOf parse k time) items)).
Proof.
  induction items as [|item items IH]; intros m k Hm Hk; cbn zeta.
  - cbn. split; [exact Hm|].
    assert (0 <= default 0 (m !! k)).
    { destruct (m !! k) as [v|] eqn:E; cbn; [|lia]. apply Hm in E. lia. }
    lia.
  - cbn [fold_left].
    destruct (IH (CompanyService.updateActivity parse m (JS.get item "companyId") (time item)) k
                 (updateActivity_ok _ _ _ _ Hm) Hk) as [Hok Hv].
    split; [exact Hok|]. cbn zeta in Hv. rewrite Hv.
    rewrite (updateActivity_value parse m time item k Hm Hk).
    pose proof (foldr_max_nonneg (omap (stampOf parse k time) items)).
    cbn [omap list_omap]. destruct (stampOf parse k time item) as [ts|]; cbn; lia.
Qed.

Lemma fold_updateActivity_ok parse time items m :
  activityOk m ->
  activityOk (fold_left (fun m item => CompanyService.updateActivity parse m
                                          (JS.get item "companyId") (time item)) items m).
Proof.
  revert m. induction items as [|item items IH]; intros m Hm; [exact Hm|].
  cbn [fold_left]. apply IH, updateActivity_ok, Hm.
Qed.

Lemma activityOk_empty : activityOk ∅.
Proof. intros k v. rewrite lookup_empty. discriminate. Qed.

Lemma lastActivities_ok parse interactions eventLogs :
  activityOk (CompanyService.lastActivities parse interactions eventLogs).
Proof.
  unfold CompanyService.lastActivities.
  apply (fold_updateActivity_ok parse (fun e => JS.get e "createdTime")).
  apply (fold_updateActivity_ok parse
           (fun i => JS.or (JS.get i "interactionTime") (JS.get i "date"))).
  exact activityOk_empty.
Qed.

Lemma lastActivities_value parse interactions eventLogs k :
  JS.truthy k = true ->
  default 0 (CompanyService.lastActivities parse interactions eventLogs !! k)
  = foldr Z.max 0 (activityStamps parse k interactions eventLogs).
Proof.
  intros Hk. unfold CompanyService.lastActivities, activityStamps.
  destruct (fold_updateActivity parse
              (fun i => JS.or (JS.get i "interactionTime") (JS.get i "date"))
              interactions ∅ k activityOk_empty Hk) as [Hok Hv].
  cbn zeta in Hok, Hv.
  destruct (fold_updateActivity parse (fun e => JS.get e "createdTime") eventLogs _ k Hok Hk)
    as [_ Hv'].
  cbn zeta in Hv'. rewrite Hv', Hv, lookup_empty, foldr_max_app. cbn.
  pose proof (foldr_max_nonneg
                (omap (stampOf parse k (fun i => JS.or (JS.get i "interactionTime")
                                                       (JS.get i "date"))) interactions)).
  lia.
Qed.

Lemma withActivity_listed toISOString parse interactions eventLogs c :
  let ts := lastActivityOf parse interactions eventLogs c in
  CompanyService.withActivity toISOString parse
    (CompanyService.lastActivities parse interactions eventLogs) c
  = <[ "_sortTs" := SNum ts ]>
      (<[ "lastActivity" := if (ts =? 0) then SNull else SStr (toISOString ts) ]> c).
Proof.
  cbn zeta. unfold CompanyService.withActivity, lastActivityOf.
  pose proof (lastActivities_ok parse interactions eventLogs) as Hok.
  destruct (JS.truthy (JS.get c "companyId")) eqn:Hc.
  - rewrite <- (lastActivities_value parse interactions eventLogs _ Hc).
    destruct (CompanyService.lastActivities parse interactions eventLogs !! JS.get c "companyId")
      as [v|] eqn:E; cbn [default CompanyService.tsTruthy].
    + apply Hok in E as [Hv _].
      assert ((v =? 0) = false) as E0 by lia. assert ((0 <? v) = true) as E1 by lia.
      cbn. rewrite E0, E1. cbn. rewrite E0. reflexivity.
    + cbn. destruct (JS.truthy (JS.get c "createdTime")); cbn; [|reflexivity].
      destruct (JS.dateTime parse (JS.get c "createdTime")) as [t|]; cbn; [|reflexivity].
      destruct (t =? 0); reflexivity.
  - destruct (CompanyService.lastActivities parse interactions eventLogs !! JS.get c "companyId")
      as [v|] eqn:E.
    + apply Hok in E as [_ Hk]. congruence.
    + cbn. destruct (JS.truthy (JS.get c "createdTime")); cbn; [|reflexivity].
      destruct (JS.dateTime parse (JS.get c "createdTime")) as [t|]; cbn; [|reflexivity].
      destruct (t =? 0); reflexivity.
Qed.

(** Sorting by a key *)

Lemma insertSorted_map {A B} (f : A -> B) cmp x l :
  JS.insertSorted cmp (f x) (map f l)
  = map f (JS.insertSorted (fun a b => cmp (f a) (f b)) x l).
Proof.
  induction l as [|y l IH]; [reflexivity|].
  cbn [map JS.insertSorted]. unfold JS.sortCompare.
  destruct (match cmp (f x) (f y) with Some v => v | None => 0 end <=? 0); [reflexivity|].
  cbn [map]. rewrite IH. reflexivity.
Qed.

Lemma sort_map {A B} (f : A -> B) cmp l :
  JS.sort cmp (map f l) = map f (JS.sort (fun a b => cmp (f a) (f b)) l).
Proof.
  induction l as [|x l IH]; [reflexivity|].
  cbn [map JS.sort]. rewrite IH. apply insertSorted_map.
Qed.

Lemma insertSorted_by_key {A} (key : A -> Z) cmp x l :
  (forall a b, JS.sortCompare cmp a b = key b - key a) ->
  descending key l -> descending key (JS.insertSorted cmp x l).
Proof.
  intros Hc. induction l as [|y l IH]; cbn [JS.insertSorted].
  - intros _. cbn. split; [constructor|exact I].
  - intros [Hy Hs]. rewrite Hc. destruct (key y - key x <=? 0) eqn:E.
    + split; [|split; assumption].
      constructor; [lia|]. eapply Forall_impl; [exact Hy|]. cbn. intros z Hz. lia.
    + split; [|exact (IH Hs)].
      rewrite (insertSorted_perm cmp x l). constructor; [lia|exact Hy].
Qed.

Lemma sort_by_key {A} (key : A -> Z) cmp l :
  (forall a b, JS.sortCompare cmp a b = key b - key a) ->
  descending key (JS.sort cmp l).
Proof.
  intros Hc. induction l as [|x l IH]; cbn [JS.sort]; [exact I|].
  apply insertSorted_by_key; assumption.
Qed.

Lemma readsOnly_activity :
  readsOnly (both Reader.getInteractions Reader.getEventLogs)
    (fun w => readable "interactions" w && readable "eventLogs" w)%bool
    (fun w => (rowsOf "interactions" w, rowsOf "eventLogs" w)).
Proof.
  repeat first
    [ apply readsOnly_both | apply readsOnly_getCollection
    | apply rowsOf_stableUnderReads | apply readable_stableUnderReads ].
Qed.

Lemma companyList_after_reads w w1 :
  afterReads w w1 ->
  exists o w2,
    Reader.getCompanyList w1 = (o, w2) /\ afterReads w w2 /\
    if readable "companyList" w then o = Returned (rowsOf "companyList" w)
    else exists e, o = Thrown e.
Proof.
  intros R. destruct (readsOnly_getCollection "companyList" w1) as (o & w2 & E & R' & P).
  exists o, w2. split; [exact E|]. split; [exact (afterReads_trans _ _ _ R R')|].
  rewrite (readable_stableUnderReads "companyList" _ _ R),
          (rowsOf_stableUnderReads "companyList" _ _ R) in P.
  exact P.
Qed.

Lemma passes_filters filters companies :
  usableName (JS.get filters "q") = true ->
  Forall (fun c => searchable c = true) companies ->
  exists found,
    CompanyService.searchByText filters companies = Returned found /\
    CompanyService.selectBy filters "rating" "engagementRating"
      (CompanyService.selectBy filters "stage" "customerStage"
         (CompanyService.selectBy filters "type" "companyType" found))
    = List.filter (passes filters) companies.
Proof.
  intros Hq Hs. eexists. split; [exact (searchByText_passes filters companies Hq Hs)|].
  rewrite !selectBy_chosenBy, !filter_filter_andb.
  apply filter_ext. intros c. unfold passes. rewrite !andb_assoc. reflexivity.
Qed.

(** X22. [getCompanyListWithActivity] writes nothing and rejects only when the
    reader of the companies does.  When the readers of the interactions and
    of the event logs answer and the searched fields are texts, it returns a
    row for each company that passes the filters, by descending last
    activity: the company with its last activity as [lastActivity], [null]
    when it has none, and without [_sortTs].  When one of the two readers
    fails it returns the list of the reader as it is. *)
Theorem company_list_is_ordered_by_last_activity :
  forall toISOString filters w,
    let act := lastActivityOf (dateParse w) (rowsOf "interactions" w) (rowsOf "eventLogs" w) in
    match CompanyService.getCompanyListWithActivity toISOString filters w with
    | (Thrown e, w') => nothingWritten w w' /\ readable "companyList" w = false
    | (Returned rows, w') =>
        nothingWritten w w' /\ readable "companyList" w = true /\
        ((readable "interactions" w && readable "eventLogs" w)%bool = false ->
         rows = rowsOf "companyList" w) /\
        ((readable "interactions" w && readable "eventLogs" w)%bool = true ->
         usableName (JS.get filters "q") = true ->
         Forall (fun c => searchable c = true) (rowsOf "companyList" w) ->
         exists kept,
           kept ≡ₚ List.filter (passes filters) (rowsOf "companyList" w) /\
           descending act kept /\
           rows = map (fun c => listedWith toISOString (act c) c) kept)
    end.
Proof.
  intros toISOString filters w act.
  unfold CompanyService.getCompanyListWithActivity, tryCatch. unfold bind at 1.
  destruct (readsOnly_getCollection "companyList" w) as (o & w1 & E & R & P).
  unfold Reader.getCompanyList at 1. rewrite E.
  destruct (readable "companyList" w) eqn:Hread.
  2:{ destruct P as [e ->].
      destruct (companyList_after_reads w w1 R) as (o2 & w2 & E2 & R2 & P2).
      rewrite Hread in P2. destruct P2 as [e2 ->]. rewrite E2.
      split; [exact (afterReads_nothingWritten _ _ R2)|reflexivity]. }
  subst o. unfold bind at 1. unfold lift at 1.
  destruct (CompanyService.searchByText filters (rowsOf "companyList" w)) as [found|e] eqn:Hfound.
  2:{ destruct (companyList_after_reads w w1 R) as (o2 & w2 & E2 & R2 & P2).
      rewrite Hread in P2. subst o2. rewrite E2.
      split; [exact (afterReads_nothingWritten _ _ R2)|]. split; [reflexivity|].
      split; [reflexivity|]. intros _ Hq Hs.
      destruct (passes_filters filters _ Hq Hs) as (found & Hf & _). congruence. }
  unfold bind at 1.
  destruct (readsOnly_activity w1) as (o3 & w3 & E3 & R3 & P3). rewrite E3.
  rewrite (readable_stableUnderReads "interactions" _ _ R),
          (readable_stableUnderReads "eventLogs" _ _ R),
          (rowsOf_stableUnderReads "interactions" _ _ R),
          (rowsOf_stableUnderReads "eventLogs" _ _ R) in P3.
  pose proof (afterReads_trans _ _ _ R R3) as R13.
  destruct (readable "interactions" w && readable "eventLogs" w)%bool.
  2:{ destruct P3 as [e ->].
      destruct (companyList_after_reads w w3 R13) as (o2 & w2 & E2 & R2 & P2).
      rewrite Hread in P2. subst o2. rewrite E2.
      split; [exact (afterReads_nothingWritten _ _ R2)|]. split; [reflexivity|].
      split; [reflexivity|]. discriminate. }
  subst o3. unfold ret.
  split; [exact (afterReads_nothingWritten _ _ R13)|]. split; [reflexivity|].
  split; [discriminate|]. intros _ Hq Hs.
  destruct (passes_filters filters _ Hq Hs) as (found' & Hf & Hsel).
  rewrite Hfound in Hf. injection Hf as <-. rewrite Hsel.
  rewrite (afterReads_dateParse _ _ R13).
  set (kept0 := List.filter (passes filters) (rowsOf "companyList" w)).
  set (dec := CompanyService.withActivity toISOString (dateParse w)
                (CompanyService.lastActivities (dateParse w) (rowsOf "interactions" w)
                                               (rowsOf "eventLogs" w))).
  assert (forall c, dec c = <[ "_sortTs" := SNum (act c) ]>
                              (<[ "lastActivity" := if (act c =? 0) then SNull
                                                    else SStr (toISOString (act c)) ]> c))
    as Hdec.
  { intros c. apply withActivity_listed. }
  rewrite sort_map.
  exists (JS.sort (fun a b => CompanyService.bySortTsDesc (dec a) (dec b)) kept0).
  split; [apply sort_perm|]. split.
  - apply sort_by_key. intros a b.
    unfold JS.sortCompare, CompanyService.bySortTsDesc, JS.get.
    rewrite !Hdec, !lookup_insert_eq. reflexivity.
  - rewrite map_map. apply map_ext. intros c.
    rewrite Hdec. unfold listedWith. apply delete_insert_eq.
Qed.

(** ** [CompanyService.updateCompany] *)

Lemma findM_agree {A} (p q : A -> outcome bool) l x :
  (forall y, p y = Returned true -> q y = Returned true) ->
  (forall y, p y = Returned false -> q y = Returned false) ->
  JS.findM p l = Returned (Some x) -> JS.findM q l = Returned (Some x).
Proof.
  intros Ht Hf. induction l as [|y l IH]; simpl; [discriminate|].
  destruct (p y) as [[]|e] eqn:Hp; [| |discriminate].
  - intros [= <-]. rewrite (Ht _ Hp). reflexivity.
  - intros H. rewrite (Hf _ Hp). exact (IH H).
Qed.

Lemma namedLike_finds_the_same companyName target companies info :
  CompanyService._normalizeCompanyName companyName = Returned target ->
  CompanyService.findByNormalizedName target companies = Returned (Some info) ->
  JS.findM (CompanyService.namedLike companyName target) companies = Returned (Some info).
Proof.
  intros Hn. unfold CompanyService.findByNormalizedName. apply findM_agree.
  - intros y Hy. unfold CompanyService.namedLike.
    destruct (JS.strictEq (JS.get y "companyName") companyName); [reflexivity|exact Hy].
  - intros y Hy. unfold CompanyService.namedLike, JS.strictEq.
    case_bool_decide as Heq; [|exact Hy].
    rewrite Heq, Hn in Hy. rewrite String.eqb_refl in Hy. discriminate Hy.
Qed.

Lemma findByNormalizedName_returns target companies :
  Forall (fun c => usableName (JS.get c "companyName") = true) companies ->
  exists r, CompanyService.findByNormalizedName target companies = Returned r.
Proof.
  unfold CompanyService.findByNormalizedName.
  induction 1 as [|c l Hc _ [r IH]]; simpl; [eexists; reflexivity|].
  apply normalizeCompanyValue_usable in Hc as [k Hk].
  unfold CompanyService._normalizeCompanyName in *. rewrite Hk.
  destruct (String.eqb k target); [eexists; reflexivity|]. exists r. exact IH.
Qed.

(** What [getCompanyDetails] finds: the first company with the key. *)
Lemma getCompanyDetails_info companyName w :
  let allReadable :=
    (readable "companyList" w
     && (readable "contactList" w
         && (readable "opportunities" w
             && (readable "interactions" w
                 && (readable "eventLogs" w && readable "contacts" w)))))%bool in
  match CompanyService.getCompanyDetails companyName w with
  | (Thrown e, w1) =>
      afterReads w w1 /\
      (allReadable = true ->
       forall target r,
         CompanyService._normalizeCompanyName companyName = Returned target ->
         CompanyService.findByNormalizedName target (rowsOf "companyList" w) = Returned r ->
         r <> None)
  | (Returned d, w1) =>
      afterReads w w1 /\
      exists target,
        CompanyService._normalizeCompanyName companyName = Returned target /\
        CompanyService.findByNormalizedName target (rowsOf "companyList" w)
        = Returned (CompanyService.companyInfo d)
  end.
Proof.
  cbv zeta. unfold CompanyService.getCompanyDetails. unfold bind at 1.
  destruct (readsOnly_companyDetails w) as (o & w1 & E & R & P). rewrite E.
  destruct (readable "companyList" w && _)%bool.
  2:{ destruct P as [e ->]. split; [exact R|discriminate]. }
  subst o. unfold bind at 1. unfold lift at 1.
  destruct (CompanyService._normalizeCompanyName companyName) as [target|e] eqn:Hn.
  2:{ split; [exact R|]. intros _ target r [=]. }
  unfold bind at 1. unfold lift at 1.
  destruct (CompanyService.findByNormalizedName target (rowsOf "companyList" w))
    as [companyInfo|e] eqn:Hf.
  2:{ split; [exact R|]. intros _ t r [= <-]. rewrite Hf. discriminate. }
  destruct companyInfo as [info|].
  - unfold bind at 1. unfold lift at 1.
    destruct (JS.filterM (CompanyService.keyIs "customerCompany" target)
                         (rowsOf "opportunities" w)) as [opps|e] eqn:Ho.
    2:{ split; [exact R|]. intros _ t r [= <-]. rewrite Hf. intros [= <-]. discriminate. }
    unfold bind at 1. unfold lift at 1.
    destruct (JS.filterM (CompanyService.keyIs "company" target) (rowsOf "contacts" w))
      as [pcs|e] eqn:Hp.
    2:{ split; [exact R|]. intros _ t r [= <-]. rewrite Hf. intros [= <-]. discriminate. }
    unfold ret. split; [exact R|]. exists target. split; [reflexivity|exact Hf].
  - unfold ret. split; [exact R|]. exists target. split; [reflexivity|exact Hf].
Qed.

Lemma findCompanyRowIndex_of_info companyName target info w :
  readable "companyList" w = true ->
  CompanyService._normalizeCompanyName companyName = Returned target ->
  CompanyService.findByNormalizedName target (rowsOf "companyList" w) = Returned (Some info) ->
  exists w',
    afterReads w w' /\
    CompanyService._findCompanyRowIndex companyName w
    = (if JS.truthy (JS.get info "rowIndex") then Returned (JS.get info "rowIndex")
       else Thrown "系統錯誤: 無法取得資料行號 (rowIndex missing)", w').
Proof.
  intros Hr Hn Hf. unfold CompanyService._findCompanyRowIndex. unfold bind at 1.
  destruct (readsOnly_getCollection "companyList" w) as (o & w1 & E & R & P).
  unfold Reader.getCompanyList. rewrite E. rewrite Hr in P. subst o.
  exists w1. split; [exact R|].
  unfold bind at 1. unfold lift at 1. rewrite Hn.
  unfold bind at 1. unfold lift at 1.
  rewrite (namedLike_finds_the_same companyName target _ info Hn Hf).
  destruct (JS.truthy (JS.get info "rowIndex")); reflexivity.
Qed.

(** X23. [updateCompany] writes the row of the company that it found: a call
    that returns has made one writer call, on the row handle of the first
    company with the key of the name, has left a record of it in the
    interactions when the interaction writer is there and works, and has
    then invalidated the list, whether the record was written or not.  A
    call that rejects has written nothing; when no company has the key it
    rejects with the message that names the company. *)
Theorem update_company_writes_the_row_it_found :
  forall this now companyName updateData u w,
    let found := JS.find (fun c => sameKey (JS.get c "companyName") companyName)
                         (rowsOf "companyList" w) in
    match CompanyService.updateCompany this now companyName updateData u w with
    | (Returned res, w') =>
        writerDown w = false /\
        exists info log,
          found = Some info /\ JS.truthy (JS.get info "rowIndex") = true /\
          trace w' = trace w ++ [WUpdateRow "companyList" (JS.get info "rowIndex") updateData]
                             ++ log ++ [RInvalidate "companyList"] /\
          cache w' !! "companyList" = None /\
          match CompanyService.interactionWriterDown this with
          | Some false => companyLogOf info now log
          | _ => log = []
          end
    | (Thrown e, w') =>
        nothingWritten w w' /\
        (knownUser u = true ->
         (readable "companyList" w
          && (readable "contactList" w
              && (readable "opportunities" w
                  && (readable "interactions" w
                      && (readable "eventLogs" w && readable "contacts" w)))))%bool = true ->
         usableName companyName = true ->
         Forall (fun c => usableName (JS.get c "companyName") = true) (rowsOf "companyList" w) ->
         found = None ->
         e = ("找不到公司: " ++ JS.toStr companyName)%string)
    end.
Proof.
  intros this now companyName updateData u w. cbv zeta.
  unfold CompanyService.updateCompany. unfold bind at 1. unfold lift at 1.
  unfold knownUser.
  destruct (modifierName u) as [modifier|e] eqn:Hu.
  2:{ split; [apply nothingWritten_refl|]. discriminate. }
  unfold bind at 1.
  pose proof (getCompanyDetails_info companyName w) as Hd. cbv zeta in Hd.
  destruct (CompanyService.getCompanyDetails companyName w) as [[d|e] w1].
  2:{ destruct Hd as [R Hd]. split; [exact (afterReads_nothingWritten _ _ R)|].
      intros _ Hall Hname Hnames Hnone. exfalso.
      apply normalizeCompanyValue_usable in Hname as [target Ht].
      destruct (findByNormalizedName_returns target _ Hnames) as [r Hr].
      apply (Hd Hall target r Ht Hr).
      rewrite (findByNormalizedName_spec companyName target _ r Ht Hr). exact Hnone. }
  destruct Hd as (R & target & Hn & Hf).
  pose proof (findByNormalizedName_spec companyName target _ _ Hn Hf) as Hfound.
  rewrite <- Hfound.
  destruct (CompanyService.companyInfo d) as [info|].
  2:{ unfold throw. split; [exact (afterReads_nothingWritten _ _ R)|].
      intros _ _ _ _ _. reflexivity. }
  assert (readable "companyList" w = true) as Hread.
  { unfold CompanyService.findByNormalizedName in Hf. apply findM_Some in Hf as [Hin _].
    unfold readable. unfold rowsOf in Hin.
    destruct (fst (Reader.getCollection "companyList" w)); [reflexivity|].
    apply elem_of_nil in Hin. contradiction. }
  destruct (findCompanyRowIndex_of_info companyName target info w1) as (w2 & R2 & Erow).
  { rewrite (readable_stableUnderReads "companyList" _ _ R). exact Hread. }
  { exact Hn. }
  { rewrite (rowsOf_stableUnderReads "companyList" _ _ R). exact Hf. }
  unfold bind at 1. rewrite Erow. clear Erow.
  pose proof (afterReads_trans _ _ _ R R2) as R12.
  destruct (JS.truthy (JS.get info "rowIndex")) eqn:Hrow.
  2:{ split; [exact (afterReads_nothingWritten _ _ R12)|]. intros _ _ _ _ [=]. }
  unfold bind at 1. rewrite updateAt_cases.
  destruct R12 as (_ & Rs & Rt & Rd & _). rewrite Rd.
  destruct (writerDown w) eqn:Hdown.
  { split; [split; assumption|]. intros _ _ _ _ [=]. }
  unfold CompanyService._logCompanyInteraction, InteractionWriter.createInteraction,
    Writer.create, Reader.invalidateCache.
  destruct (CompanyService.interactionWriterDown this) as [[]|]; unfold_monad; cbn;
    rewrite ?Rd, ?Hdown; cbn; rewrite Rt, lookup_delete_eq.
  - split; [reflexivity|]. exists info, [].
    repeat split; try assumption; try reflexivity. rewrite <- !app_assoc. reflexivity.
  - split; [reflexivity|]. exists info. eexists [_].
    split; [reflexivity|]. split; [exact Hrow|].
    split; [rewrite <- !app_assoc; reflexivity|]. split; [reflexivity|].
    eexists. split; [reflexivity|]. repeat split; reflexivity.
  - split; [reflexivity|]. exists info, [].
    repeat split; try assumption; try reflexivity. rewrite <- !app_assoc. reflexivity.
Qed.

(** ** [OpportunityService.updateOpportunity] and [deleteOpportunity] *)

Lemma changeLogs_nil config original updateData :
  OpportunityService.changeLogs config original updateData = [] <->
  tracked original updateData = false.
Proof.
  unfold OpportunityService.changeLogs, tracked.
  change (OpportunityService.changed "opportunityValue" original updateData)
    with (givesNew "opportunityValue" original updateData).
  change (OpportunityService.changed "assignee" original updateData)
    with (givesNew "assignee" original updateData).
  change (OpportunityService.changed "expectedCloseDate" original updateData)
    with (givesNew "expectedCloseDate" original updateData).
  change (JS.truthy (JS.get updateData "currentStage")
          && JS.truthy (JS.get original "currentStage")
          && negb (JS.strictEq (JS.get updateData "currentStage")
                               (JS.get original "currentStage")))%bool
    with (movesStage original updateData).
  destruct (movesStage original updateData);
    destruct (givesNew "opportunityValue" original updateData);
    destruct (givesNew "assignee" original updateData);
    destruct (givesNew "expectedCloseDate" original updateData);
    cbn [app orb]; split; intros H; first [reflexivity | discriminate H].
Qed.

Lemma startsWith_self_app p s : Str.startsWith p (p ++ s) = true.
Proof.
  induction p as [|c p IH]; [reflexivity|].
  rewrite string_app_cons. cbn. rewrite Ascii.eqb_refl. exact IH.
Qed.

Lemma startsWith_self p : Str.startsWith p p = true.
Proof. induction p as [|c p IH]; [reflexivity|]. cbn. rewrite Ascii.eqb_refl. exact IH. Qed.

Lemma concat_starts sep m rest : Str.startsWith m (String.concat sep (m :: rest)) = true.
Proof.
  destruct rest as [|x rest]; cbn [String.concat];
    [apply startsWith_self|apply startsWith_self_app].
Qed.

Lemma stageLabel_mapGet stages s label :
  stageLabel stages s label ->
  JS.toStr (JS.or (JS.mapGet (JS.newMap (map (fun item => (JS.get item "value",
                                                           JS.get item "note")) stages)) s) s)
  = label.
Proof.
  unfold JS.mapGet. intros [(n & Hr & ->)|[Hd ->]].
  - apply rowMap_resolves in Hr. rewrite Hr. reflexivity.
  - apply (rowMap_dangling "value" "note") in Hd. rewrite Hd. cbn.
    unfold JS.or. cbn. reflexivity.
Qed.

Lemma changeLogs_stage config original updateData a b :
  movesStage original updateData = true ->
  stageLabel (default [] (config !! "機會階段")) (JS.get original "currentStage") a ->
  stageLabel (default [] (config !! "機會階段")) (JS.get updateData "currentStage") b ->
  exists rest,
    OpportunityService.changeLogs config original updateData
    = ("階段從【" ++ a ++ "】更新為【" ++ b ++ "】")%string :: rest.
Proof.
  intros Hm Ha Hb. unfold OpportunityService.changeLogs.
  change (JS.truthy (JS.get updateData "currentStage")
          && JS.truthy (JS.get original "currentStage")
          && negb (JS.strictEq (JS.get updateData "currentStage")
                               (JS.get original "currentStage")))%bool
    with (movesStage original updateData).
  rewrite Hm, (stageLabel_mapGet _ _ _ Ha), (stageLabel_mapGet _ _ _ Hb).
  eexists. cbn [app]. reflexivity.
Qed.

Lemma getSystemConfig_run w : Reader.getSystemConfig w = (systemConfig w, w).
Proof. reflexivity. Qed.

(** The log of a change, when the store can be written. *)
Lemma logOpportunity_run this now opportunityId title summary modifier w :
  writerDown w = false ->
  exists w',
    OpportunityService._logOpportunityInteraction this now opportunityId title summary modifier w
    = (Returned tt, w') /\
    if OpportunityService.interactionWriterDown this then w' = w
    else exists r,
        trace w' = trace w ++ [WCreate "interactions" r] /\
        JS.get r "opportunityId" = opportunityId /\
        JS.get r "eventType" = SStr "系統事件" /\
        JS.get r "eventTitle" = SStr title /\
        JS.get r "recorder" = modifier /\
        JS.get r "interactionTime" = SStr now /\
        JS.get r "contentSummary" = SStr summary.
Proof.
  intros Hd. unfold OpportunityService._logOpportunityInteraction,
    InteractionWriter.createInteraction, Writer.create. unfold_monad.
  destruct (OpportunityService.interactionWriterDown this).
  - exists w. repeat split; reflexivity.
  - rewrite Hd. eexists. split; [reflexivity|].
    eexists. split; [reflexivity|]. repeat split; reflexivity.
Qed.

(** X25. [updateOpportunity] leaves a record of the changes that it keeps track
    of.  A call that returns has found the opportunity of the row and a
    configuration.  When the update moves the stage or gives a new value,
    assignee or expected closing date, and the interaction writer works, one
    record follows the write: of the opportunity, by the name of the caller,
    at the time of the call, with a summary that begins with the change of
    stage when there is one, the stages under their configured names.
    Otherwise the write is the only call. *)
Theorem opportunity_update_logs_the_tracked_changes :
  forall this now rowIndex updateData u w,
    match OpportunityService.updateOpportunity this now rowIndex updateData u w with
    | (Thrown _, _) => True
    | (Returned res, w') =>
        exists original config modifier,
          OpportunityService.findByRow rowIndex (rowsOf "opportunities" w) = Some original /\
          systemConfig w = Returned (Some config) /\
          modifierName u = Returned modifier /\
          if (tracked original updateData
              && negb (OpportunityService.interactionWriterDown this))%bool
          then exists r summary,
              trace w' = trace w ++ [WUpdateRow "opportunities" rowIndex updateData;
                                     WCreate "interactions" r] /\
              changeLogOf original modifier now summary r /\
              (movesStage original updateData = true ->
               forall a b,
                 stageLabel (default [] (config !! "機會階段"))
                            (JS.get original "currentStage") a ->
                 stageLabel (default [] (config !! "機會階段"))
                            (JS.get updateData "currentStage") b ->
                 Str.startsWith ("階段從【" ++ a ++ "】更新為【" ++ b ++ "】") summary = true)
          else trace w' = trace w ++ [WUpdateRow "opportunities" rowIndex updateData]
    end.
Proof.
  intros this now rowIndex updateData u w.
  unfold OpportunityService.updateOpportunity. unfold bind at 1. unfold lift at 1.
  destruct (modifierName u) as [modifier|e] eqn:Hu; [|exact I].
  unfold bind at 1.
  destruct (Reader.getOpportunities w) as [[rows|e] w1] eqn:H;
    pose proof (getCollection_afterReads _ _ _ _ H) as R; [|exact I].
  destruct (rowsOf_returned _ _ _ _ H) as [-> _].
  destruct (OpportunityService.findByRow rowIndex rows) as [original|] eqn:Hfound; [|exact I].
  unfold bind at 1. rewrite getSystemConfig_run.
  destruct R as (_ & Rs & Rt & Rd & _ & _ & Rc & _). rewrite Rc.
  destruct (systemConfig w) as [[config|]|e] eqn:Hconfig; [|exact I|exact I].
  unfold bind at 1. rewrite updateAt_cases, Rd.
  destruct (writerDown w) eqn:Hdown; [exact I|].
  set (w2 := logCall _ _).
  assert (writerDown w2 = false) as Hd2 by (cbn; exact Rd).
  assert (trace w2 = trace w ++ [WUpdateRow "opportunities" rowIndex updateData]) as Ht2
    by (cbn; rewrite Rt; reflexivity).
  destruct (OpportunityService.changeLogs config original updateData) as [|m rest] eqn:Hlogs.
  - apply changeLogs_nil in Hlogs. unfold_monad.
    exists original, config, modifier. rewrite Hlogs. cbn [andb].
    repeat split; try reflexivity. exact Ht2.
  - assert (tracked original updateData = true) as Htr.
    { destruct (tracked original updateData) eqn:E; [reflexivity|].
      apply (changeLogs_nil config) in E. congruence. }
    unfold bind at 1.
    destruct (logOpportunity_run this now (JS.get original "opportunityId") "機會資料更新"
                (String.concat "； " (m :: rest)) modifier w2 Hd2) as (w3 & -> & Hlog).
    unfold_monad. exists original, config, modifier. rewrite Htr. cbn [andb].
    split; [reflexivity|]. split; [reflexivity|]. split; [reflexivity|].
    destruct (OpportunityService.interactionWriterDown this); cbn [negb].
    + subst w3. exact Ht2.
    + destruct Hlog as (r & Ht & H1 & H2 & H3 & H4 & H5 & H6).
      exists r, (String.concat "； " (m :: rest)).
      split; [rewrite Ht, Ht2, <- app_assoc; reflexivity|].
      split; [repeat split; assumption|].
      intros Hm a b Ha Hb.
      destruct (changeLogs_stage config original updateData a b Hm Ha Hb) as [rest' Hl].
      rewrite Hlogs in Hl. injection Hl as -> _. apply concat_starts.
Qed.

(** A write to a collection leaves what the readers of the others serve. *)
Lemma getCollection_other_sheet key coll f c w :
  key <> coll ->
  fst (Reader.getCollection key (logCall c (setSheet (alter f coll) w)))
  = fst (Reader.getCollection key w).
Proof.
  intros Hne. unfold Reader.getCollection. cbn.
  destruct (cache w !! key); [reflexivity|].
  rewrite lookup_alter_ne by congruence.
  destruct (sheet w !! key); reflexivity.
Qed.

Lemma sameLowerName_customerOf opportunity company :
  OpportunityService.sameLowerName opportunity company = Returned true ->
  customerOf opportunity company.
Proof.
  unfold OpportunityService.sameLowerName, OpportunityService.lowerTrim, customerOf.
  destruct (JS.get company "companyName") as [| |?|?|a]; try discriminate.
  destruct (JS.get opportunity "customerCompany") as [| |?|?|b]; try discriminate.
  intros [= H]. apply String.eqb_eq in H. exists a, b. repeat split; assumption.
Qed.

(** The record that a deletion leaves with the company, when the store can
    be written. *)
Lemma logDeletedOpportunity_run this now opportunity modifier w :
  exists w',
    OpportunityService.logDeletedOpportunity this now opportunity modifier w
    = (Returned tt, w') /\
    exists log,
      trace w' = trace w ++ log /\
      deletionLogOf opportunity (rowsOf "companyList" w) log.
Proof.
  unfold OpportunityService.logDeletedOpportunity, tryCatch. unfold bind at 1.
  destruct (Reader.getCompanyList w) as [[companies|e] w1] eqn:H.
  2:{ apply getCollection_thrown in H as (_ & _ & ->). unfold ret.
      exists w. split; [reflexivity|].
      exists []. rewrite app_nil_r. split; [reflexivity|left; reflexivity]. }
  destruct (rowsOf_returned _ _ _ _ H) as [<- _].
  apply getCollection_cached in H as (_ & _ & Ht).
  unfold bind at 1. unfold lift at 1.
  destruct (JS.findM (OpportunityService.sameLowerName opportunity) (rowsOf "companyList" w))
    as [[company|]|e] eqn:Hf.
  - apply findM_Some in Hf as [Hin Hp]. apply sameLowerName_customerOf in Hp.
    unfold InteractionWriter.createInteraction, Writer.create. unfold_monad.
    destruct (OpportunityService.interactionWriterDown this).
    + exists w1. split; [reflexivity|].
      exists []. rewrite app_nil_r. split; [exact Ht|left; reflexivity].
    + destruct (writerDown w1).
      * exists w1. split; [reflexivity|].
        exists []. rewrite app_nil_r. split; [exact Ht|left; reflexivity].
      * eexists. split; [reflexivity|].
        eexists [_]. split; [cbn; rewrite Ht; reflexivity|].
        right. exists company. eexists. split; [reflexivity|].
        split; [exact Hin|]. split; [exact Hp|]. split; reflexivity.
  - unfold ret. exists w1. split; [reflexivity|].
    exists []. rewrite app_nil_r. split; [exact Ht|left; reflexivity].
  - unfold ret. exists w1. split; [reflexivity|].
    exists []. rewrite app_nil_r. split; [exact Ht|left; reflexivity].
Qed.

(** X24. [updateOpportunity] and [deleteOpportunity] write all or nothing, and
    ask for no invalidation themselves.  A call that returns has found the
    opportunity of the row that [parseInt] reads and has made one writer
    call, on the row handle as it was given; what follows it creates
    interactions only: records of the changes after an update, at most the
    record with the company of the opportunity after a deletion.  A call
    that rejects has written nothing; when the reader answers and no
    opportunity has the row, it rejects with the message that names the
    row. *)
Theorem opportunity_writes_are_all_or_nothing :
  (forall this now rowIndex updateData u w,
     let found := OpportunityService.findByRow rowIndex (rowsOf "opportunities" w) in
     match OpportunityService.updateOpportunity this now rowIndex updateData u w with
     | (Returned res, w') =>
         writerDown w = false /\ is_Some found /\
         (exists log,
            trace w' = trace w ++ WUpdateRow "opportunities" rowIndex updateData :: log /\
            onlyLogs log)
     | (Thrown e, w') =>
         nothingWritten w w' /\
         (knownUser u = true -> readable "opportunities" w = true ->
          match found with
          | None => e = ("找不到要更新的機會 (Row: " ++ JS.toStr rowIndex ++ ")")%string
          | Some _ =>
              (forall config, systemConfig w <> Returned (Some config)) \/ writerDown w = true
          end)
     end) /\
  (forall this now rowIndex u w,
     let found := OpportunityService.findByRow rowIndex (rowsOf "opportunities" w) in
     match OpportunityService.deleteOpportunity this now rowIndex u w with
     | (Returned res, w') =>
         writerDown w = false /\
         (exists opportunity log,
            found = Some opportunity /\
            trace w' = trace w ++ WDeleteRow "opportunities" rowIndex :: log /\
            deletionLogOf opportunity (rowsOf "companyList" w) log)
     | (Thrown e, w') =>
         nothingWritten w w' /\
         (knownUser u = true -> readable "opportunities" w = true ->
          match found with
          | None => e = ("找不到要刪除的機會 (Row: " ++ JS.toStr rowIndex ++ ")")%string
          | Some _ => writerDown w = true
          end)
     end).
Proof.
  split.
  - intros this now rowIndex updateData u w. cbv zeta.
    unfold OpportunityService.updateOpportunity. unfold bind at 1. unfold lift at 1.
    unfold knownUser.
    destruct (modifierName u) as [modifier|e] eqn:Hu.
    2:{ split; [apply nothingWritten_refl|]. discriminate. }
    unfold bind at 1.
    destruct (Reader.getOpportunities w) as [[rows|e] w1] eqn:H;
      pose proof (getCollection_afterReads _ _ _ _ H) as R.
    2:{ split; [exact (afterReads_nothingWritten _ _ R)|].
        apply readable_thrown in H. rewrite H. discriminate. }
    destruct (rowsOf_returned _ _ _ _ H) as [-> _].
    pose proof (afterReads_nothingWritten _ _ R) as Hn.
    destruct (OpportunityService.findByRow rowIndex rows) as [original|] eqn:Hfound.
    2:{ unfold throw. split; [exact Hn|]. intros _ _. reflexivity. }
    unfold bind at 1. rewrite getSystemConfig_run.
    destruct R as (_ & Rs & Rt & Rd & _ & _ & Rc & _). rewrite Rc.
    destruct (systemConfig w) as [[config|]|e] eqn:Hconfig.
    2:{ unfold throw. split; [exact Hn|]. intros _ _. left. intros config. discriminate. }
    2:{ split; [exact Hn|]. intros _ _. left. intros config. discriminate. }
    unfold bind at 1. rewrite updateAt_cases, Rd.
    destruct (writerDown w) eqn:Hdown.
    { split; [exact Hn|]. intros _ _. right. reflexivity. }
    set (w2 := logCall _ _).
    assert (writerDown w2 = false) as Hd2 by (cbn; exact Rd).
    assert (trace w2 = trace w ++ [WUpdateRow "opportunities" rowIndex updateData]) as Ht2
      by (cbn; rewrite Rt; reflexivity).
    destruct (OpportunityService.changeLogs config original updateData) as [|m rest].
    + unfold_monad. split; [reflexivity|]. split; [eexists; reflexivity|].
      exists []. split; [exact Ht2|constructor].
    + unfold bind at 1.
      destruct (logOpportunity_run this now (JS.get original "opportunityId") "機會資料更新"
                  (String.concat "； " (m :: rest)) modifier w2 Hd2) as (w3 & -> & Hlog).
      unfold_monad. split; [reflexivity|]. split; [eexists; reflexivity|].
      destruct (OpportunityService.interactionWriterDown this).
      * subst w3. exists []. split; [exact Ht2|constructor].
      * destruct Hlog as (r & Ht & _). exists [WCreate "interactions" r].
        split; [rewrite Ht, Ht2, <- app_assoc; reflexivity|].
        constructor; [eexists; reflexivity|constructor].
  - intros this now rowIndex u w. cbv zeta.
    unfold OpportunityService.deleteOpportunity. unfold bind at 1. unfold lift at 1.
    unfold knownUser.
    destruct (modifierName u) as [modifier|e] eqn:Hu.
    2:{ split; [apply nothingWritten_refl|]. discriminate. }
    unfold bind at 1.
    destruct (Reader.getOpportunities w) as [[rows|e] w1] eqn:H;
      pose proof (getCollection_afterReads _ _ _ _ H) as R.
    2:{ split; [exact (afterReads_nothingWritten _ _ R)|].
        apply readable_thrown in H. rewrite H. discriminate. }
    destruct (rowsOf_returned _ _ _ _ H) as [-> _].
    pose proof (afterReads_nothingWritten _ _ R) as Hn.
    destruct (OpportunityService.findByRow rowIndex rows) as [opportunity|] eqn:Hfound.
    2:{ unfold throw. split; [exact Hn|]. intros _ _. reflexivity. }
    unfold bind at 1. rewrite deleteAt_cases.
    pose proof (rowsOf_stableUnderReads "companyList" _ _ R) as Hcl.
    destruct R as (_ & Rs & Rt & Rd & _). rewrite Rd.
    destruct (writerDown w) eqn:Hdown.
    { split; [exact Hn|]. intros _ _. reflexivity. }
    set (w2 := logCall _ _).
    assert (trace w2 = trace w ++ [WDeleteRow "opportunities" rowIndex]) as Ht2
      by (cbn; rewrite Rt; reflexivity).
    assert (rowsOf "companyList" w2 = rowsOf "companyList" w) as Hcl2.
    { rewrite <- Hcl. unfold rowsOf, w2.
      rewrite getCollection_other_sheet by discriminate. reflexivity. }
    change (JS.truthy (JS.get {[ "success" := SBool true ]} "success")) with true.
    cbn [andb].
    destruct (JS.truthy (JS.get opportunity "customerCompany")).
    + unfold bind at 1.
      destruct (logDeletedOpportunity_run this now opportunity modifier w2)
        as (w3 & -> & log & Ht3 & Hlog).
      unfold ret. split; [reflexivity|].
      exists opportunity, log. split; [reflexivity|].
      split; [rewrite Ht3, Ht2, <- app_assoc; reflexivity|].
      rewrite Hcl2 in Hlog. exact Hlog.
    + unfold_monad. split; [reflexivity|].
      exists opportunity, []. split; [reflexivity|]. split; [exact Ht2|left; reflexivity].
Qed.

(** ** The further properties at concrete inputs *)

(** The key of 台積電: with and without 股份有限公司. *)
Lemma company_name_trailing_token_witness :
  CompanyService._normalizeCompanyName (SStr "台積電股份有限公司")
  = CompanyService._normalizeCompanyName (SStr "台積電").
Proof.
  assert (Ht : "股份有限公司" ∈ Regex.suffixTokens) by apply list_elem_of_here.
  assert (Hs : noTokenHead "台積電" = true) by by_computing.
  exact (proj1 (company_name_key_drops_a_trailing_token "台積電" "股份有限公司" Ht Hs)).
Defined.

(** The place of a company after its name, in parentheses. *)
Lemma company_name_trailing_parenthesis_witness :
  OpportunityService._normalizeCompanyName (SStr "ABC Co., Ltd. (Taiwan)")
  = OpportunityService._normalizeCompanyName (SStr "ABC Co., Ltd. ").
Proof.
  assert (Hs : noOpenParen "ABC Co., Ltd. " = true) by by_computing.
  assert (Hp : oneLine (Regex.stripTokens (Str.toLowerCase "Taiwan")) = true) by by_computing.
  exact (proj2 (company_name_key_drops_a_trailing_parenthesis "ABC Co., Ltd. " "Taiwan" Hs Hp)).
Defined.

(** A name with spaces around it and the same name in capitals. *)
Lemma normalizeKey_witness :
  ContactService._normalizeKey (SStr "  Alice ") = ContactService._normalizeKey (SStr "ALICE").
Proof.
  destruct normalizeKey_is_canonical as (_ & Hcase & Hspace & _).
  transitivity (ContactService._normalizeKey (SStr "Alice")).
  - exact (Hspace "  " "Alice" " " eq_refl eq_refl).
  - apply Hcase. reflexivity.
Defined.

(** The cards of Bob, whose date does not parse, and of Carol. *)
Lemma guarded_sorts_witness :
  match fst (ContactService.getPotentialContacts 2000 Fixture.cards) with
  | Returned rows => invalidDatesLast (dateParse Fixture.cards) "createdTime" rows
  | Thrown _ => False
  end.
Proof.
  assert (Hret : returned (fst (ContactService.getPotentialContacts 2000 Fixture.cards)) = true)
    by by_computing.
  destruct (ContactService.getPotentialContacts 2000 Fixture.cards) as [[rows|e] w'] eqn:H;
    [|discriminate Hret].
  destruct guarded_sorts_order_invalid_dates_last as [Hsort _].
  cbn [fst]. exact (Hsort _ _ _ _ H).
Defined.

(** A search after the opportunities were read: they stay in the cache. *)
Lemma searchInteractions_keeps_cache_witness :
  cache (snd (InteractionService.searchInteractions
                {| InteractionService.readerConfig := None |} "visit" 1 false Scenario.warmCrm))
    !! "opportunities" = Some [Fixture.deal] /\
  trace (snd (InteractionService.searchInteractions
                {| InteractionService.readerConfig := None |} "visit" 1 false Scenario.warmCrm))
    = [].
Proof.
  assert (Hc : cache Scenario.warmCrm !! "opportunities" = Some [Fixture.deal]) by by_computing.
  assert (Ht : trace Scenario.warmCrm = []) by by_computing.
  destruct (InteractionService.searchInteractions
              {| InteractionService.readerConfig := None |} "visit" 1 false Scenario.warmCrm)
    as [o w'] eqn:H.
  destruct (searchInteractions_keeps_cache _ _ _ _ _ _ _ H) as (Hkeep & _ & Htrace).
  cbn [snd]. split; [exact (Hkeep _ _ Hc)|]. rewrite Htrace. exact Ht.
Defined.

(** One row of the table, mapped by the reader and again by the service. *)
Lemma mapping_twice_witness :
  WeeklyBusinessService.getEntriesForWeek Fixture.weekHelpers "2026-W04" Scenario.mappedRepo
    = (Returned [], Scenario.mappedRepo) /\
  length (valueOr [] (fst (WeeklyBusinessService.getEntriesForWeek Fixture.weekHelpers "2026-W04"
                             Scenario.rawRepo))) = 1%nat.
Proof.
  split; [|by_computing].
  exact (proj2 (mapping_twice_loses_the_entries Fixture.weekHelpers "2026-W04"
                  Scenario.mappedRepo
                  (Returned {| WeeklyBusinessSqlReader.data := Some [Scenario.sqlRow];
                               WeeklyBusinessSqlReader.error := None |})
                  _ eq_refl eq_refl)).
Defined.

(** The cards of the desk: three cards, of which two are counted. *)
Lemma dashboard_witness :
  exists s,
    fst (ContactService.getDashboardStats Scenario.desk) = Returned s /\
    ContactService.total s = 3 /\
    ContactService.pending s + ContactService.processed s + ContactService.dropped s = 2.
Proof.
  assert (Hs : fst (ContactService.getDashboardStats Scenario.desk)
               = Returned {| ContactService.total := 3; ContactService.pending := 1;
                             ContactService.processed := 1; ContactService.dropped := 0 |})
    by by_computing.
  destruct (dashboard_counters_partition_the_cards Scenario.desk) as (s & w' & E & _).
  rewrite E in Hs. cbn [fst] in Hs. injection Hs as ->.
  eexists. rewrite E. cbn [fst]. split; [reflexivity|]. split; reflexivity.
Defined.

(** The first of the two cards, Carol's, being the one with a date. *)
Lemma potential_contacts_witness :
  exists rows,
    fst (ContactService.getPotentialContacts 1 Fixture.cards) = Returned rows /\
    Z.of_nat (length rows) <= 1 /\ Forall (fun c => named c = true) rows.
Proof.
  assert (Hread : returned (fst (Reader.getContacts Fixture.cards)) = true) by by_computing.
  pose proof (potential_contacts_are_named_and_limited 1 Fixture.cards) as H.
  destruct (Reader.getContacts Fixture.cards) as [[all|e] w1]; [|discriminate Hread].
  destruct H as (rows & E & Hnamed & _ & Hlimit & _).
  exists rows. rewrite E. cbn [fst]. split; [reflexivity|]. split; [apply Hlimit; lia|exact Hnamed].
Defined.

(** A search for [CAR] among the cards finds Carol. *)
Lemma search_contacts_witness :
  match fst (ContactService.searchContacts "CAR" Fixture.cards) with
  | Returned found => ContactService.data found = [Fixture.cardWithDate]
  | Thrown _ => False
  end.
Proof.
  assert (Hret : returned (fst (ContactService.searchContacts "CAR" Fixture.cards)) = true)
    by by_computing.
  assert (Hall : fst (ContactService.getPotentialContacts 9999 Fixture.cards)
                 = Returned [Fixture.cardWithDate; Fixture.cardWithoutDate]) by by_computing.
  assert (Hsel : List.filter (fun c => mentions "CAR" (JS.get c "name")
                                       || mentions "CAR" (JS.get c "company"))
                             [Fixture.cardWithDate; Fixture.cardWithoutDate]
                 = [Fixture.cardWithDate]) by by_computing.
  pose proof (search_contacts_selects_the_matching_cards "CAR" Fixture.cards) as H.
  destruct (ContactService.getPotentialContacts 9999 Fixture.cards) as [[contacts|e] w1];
    [|discriminate Hall].
  cbn [fst] in Hall. injection Hall as ->. destruct H as [_ H].
  destruct (ContactService.searchContacts "CAR" Fixture.cards) as [[found|e] w'];
    [|discriminate Hret].
  cbn [fst]. destruct (H found w' ltac:(discriminate) eq_refl) as [_ ->]. exact Hsel.
Defined.

(** The federated reader is down and Alice is looked for by her identifier:
    the search is one by name, and finds nobody. *)
Lemma contact_by_id_witness :
  exists r,
    fst (ContactService.getContactById (ContactService.constructor None)
           (Thrown "connect ECONNREFUSED") "C1" Fixture.sqlDown) = Returned r /\
    r = None /\
    fst (Reader.getContactList Fixture.sqlDown) = Returned [Fixture.alice].
Proof.
  assert (Hnone : fst (ContactService.getContactById (ContactService.constructor None)
                         (Thrown "connect ECONNREFUSED") "C1" Fixture.sqlDown) = Returned None)
    by by_computing.
  destruct (contact_by_id_never_rejects (ContactService.constructor None)
              (Thrown "connect ECONNREFUSED") "C1" Fixture.sqlDown) as (r & w' & E & _).
  exists r. rewrite E in Hnone |- *. cbn [fst] in Hnone |- *. injection Hnone as ->.
  split; [reflexivity|]. split; [reflexivity|by_computing].
Defined.

(** Alice is linked to the opportunity of the example. *)
Lemma linked_contacts_witness :
  exists rows,
    fst (ContactService.getLinkedContacts (SStr "O1") Fixture.crm) = Returned rows /\
    Forall2 (linkedCard [Fixture.acme] []) [Fixture.aliceCto] rows.
Proof.
  assert (Hread : (readable "oppContactLinks" Fixture.crm
                   && (readable "contactList" Fixture.crm
                       && (readable "companyList" Fixture.crm
                           && readable "contacts" Fixture.crm)))%bool = true) by by_computing.
  assert (Hsel : List.filter (fun c => existsb (linksTo (SStr "O1") c)
                                               (rowsOf "oppContactLinks" Fixture.crm))
                             (rowsOf "contactList" Fixture.crm) = [Fixture.aliceCto])
    by by_computing.
  assert (Hcomp : rowsOf "companyList" Fixture.crm = [Fixture.acme]) by by_computing.
  assert (Hcards : rowsOf "contacts" Fixture.crm = []) by by_computing.
  destruct (linked_contacts_follow_the_active_links (SStr "O1") Fixture.crm)
    as (rows & w' & E & _ & H).
  rewrite Hread, Hsel, Hcomp, Hcards in H.
  exists rows. rewrite E. split; [reflexivity|exact H].
Defined.

(** An update of a contact that is not there. *)
Lemma contact_updates_witness :
  fst (ContactService.updateContact (SStr "C9") {[ "name" := SStr "Zed" ]} SNull Fixture.sqlDown)
    = Thrown "Contact ID not found: C9" /\
  nothingWritten Fixture.sqlDown
    (snd (ContactService.updateContact (SStr "C9") {[ "name" := SStr "Zed" ]} SNull
            Fixture.sqlDown)).
Proof.
  assert (Hret : returned (fst (ContactService.updateContact (SStr "C9")
                   {[ "name" := SStr "Zed" ]} SNull Fixture.sqlDown)) = false) by by_computing.
  assert (Hread : readable "contactList" Fixture.sqlDown = true) by by_computing.
  assert (Hfind : JS.find (fun c => JS.strictEq (JS.get c "contactId") (SStr "C9"))
                          (rowsOf "contactList" Fixture.sqlDown) = None) by by_computing.
  destruct contact_updates_are_all_or_nothing as [H _].
  specialize (H (SStr "C9") {[ "name" := SStr "Zed" ]} SNull Fixture.sqlDown).
  cbv zeta in H. rewrite Hfind in H.
  destruct (ContactService.updateContact (SStr "C9") {[ "name" := SStr "Zed" ]} SNull
              Fixture.sqlDown) as [[res|e] w']; [discriminate Hret|].
  destruct H as [Hn He]. cbn [fst snd]. rewrite (He Hread). split; [reflexivity|exact Hn].
Defined.

(** The visit of the example is the one interaction of its opportunity. *)
Lemma interactions_by_owner_witness :
  exists rows,
    fst (InteractionService.getInteractionsByOpportunity
           {| InteractionService.readerConfig := None |} (SStr "O1") Fixture.crm)
      = Returned rows /\
    rows ≡ₚ [withContext [Fixture.deal] [Fixture.acme] Fixture.visit].
Proof.
  assert (Hread : (readable "interactions" Fixture.crm
                   && (readable "opportunities" Fixture.crm
                       && readable "companyList" Fixture.crm))%bool = true) by by_computing.
  assert (Hsel : List.filter (fun i => JS.strictEq (JS.get i "opportunityId") (SStr "O1"))
                             (rowsOf "interactions" Fixture.crm) = [Fixture.visit])
    by by_computing.
  assert (Hopp : rowsOf "opportunities" Fixture.crm = [Fixture.deal]) by by_computing.
  assert (Hcomp : rowsOf "companyList" Fixture.crm = [Fixture.acme]) by by_computing.
  destruct (interactions_by_owner_are_complete {| InteractionService.readerConfig := None |}
              (SStr "O1") Fixture.crm) as [(rows & w' & E & _ & H) _].
  rewrite Hread, Hsel, Hopp, Hcomp in H. destruct H as [H _].
  exists rows. rewrite E. split; [reflexivity|exact H].
Defined.

(** Acme cannot be deleted while the deal of the example refers to it. *)
Lemma delete_company_witness :
  fst (CompanyService.deleteCompany (SStr "Acme") (UserValue (SStr "amy")) Fixture.crm)
    = Thrown (stillReferred [Fixture.deal]) /\
  nothingWritten Fixture.crm
    (snd (CompanyService.deleteCompany (SStr "Acme") (UserValue (SStr "amy")) Fixture.crm)).
Proof.
  assert (Hret : returned (fst (CompanyService.deleteCompany (SStr "Acme")
                   (UserValue (SStr "amy")) Fixture.crm)) = false) by by_computing.
  assert (Hread : readable "opportunities" Fixture.crm = true) by by_computing.
  assert (Hopps : rowsOf "opportunities" Fixture.crm = [Fixture.deal]) by by_computing.
  assert (Hrel : List.filter (fun o => sameKey (JS.get o "customerCompany") (SStr "Acme"))
                             [Fixture.deal] = [Fixture.deal]) by by_computing.
  assert (Husable : usableName (JS.get Fixture.deal "customerCompany") = true) by by_computing.
  pose proof (delete_company_is_refused_while_referred (SStr "Acme") (UserValue (SStr "amy"))
                Fixture.crm) as H.
  cbv zeta in H. rewrite Hopps, Hrel in H.
  destruct (CompanyService.deleteCompany (SStr "Acme") (UserValue (SStr "amy")) Fixture.crm)
    as [[res|e] w']; [discriminate Hret|].
  destruct H as [Hn He]. cbn [fst snd]. split; [|exact Hn].
  rewrite (He Hread eq_refl); [reflexivity| |discriminate].
  constructor; [exact Husable|constructor].
Defined.

(** The details of Acme, asked for in capitals. *)
Lemma company_details_witness :
  exists d,
    fst (CompanyService.getCompanyDetails (SStr "ACME") Fixture.crm) = Returned d /\
    CompanyService.companyInfo d = Some Fixture.acme /\
    CompanyService.contacts d = [Fixture.aliceCto] /\
    CompanyService.opportunities d = [Fixture.deal] /\
    CompanyService.interactions d ≡ₚ [Fixture.visit].
Proof.
  assert (Hret : returned (fst (CompanyService.getCompanyDetails (SStr "ACME") Fixture.crm))
                 = true) by by_computing.
  assert (Hinfo : JS.find (fun c => sameKey (JS.get c "companyName") (SStr "ACME"))
                          (rowsOf "companyList" Fixture.crm) = Some Fixture.acme)
    by by_computing.
  assert (Hcontacts : List.filter (fun c => JS.strictEq (JS.get c "companyId")
                                                         (JS.get Fixture.acme "companyId"))
                                  (rowsOf "contactList" Fixture.crm) = [Fixture.aliceCto])
    by by_computing.
  assert (Hopps : List.filter (fun o => sameKey (JS.get o "customerCompany") (SStr "ACME"))
                              (rowsOf "opportunities" Fixture.crm) = [Fixture.deal])
    by by_computing.
  assert (Hints : List.filter (ofCompany (JS.get Fixture.acme "companyId") [Fixture.deal])
                              (rowsOf "interactions" Fixture.crm) = [Fixture.visit])
    by by_computing.
  pose proof (company_details_collect_the_rows_of_the_company (SStr "ACME") Fixture.crm) as H.
  destruct (CompanyService.getCompanyDetails (SStr "ACME") Fixture.crm) as [[d|e] w'];
    [|discriminate Hret].
  destruct H as (_ & Hfound & H). rewrite Hinfo in Hfound. rewrite Hfound in H.
  destruct H as (Hc & Ho & _ & Hi & _). rewrite Ho, Hopps in Hi.
  exists d. cbn [fst]. split; [reflexivity|]. split; [exact Hfound|].
  split; [rewrite Hc; exact Hcontacts|]. split; [rewrite Ho; exact Hopps|].
  rewrite Hi, Hints. reflexivity.
Defined.

(** A company created with a name in its data: this name is written. *)
Lemma create_company_write_witness :
  exists dataToWrite,
    trace (snd (CompanyService.createCompany (SStr "Beta") {[ "companyName" := SStr "Gamma" ]}
                  (UserValue (SStr "amy")) Fixture.crm))
      = [WCreate "companyList" dataToWrite; RInvalidate "companyList"] /\
    dataToWrite !! "companyName" = Some (SStr "Gamma").
Proof.
  assert (Hret : match fst (CompanyService.createCompany (SStr "Beta")
                              {[ "companyName" := SStr "Gamma" ]} (UserValue (SStr "amy"))
                              Fixture.crm) with
                 | Returned (CompanyService.Written _) => true
                 | _ => false
                 end = true) by by_computing.
  assert (Hdata : ({[ "companyName" := SStr "Gamma" ]} : record) !! "companyName"
                  = Some (SStr "Gamma")) by by_computing.
  pose proof (create_company_writes_the_data_over_the_name (SStr "Beta")
                {[ "companyName" := SStr "Gamma" ]} (UserValue (SStr "amy")) Fixture.crm) as H.
  destruct (CompanyService.createCompany (SStr "Beta") {[ "companyName" := SStr "Gamma" ]}
              (UserValue (SStr "amy")) Fixture.crm) as [[[]|e] w'];
    cbn [fst] in Hret; try discriminate Hret.
  destruct H as (dataToWrite & Ht & _ & Hover & _).
  exists dataToWrite. cbn [snd]. split; [exact Ht|]. exact (Hover _ _ Hdata).
Defined.

(** An update of the second entry of the week: one call, on its row. *)
Lemma weekly_writes_witness :
  trace (snd (WeeklyBusinessService.updateWeeklyBusinessEntry (SStr "W2")
                {[ "topic" := SStr "Acme" ]} Fixture.weekly))
    = [WUpdateRow "weeklyBusiness" (SNum 3) {[ "topic" := SStr "Acme" ]}] /\
  fst (WeeklyBusinessService.deleteWeeklyBusinessEntry (SStr "W9") Fixture.weekly)
    = Thrown "找不到紀錄 ID: W9".
Proof.
  assert (Hret : returned (fst (WeeklyBusinessService.updateWeeklyBusinessEntry (SStr "W2")
                   {[ "topic" := SStr "Acme" ]} Fixture.weekly)) = true) by by_computing.
  assert (Hfind : JS.find (fun r => JS.strictEq (JS.get r "recordId") (SStr "W2"))
                          (rowsOf "weeklyBusiness" Fixture.weekly) = Some Fixture.entryWithDate)
    by by_computing.
  assert (Hrow : JS.get Fixture.entryWithDate "rowIndex" = SNum 3) by by_computing.
  assert (Hret' : returned (fst (WeeklyBusinessService.deleteWeeklyBusinessEntry (SStr "W9")
                    Fixture.weekly)) = false) by by_computing.
  assert (Hread : readable "weeklyBusiness" Fixture.weekly = true) by by_computing.
  assert (Hnone : JS.find (fun r => JS.strictEq (JS.get r "recordId") (SStr "W9"))
                          (rowsOf "weeklyBusiness" Fixture.weekly) = None) by by_computing.
  destruct weekly_writes_address_the_row_of_the_sheet as [Hupdate Hdelete]. split.
  - specialize (Hupdate (SStr "W2") {[ "topic" := SStr "Acme" ]} Fixture.weekly).
    cbv zeta in Hupdate. rewrite Hfind in Hupdate.
    destruct (WeeklyBusinessService.updateWeeklyBusinessEntry (SStr "W2")
                {[ "topic" := SStr "Acme" ]} Fixture.weekly) as [[res|e] w'];
      [|discriminate Hret].
    destruct Hupdate as (_ & target & [= <-] & Ht). cbn [snd]. rewrite Ht, Hrow. reflexivity.
  - specialize (Hdelete (SStr "W9") Fixture.weekly). cbv zeta in Hdelete.
    rewrite Hnone in Hdelete.
    destruct (WeeklyBusinessService.deleteWeeklyBusinessEntry (SStr "W9") Fixture.weekly)
      as [[res|e] w']; [discriminate Hret'|].
    destruct Hdelete as [_ He]. cbn [fst]. rewrite (He Hread). reflexivity.
Defined.

(** The week of 2026-01-19, with its two entries. *)
Lemma week_entries_witness :
  exists entries,
    fst (WeeklyBusinessService.getEntriesForWeek Fixture.weekHelpers "2026-W04" Fixture.weekly)
      = Returned entries /\
    length entries = 2%nat /\
    Forall (weekEntryOk "2026-01-19" "2026-01-25") entries.
Proof.
  assert (Hlen : length (valueOr [] (fst (WeeklyBusinessService.getEntriesForWeek
                                            Fixture.weekHelpers "2026-W04" Fixture.weekly)))
                 = 2%nat) by by_computing.
  destruct (week_entries_are_dated_within_the_week Fixture.weekHelpers "2026-W04" Fixture.weekly)
    as (entries & w' & E & _ & H).
  rewrite E in Hlen. cbn [fst valueOr] in Hlen.
  exists entries. rewrite E. split; [reflexivity|]. split; [exact Hlen|exact H].
Defined.

(** The same row through the two mappers. *)
Lemma weekly_mappers_witness :
  JS.itemGet (WeeklyBusinessService._toServiceDTO Scenario.sqlRow) "日期" = SStr "2026-01-20" /\
  JS.itemGet (WeeklyBusinessSqlReader._mapRowToDto Scenario.sqlRow) "日期" = SStr "2026-01-20".
Proof.
  destruct (weekly_mappers_agree Scenario.sqlRow) as (_ & _ & H).
  split; [rewrite (H "日期") by discriminate|]; by_computing.
Defined.

(** The opportunities created on the 20th of January 2026, among three. *)
Lemma date_range_witness :
  exists rows,
    fst (OpportunityService.getOpportunitiesByDateRange (Some 1768867200000)
           (Some 1768867200000) "createdTime" Scenario.pipeline) = Returned rows /\
    Scenario.early ∈ rows /\ ~ Scenario.late ∈ rows /\ ~ Scenario.undated ∈ rows.
Proof.
  assert (Hin : Scenario.early ∈ rowsOf "opportunities" Scenario.pipeline).
  { assert (E : rowsOf "opportunities" Scenario.pipeline
                = [Scenario.early; Scenario.undated; Scenario.late]) by by_computing.
    rewrite E. apply list_elem_of_here. }
  assert (Hearly : datedAt (dateParse Scenario.pipeline) "createdTime" Scenario.early
                     1768867200000) by (split; by_computing).
  assert (Hlate : JS.dateTime (dateParse Scenario.pipeline) (JS.get Scenario.late "createdTime")
                  = Some 1768953600000) by by_computing.
  assert (Hundated : JS.dateTime (dateParse Scenario.pipeline)
                       (JS.get Scenario.undated "createdTime") = None) by by_computing.
  destruct (opportunities_by_date_range_are_within_the_bounds (Some 1768867200000)
              (Some 1768867200000) "createdTime" Scenario.pipeline)
    as (rows & w' & E & _ & _ & H).
  exists rows. rewrite E. split; [reflexivity|]. split; [|split].
  - apply H. split; [exact Hin|]. eexists _, _, _. split; [reflexivity|].
    split; [reflexivity|]. split; [exact Hearly|lia].
  - intros Hr. apply H in Hr as (_ & s & e & t & [= <-] & [= <-] & [_ Ht] & Hb).
    rewrite Hlate in Ht. injection Ht as <-. lia.
  - intros Hr. apply H in Hr as (_ & s & e & t & _ & _ & [_ Ht] & _).
    rewrite Hundated in Ht. discriminate Ht.
Defined.

(** The details of the deal of the example, and of an opportunity that is
    not there. *)
Lemma opportunity_details_witness :
  (exists d title,
     fst (OpportunityService.getOpportunityDetails (SStr "O1") Fixture.crm) = Returned d /\
     OpportunityService.opportunityInfo d = <[ "mainContactJobTitle" := title ]> Fixture.deal /\
     OpportunityService.interactions d ≡ₚ [Fixture.visit]) /\
  fst (OpportunityService.getOpportunityDetails (SStr "O9") Fixture.crm)
    = Thrown "找不到機會ID為 O9 的案件".
Proof.
  assert (Hret : returned (fst (OpportunityService.getOpportunityDetails (SStr "O1")
                   Fixture.crm)) = true) by by_computing.
  assert (Hfound : JS.find (fun opp => JS.strictEq (JS.get opp "opportunityId") (SStr "O1"))
                           (rowsOf "opportunities" Fixture.crm) = Some Fixture.deal)
    by by_computing.
  assert (Hints : List.filter (fun i => JS.strictEq (JS.get i "opportunityId") (SStr "O1"))
                              (rowsOf "interactions" Fixture.crm) = [Fixture.visit])
    by by_computing.
  assert (Hret' : returned (fst (OpportunityService.getOpportunityDetails (SStr "O9")
                    Fixture.crm)) = false) by by_computing.
  assert (Hnone : JS.find (fun opp => JS.strictEq (JS.get opp "opportunityId") (SStr "O9"))
                          (rowsOf "opportunities" Fixture.crm) = None) by by_computing.
  assert (Hread : (readable "opportunities" Fixture.crm
                   && (readable "interactions" Fixture.crm
                       && (readable "eventLogs" Fixture.crm
                           && (readable "oppContactLinks" Fixture.crm
                               && (readable "contactList" Fixture.crm
                                   && readable "contacts" Fixture.crm)))))%bool = true)
    by by_computing.
  split.
  - pose proof (opportunity_details_collect_the_rows_of_the_opportunity (SStr "O1")
                  Fixture.crm) as H.
    cbv zeta in H. rewrite Hfound in H.
    destruct (OpportunityService.getOpportunityDetails (SStr "O1") Fixture.crm)
      as [[d|e] w']; [|discriminate Hret].
    destruct H as (_ & info & title & [= <-] & Hinfo & Hi & _).
    exists d, title. cbn [fst]. split; [reflexivity|]. split; [exact Hinfo|].
    rewrite Hi, Hints. reflexivity.
  - pose proof (opportunity_details_collect_the_rows_of_the_opportunity (SStr "O9")
                  Fixture.crm) as H.
    cbv zeta in H. rewrite Hnone in H.
    destruct (OpportunityService.getOpportunityDetails (SStr "O9") Fixture.crm)
      as [[d|e] w']; [discriminate Hret'|].
    destruct H as [_ He]. cbn [fst]. rewrite (He Hread eq_refl). reflexivity.
Defined.

(** The company list of the office: Acme, met on 21 January, comes before
    Beta, created on 20 January. *)
Lemma company_list_witness :
  exists kept,
    fst (CompanyService.getCompanyListWithActivity Scenario.isoOf ∅ Scenario.office)
    = Returned (map (fun c =>
                       listedWith Scenario.isoOf
                         (lastActivityOf (dateParse Scenario.office)
                            (rowsOf "interactions" Scenario.office)
                            (rowsOf "eventLogs" Scenario.office) c) c) kept) /\
    kept ≡ₚ [Scenario.beta; Fixture.acme] /\
    descending (lastActivityOf (dateParse Scenario.office)
                  (rowsOf "interactions" Scenario.office)
                  (rowsOf "eventLogs" Scenario.office)) kept.
Proof.
  assert (Hret : returned (fst (CompanyService.getCompanyListWithActivity Scenario.isoOf ∅
                                  Scenario.office)) = true) by by_computing.
  assert (Hread : (readable "interactions" Scenario.office
                   && readable "eventLogs" Scenario.office)%bool = true) by by_computing.
  assert (Hq : usableName (JS.get (∅ : record) "q") = true) by by_computing.
  assert (Hrows : rowsOf "companyList" Scenario.office = [Scenario.beta; Fixture.acme])
    by by_computing.
  assert (Hs : Forall (fun c => searchable c = true) (rowsOf "companyList" Scenario.office)).
  { rewrite Hrows. repeat constructor. }
  assert (Hpass : List.filter (passes ∅) [Scenario.beta; Fixture.acme]
                  = [Scenario.beta; Fixture.acme]) by by_computing.
  pose proof (company_list_is_ordered_by_last_activity Scenario.isoOf ∅ Scenario.office) as H.
  cbv zeta in H.
  destruct (CompanyService.getCompanyListWithActivity Scenario.isoOf ∅ Scenario.office)
    as [[rows|e] w']; [|discriminate Hret].
  destruct H as (_ & _ & _ & H). destruct (H Hread Hq Hs) as (kept & Hperm & Hsorted & ->).
  exists kept. cbn [fst]. split; [reflexivity|]. split; [|exact Hsorted].
  rewrite Hperm, Hrows, Hpass. reflexivity.
Defined.

(** Ann updates Acme, asked for in capitals: the row of Acme is written, a
    record is left with the company, and the list is invalidated.  A company
    that is not there is not updated. *)
Lemma update_company_witness :
  (exists r,
     trace (snd (CompanyService.updateCompany
                   {| CompanyService.interactionWriterDown := Some false |}
                   "2026-01-30T08:00:00.000Z" (SStr "ACME")
                   {[ "phone" := SStr "02-1234" ]} Scenario.ann Fixture.crm))
     = [WUpdateRow "companyList" (SNum 2) {[ "phone" := SStr "02-1234" ]};
        WCreate "interactions" r; RInvalidate "companyList"] /\
     JS.get r "companyId" = SStr "COM1") /\
  fst (CompanyService.updateCompany {| CompanyService.interactionWriterDown := None |}
         "2026-01-30T08:00:00.000Z" (SStr "Nobody") ∅ Scenario.ann Fixture.crm)
  = Thrown "找不到公司: Nobody".
Proof.
  split.
  - assert (Hret : returned (fst (CompanyService.updateCompany
                     {| CompanyService.interactionWriterDown := Some false |}
                     "2026-01-30T08:00:00.000Z" (SStr "ACME")
                     {[ "phone" := SStr "02-1234" ]} Scenario.ann Fixture.crm)) = true)
      by by_computing.
    assert (Hfound : JS.find (fun c => sameKey (JS.get c "companyName") (SStr "ACME"))
                             (rowsOf "companyList" Fixture.crm) = Some Fixture.acme)
      by by_computing.
    assert (Hrow : JS.get Fixture.acme "rowIndex" = SNum 2) by by_computing.
    assert (Hid : JS.get Fixture.acme "companyId" = SStr "COM1") by by_computing.
    assert (Htrace : trace Fixture.crm = []) by reflexivity.
    pose proof (update_company_writes_the_row_it_found
                  {| CompanyService.interactionWriterDown := Some false |}
                  "2026-01-30T08:00:00.000Z" (SStr "ACME")
                  {[ "phone" := SStr "02-1234" ]} Scenario.ann Fixture.crm) as H.
    cbv zeta in H. rewrite Hfound in H.
    destruct (CompanyService.updateCompany _ _ _ _ _ Fixture.crm) as [[res|e] w'];
      [|discriminate Hret].
    destruct H as (_ & info & log & [= <-] & _ & Ht & _ & Hlog).
    cbn [CompanyService.interactionWriterDown] in Hlog.
    destruct Hlog as (r & -> & Hc & _). exists r. cbn [snd].
    rewrite Ht, Htrace, Hrow. split; [reflexivity|]. rewrite Hc. exact Hid.
  - assert (Hret : returned (fst (CompanyService.updateCompany
                     {| CompanyService.interactionWriterDown := None |}
                     "2026-01-30T08:00:00.000Z" (SStr "Nobody") ∅ Scenario.ann Fixture.crm))
                   = false) by by_computing.
    assert (Hfound : JS.find (fun c => sameKey (JS.get c "companyName") (SStr "Nobody"))
                             (rowsOf "companyList" Fixture.crm) = None) by by_computing.
    assert (Hread : (readable "companyList" Fixture.crm
                     && (readable "contactList" Fixture.crm
                         && (readable "opportunities" Fixture.crm
                             && (readable "interactions" Fixture.crm
                                 && (readable "eventLogs" Fixture.crm
                                     && readable "contacts" Fixture.crm)))))%bool = true)
      by by_computing.
    assert (Hrows : rowsOf "companyList" Fixture.crm = [Fixture.acme]) by by_computing.
    pose proof (update_company_writes_the_row_it_found
                  {| CompanyService.interactionWriterDown := None |}
                  "2026-01-30T08:00:00.000Z" (SStr "Nobody") ∅ Scenario.ann Fixture.crm) as H.
    cbv zeta in H.
    destruct (CompanyService.updateCompany _ _ _ _ _ Fixture.crm) as [[res|e] w'];
      [discriminate Hret|].
    destruct H as (_ & H). cbn [fst]. f_equal. apply H.
    + reflexivity.
    + exact Hread.
    + reflexivity.
    + rewrite Hrows. repeat constructor.
    + exact Hfound.
Defined.

(** Ann moves the deal from the stage S1 to the stage S2: the change is
    recorded under the names of the stages. *)
Lemma opportunity_update_log_witness :
  exists r summary,
    trace (snd (OpportunityService.updateOpportunity
                  {| OpportunityService.interactionWriterDown := false |}
                  "2026-01-30T08:00:00.000Z" (SStr "2")
                  {[ "currentStage" := SStr "S2" ]} Scenario.ann Fixture.crm))
    = [WUpdateRow "opportunities" (SStr "2") {[ "currentStage" := SStr "S2" ]};
       WCreate "interactions" r] /\
    JS.get r "contentSummary" = SStr summary /\
    Str.startsWith "階段從【Lead】更新為【Proposal】" summary = true.
Proof.
  assert (Hret : returned (fst (OpportunityService.updateOpportunity
                   {| OpportunityService.interactionWriterDown := false |}
                   "2026-01-30T08:00:00.000Z" (SStr "2")
                   {[ "currentStage" := SStr "S2" ]} Scenario.ann Fixture.crm)) = true)
    by by_computing.
  assert (Hfound : OpportunityService.findByRow (SStr "2") (rowsOf "opportunities" Fixture.crm)
                   = Some Fixture.deal) by by_computing.
  assert (Htracked : tracked Fixture.deal {[ "currentStage" := SStr "S2" ]} = true)
    by by_computing.
  assert (Hmoves : movesStage Fixture.deal {[ "currentStage" := SStr "S2" ]} = true)
    by by_computing.
  assert (Hold : JS.get Fixture.deal "currentStage" = SStr "S1") by by_computing.
  assert (Hnew : JS.get ({[ "currentStage" := SStr "S2" ]} : record) "currentStage"
                 = SStr "S2") by by_computing.
  assert (Hstages : default [] (Fixture.stagesConfig !! "機會階段")
                    = [ Fixture.row [("value", SStr "S1"); ("note", SStr "Lead")];
                        Fixture.row [("value", SStr "S2"); ("note", SStr "Proposal")];
                        Fixture.row [("value", SStr "Closed")] ]) by by_computing.
  pose proof (opportunity_update_logs_the_tracked_changes
                {| OpportunityService.interactionWriterDown := false |}
                "2026-01-30T08:00:00.000Z" (SStr "2")
                {[ "currentStage" := SStr "S2" ]} Scenario.ann Fixture.crm) as H.
  rewrite Hfound in H.
  destruct (OpportunityService.updateOpportunity _ _ _ _ _ Fixture.crm) as [[res|e] w'];
    [|discriminate Hret].
  destruct H as (original & config & modifier & [= <-] & [= <-] & _ & H).
  rewrite Htracked in H. cbn [OpportunityService.interactionWriterDown negb andb] in H.
  destruct H as (r & summary & Ht & (_ & _ & _ & _ & _ & Hs) & Hstage).
  exists r, summary. cbn [snd]. split; [exact Ht|]. split; [exact Hs|].
  apply (Hstage Hmoves "Lead" "Proposal"); rewrite Hstages.
  - rewrite Hold. left. exists (SStr "Lead"). split; [|reflexivity].
    apply rowMap_resolves. by_computing.
  - rewrite Hnew. left. exists (SStr "Proposal"). split; [|reflexivity].
    apply rowMap_resolves. by_computing.
Defined.

(** The update of the deal is one writer call, on the row as it was given,
    followed by records of the change only; and a row that is not there is
    not deleted. *)
Lemma opportunity_writes_witness :
  (exists log,
     trace (snd (OpportunityService.updateOpportunity
                   {| OpportunityService.interactionWriterDown := false |}
                   "2026-01-30T08:00:00.000Z" (SStr "2")
                   {[ "currentStage" := SStr "S2" ]} Scenario.ann Fixture.crm))
     = WUpdateRow "opportunities" (SStr "2") {[ "currentStage" := SStr "S2" ]} :: log /\
     onlyLogs log) /\
  fst (OpportunityService.deleteOpportunity
         {| OpportunityService.interactionWriterDown := false |}
         "2026-01-30T08:00:00.000Z" (SStr "9") Scenario.ann Fixture.crm)
  = Thrown "找不到要刪除的機會 (Row: 9)".
Proof.
  destruct opportunity_writes_are_all_or_nothing as [Hupdate Hdelete]. split.
  - assert (Hret : returned (fst (OpportunityService.updateOpportunity
                     {| OpportunityService.interactionWriterDown := false |}
                     "2026-01-30T08:00:00.000Z" (SStr "2")
                     {[ "currentStage" := SStr "S2" ]} Scenario.ann Fixture.crm)) = true)
      by by_computing.
    assert (Htrace : trace Fixture.crm = []) by by_computing.
    pose proof (Hupdate {| OpportunityService.interactionWriterDown := false |}
                  "2026-01-30T08:00:00.000Z" (SStr "2")
                  {[ "currentStage" := SStr "S2" ]} Scenario.ann Fixture.crm) as H.
    cbv zeta in H.
    destruct (OpportunityService.updateOpportunity _ _ _ _ _ Fixture.crm) as [[res|e] w'];
      [|discriminate Hret].
    destruct H as (_ & _ & log & Ht & Hlog). cbn [snd]. exists log.
    rewrite Ht, Htrace. split; [reflexivity|exact Hlog].
  - assert (Hret : returned (fst (OpportunityService.deleteOpportunity
                     {| OpportunityService.interactionWriterDown := false |}
                     "2026-01-30T08:00:00.000Z" (SStr "9") Scenario.ann Fixture.crm)) = false)
      by by_computing.
    assert (Hfound : OpportunityService.findByRow (SStr "9")
                       (rowsOf "opportunities" Fixture.crm) = None) by by_computing.
    assert (Hread : readable "opportunities" Fixture.crm = true) by by_computing.
    pose proof (Hdelete {| OpportunityService.interactionWriterDown := false |}
                  "2026-01-30T08:00:00.000Z" (SStr "9") Scenario.ann Fixture.crm) as H.
    cbv zeta in H. rewrite Hfound in H.
    destruct (OpportunityService.deleteOpportunity _ _ _ _ Fixture.crm) as [[res|e] w'];
      [discriminate Hret|].
    destruct H as (_ & H). cbn [fst]. f_equal. apply H; [reflexivity|exact Hread].
Defined.

(** The journal has two entries of the fourth week, one of them with a
    summary: the week is listed with one summary. *)
Lemma weekly_summary_list_witness :
  exists weeks r,
    fst (WeeklyBusinessService.getWeeklyBusinessSummaryList Scenario.helpers Scenario.journal)
    = Returned weeks /\
    r ∈ weeks /\ WeeklyBusinessService.id r = "2026-W04" /\
    WeeklyBusinessService.summaryCount r = 1.
Proof.
  assert (Hret : returned (fst (WeeklyBusinessService.getWeeklyBusinessSummaryList
                                  Scenario.helpers Scenario.journal)) = true) by by_computing.
  assert (Hfetch : fst (WeeklyBusinessService._fetchWeeklyEntries false Scenario.journal)
                   = Returned [IRec Scenario.metAlice; IRec Scenario.blank; IRec Scenario.plan])
    by by_computing.
  assert (Hweek : weekOf (IRec Scenario.metAlice) = Some "2026-W04") by by_computing.
  assert (Hcount : summariesOf "2026-W04"
                     [IRec Scenario.metAlice; IRec Scenario.blank; IRec Scenario.plan] = 1)
    by by_computing.
  pose proof (weekly_summary_list_counts_the_summaries Scenario.helpers Scenario.journal) as H.
  destruct (WeeklyBusinessService.getWeeklyBusinessSummaryList Scenario.helpers Scenario.journal)
    as [[weeks|e] w']; [|discriminate Hret].
  destruct H as (_ & entries & currentTitle & currentRange & Hentries & _ & _ & Hall & Hrows & _).
  rewrite Hfetch in Hentries. injection Hentries as <-.
  pose proof (Hall (IRec Scenario.metAlice) "2026-W04" (list_elem_of_here _ _) Hweek) as Hin.
  apply list_elem_of_fmap in Hin as (r & Hid & Hr).
  exists weeks, r. cbn [fst]. split; [reflexivity|]. split; [exact Hr|].
  split; [symmetry; exact Hid|].
  rewrite Forall_forall in Hrows. destruct (Hrows r Hr) as (_ & Hc & _).
  rewrite Hc, <- Hid. exact Hcount.
Defined.

(** Three configured stages, of which [Closed] has no opportunity. *)
Lemma stage_groups_of_plain_keys_witness :
  exists result g,
    fst (OpportunityService.getOpportunitiesByStage Fixture.crm) = Returned result /\
    OpportunityService.own result !! "Closed" = Some g /\
    OpportunityService.opportunities g = [] /\ OpportunityService.count g = 0.
Proof.
  assert (Hread : fst (Reader.getOpportunities Fixture.crm) = Returned [Fixture.deal])
    by by_computing.
  assert (Hstages : default [] (Fixture.stagesConfig !! "機會階段") =
                    [ Fixture.row [("value", SStr "S1"); ("note", SStr "Lead")];
                      Fixture.row [("value", SStr "S2"); ("note", SStr "Proposal")];
                      Fixture.row [("value", SStr "Closed")] ]) by by_computing.
  assert (Hkey : stageKey (Fixture.row [("value", SStr "Closed")]) = "Closed") by by_computing.
  assert (Hout : inStage "Closed" Fixture.deal = false) by by_computing.
  assert (Hproto : configuredKey (default [] (Fixture.stagesConfig !! "機會階段")) "__proto__"
                   = false) by by_computing.
  assert (Hplain : strayStage (default [] (Fixture.stagesConfig !! "機會階段")) Fixture.deal
                   = false) by by_computing.
  destruct (Reader.getOpportunities Fixture.crm) as [[opps|e] w1] eqn:H;
    [|discriminate Hread].
  cbn [fst] in Hread. injection Hread as ->.
  destruct (stage_groups_cover_the_stages_of_plain_keys Fixture.crm _ w1 Fixture.stagesConfig
              H eq_refl Hproto (Forall_cons_2 _ _ _ Hplain (Forall_nil_2 _)))
    as (result & Hg & _ & _ & _ & Hzero).
  destruct (Hzero (Fixture.row [("value", SStr "Closed")])) as (g & Hk & Ho & Hc).
  - rewrite Hstages. do 2 apply list_elem_of_further. apply list_elem_of_here.
  - rewrite Hkey. constructor; [exact Hout|constructor].
  - rewrite Hkey in Hk. exists result, g. rewrite Hg. cbn [fst]. auto.
Defined.
